(** * SUSHI: symbol resolver and structure-definition exporter

    A shallow embedding of [src/import/FSHTank.ts] and
    [src/export/StructureDefinitionExporter.ts].

    - JavaScript strings are [string]; arrays are [list]; [undefined] is
      [None]; a [Map] is an association list kept in insertion order.
    - Objects that the exporter shares and mutates (the package and the
      structure definitions pushed into it) live in an explicit store;
      a reference is an index into the store's heap.
    - Exceptions, logging and the re-entrant calls between the fisher and
      the exporter are threaded through a small state-and-error monad.  The
      exporter's recursion is bounded by the room on the call stack: the
      call that exceeds it throws, as it does in the engine. *)

From Stdlib Require Import String Ascii List Bool Arith NArith Lia DecimalString.
Import ListNotations.
Local Open Scope string_scope.
Local Open Scope list_scope.

Infix "+++" := String.append (right associativity, at level 60).

(** ** JavaScript string and array helpers *)

(** [s.startsWith(p)] *)
Definition startsWith (s p : string) : bool := String.prefix p s.

(** [s.split(sep)] for a one-character separator: never empty. *)
Fixpoint split (sep : ascii) (s : string) : list string :=
  match s with
  | EmptyString => [EmptyString]
  | String c rest =>
      if Ascii.eqb c sep then EmptyString :: split sep rest
      else match split sep rest with
           | [] => [String c EmptyString]
           | h :: t => String c h :: t
           end
  end.

(** [parts.join(sep)] *)
Definition join (sep : string) (parts : list string) : string :=
  String.concat sep parts.

(** [xs.includes(x)] on strings *)
Definition includes (xs : list string) (x : string) : bool :=
  existsb (String.eqb x) xs.

(** [xs.some(p)] *)
Definition some {A} (p : A -> bool) (xs : list A) : bool := existsb p xs.

(** [isEmpty] of lodash on an optional string. *)
Definition isEmpty (s : option string) : bool :=
  match s with
  | None => true
  | Some v => v =? ""
  end.

(** Strict equality of a string with a possibly undefined string. *)
Definition eqOpt (s : string) (o : option string) : bool :=
  match o with
  | None => false
  | Some v => s =? v
  end.

(** The last element of an array, [xs.pop()] on a fresh copy. *)
Definition pop {A} (xs : list A) : option A :=
  match rev xs with
  | [] => None
  | x :: _ => Some x
  end.

(** If [s] begins with [p], what follows it. *)
Fixpoint stripPrefix (p s : string) : option string :=
  match p, s with
  | EmptyString, _ => Some s
  | String a p', String b s' => if Ascii.eqb a b then stripPrefix p' s' else None
  | String _ _, EmptyString => None
  end.

Definition isDigit (c : ascii) : bool :=
  let n := nat_of_ascii c in ((48 <=? n)%nat && (n <=? 57)%nat)%bool.

(** The longest prefix of decimal digits, and the rest. *)
Fixpoint spanDigits (s : string) : string * string :=
  match s with
  | EmptyString => (EmptyString, EmptyString)
  | String c rest =>
      if isDigit c then
        let (ds, tl) := spanDigits rest in (String c ds, tl)
      else (EmptyString, s)
  end.

(** Template interpolation of an array length or a small count. *)
Definition showNat (n : nat) : string := NilEmpty.string_of_uint (Nat.to_uint n).

(** ** JavaScript numbers, as far as [parseInt] of decimal digits gives them *)

(** A natural number that a double holds exactly, or Infinity. *)
Inductive Number :=
| Finite (n : N)
| Infinity.

(** [a === b], which is also the equality of [Map] keys, on these. *)
Definition Number_eqb (a b : Number) : bool :=
  match a, b with
  | Finite x, Finite y => N.eqb x y
  | Infinity, Infinity => true
  | _, _ => false
  end.

(** The double nearest to the natural number [n]: [n] itself while it has
    at most 53 bits, otherwise [n] rounded to 53 significant bits, a tie
    going to the even significand, and Infinity past the largest double. *)
Definition nearestDouble (n : N) : Number :=
  let bits := N.size n in
  if (bits <=? 53)%N then Finite n
  else
    let drop := (bits - 53)%N in
    let significand := N.shiftr n drop in
    let rest := (n - N.shiftl significand drop)%N in
    let half := N.shiftl 1 (drop - 1) in
    let up := (half <? rest)%N || ((rest =? half)%N && N.odd significand) in
    let rounded := N.shiftl (if up then significand + 1 else significand)%N drop in
    if (N.size rounded <=? 1024)%N then Finite rounded else Infinity.

(** [parseInt] on a non-empty string of decimal digits: the double nearest
    to the integer that the digits write, every digit counting. *)
Definition parseInt (ds : string) : Number :=
  match NilEmpty.uint_of_string ds with
  | Some u => nearestDouble (N.of_uint u)
  | None => Finite 0
  end.

Definition showN (n : N) : string := NilEmpty.string_of_uint (N.to_uint n).

(** Does the integer [c] read back as the double [n]? *)
Definition readsBackAs (n c : N) : bool := Number_eqb (nearestDouble c) (Finite n).

(** The shortest decimal numeral that reads back as the double [n]: the
    significant digits [s] and the number [m] of zeros after them, [m] the
    largest, starting the search at [m], for which a multiple of [10^m]
    reads back as [n]; of two such multiples the one nearer to [n]. *)
Fixpoint shortest (n : N) (m : nat) : N * nat :=
  let p := (10 ^ N.of_nat m)%N in
  let lo := (n / p)%N in
  let hi := (lo + 1)%N in
  let okLo := (0 <? lo)%N && readsBackAs n (lo * p) in
  let okHi := readsBackAs n (hi * p) in
  let found :=
    if okLo && okHi then
      match ((n - lo * p) ?= (hi * p - n))%N with
      | Lt => Some lo
      | Gt => Some hi
      | Eq => Some (if N.even lo then lo else hi)
      end
    else if okLo then Some lo
    else if okHi then Some hi
    else None in
  match found, m with
  | Some s, _ => (s, m)
  | None, S m' => shortest n m'
  | None, 0 => (n, 0)
  end.

Fixpoint zeros (m : nat) : string :=
  match m with
  | 0 => ""
  | S m' => "0" +++ zeros m'
  end.

(** Template interpolation of a number, [Number.prototype.toString]: the
    digits of the shortest numeral that reads back as the number, written
    out in full up to 21 digits and with an exponent beyond. *)
Definition Number_toString (x : Number) : string :=
  match x with
  | Infinity => "Infinity"
  | Finite 0 => "0"
  | Finite n =>
      let (s, m) := shortest n (String.length (showN n)) in
      let digits := showN s in
      let e := (String.length digits + m)%nat in
      if (e <=? 21)%nat then digits +++ zeros m
      else
        match digits with
        | String d rest =>
            String d (if rest =? "" then "" else "." +++ rest)
            +++ "e+" +++ showNat (e - 1)
        | EmptyString => ""
        end
  end.

(** ** Insertion-ordered maps ([Map] of JavaScript) *)

Section InsertionOrderedMap.
Context {K V : Type} (eqb : K -> K -> bool).

Fixpoint Map_get (m : list (K * V)) (k : K) : option V :=
  match m with
  | [] => None
  | (k', v) :: rest => if eqb k k' then Some v else Map_get rest k
  end.

(** [m.set(k, v)]: an existing key keeps its position. *)
Fixpoint Map_set (m : list (K * V)) (k : K) (v : V) : list (K * V) :=
  match m with
  | [] => [(k, v)]
  | (k', v') :: rest =>
      if eqb k k' then (k', v) :: rest else (k', v') :: Map_set rest k v
  end.
End InsertionOrderedMap.

(** ** FSH types ([src/fshtypes]) *)

(** The values an assignment or caret rule can carry, as far as the code
    under study tells them apart. *)
Inductive FshValue :=
| VString (s : string)
| VCode (code : string)          (* an FshCode *)
| VBoolean (b : bool)
| VNumber (n : nat)
| VOther.

Record ContainsRuleItem := {
  item_name : string;
  item_type : option string
}.

Inductive Rule :=
| CardRule (path : string) (min : nat) (max : string)
| AssignmentRule (path : string) (value : FshValue) (exactly isInstance : bool)
| FlagRule (path : string) (mustSupport summary modifier trialUse normative draft : bool)
| OnlyRule (path : string) (types : list string)
| BindingRule (path : string) (valueSet strength : string)
| ContainsRule (path : string) (items : list ContainsRuleItem)
| ObeysRule (path : string) (invariant : string)
| CaretValueRule (path caretPath : string) (value : FshValue) (isInstance : bool)
| AddElementRule (path : string) (min : nat) (max : string) (types : list string).

Definition rule_path (r : Rule) : string :=
  match r with
  | CardRule p _ _ | AssignmentRule p _ _ _ | FlagRule p _ _ _ _ _ _
  | OnlyRule p _ | BindingRule p _ _ | ContainsRule p _ | ObeysRule p _
  | CaretValueRule p _ _ _ | AddElementRule p _ _ _ => p
  end.

(** Profile, Extension, Logical and Resource share their shape; which of the
    four classes an entity belongs to is carried next to it. *)
Inductive StructureKind := Profile | Extension | Logical | Resource.

Record FshStructure := {
  name : string;
  id : string;
  parent : option string;
  title : option string;
  description : option string;
  rules : list Rule;
  characteristics : list string   (* Logical only *)
}.

Record Instance := {
  inst_name : string;
  inst_id : string;
  instanceOf : string;
  usage : string;
  inst_rules : list Rule
}.

Record FshValueSet := { vs_name : string; vs_id : string; vs_rules : list Rule }.
Record FshCodeSystem := { cs_name : string; cs_id : string; cs_rules : list Rule }.

Record Invariant := {
  inv_name : string;
  inv_description : option string;
  inv_expression : option string;
  inv_xpath : option string;
  inv_severity : option string
}.

Record RuleSet := { rs_name : string; rs_rules : list Rule }.
Record Mapping := { map_name : string; map_id : string }.

(** What [fish] can return: the class of the object is its tag. *)
Inductive FshDefinition :=
| DefStructure (k : StructureKind) (s : FshStructure)
| DefValueSet (vs : FshValueSet)
| DefCodeSystem (cs : FshCodeSystem)
| DefInstance (i : Instance)
| DefInvariant (i : Invariant)
| DefRuleSet (r : RuleSet)
| DefMapping (m : Mapping).

Definition def_name (d : FshDefinition) : string :=
  match d with
  | DefStructure _ s => name s
  | DefValueSet vs => vs_name vs
  | DefCodeSystem cs => cs_name cs
  | DefInstance i => inst_name i
  | DefInvariant i => inv_name i
  | DefRuleSet r => rs_name r
  | DefMapping m => map_name m
  end.

(** [result.id]; invariants and rule sets have none that the tank reads
    (an invariant's id is its name). *)
Definition def_id (d : FshDefinition) : option string :=
  match d with
  | DefStructure _ s => Some (id s)
  | DefValueSet vs => Some (vs_id vs)
  | DefCodeSystem cs => Some (cs_id cs)
  | DefInstance i => Some (inst_id i)
  | DefInvariant i => Some (inv_name i)
  | DefRuleSet _ => None
  | DefMapping m => Some (map_id m)
  end.

Definition def_rules (d : FshDefinition) : list Rule :=
  match d with
  | DefStructure _ s => rules s
  | DefValueSet vs => vs_rules vs
  | DefCodeSystem cs => cs_rules cs
  | DefInstance i => inst_rules i
  | DefInvariant _ => []
  | DefRuleSet r => rs_rules r
  | DefMapping _ => []
  end.

Record Configuration := {
  canonical : string;
  version : option string;
  applyExtensionMetadataToRoot : option bool
}.

(** [Type] of [utils/Fishable] *)
Inductive FishableType :=
| Type_Profile | Type_Extension | Type_ValueSet | Type_CodeSystem
| Type_Instance | Type_Invariant | Type_RuleSet | Type_Mapping
| Type_Resource | Type_Type | Type_Logical.

Record Metadata := {
  meta_id : option string;
  meta_name : string;
  meta_url : option string;
  meta_parent : option string;
  meta_resourceType : option string;
  meta_sdType : option string;
  meta_canBeTarget : option bool;
  meta_canBind : option bool;
  meta_instanceUsage : option string
}.

(** ** Helpers of [fhirtypes/common] that the tank calls *)

(** [value.toString()] *)
Definition FshValue_toString (v : FshValue) : string :=
  match v with
  | VString s => s
  | VCode c => "#" +++ c
  | VBoolean true => "true"
  | VBoolean false => "false"
  | VNumber n => showNat n
  | VOther => "[object Object]"
  end.

Definition fhirTypeOf (d : FshDefinition) : string :=
  match d with
  | DefStructure _ _ => "StructureDefinition"
  | DefValueSet _ => "ValueSet"
  | DefCodeSystem _ => "CodeSystem"
  | DefInstance i => instanceOf i
  | DefInvariant _ | DefRuleSet _ | DefMapping _ => ""
  end.

(** Modelled from the spec: [getUrlFromFshDefinition] of [fhirtypes/common]
    is not part of the sources at hand.  The spec calls its result the
    canonical URL derived from the entity's own declared id and the
    compilation-wide canonical root. *)
Definition getUrlFromFshDefinition (d : FshDefinition) (canonicalRoot : string) : string :=
  canonicalRoot +++ "/" +++ fhirTypeOf d +++ "/" +++
  match def_id d with Some i => i | None => "" end.

(** Modelled from the spec: [getVersionFromFshDefinition] of
    [fhirtypes/common] is not part of the sources at hand.  The spec takes
    the version from the global configuration and lets a rule of the entity
    override it. *)
Definition getVersionFromFshDefinition (d : FshDefinition) (configVersion : option string)
  : option string :=
  let overriding (r : Rule) : option string :=
    match d, r with
    | DefInstance _, AssignmentRule "version" (VString v) _ _ => Some v
    | DefInstance _, _ => None
    | _, CaretValueRule "" "version" (VString v) _ => Some v
    | _, _ => None
    end in
  match pop (flat_map (fun r => match overriding r with Some v => [v] | None => [] end)
                      (def_rules d)) with
  | Some v => Some v
  | None => configVersion
  end.

Definition TYPE_CHARACTERISTICS_EXTENSION : string :=
  "http://hl7.org/fhir/StructureDefinition/structuredefinition-type-characteristics".

Definition LOGICAL_TARGET_EXTENSION : string :=
  "http://hl7.org/fhir/tools/StructureDefinition/logical-target".

(** ** The tank of parsed definitions ([src/import/FSHTank.ts]) *)

Module FSHDocument.
(** Each field is the value list of the document's [Map], in insertion
    order; [aliases] keeps its keys. *)
Record t := {
  profiles : list FshStructure;
  extensions : list FshStructure;
  logicals : list FshStructure;
  resources : list FshStructure;
  instances : list Instance;
  valueSets : list FshValueSet;
  codeSystems : list FshCodeSystem;
  invariants : list Invariant;
  ruleSets : list RuleSet;
  mappings : list Mapping;
  aliases : list (string * string)
}.
End FSHDocument.

Module FSHTank.

Record t := {
  docs : list FSHDocument.t;
  config : Configuration
}.

Definition getAllProfiles (tank : t) := flat_map FSHDocument.profiles (docs tank).
Definition getAllExtensions (tank : t) := flat_map FSHDocument.extensions (docs tank).
Definition getAllLogicals (tank : t) := flat_map FSHDocument.logicals (docs tank).
Definition getAllResources (tank : t) := flat_map FSHDocument.resources (docs tank).
Definition getAllInstances (tank : t) := flat_map FSHDocument.instances (docs tank).
Definition getAllValueSets (tank : t) := flat_map FSHDocument.valueSets (docs tank).
Definition getAllCodeSystems (tank : t) := flat_map FSHDocument.codeSystems (docs tank).
Definition getAllInvariants (tank : t) := flat_map FSHDocument.invariants (docs tank).
Definition getAllRuleSets (tank : t) := flat_map FSHDocument.ruleSets (docs tank).
Definition getAllMappings (tank : t) := flat_map FSHDocument.mappings (docs tank).

Definition getAllStructureDefinitions (tank : t) : list (StructureKind * FshStructure) :=
  map (pair Profile) (getAllProfiles tank)
  ++ map (pair Extension) (getAllExtensions tank)
  ++ map (pair Logical) (getAllLogicals tank)
  ++ map (pair Resource) (getAllResources tank).

(** The first document whose alias for [name] is a non-empty string. *)
Fixpoint resolveAliasIn (ds : list FSHDocument.t) (name : string) : option string :=
  match ds with
  | [] => None
  | doc :: rest =>
      match Map_get String.eqb (FSHDocument.aliases doc) name with
      | Some foundAlias =>
          if foundAlias =? "" then resolveAliasIn rest name else Some foundAlias
      | None => resolveAliasIn rest name
      end
  end.

Definition resolveAlias (tank : t) (name : string) : option string :=
  resolveAliasIn (docs tank) name.

(** [const [base, ...versionParts] = item.split('|');
     const version = versionParts.join('|') || null;] *)
Definition splitVersion (item : string) : string * option string :=
  match split "|" item with
  | [] => ("", None)
  | base :: versionParts =>
      let v := join "|" versionParts in
      (base, if v =? "" then None else Some v)
  end.

(** [x.name === base || x.id === base || getUrlFromFshDefinition(x, canonical) === base] *)
Definition matchesBase (tank : t) (base : string) (d : FshDefinition) : bool :=
  (def_name d =? base)
  || eqOpt base (def_id d)
  || (getUrlFromFshDefinition d (canonical (config tank)) =? base).

(** [version == null || version === getVersionFromFshDefinition(x, config.version)] *)
Definition matchesVersion (tank : t) (v : option string) (d : FshDefinition) : bool :=
  match v with
  | None => true
  | Some v' => eqOpt v' (getVersionFromFshDefinition d (version (config tank)))
  end.

(** [rule instanceof AssignmentRule && rule.path === path &&
     rule.value instanceof FshCode && rule.value.code === code] *)
Definition assignsCode (path code : string) (r : Rule) : bool :=
  match r with
  | AssignmentRule p (VCode c) _ _ => (p =? path) && (c =? code)
  | _ => false
  end.

(** [rule instanceof AssignmentRule && rule.path === path && rule.value === s] *)
Definition assignsString (path s : string) (r : Rule) : bool :=
  match r with
  | AssignmentRule p (VString v) _ _ => (p =? path) && (v =? s)
  | _ => false
  end.

(** The part of the instance predicates that all four structure kinds
    share: a definitional instance of StructureDefinition matching the
    query. *)
Definition definitionalInstance (tank : t) (resourceType base : string)
           (v : option string) (i : Instance) : bool :=
  (instanceOf i =? resourceType)
  && (usage i =? "Definition")
  && matchesBase tank base (DefInstance i)
  && matchesVersion tank v (DefInstance i).

Definition findStructure (tank : t) (k : StructureKind) (base : string)
           (v : option string) (all : list FshStructure) : option FshDefinition :=
  option_map (DefStructure k)
    (find (fun p => matchesBase tank base (DefStructure k p)
                    && matchesVersion tank v (DefStructure k p)) all).

Definition findInstance (tank : t) (p : Instance -> bool) : option FshDefinition :=
  option_map DefInstance (find p (getAllInstances tank)).

Definition orElse {A} (a : option A) (b : option A) : option A :=
  match a with
  | Some _ => a
  | None => b
  end.

(** One turn of the [switch] inside the loop of [fish]. *)
Definition fishType (tank : t) (base : string) (v : option string)
           (ty : FishableType) : option FshDefinition :=
  match ty with
  | Type_Profile =>
      orElse (findStructure tank Profile base v (getAllProfiles tank))
        (findInstance tank (fun i =>
           definitionalInstance tank "StructureDefinition" base v i
           && some (assignsCode "derivation" "constraint") (inst_rules i)
           && negb (some (assignsString "type" "Extension") (inst_rules i))))
  | Type_Extension =>
      orElse (findStructure tank Extension base v (getAllExtensions tank))
        (findInstance tank (fun i =>
           definitionalInstance tank "StructureDefinition" base v i
           && some (assignsCode "derivation" "constraint") (inst_rules i)
           && some (assignsString "type" "Extension") (inst_rules i)))
  | Type_Logical =>
      orElse (findStructure tank Logical base v (getAllLogicals tank))
        (findInstance tank (fun i =>
           definitionalInstance tank "StructureDefinition" base v i
           && some (assignsCode "derivation" "specialization") (inst_rules i)
           && some (assignsCode "kind" "logical") (inst_rules i)))
  | Type_Resource =>
      orElse (findStructure tank Resource base v (getAllResources tank))
        (findInstance tank (fun i =>
           definitionalInstance tank "StructureDefinition" base v i
           && some (assignsCode "derivation" "specialization") (inst_rules i)
           && some (assignsCode "kind" "resource") (inst_rules i)))
  | Type_ValueSet =>
      orElse (option_map DefValueSet
                (find (fun vs => matchesBase tank base (DefValueSet vs)
                                 && matchesVersion tank v (DefValueSet vs))
                      (getAllValueSets tank)))
        (findInstance tank (definitionalInstance tank "ValueSet" base v))
  | Type_CodeSystem =>
      orElse (option_map DefCodeSystem
                (find (fun cs => matchesBase tank base (DefCodeSystem cs)
                                 && matchesVersion tank v (DefCodeSystem cs))
                      (getAllCodeSystems tank)))
        (findInstance tank (definitionalInstance tank "CodeSystem" base v))
  | Type_Instance =>
      findInstance tank (fun i =>
        ((inst_name i =? base) || (inst_id i =? base))
        && matchesVersion tank v (DefInstance i))
  | Type_Invariant =>
      option_map DefInvariant
        (find (fun i => inv_name i =? base) (getAllInvariants tank))
  | Type_RuleSet =>
      option_map DefRuleSet
        (find (fun r => rs_name r =? base) (getAllRuleSets tank))
  | Type_Mapping =>
      option_map DefMapping
        (find (fun m => map_name m =? base) (getAllMappings tank))
  | Type_Type => None
  end.

(** [for (const t of types) { ...; if (result != null) return result; }] *)
Fixpoint fishTypes (tank : t) (base : string) (v : option string)
         (types : list FishableType) : option FshDefinition :=
  match types with
  | [] => None
  | ty :: rest =>
      match fishType tank base v ty with
      | Some result => Some result
      | None => fishTypes tank base v rest
      end
  end.

(** The kinds searched when the caller names none. *)
Definition allSupportedTypes : list FishableType :=
  [Type_Profile; Type_Extension; Type_Logical; Type_Resource; Type_ValueSet;
   Type_CodeSystem; Type_Instance; Type_Invariant; Type_RuleSet; Type_Mapping].

Definition fish (tank : t) (item : string) (types : list FishableType)
  : option FshDefinition :=
  let item := match resolveAlias tank item with Some a => a | None => item end in
  let (base, v) := splitVersion item in
  let types := match types with [] => allSupportedTypes | _ => types end in
  fishTypes tank base v types.

(** [/^extension(\[(\d+)\])?\.url$/]: [Some None] when the index is
    absent, [Some (Some digits)] when it is there. *)
Definition matchExtensionUrl (caretPath : string) : option (option string) :=
  match stripPrefix "extension" caretPath with
  | None => None
  | Some rest =>
      if rest =? ".url" then Some None
      else match stripPrefix "[" rest with
           | None => None
           | Some indexed =>
               let (ds, tl) := spanDigits indexed in
               if ds =? "" then None
               else if tl =? "].url" then Some (Some ds) else None
           end
  end.

(** The last caret rule on the definition itself whose caret path is one
    of [caretPaths]. *)
Definition lastCaretRule (rs : list Rule) (caretPaths : list string) : option Rule :=
  pop (filter (fun r => match r with
                        | CaretValueRule "" cp _ _ => includes caretPaths cp
                        | _ => false
                        end) rs).

Definition hasLogicalCharacteristic (logical : FshStructure) (code : string) : bool :=
  if includes (characteristics logical) code then true
  else
    let extensionUrls :=
      fold_left
        (fun (m : list (Number * string)) r =>
           match r with
           | CaretValueRule "" cp value _ =>
               match matchExtensionUrl cp with
               | Some (Some ds) =>
                   Map_set Number_eqb m (parseInt ds) (FshValue_toString value)
               | Some None => Map_set Number_eqb m (Finite 0) (FshValue_toString value)
               | None => m
               end
           | _ => m
           end)
        (rules logical) [] in
    existsb
      (fun '(idx, url) =>
         if url =? TYPE_CHARACTERISTICS_EXTENSION then
           let caretPaths :=
             ("extension[" +++ Number_toString idx +++ "].valueCode")
             :: (if Number_eqb idx (Finite 0) then ["extension.valueCode"] else []) in
           match lastCaretRule (rules logical) caretPaths with
           | Some (CaretValueRule _ _ (VCode c) _) => c =? code
           | _ => false
           end
         else if (url =? LOGICAL_TARGET_EXTENSION) && (code =? "can-be-target") then
           let caretPaths :=
             ("extension[" +++ Number_toString idx +++ "].valueBoolean")
             :: (if Number_eqb idx (Finite 0) then ["extension.valueBoolean"] else []) in
           match lastCaretRule (rules logical) caretPaths with
           | Some (CaretValueRule _ _ (VBoolean true) _) => true
           | _ => false
           end
         else false)
      extensionUrls.

(** The loop of [fishForMetadata] over an instance's rules: every string
    assignment to [url] overwrites [meta.url]. *)
Definition instanceUrl (rs : list Rule) : option string :=
  fold_left
    (fun (url : option string) r =>
       match r with
       | AssignmentRule path (VString v) _ _ => if path =? "url" then Some v else url
       | _ => url
       end)
    rs None.

Definition HL7_URL : string := "http://hl7.org/fhir/StructureDefinition/".

(** [applyInsertRules] is a collaborator: the definitions of the tank are
    taken with their insert rules already expanded, so it changes
    nothing here. *)
Definition fishForMetadata (tank : t) (item : string) (types : list FishableType)
  : option Metadata :=
  match fish tank item types with
  | None => None
  | Some result =>
      let meta := {| meta_id := def_id result; meta_name := def_name result;
                     meta_url := None; meta_parent := None;
                     meta_resourceType := None; meta_sdType := None;
                     meta_canBeTarget := None; meta_canBind := None;
                     meta_instanceUsage := None |} in
      Some
        match result with
        | DefStructure k s =>
            let url := getUrlFromFshDefinition result (canonical (config tank)) in
            let isLogical := match k with Logical => true | _ => false end in
            {| meta_id := meta_id meta; meta_name := meta_name meta;
               meta_url := Some url;
               meta_parent := parent s;
               meta_resourceType := Some "StructureDefinition";
               meta_sdType :=
                 if isLogical then
                   match stripPrefix HL7_URL url with
                   | Some rest => Some rest
                   | None => Some url
                   end
                 else None;
               meta_canBeTarget :=
                 if isLogical then Some (hasLogicalCharacteristic s "can-be-target")
                 else None;
               meta_canBind :=
                 if isLogical then Some (hasLogicalCharacteristic s "can-bind")
                 else None;
               meta_instanceUsage := None |}
        | DefValueSet _ =>
            {| meta_id := meta_id meta; meta_name := meta_name meta;
               meta_url := Some (getUrlFromFshDefinition result (canonical (config tank)));
               meta_parent := None; meta_resourceType := Some "ValueSet";
               meta_sdType := None; meta_canBeTarget := None; meta_canBind := None;
               meta_instanceUsage := None |}
        | DefCodeSystem _ =>
            {| meta_id := meta_id meta; meta_name := meta_name meta;
               meta_url := Some (getUrlFromFshDefinition result (canonical (config tank)));
               meta_parent := None; meta_resourceType := Some "CodeSystem";
               meta_sdType := None; meta_canBeTarget := None; meta_canBind := None;
               meta_instanceUsage := None |}
        | DefInstance i =>
            {| meta_id := meta_id meta; meta_name := meta_name meta;
               meta_url := instanceUrl (inst_rules i);
               meta_parent := None; meta_resourceType := None;
               meta_sdType := None; meta_canBeTarget := None; meta_canBind := None;
               meta_instanceUsage := Some (usage i) |}
        | DefInvariant _ | DefRuleSet _ | DefMapping _ => meta
        end
  end.

End FSHTank.

(** ** FHIR types ([src/fhirtypes]), as far as the exporter touches them *)

(** Untyped values, for the properties that the exporter only deletes or
    that a caret rule sets by key.  JavaScript's [null] is not
    represented: where the exporter reads a property, [null] and a missing
    property take the same branch. *)
#[local] Unset Elimination Schemes.
Inductive JSON :=
| JString (s : string)
| JBoolean (b : bool)
| JNumber (n : nat)
| JArray (items : list JSON)
| JObject (fields : list (string * JSON)).
#[local] Set Elimination Schemes.

Definition JSON_ofValue (v : FshValue) : JSON :=
  match v with
  | VString s => JString s
  | VCode c => JString c
  | VBoolean b => JBoolean b
  | VNumber n => JNumber n
  | VOther => JObject []
  end.

(** [delete obj.key] on a property bag *)
Definition deleteKey {V} (key : string) (bag : list (string * V)) : list (string * V) :=
  filter (fun kv => negb (fst kv =? key)) bag.

Module ElementDefinition.

Record ElementDefinitionType := {
  code : string;
  profile : option (list (option string))
}.

Record ElementDefinitionConstraint := {
  key : option string;
  severity : option string;
  human : option string;
  expression : option string;
  xpath : option string;
  source : option string
}.

(** [id] is the element's address in its tree: the root's name, then the
    dot-separated segments with their bracketed slice names, as rule paths
    write them.  [path] is the structural path, without slice names. *)
Record t := {
  id : string;
  path : string;
  min : nat;
  max : string;
  type : option (list ElementDefinitionType);
  sliceName : option string;
  slicing : option (string * string);
  constraint : list ElementDefinitionConstraint;
  binding : option (string * string);
  fixedUri : option string;
  assigned : option (FshValue * bool);
  short : option string;
  definition : option string;
  flags : list bool;
  props : list (string * JSON)
}.

Definition set_id_path (i p : string) (e : t) : t :=
  {| id := i; path := p; min := min e; max := max e; type := type e;
     sliceName := sliceName e; slicing := slicing e; constraint := constraint e;
     binding := binding e; fixedUri := fixedUri e; assigned := assigned e;
     short := short e; definition := definition e; flags := flags e;
     props := props e |}.

Definition set_cardinality (mn : nat) (mx : string) (e : t) : t :=
  {| id := id e; path := path e; min := mn; max := mx; type := type e;
     sliceName := sliceName e; slicing := slicing e; constraint := constraint e;
     binding := binding e; fixedUri := fixedUri e; assigned := assigned e;
     short := short e; definition := definition e; flags := flags e;
     props := props e |}.

Definition set_type (ty : option (list ElementDefinitionType)) (e : t) : t :=
  {| id := id e; path := path e; min := min e; max := max e; type := ty;
     sliceName := sliceName e; slicing := slicing e; constraint := constraint e;
     binding := binding e; fixedUri := fixedUri e; assigned := assigned e;
     short := short e; definition := definition e; flags := flags e;
     props := props e |}.

Definition set_slicing (s : option (string * string)) (e : t) : t :=
  {| id := id e; path := path e; min := min e; max := max e; type := type e;
     sliceName := sliceName e; slicing := s; constraint := constraint e;
     binding := binding e; fixedUri := fixedUri e; assigned := assigned e;
     short := short e; definition := definition e; flags := flags e;
     props := props e |}.

Definition set_constraint (c : list ElementDefinitionConstraint) (e : t) : t :=
  {| id := id e; path := path e; min := min e; max := max e; type := type e;
     sliceName := sliceName e; slicing := slicing e; constraint := c;
     binding := binding e; fixedUri := fixedUri e; assigned := assigned e;
     short := short e; definition := definition e; flags := flags e;
     props := props e |}.

Definition set_binding (b : option (string * string)) (e : t) : t :=
  {| id := id e; path := path e; min := min e; max := max e; type := type e;
     sliceName := sliceName e; slicing := slicing e; constraint := constraint e;
     binding := b; fixedUri := fixedUri e; assigned := assigned e;
     short := short e; definition := definition e; flags := flags e;
     props := props e |}.

Definition set_fixedUri (u : option string) (e : t) : t :=
  {| id := id e; path := path e; min := min e; max := max e; type := type e;
     sliceName := sliceName e; slicing := slicing e; constraint := constraint e;
     binding := binding e; fixedUri := u; assigned := assigned e;
     short := short e; definition := definition e; flags := flags e;
     props := props e |}.

Definition set_assigned (a : option (FshValue * bool)) (e : t) : t :=
  {| id := id e; path := path e; min := min e; max := max e; type := type e;
     sliceName := sliceName e; slicing := slicing e; constraint := constraint e;
     binding := binding e; fixedUri := fixedUri e; assigned := a;
     short := short e; definition := definition e; flags := flags e;
     props := props e |}.

Definition set_short (s : option string) (e : t) : t :=
  {| id := id e; path := path e; min := min e; max := max e; type := type e;
     sliceName := sliceName e; slicing := slicing e; constraint := constraint e;
     binding := binding e; fixedUri := fixedUri e; assigned := assigned e;
     short := s; definition := definition e; flags := flags e;
     props := props e |}.

Definition set_definition (d : option string) (e : t) : t :=
  {| id := id e; path := path e; min := min e; max := max e; type := type e;
     sliceName := sliceName e; slicing := slicing e; constraint := constraint e;
     binding := binding e; fixedUri := fixedUri e; assigned := assigned e;
     short := short e; definition := d; flags := flags e;
     props := props e |}.

Definition set_flags (f : list bool) (e : t) : t :=
  {| id := id e; path := path e; min := min e; max := max e; type := type e;
     sliceName := sliceName e; slicing := slicing e; constraint := constraint e;
     binding := binding e; fixedUri := fixedUri e; assigned := assigned e;
     short := short e; definition := definition e; flags := f;
     props := props e |}.

Definition set_props (p : list (string * JSON)) (e : t) : t :=
  {| id := id e; path := path e; min := min e; max := max e; type := type e;
     sliceName := sliceName e; slicing := slicing e; constraint := constraint e;
     binding := binding e; fixedUri := fixedUri e; assigned := assigned e;
     short := short e; definition := definition e; flags := flags e;
     props := p |}.

(** Modelled from the spec: [ElementDefinition.applyConstraint] is not part
    of the sources at hand.  The spec has it attach the invariant's
    constraint (key, human description, expression, severity) to the
    element, tagged with the given source. *)
Definition applyConstraint (invariant : Invariant) (src : option string) (e : t) : t :=
  set_constraint
    (constraint e ++
     [{| key := Some (inv_name invariant);
         severity := inv_severity invariant;
         human := inv_description invariant;
         expression := inv_expression invariant;
         xpath := inv_xpath invariant;
         source := src |}]) e.

(** Modelled from the spec: [constrainCardinality] is not part of the
    sources at hand.  The spec has the engine just apply the bound. *)
Definition constrainCardinality (mn : nat) (mx : string) (e : t) : t :=
  set_cardinality mn mx e.

(** Modelled from the spec: [assignValue], [applyFlags], [bindToVS] and
    [sliceIt] are not part of the sources at hand; each records what the
    rule carries on the element. *)
Definition assignValue (v : FshValue) (exactly : bool) (e : t) : t :=
  set_assigned (Some (v, exactly)) e.

Definition applyFlags (mustSupport summary modifier trialUse normative draft : bool)
           (e : t) : t :=
  set_flags [mustSupport; summary; modifier; trialUse; normative; draft] e.

Definition bindToVS (vsURI strength : string) (e : t) : t :=
  set_binding (Some (vsURI, strength)) e.

Definition sliceIt (discriminatorType discriminatorPath : string) (e : t) : t :=
  set_slicing (Some (discriminatorType, discriminatorPath)) e.

(** The element a new slice [sliceName] of [e] starts as: same structural
    path and types, the slice name in its address. *)
Definition newSlice (e : t) (name : string) : t :=
  {| id := id e +++ "[" +++ name +++ "]"; path := path e; min := 0; max := max e;
     type := type e; sliceName := Some name; slicing := None; constraint := [];
     binding := binding e; fixedUri := None; assigned := None;
     short := short e; definition := definition e; flags := [];
     props := [] |}.

End ElementDefinition.

Module StructureDefinition.

(** The metadata of a structure definition is a property bag, as the
    JavaScript object is; [inProgress] and the element tree are apart. *)
Record t := {
  props : list (string * JSON);
  inProgress : bool;
  elements : list ElementDefinition.t
}.

Definition get (sd : t) (key : string) : option JSON :=
  Map_get String.eqb (props sd) key.

(** A property read where the code expects a string. *)
Definition getString (sd : t) (key : string) : option string :=
  match get sd key with
  | Some (JString s) => Some s
  | _ => None
  end.

Definition id (sd : t) := getString sd "id".
Definition name (sd : t) := getString sd "name".
Definition url (sd : t) := getString sd "url".
Definition type (sd : t) := getString sd "type".
Definition kind (sd : t) := getString sd "kind".
Definition baseDefinition (sd : t) := getString sd "baseDefinition".
Definition derivation (sd : t) := getString sd "derivation".

Definition set (key : string) (v : JSON) (sd : t) : t :=
  {| props := Map_set String.eqb (props sd) key v;
     inProgress := inProgress sd; elements := elements sd |}.

(** Assigning a possibly undefined string: the property then reads back
    as undefined. *)
Definition setOpt (key : string) (v : option string) (sd : t) : t :=
  match v with
  | Some s => set key (JString s) sd
  | None => {| props := deleteKey key (props sd);
               inProgress := inProgress sd; elements := elements sd |}
  end.

Definition delete (key : string) (sd : t) : t :=
  {| props := deleteKey key (props sd);
     inProgress := inProgress sd; elements := elements sd |}.

Definition set_inProgress (b : bool) (sd : t) : t :=
  {| props := props sd; inProgress := b; elements := elements sd |}.

Definition set_elements (es : list ElementDefinition.t) (sd : t) : t :=
  {| props := props sd; inProgress := inProgress sd; elements := es |}.

(** [sd.elements.find(e => e.id === id)] *)
Definition findElement (sd : t) (elementId : string) : option ElementDefinition.t :=
  find (fun e => ElementDefinition.id e =? elementId) (elements sd).

(** The name of the tree's root, which prefixes every address. *)
Definition pathType (sd : t) : string :=
  match elements sd with
  | root :: _ => ElementDefinition.id root
  | [] => ""
  end.

(** Modelled from the spec: [findElementByPath] is not part of the sources
    at hand.  The spec's [resolveElement(tree, path)] walks the segments
    of the path and fails closed: it returns the element at that address
    or nothing, and creates no structure.  The empty path is the root. *)
Definition findElementByPath (sd : t) (p : string) : option ElementDefinition.t :=
  findElement sd (if p =? "" then pathType sd else pathType sd +++ "." +++ p).

Fixpoint updateFirst (elementId : string) (f : ElementDefinition.t -> ElementDefinition.t)
         (es : list ElementDefinition.t) : list ElementDefinition.t :=
  match es with
  | [] => []
  | e :: rest =>
      if ElementDefinition.id e =? elementId then f e :: rest
      else e :: updateFirst elementId f rest
  end.

(** Apply [f], in place, to the element that [findElement] returns for
    [elementId]. *)
Definition updateElement (elementId : string) (f : ElementDefinition.t -> ElementDefinition.t)
           (sd : t) : t :=
  set_elements (updateFirst elementId f (elements sd)) sd.

(** Modelled from the spec: [resetRootIdAndPath] is not part of the sources
    at hand.  It renames the root, so the root of every address and every
    structural path becomes the logical model's own id. *)
Definition resetRootIdAndPath (newRoot : string) (sd : t) : t :=
  let root := pathType sd in
  let rename (s : string) : string :=
    if s =? root then newRoot
    else match stripPrefix (root +++ ".") s with
         | Some rest => newRoot +++ "." +++ rest
         | None => s
         end in
  set_elements
    (map (fun e => ElementDefinition.set_id_path
                     (rename (ElementDefinition.id e))
                     (rename (ElementDefinition.path e)) e)
         (elements sd))
    sd.

(** [element.getSlices()]: the slices declared on the element at
    [elementId]. *)
Definition getSlices (sd : t) (e : ElementDefinition.t) : list ElementDefinition.t :=
  filter (fun x => match ElementDefinition.sliceName x with
                   | Some n => ElementDefinition.id x
                               =? ElementDefinition.id (ElementDefinition.newSlice e n)
                   | None => false
                   end)
         (elements sd).

(** Does [x] sit at or below the structural path [p]? *)
Definition under (p : string) (x : ElementDefinition.t) : bool :=
  (ElementDefinition.path x =? p) || startsWith (ElementDefinition.path x) (p +++ ".").

(** Insert [x] right after the last element at or below [p]. *)
Fixpoint insertAfterLast (p : string) (x : ElementDefinition.t)
         (es : list ElementDefinition.t) : list ElementDefinition.t :=
  match es with
  | [] => [x]
  | e :: rest =>
      if existsb (under p) rest then e :: insertAfterLast p x rest
      else e :: x :: rest
  end.

End StructureDefinition.

(** ** Errors, the logger and the shared store *)

(** The error classes of [src/errors] that the exporter throws or catches,
    with the arguments they are built from.  [TypeError] and [RangeError]
    are JavaScript's own: the first is raised by a property access on
    [undefined] or by a call of what is no function, the second by a call
    for which the stack has no room. *)
Inductive Exception :=
| ParentNotProvidedError (name : string)
| ParentDeclaredAsNameError (kind : StructureKind) (name : string) (url : option string)
| ParentDeclaredAsIdError (kind : StructureKind) (name id : string) (url : option string)
| ParentNotDefinedError (name : string) (parent : option string)
| InvalidProfileParentError (name parent : string)
| InvalidExtensionParentError (name parent : string)
| InvalidLogicalParentError (name parent : string)
| InvalidFHIRIdError (id : string)
| DuplicateSliceError (element sliceName : string)
| TypeNotFoundError (type : string)
| ElementAlreadyDefinedError (element : string)
| TypeError (what : string)
| RangeError (what : string).

Inductive Level := Error | Warn | Info.

(** What is logged: a text built in place, or the message of a caught
    exception ([e.message]). *)
Inductive Message :=
| Text (s : string)
| MessageOf (e : Exception).

Record LogEntry := { level : Level; message : Message }.

Module Package.
(** The partitions hold references into the store's heap. *)
Record t := {
  profiles : list nat;
  extensions : list nat;
  logicals : list nat
}.
End Package.

(** The mutable world of one run: every structure definition that was
    pushed into the package, by reference; the package; what the logger
    received, oldest first; the exporter's [deferredRules] map. *)
Record Store := {
  heap : list StructureDefinition.t;
  pkg : Package.t;
  logs : list LogEntry;
  deferredRules : list (nat * list Rule)
}.

Definition emptyStore : Store :=
  {| heap := [];
     pkg := {| Package.profiles := []; Package.extensions := []; Package.logicals := [] |};
     logs := []; deferredRules := [] |}.

(** The structure definition behind a reference. *)
Definition deref (st : Store) (l : nat) : option StructureDefinition.t :=
  nth_error (heap st) l.

Fixpoint replaceNth {A} (n : nat) (x : A) (xs : list A) : list A :=
  match xs, n with
  | [], _ => []
  | _ :: rest, 0 => x :: rest
  | y :: rest, S n' => y :: replaceNth n' x rest
  end.

Definition set_heap (h : list StructureDefinition.t) (st : Store) : Store :=
  {| heap := h; pkg := pkg st; logs := logs st; deferredRules := deferredRules st |}.

Definition set_pkg (p : Package.t) (st : Store) : Store :=
  {| heap := heap st; pkg := p; logs := logs st; deferredRules := deferredRules st |}.

Definition set_logs (ls : list LogEntry) (st : Store) : Store :=
  {| heap := heap st; pkg := pkg st; logs := ls; deferredRules := deferredRules st |}.

Definition set_deferredRules (d : list (nat * list Rule)) (st : Store) : Store :=
  {| heap := heap st; pkg := pkg st; logs := logs st; deferredRules := d |}.

(** Mutate the object behind [l] in place. *)
Definition mutate (l : nat) (f : StructureDefinition.t -> StructureDefinition.t)
           (st : Store) : Store :=
  match deref st l with
  | Some sd => set_heap (replaceNth l (f sd) (heap st)) st
  | None => st
  end.

(** ** A monad for state and exceptions *)

Inductive Outcome (A : Type) :=
| Returned (a : A) (st : Store)
| Thrown (e : Exception) (st : Store).
Arguments Returned {A} a st.
Arguments Thrown {A} e st.

Definition M (A : Type) := Store -> Outcome A.

Definition ret {A} (a : A) : M A := fun st => Returned a st.

Definition bind {A B} (m : M A) (k : A -> M B) : M B :=
  fun st =>
    match m st with
    | Returned a st' => k a st'
    | Thrown e st' => Thrown e st'
    end.

Definition throw {A} (e : Exception) : M A := fun st => Thrown e st.

(** [try { m } catch (e) { h e }] *)
Definition tryCatch {A} (m : M A) (h : Exception -> M A) : M A :=
  fun st =>
    match m st with
    | Thrown e st' => h e st'
    | o => o
    end.

Definition gets {A} (f : Store -> A) : M A := fun st => Returned (f st) st.
Definition modify (f : Store -> Store) : M unit := fun st => Returned tt (f st).

Notation "x <- m ;; k" := (bind m (fun x => k))
  (at level 61, m at next level, right associativity).
Notation "m ;; k" := (bind m (fun _ => k))
  (at level 61, right associativity).

(** [xs.forEach(f)] and [for (const x of xs) f(x)] *)
Fixpoint forEach {A} (f : A -> M unit) (xs : list A) : M unit :=
  match xs with
  | [] => ret tt
  | x :: rest => f x ;; forEach f rest
  end.

Module logger.
Definition log (lv : Level) (m : Message) : M unit :=
  modify (fun st => set_logs (logs st ++ [{| level := lv; message := m |}]) st).
Definition error (m : Message) : M unit := log Error m.
Definition warn (m : Message) : M unit := log Warn m.
Definition info (m : Message) : M unit := log Info m.
End logger.

(** Template interpolation of a possibly undefined string. *)
Definition show (o : option string) : string :=
  match o with
  | Some s => s
  | None => "undefined"
  end.

(** ** The fisher over package and external definitions *)

Module MasterFisher.

(** Does a compiled definition answer to [item] (a name, an id or a
    canonical URL, with an optional [|version])? *)
Definition answersTo (item : string) (sd : StructureDefinition.t) : bool :=
  let (base, v) := FSHTank.splitVersion item in
  (eqOpt base (StructureDefinition.name sd)
   || eqOpt base (StructureDefinition.id sd)
   || eqOpt base (StructureDefinition.url sd))
  && match v with
     | None => true
     | Some v' => eqOpt v' (StructureDefinition.getString sd "version")
     end.

(** The references of the partitions that the asked kinds name; all
    three when no kind is asked for. *)
Definition partitions (p : Package.t) (types : list FishableType) : list nat :=
  match types with
  | [] => Package.profiles p ++ Package.extensions p ++ Package.logicals p
  | _ =>
      flat_map (fun ty => match ty with
                          | Type_Profile => Package.profiles p
                          | Type_Extension => Package.extensions p
                          | Type_Logical => Package.logicals p
                          | _ => []
                          end) types
  end.

Definition published (st : Store) (types : list FishableType)
  : list StructureDefinition.t :=
  flat_map (fun l => match deref st l with Some sd => [sd] | None => [] end)
           (partitions (pkg st) types).

(** Modelled from the spec: [MasterFisher] and [Package] are not part of
    the sources at hand.  The spec has an artifact query go to the
    already-published artifact collection and to the external
    schema-definition library, whose [lookup] takes the identifier alone.
    What comes back is a copy of the definition as it is at that moment,
    its [inProgress] flag included. *)
Definition fishForFHIR (fhir : list StructureDefinition.t) (st : Store)
           (item : string) (types : list FishableType)
  : option StructureDefinition.t :=
  FSHTank.orElse (find (answersTo item) (published st types))
                 (find (answersTo item) fhir).

Definition metadataOf (sd : StructureDefinition.t) : Metadata :=
  {| meta_id := StructureDefinition.id sd;
     meta_name := show (StructureDefinition.name sd);
     meta_url := StructureDefinition.url sd;
     meta_parent := StructureDefinition.baseDefinition sd;
     meta_resourceType := Some "StructureDefinition";
     meta_sdType := StructureDefinition.type sd;
     meta_canBeTarget := None; meta_canBind := None;
     meta_instanceUsage := None |}.

(** Modelled from the spec: the metadata projection comes from the
    declared entities of the tank first (no compilation is needed for
    it), then from the published collection, then from the external
    library. *)
Definition fishForMetadata (tank : FSHTank.t) (fhir : list StructureDefinition.t)
           (st : Store) (item : string) (types : list FishableType)
  : option Metadata :=
  FSHTank.orElse (FSHTank.fishForMetadata tank item types)
    (option_map metadataOf (fishForFHIR fhir st item types)).

End MasterFisher.

(** ** Helpers of [fhirtypes] and [fhirtypes/common] used by the exporter *)

(** Modelled from the spec: [idRegex] is not part of the sources at hand.
    The spec asks for a formal-identifier syntax: here 1 to 64 characters,
    each a letter, a digit, a hyphen or a period. *)
Definition idChar (c : ascii) : bool :=
  let n := nat_of_ascii c in
  ((65 <=? n)%nat && (n <=? 90)%nat) || ((97 <=? n)%nat && (n <=? 122)%nat)
  || isDigit c || (n =? 45)%nat || (n =? 46)%nat.

Definition idRegex_test (s : string) : bool :=
  forallb idChar (list_ascii_of_string s)
  && (1 <=? String.length s)%nat && (String.length s <=? 64)%nat.

(** Does a closing bracket come before any opening one? *)
Fixpoint insideBrackets (s : string) : bool :=
  match s with
  | EmptyString => false
  | String c rest =>
      if Ascii.eqb c "]" then true
      else if Ascii.eqb c "[" then false
      else insideBrackets rest
  end.

(** Modelled from the spec: [splitOnPathPeriods] is not part of the sources
    at hand.  The spec's paths are dot-separated segments, each optionally
    annotated with a bracketed slice name or index: a period splits unless
    it stands inside brackets. *)
Fixpoint splitOnPathPeriods (p : string) : list string :=
  match p with
  | EmptyString => [EmptyString]
  | String c rest =>
      if Ascii.eqb c "." && negb (insideBrackets rest)
      then EmptyString :: splitOnPathPeriods rest
      else match splitOnPathPeriods rest with
           | [] => [String c EmptyString]
           | h :: t => String c h :: t
           end
  end.

Definition UNINHERITED_EXTENSIONS : list string :=
  ["http://hl7.org/fhir/StructureDefinition/structuredefinition-standards-status";
   "http://hl7.org/fhir/StructureDefinition/structuredefinition-normative-version";
   "http://hl7.org/fhir/StructureDefinition/structuredefinition-explicit-type-name";
   "http://hl7.org/fhir/StructureDefinition/structuredefinition-fmm";
   "http://hl7.org/fhir/StructureDefinition/structuredefinition-wg";
   "http://hl7.org/fhir/StructureDefinition/structuredefinition-summary"].

Definition set_parent (p : option string) (d : FshStructure) : FshStructure :=
  {| name := name d; id := id d; parent := p; title := title d;
     description := description d; rules := rules d;
     characteristics := characteristics d |}.

Definition set_rules (rs : list Rule) (d : FshStructure) : FshStructure :=
  {| name := name d; id := id d; parent := parent d; title := title d;
     description := description d; rules := rs;
     characteristics := characteristics d |}.

(** An instance seen through the fields that the exporter reads of a
    structure: it has a name, an id and rules, no parent, and is of none of
    the classes Profile, Extension and Logical. *)
Definition Instance_asStructure (i : Instance) : StructureKind * FshStructure :=
  (Resource,
   {| name := inst_name i; id := inst_id i; parent := None; title := None;
      description := None; rules := inst_rules i; characteristics := [] |}).

(** ** The exporter ([src/export/StructureDefinitionExporter.ts]) *)

Module StructureDefinitionExporter.

(** The exporter's read-only collaborators: the tank and the external
    definitions behind its fisher.  The package is in the store. *)
Record t := {
  tank : FSHTank.t;
  fhir : list StructureDefinition.t
}.

(** *** Preprocessing *)

(** [rule instanceof CardRule && rule.max === '0'] *)
Definition isZeroCardRule (r : Rule) : bool :=
  match r with
  | CardRule _ _ mx => mx =? "0"
  | _ => false
  end.

(** [inferredCardRulesMap] and what the logger received so far. *)
Record Inference := {
  inferredCardRulesMap : list (string * bool);
  reported : list LogEntry
}.

Definition truthy (entry : option bool) : bool :=
  match entry with
  | Some true => true
  | _ => false
  end.

Definition bothValueAndSubExtensions (defName : string) : LogEntry :=
  {| level := Error;
     message := Text ("Extension on " +++ defName
                      +++ " cannot have both a value and sub-extensions") |}.

(** The two symmetric branches of the scan: the path part exercises the
    slot [own]; [other] is its sibling. *)
Definition inferSlot (defName : string) (rule : Rule) (basePath own other : string)
           (inf : Inference) : Inference :=
  let relevantContradictoryRule := basePath +++ own in
  let relevantContradictoryRuleMapEntry :=
    Map_get String.eqb (inferredCardRulesMap inf) relevantContradictoryRule in
  if negb (isZeroCardRule rule) then
    if truthy relevantContradictoryRuleMapEntry then
      {| inferredCardRulesMap :=
           Map_set String.eqb (inferredCardRulesMap inf) relevantContradictoryRule false;
         reported := reported inf ++ [bothValueAndSubExtensions defName] |}
    else
      let relevantRule := basePath +++ other in
      {| inferredCardRulesMap :=
           Map_set String.eqb (inferredCardRulesMap inf) relevantRule true;
         reported := reported inf |}
  else
    if truthy relevantContradictoryRuleMapEntry then
      {| inferredCardRulesMap :=
           Map_set String.eqb (inferredCardRulesMap inf) relevantContradictoryRule false;
         reported := reported inf |}
    else inf.

(** The body of [rulePathParts.forEach((pathPart, i) => ...)]. *)
Definition inferFromPathPart (defName : string) (isExtension : bool) (rule : Rule)
           (rulePathParts : list string) (inf : Inference) (i : nat) : Inference :=
  match nth_error rulePathParts i with
  | None => inf
  | Some pathPart =>
      let previousPathPart :=
        match i with
        | 0 => None
        | S j => nth_error rulePathParts j
        end in
      let isOnExtension :=
        (isExtension && (length rulePathParts =? 1)%nat)
        || match previousPathPart with
           | Some prev => startsWith prev "extension"
           | None => false
           end in
      if negb isOnExtension then inf
      else
        let initialPath := join "." (firstn i rulePathParts) in
        let basePath := initialPath +++ (if initialPath =? "" then "" else ".") in
        if startsWith pathPart "extension" then
          inferSlot defName rule basePath "extension" "value[x]" inf
        else if startsWith pathPart "value" then
          inferSlot defName rule basePath "value[x]" "extension" inf
        else inf
  end.

(** The body of [fshDefinition.rules.forEach(rule => ...)]. *)
Definition inferFromRule (defName : string) (isExtension : bool)
           (inf : Inference) (rule : Rule) : Inference :=
  let rulePathParts := splitOnPathPeriods (rule_path rule) in
  fold_left (inferFromPathPart defName isExtension rule rulePathParts)
            (seq 0 (length rulePathParts)) inf.

Definition scanRules (defName : string) (isExtension : bool) (rs : list Rule)
  : Inference :=
  fold_left (inferFromRule defName isExtension) rs
            {| inferredCardRulesMap := []; reported := [] |}.

(** The rules pushed by the final loop over the map. *)
Definition inferredCardRules (m : list (string * bool)) : list Rule :=
  flat_map (fun entry : string * bool =>
              let (rule, shouldRuleBeSet) := entry in
              if shouldRuleBeSet then [CardRule rule 0 "0"] else [])
           m.

(** [preprocessStructureDefinition]: the definition with the inferred
    rules pushed onto its rules, and what was logged on the way. *)
Definition preprocessStructureDefinition (fshDefinition : FshStructure)
           (isExtension : bool) : FshStructure * list LogEntry :=
  let inf := scanRules (name fshDefinition) isExtension (rules fshDefinition) in
  (set_rules (rules fshDefinition ++ inferredCardRules (inferredCardRulesMap inf))
             fshDefinition,
   reported inf).

(** *** Fishing *)

Definition fishForMetadata (this : t) (item : string) (types : list FishableType)
  : M (option Metadata) :=
  gets (fun st => MasterFisher.fishForMetadata (tank this) (fhir this) st item types).

Definition wantsStructure (types : list FishableType) : bool :=
  match types with
  | [] => true
  | _ => some (fun ty => match ty with
                         | Type_Profile | Type_Extension | Type_Logical => true
                         | _ => false
                         end) types
  end.

Section OpenRecursion.
(** [this.exportStructDef], for the calls that re-enter it. *)
Variable reenter : StructureKind * FshStructure -> M (option nat).
Variable this : t.

Definition fishForFHIR (item : string) (types : list FishableType)
  : M (option StructureDefinition.t) :=
  result <- gets (fun st => MasterFisher.fishForFHIR (fhir this) st item types) ;;
  match result with
  | Some _ => ret result
  | None =>
      if wantsStructure types then
        (* If we find a FSH definition, then we can export and fish for it again *)
        match FSHTank.fish (tank this) item [Type_Profile; Type_Extension; Type_Logical] with
        | Some fshDefinition =>
            reenter
              match fshDefinition with
              | DefStructure k s => (k, s)
              | DefInstance i => Instance_asStructure i
              | _ => (Resource, {| name := def_name fshDefinition; id := "";
                                   parent := None; title := None; description := None;
                                   rules := []; characteristics := [] |})
              end ;;
            gets (fun st => MasterFisher.fishForFHIR (fhir this) st item types)
        | None => ret None
        end
      else ret None
  end.

(** *** Parent resolution *)

Definition getStructureDefinition (k : StructureKind) (fshDefinition : FshStructure)
  : M (StructureDefinition.t * FshStructure) :=
  fshDefinition <-
    (if isEmpty (parent fshDefinition) then
       match k with
       | Profile => throw (ParentNotProvidedError (name fshDefinition))
       | Extension => ret (set_parent (Some "Extension") fshDefinition)
       | Logical => ret (set_parent (Some "Element") fshDefinition)
       | Resource => ret fshDefinition
       end
     else ret fshDefinition) ;;
  let parentName := parent fshDefinition in
  (* a missing parent name is fished as the empty string: both split to
     an empty base without a version *)
  let parentItem := match parentName with Some p => p | None => "" end in
  let defnType :=
    match k with
    | Extension => Type_Extension
    | Logical => Type_Logical
    | _ => Type_Resource
    end in
  (if eqOpt (name fshDefinition) parentName then
     result <- fishForMetadata this parentItem [defnType] ;;
     throw (ParentDeclaredAsNameError k (name fshDefinition)
              (match result with Some m => meta_url m | None => None end))
   else ret tt) ;;
  (if eqOpt (id fshDefinition) parentName then
     result <- fishForMetadata this parentItem [defnType] ;;
     throw (ParentDeclaredAsIdError k (name fshDefinition) (id fshDefinition)
              (match result with Some m => meta_url m | None => None end))
   else ret tt) ;;
  parentJson <- fishForFHIR parentItem [] ;;
  match parentJson with
  | None => throw (ParentNotDefinedError (name fshDefinition) parentName)
  | Some parentJson =>
      let isProfile := match k with Profile => true | _ => false end in
      let isExtension := match k with Extension => true | _ => false end in
      let isLogical := match k with Logical => true | _ => false end in
      if isProfile && eqOpt "logical" (StructureDefinition.kind parentJson) then
        throw (InvalidProfileParentError (name fshDefinition) parentItem)
      else if isExtension
              && negb (eqOpt "Extension" (StructureDefinition.type parentJson)) then
        throw (InvalidExtensionParentError (name fshDefinition) parentItem)
      else if isLogical
              && negb (eqOpt "logical" (StructureDefinition.kind parentJson)
                       || eqOpt "Element" (StructureDefinition.type parentJson)) then
        throw (InvalidLogicalParentError (name fshDefinition) parentItem)
      else ret (parentJson, fshDefinition)
  end.

(** *** Metadata *)

Definition deleteAll (keys : list string) (sd : StructureDefinition.t)
  : StructureDefinition.t :=
  fold_left (fun sd key => StructureDefinition.delete key sd) keys sd.

(** [e => !UNINHERITED_EXTENSIONS.includes(e.url)] *)
Definition isInherited (e : JSON) : bool :=
  match e with
  | JObject fields =>
      match Map_get String.eqb fields "url" with
      | Some (JString u) => negb (includes UNINHERITED_EXTENSIONS u)
      | _ => true
      end
  | _ => true
  end.

(** [sd[key] = sd[key]?.filter(...); if (!sd[key]?.length) delete sd[key];]
    An absent property stays absent; a property that is there and is no
    array has no [filter] to call, which is a [TypeError]. *)
Definition filterExtensions (key : string) (sd : StructureDefinition.t)
  : M StructureDefinition.t :=
  match StructureDefinition.get sd key with
  | None => ret (StructureDefinition.delete key sd)
  | Some (JArray es) =>
      ret match filter isInherited es with
          | [] => StructureDefinition.delete key sd
          | kept => StructureDefinition.set key (JArray kept) sd
          end
  | Some _ => throw (TypeError ("structDef." +++ key +++ ".filter is not a function"))
  end.

(** [structDef.elements[0].<field> = v]: a [TypeError] on an empty tree. *)
Definition onRoot (f : ElementDefinition.t -> ElementDefinition.t)
           (sd : StructureDefinition.t) : M StructureDefinition.t :=
  match StructureDefinition.elements sd with
  | [] => throw (TypeError "structDef.elements[0] is undefined")
  | root :: rest => ret (StructureDefinition.set_elements (f root :: rest) sd)
  end.

Definition nonEmpty (o : option string) : option string :=
  match o with
  | Some s => if s =? "" then None else Some s
  | None => None
  end.

(** [setMetadata] works on the definition before it is pushed: it takes
    it and hands it back.  [setId] and [setName] store the value. *)
Definition setMetadata (k : StructureKind) (fshDefinition : FshStructure)
           (structDef : StructureDefinition.t) : M StructureDefinition.t :=
  let isExtension := match k with Extension => true | _ => false end in
  let isLogical := match k with Logical => true | _ => false end in
  let config := FSHTank.config (tank this) in
  let applyToRoot :=
    isExtension
    && negb (match applyExtensionMetadataToRoot config with
             | Some false => true
             | _ => false
             end) in
  (* First save the original URL, as that is the URL we'll want to set as the baseDefinition *)
  let baseURL := StructureDefinition.url structDef in
  let structDef := StructureDefinition.set "id" (JString (id fshDefinition)) structDef in
  let structDef :=
    deleteAll ["meta"; "implicitRules"; "language"; "text"; "contained"] structDef in
  structDef <- filterExtensions "extension" structDef ;;
  structDef <- filterExtensions "modifierExtension" structDef ;;
  let structDef :=
    StructureDefinition.set "url"
      (JString (getUrlFromFshDefinition (DefStructure k fshDefinition) (canonical config)))
      structDef in
  let structDef := StructureDefinition.delete "identifier" structDef in
  let structDef := StructureDefinition.setOpt "version" (version config) structDef in
  let structDef := StructureDefinition.set "name" (JString (name fshDefinition)) structDef in
  structDef <-
    match nonEmpty (title fshDefinition) with
    | Some t =>
        let structDef := StructureDefinition.set "title" (JString t) structDef in
        if applyToRoot then onRoot (ElementDefinition.set_short (Some t)) structDef
        else ret structDef
    | None => ret (StructureDefinition.delete "title" structDef)
    end ;;
  let structDef := StructureDefinition.set "status" (JString "active") structDef in
  let structDef := deleteAll ["experimental"; "date"; "publisher"; "contact"] structDef in
  structDef <-
    match nonEmpty (description fshDefinition) with
    | Some d =>
        let structDef := StructureDefinition.set "description" (JString d) structDef in
        if applyToRoot then onRoot (ElementDefinition.set_definition (Some d)) structDef
        else ret structDef
    | None => ret (StructureDefinition.delete "description" structDef)
    end ;;
  let structDef :=
    deleteAll ["useContext"; "jurisdiction"; "purpose"; "copyright"; "keyword"] structDef in
  let structDef :=
    if isLogical then StructureDefinition.set "kind" (JString "logical") structDef
    else structDef in
  let structDef := StructureDefinition.set "abstract" (JBoolean false) structDef in
  let structDef :=
    if negb isExtension then deleteAll ["context"; "contextInvariant"] structDef
    else structDef in
  let structDef :=
    if isLogical then StructureDefinition.set "type" (JString (id fshDefinition)) structDef
    else structDef in
  let structDef := StructureDefinition.setOpt "baseDefinition" baseURL structDef in
  let structDef :=
    StructureDefinition.set "derivation"
      (JString (if isLogical then "specialization" else "constraint")) structDef in
  if isExtension then
    (* Automatically set url.fixedUri on Extensions *)
    match StructureDefinition.findElement structDef "Extension.url" with
    | None => throw (TypeError "url is undefined")
    | Some url =>
        let structDef :=
          StructureDefinition.updateElement (ElementDefinition.id url)
            (ElementDefinition.set_fixedUri (StructureDefinition.url structDef))
            structDef in
        ret match StructureDefinition.get structDef "context" with
            | None =>
                StructureDefinition.set "context"
                  (JArray [JObject [("type", JString "element");
                                    ("expression", JString "Element")]])
                  structDef
            | Some _ => structDef
            end
    end
  else ret structDef.

(** *** Rules *)

(** The object behind the reference [l]; it is there once pushed. *)
Definition theStructDef (l : nat) : M StructureDefinition.t :=
  sd <- gets (fun st => deref st l) ;;
  match sd with
  | Some sd => ret sd
  | None => throw (TypeError "structDef is undefined")
  end.

(** The current state of the element object at address [elementId]. *)
Definition theElement (l : nat) (elementId : string) : M ElementDefinition.t :=
  sd <- theStructDef l ;;
  match StructureDefinition.findElement sd elementId with
  | Some e => ret e
  | None => throw (TypeError "element is undefined")
  end.

(** A mutation of that element object. *)
Definition onElement (l : nat) (elementId : string)
           (f : ElementDefinition.t -> ElementDefinition.t) : M unit :=
  modify (mutate l (StructureDefinition.updateElement elementId f)).

(** Modelled from the spec: [ElementDefinition.addSlice] is not part of
    the sources at hand.  The spec's [createSlice(parentElement,
    sliceName)] fails with DuplicateSliceError when a slice of that name
    already exists for that parent, and otherwise inserts the new
    element right after the last existing sibling with the same base
    path. *)
Definition addSlice (l : nat) (elementId sliceName : string) : M ElementDefinition.t :=
  e <- theElement l elementId ;;
  sd <- theStructDef l ;;
  let slice := ElementDefinition.newSlice e sliceName in
  if existsb (fun x => ElementDefinition.id x =? ElementDefinition.id slice)
             (StructureDefinition.elements sd)
  then throw (DuplicateSliceError elementId sliceName)
  else
    modify (mutate l (fun sd =>
                        StructureDefinition.set_elements
                          (StructureDefinition.insertAfterLast
                             (ElementDefinition.path e) slice
                             (StructureDefinition.elements sd))
                          sd)) ;;
    ret slice.

(** Modelled from the spec: [StructureDefinition.newElement] and
    [applyAddElementRule] are not part of the sources at hand.  An
    element addition creates a new element under the root, with the
    cardinality and types of the rule; adding an address twice fails. *)
Definition newElement (l : nat) (p : string) : M ElementDefinition.t :=
  sd <- theStructDef l ;;
  let elementId := StructureDefinition.pathType sd +++ "." +++ p in
  match StructureDefinition.findElement sd elementId with
  | Some _ => throw (ElementAlreadyDefinedError elementId)
  | None =>
      let e := {| ElementDefinition.id := elementId;
                  ElementDefinition.path := elementId;
                  ElementDefinition.min := 0; ElementDefinition.max := "*";
                  ElementDefinition.type := None;
                  ElementDefinition.sliceName := None;
                  ElementDefinition.slicing := None;
                  ElementDefinition.constraint := [];
                  ElementDefinition.binding := None;
                  ElementDefinition.fixedUri := None;
                  ElementDefinition.assigned := None;
                  ElementDefinition.short := None;
                  ElementDefinition.definition := None;
                  ElementDefinition.flags := [];
                  ElementDefinition.props := [] |} in
      modify (mutate l (fun sd =>
                          StructureDefinition.set_elements
                            (StructureDefinition.elements sd ++ [e]) sd)) ;;
      ret e
  end.

Definition applyAddElementRule (l : nat) (elementId : string) (rule : Rule) : M unit :=
  match rule with
  | AddElementRule _ mn mx tys =>
      onElement l elementId
        (fun e => ElementDefinition.set_type
                    (Some (map (fun c => {| ElementDefinition.code := c;
                                            ElementDefinition.profile := None |}) tys))
                    (ElementDefinition.set_cardinality mn mx e))
  | _ => ret tt
  end.

Fixpoint mapM {A B} (f : A -> M B) (xs : list A) : M (list B) :=
  match xs with
  | [] => ret []
  | x :: rest => y <- f x ;; ys <- mapM f rest ;; ret (y :: ys)
  end.

(** Modelled from the spec: [ElementDefinition.constrainType] is not part
    of the sources at hand.  The spec has a type constraint restrict the
    element's allowed-type list; each named type is resolved through the
    fisher it is handed, the exporter itself, whose artifact lookup
    compiles a declared entity on demand. *)
Definition constrainType (l : nat) (elementId : string) (types : list string) : M unit :=
  resolved <-
    mapM (fun ty =>
            found <- fishForFHIR ty [] ;;
            match found with
            | Some sd =>
                ret {| ElementDefinition.code := show (StructureDefinition.type sd);
                       ElementDefinition.profile := Some [StructureDefinition.url sd] |}
            | None => throw (TypeNotFoundError ty)
            end)
         types ;;
  onElement l elementId (ElementDefinition.set_type (Some resolved)).

(** Strict equality of two possibly undefined strings. *)
Definition sameOpt (a b : option string) : bool :=
  match a, b with
  | Some x, Some y => x =? y
  | None, None => true
  | _, _ => false
  end.

(** [slice.type[0].profile.push(url)], creating the list when absent. *)
Definition pushProfile (l : nat) (slice : ElementDefinition.t) (url : option string)
  : M unit :=
  match ElementDefinition.type slice with
  | Some (ty0 :: others) =>
      let profiles :=
        match ElementDefinition.profile ty0 with
        | Some ps => ps
        | None => []
        end in
      onElement l (ElementDefinition.id slice)
        (ElementDefinition.set_type
           (Some ({| ElementDefinition.code := ElementDefinition.code ty0;
                     ElementDefinition.profile := Some (profiles ++ [url]) |}
                  :: others)))
  | _ => throw (TypeError "slice.type[0] is undefined")
  end.

(** [slice?.type[0]?.profile?.some(p => p === url)], where [slice] is
    the slice of the element with the item's name. *)
Definition sliceRefersTo (l : nat) (elementId sliceName : string) (url : option string)
  : M bool :=
  e <- theElement l elementId ;;
  sd <- theStructDef l ;;
  match find (fun el => sameOpt (ElementDefinition.sliceName el) (Some sliceName))
             (StructureDefinition.getSlices sd e) with
  | None => ret false
  | Some slice =>
      match ElementDefinition.type slice with
      | None => throw (TypeError "slice.type is undefined")
      | Some [] => ret false
      | Some (ty0 :: _) =>
          match ElementDefinition.profile ty0 with
          | Some ps => ret (some (fun p => sameOpt p url) ps)
          | None => ret false
          end
      end
  end.

(** The callback of [rule.items.forEach] in [handleExtensionContainsRule]. *)
Definition containsExtensionItem (k : StructureKind) (rulePath : string) (l : nat)
           (elementId : string) (item : ContainsRuleItem) : M unit :=
  match nonEmpty (item_type item) with
  | Some itemType =>
      extension <- fishForMetadata this itemType [Type_Extension] ;;
      match extension with
      | None =>
          logger.error
            (Text ("Cannot create " +++ item_name item
                   +++ " extension; unable to locate extension definition for: "
                   +++ itemType +++ "."))
      | Some extension =>
          tryCatch
            (slice <- addSlice l elementId (item_name item) ;;
             pushProfile l slice (meta_url extension))
            (fun e =>
               (* If this is a DuplicateSliceError, and it references the same
                  extension definition, then it is most likely a harmless no-op. *)
               harmless <-
                 match e with
                 | DuplicateSliceError _ _ =>
                     sliceRefersTo l elementId (item_name item) (meta_url extension)
                 | _ => ret false
                 end ;;
               if harmless then logger.warn (MessageOf e)
               else logger.error (MessageOf e))
      end
  | None =>
      tryCatch
        (slice <- addSlice l elementId (item_name item) ;;
         sd <- theStructDef l ;;
         match StructureDefinition.findElementByPath sd
                 (rulePath +++ "[" +++ item_name item +++ "].url") with
         | None => throw (TypeError "urlElement is undefined")
         | Some urlElement =>
             onElement l (ElementDefinition.id urlElement)
               (ElementDefinition.assignValue (VString (item_name item)) true)
         end ;;
         match k with
         | Profile | Logical =>
             logger.error
               (Text "Inline extensions should only be defined in Extensions.")
         | _ => ret tt
         end)
        (fun e => logger.error (MessageOf e))
  end.

Definition handleExtensionContainsRule (k : StructureKind) (fshDefinition : FshStructure)
           (rule : Rule) (l : nat) (elementId : string) : M unit :=
  match rule with
  | ContainsRule rulePath items =>
      element <- theElement l elementId ;;
      (match ElementDefinition.slicing element with
       | None => onElement l elementId (ElementDefinition.sliceIt "value" "url")
       | Some _ => ret tt
       end) ;;
      forEach (containsExtensionItem k rulePath l elementId) items
  | _ => ret tt
  end.

Definition isAddElementRule (r : Rule) : bool :=
  match r with
  | AddElementRule _ _ _ _ => true
  | _ => false
  end.

(** [this.deferredRules.has(sd) ? ....get(sd).push(rule) : ....set(sd, [rule])] *)
Definition deferRule (l : nat) (rule : Rule) : M unit :=
  modify (fun st =>
            let d := deferredRules st in
            set_deferredRules
              (match Map_get Nat.eqb d l with
               | Some queued => Map_set Nat.eqb d l (queued ++ [rule])
               | None => Map_set Nat.eqb d l [rule]
               end) st).

(** Modelled from the spec: [setInstancePropertyByPath] is not part of
    the sources at hand.  A metadata override is an untyped key/value
    set on the artifact or on an element. *)
Definition StructureDefinition_setInstancePropertyByPath (l : nat)
           (caretPath : string) (value : FshValue) : M unit :=
  modify (mutate l (StructureDefinition.set caretPath (JSON_ofValue value))).

Definition ElementDefinition_setInstancePropertyByPath (l : nat) (elementId : string)
           (caretPath : string) (value : FshValue) : M unit :=
  onElement l elementId
    (fun e => ElementDefinition.set_props
                (Map_set String.eqb (ElementDefinition.props e) caretPath
                         (JSON_ofValue value)) e).

(** The part of the loop body of [setRules] that is guarded by
    [rule instanceof CaretValueRule]. *)
Definition applyCaretValueRule (fshDefinition : FshStructure) (l : nat)
           (element : option ElementDefinition.t) (rule : Rule) : M unit :=
  match rule with
  | CaretValueRule rulePath caretPath value isInstance =>
      tryCatch
        (if negb (rulePath =? "") then
           match element with
           | Some e =>
               ElementDefinition_setInstancePropertyByPath
                 l (ElementDefinition.id e) caretPath value
           | None =>
               logger.error
                 (Text ("No element found at path '" +++ rulePath +++ "' for '"
                        +++ name fshDefinition
                        +++ "', skipping element-based CaretValueRule"))
           end
         else if isInstance then deferRule l rule
         else StructureDefinition_setInstancePropertyByPath l caretPath value)
        (fun e => logger.error (MessageOf e))
  | _ => ret tt
  end.

(** The [try] block under [if (element)]. *)
Definition applyToElement (k : StructureKind) (fshDefinition : FshStructure) (l : nat)
           (element : ElementDefinition.t) (rule : Rule) : M unit :=
  let elementId := ElementDefinition.id element in
  match rule with
  | CardRule _ mn mx =>
      onElement l elementId (ElementDefinition.constrainCardinality mn mx)
  | AssignmentRule rulePath value exactly isInstance =>
      let instance :=
        match value with
        | VString v => FSHTank.fish (tank this) v [Type_Instance]
        | _ => None
        end in
      match isInstance, instance with
      | true, None =>
          match ElementDefinition.type element with
          | Some [ty] =>
              logger.error
                (Text ("Cannot assign Instance at path " +++ rulePath
                       +++ " to element of type " +++ ElementDefinition.code ty
                       +++ ". Definition not found for Instance: "
                       +++ FshValue_toString value +++ "."))
          | _ =>
              logger.error
                (Text ("Cannot find definition for Instance: "
                       +++ FshValue_toString value +++ ". Skipping rule."))
          end
      | true, Some _ =>
          onElement l elementId (ElementDefinition.assignValue VOther exactly)
      | false, _ =>
          onElement l elementId (ElementDefinition.assignValue value exactly)
      end
  | FlagRule _ mustSupport summary modifier trialUse normative draft =>
      onElement l elementId
        (ElementDefinition.applyFlags mustSupport summary modifier trialUse normative draft)
  | OnlyRule _ types => constrainType l elementId types
  | BindingRule _ valueSet strength =>
      found <- fishForMetadata this valueSet [Type_ValueSet] ;;
      let vsURI :=
        match found with
        | Some m => match meta_url m with Some u => u | None => valueSet end
        | None => valueSet
        end in
      onElement l elementId (ElementDefinition.bindToVS vsURI strength)
  | ContainsRule rulePath items =>
      let isExtension :=
        match ElementDefinition.type element with
        | Some [ty] =>
            (ElementDefinition.code ty =? "Extension")
            && match ElementDefinition.sliceName element with
               | Some n => n =? ""
               | None => true
               end
        | _ => false
        end in
      if isExtension then handleExtensionContainsRule k fshDefinition rule l elementId
      else
        (* Not an extension -- just add a slice for each item *)
        forEach
          (fun item =>
             (match nonEmpty (item_type item) with
              | Some _ =>
                  logger.error
                    (Text ("Cannot specify type on " +++ item_name item
                           +++ " slice since " +++ rulePath
                           +++ " is not an extension path."))
              | None => ret tt
              end) ;;
             tryCatch (addSlice l elementId (item_name item) ;; ret tt)
                      (fun e => logger.error (MessageOf e)))
          items
  | ObeysRule _ invariantName =>
      match FSHTank.fish (tank this) invariantName [Type_Invariant] with
      | Some (DefInvariant invariant) =>
          structDef <- theStructDef l ;;
          onElement l elementId
            (ElementDefinition.applyConstraint invariant (StructureDefinition.url structDef)) ;;
          if negb (idRegex_test (inv_name invariant))
          then throw (InvalidFHIRIdError (inv_name invariant))
          else ret tt
      | _ =>
          structDef <- theStructDef l ;;
          logger.error
            (Text ("Cannot apply " +++ invariantName +++ " constraint on "
                   +++ show (StructureDefinition.id structDef)
                   +++ " because it was never defined."))
      end
  | CaretValueRule _ _ _ _ | AddElementRule _ _ _ _ => ret tt
  end.

(** The body of [for (const rule of sdRules)]. *)
Definition applySdRule (k : StructureKind) (fshDefinition : FshStructure) (l : nat)
           (rule : Rule) : M unit :=
  structDef <- theStructDef l ;;
  let element := StructureDefinition.findElementByPath structDef (rule_path rule) in
  applyCaretValueRule fshDefinition l element rule ;;
  match element with
  | Some e =>
      tryCatch (applyToElement k fshDefinition l e rule)
               (fun ex => logger.error (MessageOf ex))
  | None =>
      logger.error
        (Text ("No element found at path " +++ rule_path rule +++ " for "
               +++ name fshDefinition +++ ", skipping rule"))
  end.

(** [resolveSoftIndexing] and [replaceReferences] are collaborators: rule
    paths and values are taken as already resolved. *)
Definition setRules (k : StructureKind) (fshDefinition : FshStructure) (l : nat)
  : M unit :=
  let addElementRules := filter isAddElementRule (rules fshDefinition) in
  let sdRules := filter (fun r => negb (isAddElementRule r)) (rules fshDefinition) in
  forEach
    (fun rule =>
       tryCatch
         (newElement <- newElement l (rule_path rule) ;;
          applyAddElementRule l (ElementDefinition.id newElement) rule)
         (fun e => logger.error (MessageOf e)))
    addElementRules ;;
  forEach (applySdRule k fshDefinition l) sdRules.

(** *** Export of one definition *)

Definition publishedIn (st : Store) (partition : list nat) : list StructureDefinition.t :=
  flat_map (fun l => match deref st l with Some sd => [sd] | None => [] end) partition.

(** The guard at the head of [exportStructDef]. *)
Definition alreadyExported (fshDefinition : FshStructure) (st : Store) : bool :=
  let named sd := sameOpt (StructureDefinition.name sd) (Some (name fshDefinition)) in
  some named (publishedIn st (Package.profiles (pkg st)))
  || some named (publishedIn st (Package.extensions (pkg st)))
  || some named (publishedIn st (Package.logicals (pkg st))).

Definition circularDependencyWarning (fshDefinition : FshStructure) : Message :=
  Text ("The definition of " +++ name fshDefinition
        +++ " may be incomplete because there is a circular "
        +++ "dependency with its parent " +++ show (parent fshDefinition)
        +++ " causing the parent to be used before the "
        +++ "parent has been fully processed.").

(** Allocate the object and push its reference into the partition its
    type and kind select. *)
Definition publish (structDef : StructureDefinition.t) : M nat :=
  l <- gets (fun st => length (heap st)) ;;
  modify (fun st => set_heap (heap st ++ [structDef]) st) ;;
  modify (fun st =>
            let p := pkg st in
            set_pkg
              (if sameOpt (StructureDefinition.type structDef) (Some "Extension") then
                 {| Package.profiles := Package.profiles p;
                    Package.extensions := Package.extensions p ++ [l];
                    Package.logicals := Package.logicals p |}
               else if sameOpt (StructureDefinition.kind structDef) (Some "logical") then
                 {| Package.profiles := Package.profiles p;
                    Package.extensions := Package.extensions p;
                    Package.logicals := Package.logicals p ++ [l] |}
               else
                 {| Package.profiles := Package.profiles p ++ [l];
                    Package.extensions := Package.extensions p;
                    Package.logicals := Package.logicals p |})
              st) ;;
  ret l.

(** Is there, in the partition, another object with the id of [l]? *)
Definition sharesId (st : Store) (l : nat) (partition : list nat) : bool :=
  some (fun other =>
          match deref st l, deref st other with
          | Some structDef, Some sd =>
              sameOpt (StructureDefinition.id structDef) (StructureDefinition.id sd)
              && negb (l =? other)%nat
          | _, _ => false
          end)
       partition.

Definition hasDuplicateId (st : Store) (l : nat) : bool :=
  sharesId st l (Package.profiles (pkg st))
  || sharesId st l (Package.extensions (pkg st))
  || sharesId st l (Package.logicals (pkg st)).

(** The check for another structure definition with the same id. *)
Definition checkUniqueId (l : nat) : M unit :=
  duplicate <- gets (fun st => hasDuplicateId st l) ;;
  if duplicate then
    structDef <- theStructDef l ;;
    logger.error
      (Text ("Multiple structure definitions with id "
             +++ show (StructureDefinition.id structDef)
             +++ ". Each structure definition must have a unique id."))
  else ret tt.

(** From the in-progress check to the push: warn when the definition
    derived from the parent is itself still in progress, mark the new one,
    set its metadata, and publish this skeleton. *)
Definition publishSkeleton (k : StructureKind) (fshDefinition : FshStructure)
           (structDef : StructureDefinition.t) : M nat :=
  (if StructureDefinition.inProgress structDef
   then logger.warn (circularDependencyWarning fshDefinition)
   else ret tt) ;;
  let structDef := StructureDefinition.set_inProgress true structDef in
  let structDef :=
    match k with
    | Logical => StructureDefinition.resetRootIdAndPath (id fshDefinition) structDef
    | _ => structDef
    end in
  structDef <- setMetadata k fshDefinition structDef ;;
  (* These are being pushed now in order to allow for incomplete definitions
     to be used to resolve circular reference issues. *)
  publish structDef.

(** Preprocessing and rule application on the published skeleton.
    [applyMixinRules] and [applyInsertRules] are collaborators: the rules
    come expanded. *)
Definition applyRules (k : StructureKind) (fshDefinition : FshStructure) (l : nat)
  : M unit :=
  structDef <- theStructDef l ;;
  let (fshDefinition, reported) :=
    preprocessStructureDefinition fshDefinition
      (sameOpt (StructureDefinition.type structDef) (Some "Extension")) in
  modify (fun st => set_logs (logs st ++ reported) st) ;;
  setRules k fshDefinition l.

(** The end of [exportStructDef]: the flag is cleared and the ids are
    checked.  [cleanResource] is a collaborator: no transient property is
    modelled that it would strip. *)
Definition finish (l : nat) : M unit :=
  modify (mutate l (StructureDefinition.set_inProgress false)) ;;
  checkUniqueId l.

Definition exportStructDefOnce (d : StructureKind * FshStructure) : M (option nat) :=
  let (k, fshDefinition) := d in
  exported <- gets (alreadyExported fshDefinition) ;;
  if exported then ret None
  else
    resolved <- getStructureDefinition k fshDefinition ;;
    l <- publishSkeleton k (snd resolved) (fst resolved) ;;
    applyRules k (snd resolved) l ;;
    finish l ;;
    ret (Some l).

End OpenRecursion.

(** [exportStructDef].  It calls itself, through [fishForFHIR], and the
    call stack of the engine bounds how deep: [depth] is the number of
    nested calls that the stack has room for, and the call that finds no
    room throws JavaScript's [RangeError], an exception like any other,
    which the [try] blocks around the call catch. *)
Fixpoint exportStructDef (depth : nat) (this : t) (d : StructureKind * FshStructure)
  : M (option nat) :=
  match depth with
  | 0 => throw (RangeError "Maximum call stack size exceeded")
  | S depth' => exportStructDefOnce (exportStructDef depth' this) this d
  end.

(** [export]: every definition of the tank in turn, an exception of one
    logged and the next one tried. *)
Definition export (depth : nat) (this : t) : M unit :=
  let structureDefinitions := FSHTank.getAllStructureDefinitions (tank this) in
  forEach
    (fun sd =>
       tryCatch (exportStructDef depth this sd ;; ret tt)
                (fun e => logger.error (MessageOf e)))
    structureDefinitions ;;
  match structureDefinitions with
  | [] => ret tt
  | _ =>
      logger.info
        (Text ("Converted " +++ showNat (length structureDefinitions)
               +++ " FHIR StructureDefinitions."))
  end.

End StructureDefinitionExporter.

(** * Concrete definitions for the worked scenarios *)

Module Scenario.

Definition element (address : string)
           (ty : option (list ElementDefinition.ElementDefinitionType))
  : ElementDefinition.t :=
  {| ElementDefinition.id := address; ElementDefinition.path := address;
     ElementDefinition.min := 0; ElementDefinition.max := "*";
     ElementDefinition.type := ty;
     ElementDefinition.sliceName := None; ElementDefinition.slicing := None;
     ElementDefinition.constraint := []; ElementDefinition.binding := None;
     ElementDefinition.fixedUri := None; ElementDefinition.assigned := None;
     ElementDefinition.short := None; ElementDefinition.definition := None;
     ElementDefinition.flags := []; ElementDefinition.props := [] |}.

Definition ofType (code : string) : option (list ElementDefinition.ElementDefinitionType) :=
  Some [{| ElementDefinition.code := code; ElementDefinition.profile := None |}].

(** A definition of the external library. *)
Definition external (n kind : string) (elements : list ElementDefinition.t)
  : StructureDefinition.t :=
  {| StructureDefinition.props :=
       [("id", JString n); ("name", JString n);
        ("url", JString ("http://hl7.org/fhir/StructureDefinition/" +++ n));
        ("type", JString n); ("kind", JString kind)];
     StructureDefinition.inProgress := false;
     StructureDefinition.elements := elements |}.

Definition Patient : StructureDefinition.t :=
  external "Patient" "resource"
    [element "Patient" None;
     element "Patient.name" (ofType "HumanName");
     element "Patient.gender" (ofType "code");
     element "Patient.extension" (ofType "Extension")].

Definition ExtensionDefinition : StructureDefinition.t :=
  external "Extension" "complex-type"
    [element "Extension" None;
     element "Extension.extension" (ofType "Extension");
     element "Extension.url" (ofType "uri");
     element "Extension.value[x]" (ofType "string")].

Definition config : Configuration :=
  {| canonical := "http://example.org"; version := Some "1.0.0";
     applyExtensionMetadataToRoot := None |}.

Definition emptyDocument : FSHDocument.t :=
  {| FSHDocument.profiles := []; FSHDocument.extensions := [];
     FSHDocument.logicals := []; FSHDocument.resources := [];
     FSHDocument.instances := []; FSHDocument.valueSets := [];
     FSHDocument.codeSystems := []; FSHDocument.invariants := [];
     FSHDocument.ruleSets := []; FSHDocument.mappings := [];
     FSHDocument.aliases := [] |}.

Definition structure (n i : string) (p : option string) (rs : list Rule) : FshStructure :=
  {| name := n; id := i; parent := p; title := None; description := None;
     rules := rs; characteristics := [] |}.

(** A tank of one document. *)
Definition tankOf (ps es : list FshStructure) (insts : list Instance)
           (invs : list Invariant) : FSHTank.t :=
  {| FSHTank.docs :=
       [{| FSHDocument.profiles := ps; FSHDocument.extensions := es;
           FSHDocument.logicals := []; FSHDocument.resources := [];
           FSHDocument.instances := insts; FSHDocument.valueSets := [];
           FSHDocument.codeSystems := []; FSHDocument.invariants := invs;
           FSHDocument.ruleSets := []; FSHDocument.mappings := [];
           FSHDocument.aliases := [] |}];
     FSHTank.config := config |}.

Definition exporterOf (tank : FSHTank.t) : StructureDefinitionExporter.t :=
  {| StructureDefinitionExporter.tank := tank;
     StructureDefinitionExporter.fhir := [Patient; ExtensionDefinition] |}.

(** The profile of the spec's example. *)
Definition Foo : FshStructure :=
  structure "Foo" "foo" (Some "Patient")
    [CardRule "name" 1 "1";
     BindingRule "gender" "http://example.org/fhir/ValueSet/my-gender" "required"].

(** A definitional instance that also answers to the name Foo. *)
Definition FooInstance : Instance :=
  {| inst_name := "Foo"; inst_id := "foo-instance";
     instanceOf := "StructureDefinition"; usage := "Definition";
     inst_rules :=
       [AssignmentRule "url" (VString "http://example.org/first") false false;
        AssignmentRule "derivation" (VCode "constraint") false false;
        AssignmentRule "url" (VString "http://example.org/second") false false] |}.

Definition fooTank : FSHTank.t := tankOf [Foo] [] [FooInstance] [].

(** Only the instance is declared. *)
Definition instanceTank : FSHTank.t := tankOf [] [] [FooInstance] [].

(** Two profiles that name each other as parent. *)
Definition A : FshStructure := structure "A" "a" (Some "B") [].
Definition B : FshStructure := structure "B" "b" (Some "A") [].
Definition circularTank : FSHTank.t := tankOf [A; B] [] [] [].

(** Entities that declare themselves as parent, by name and by id. *)
Definition SelfNamed : FshStructure := structure "SelfNamed" "self-named" (Some "SelfNamed") [].
Definition SelfId : FshStructure := structure "SelfId" "self-id" (Some "self-id") [].
Definition selfTank : FSHTank.t := tankOf [SelfNamed; SelfId] [] [] [].

(** A profile whose rule refers to a profile that has it as parent. *)
Definition Referring : FshStructure :=
  structure "Referring" "referring" (Some "Patient") [OnlyRule "name" ["Referred"]].
Definition Referred : FshStructure :=
  structure "Referred" "referred" (Some "Referring") [CardRule "gender" 1 "1"].
Definition referringTank : FSHTank.t := tankOf [Referring; Referred] [] [] [].

(** The store while the rules of Referring are applied: its skeleton is
    published and in progress. *)
Definition referringSkeleton : StructureDefinition.t :=
  {| StructureDefinition.props :=
       [("id", JString "referring"); ("name", JString "Referring");
        ("url", JString "http://example.org/StructureDefinition/referring");
        ("type", JString "Patient"); ("kind", JString "resource");
        ("version", JString "1.0.0"); ("status", JString "active");
        ("abstract", JBoolean false);
        ("baseDefinition", JString "http://hl7.org/fhir/StructureDefinition/Patient");
        ("derivation", JString "constraint")];
     StructureDefinition.inProgress := true;
     StructureDefinition.elements := StructureDefinition.elements Patient |}.

Definition whileReferring : Store :=
  {| heap := [referringSkeleton];
     pkg := {| Package.profiles := [0]; Package.extensions := [];
               Package.logicals := [] |};
     logs := []; deferredRules := [] |}.

(** An entity with the name of that published definition, which declares
    itself as parent. *)
Definition SelfAgain : FshStructure :=
  structure "Referring" "referring-again" (Some "Referring") [].

(** A profile and an extension with the same id. *)
Definition SameIdProfile : FshStructure :=
  structure "SameIdProfile" "same-id" (Some "Patient") [].
Definition SameIdExtension : FshStructure :=
  structure "SameIdExtension" "same-id" None [].
Definition sameIdTank : FSHTank.t := tankOf [SameIdProfile] [SameIdExtension] [] [].

(** The package once both are published: one in each partition. *)
Definition published (n i type : string) : StructureDefinition.t :=
  {| StructureDefinition.props :=
       [("id", JString i); ("name", JString n); ("type", JString type)];
     StructureDefinition.inProgress := false;
     StructureDefinition.elements := [] |}.

Definition sameIdPublished : Store :=
  {| heap := [published "SameIdProfile" "same-id" "Patient";
              published "SameIdExtension" "same-id" "Extension"];
     pkg := {| Package.profiles := [0]; Package.extensions := [1];
               Package.logicals := [] |};
     logs := []; deferredRules := [] |}.

(** Invariants with a malformed and with a well-formed name, and profiles
    that obey them. *)
Definition malformed : Invariant :=
  {| inv_name := "inv_1"; inv_description := Some "Must have a name";
     inv_expression := Some "name.exists()"; inv_xpath := None;
     inv_severity := Some "error" |}.
Definition wellFormed : Invariant :=
  {| inv_name := "inv-1"; inv_description := Some "Must have a name";
     inv_expression := Some "name.exists()"; inv_xpath := None;
     inv_severity := Some "error" |}.
Definition Obeying : FshStructure :=
  structure "Obeying" "obeying" (Some "Patient") [ObeysRule "name" "inv_1"].
Definition obeyingTank : FSHTank.t := tankOf [Obeying] [] [] [malformed; wellFormed].

(** The constraint that the malformed invariant leaves on the element. *)
Definition malformedConstraint : ElementDefinition.ElementDefinitionConstraint :=
  {| ElementDefinition.key := Some "inv_1";
     ElementDefinition.severity := Some "error";
     ElementDefinition.human := Some "Must have a name";
     ElementDefinition.expression := Some "name.exists()";
     ElementDefinition.xpath := None;
     ElementDefinition.source := Some "http://example.org/StructureDefinition/obeying" |}.

(** Two standalone extensions, and a contains rule for each on the same
    slice name. *)
Definition ExtA : FshStructure := structure "ExtA" "ext-a" None [].
Definition ExtB : FshStructure := structure "ExtB" "ext-b" None [].
Definition sliceTank : FSHTank.t := tankOf [] [ExtA; ExtB] [] [].

Definition containsFoo (extension : string) : Rule :=
  ContainsRule "extension" [{| item_name := "foo"; item_type := Some extension |}].

Definition Sliced : FshStructure :=
  structure "Sliced" "sliced" (Some "Patient")
    [containsFoo "ExtA"; containsFoo "ExtA"; containsFoo "ExtB"].
Definition slicedTank : FSHTank.t := tankOf [Sliced] [ExtA; ExtB] [] [].

(** Extensions for the cardinality inference. *)
Definition containsSub : Rule :=
  ContainsRule "extension" [{| item_name := "sub"; item_type := None |}].
Definition onlyString : Rule :=
  AssignmentRule "value[x]" (VString "a value") false false.

Definition OnlySubExtensions : FshStructure :=
  structure "OnlySubExtensions" "only-sub" None [containsSub].
Definition ValueForbidden : FshStructure :=
  structure "ValueForbidden" "value-forbidden" None
    [containsSub; CardRule "value[x]" 0 "0"].
Definition Contradictory : FshStructure :=
  structure "Contradictory" "contradictory" None [containsSub; onlyString].
Definition ContradictoryTwice : FshStructure :=
  structure "ContradictoryTwice" "contradictory-twice" None
    [containsSub; onlyString; containsSub].

(** The same rules as ValueForbidden, the other way round. *)
Definition ValueForbiddenFirst : FshStructure :=
  structure "ValueForbiddenFirst" "value-forbidden-first" None
    [CardRule "value[x]" 0 "0"; containsSub].

(** A profile whose caret rule overwrites what the metadata set. *)
Definition Overridden : FshStructure :=
  structure "Overridden" "overridden" (Some "Patient")
    [CaretValueRule "" "derivation" (VCode "specialization") false].

End Scenario.

(** * Properties of the symbol resolver *)

Section FirstMatch.
Context {A : Type}.


Variable p : A -> bool.
Variable P : A -> Prop.
Hypothesis reflects : forall x, p x = true <-> P x.


End FirstMatch.

Lemma find_extensional {A} (f g : A -> bool) (l : list A) :
  (forall a, f a = g a) -> find f l = find g l.
Proof.
  intros Hfg. induction l as [|a l IH]; simpl; [reflexivity|].
  now rewrite Hfg, IH.
Qed.

Section Resolution.
Import FSHTank.
Variable tank : FSHTank.t.

(** A definition answers a query when its name, its id or its derived
    canonical URL is the base, and its version is the asked one when one
    is asked. *)
Definition answers (base : string) (v : option string) (d : FshDefinition) : Prop :=
  (def_name d = base \/ def_id d = Some base
   \/ getUrlFromFshDefinition d (canonical (config tank)) = base)
  /\ forall v', v = Some v' ->
                getVersionFromFshDefinition d (version (config tank)) = Some v'.

Lemma eqOpt_true (s : string) (o : option string) : eqOpt s o = true <-> o = Some s.
Proof.
  destruct o as [x|]; simpl; [|split; discriminate].
  rewrite String.eqb_eq. split; [now intros ->|now intros [= ->]].
Qed.

Lemma matches_answers (base : string) (v : option string) (d : FshDefinition) :
  matchesBase tank base d && matchesVersion tank v d = true <-> answers base v d.
Proof.
  unfold matchesBase, matchesVersion, answers.
  rewrite andb_true_iff, !orb_true_iff, !String.eqb_eq, eqOpt_true.
  split; intros [Hb Hv]; (split; [tauto|]).
  - intros v' ->. now apply eqOpt_true.
  - destruct v as [v'|]; [|reflexivity]. apply eqOpt_true. now apply Hv.
Qed.

(** Some assignment rule of [rs] puts [value] at [path]. *)
Definition assigns (path : string) (value : FshValue) (rs : list Rule) : Prop :=
  exists exactly isInstance, In (AssignmentRule path value exactly isInstance) rs.

Lemma some_assignsCode (path code : string) (rs : list Rule) :
  some (assignsCode path code) rs = true <-> assigns path (VCode code) rs.
Proof.
  unfold some, assigns. rewrite existsb_exists. split.
  - intros (r & Hin & Hr). destruct r; try discriminate.
    destruct value; try discriminate. simpl in Hr.
    apply andb_true_iff in Hr as [H1 H2].
    apply String.eqb_eq in H1, H2. subst. eauto.
  - intros (ex & isI & Hin). eexists; split; [exact Hin|].
    simpl. now rewrite !String.eqb_refl.
Qed.

Lemma some_assignsString (path s : string) (rs : list Rule) :
  some (assignsString path s) rs = true <-> assigns path (VString s) rs.
Proof.
  unfold some, assigns. rewrite existsb_exists. split.
  - intros (r & Hin & Hr). destruct r; try discriminate.
    destruct value; try discriminate. simpl in Hr.
    apply andb_true_iff in Hr as [H1 H2].
    apply String.eqb_eq in H1, H2. subst. eauto.
  - intros (ex & isI & Hin). eexists; split; [exact Hin|].
    simpl. now rewrite !String.eqb_refl.
Qed.

(** What the assignment rules of a definitional instance must say for it
    to stand for a structure of kind [k]. *)
Definition declaresKind (k : StructureKind) (i : Instance) : Prop :=
  match k with
  | Profile =>
      assigns "derivation" (VCode "constraint") (inst_rules i)
      /\ ~ assigns "type" (VString "Extension") (inst_rules i)
  | Extension =>
      assigns "derivation" (VCode "constraint") (inst_rules i)
      /\ assigns "type" (VString "Extension") (inst_rules i)
  | Logical =>
      assigns "derivation" (VCode "specialization") (inst_rules i)
      /\ assigns "kind" (VCode "logical") (inst_rules i)
  | Resource =>
      assigns "derivation" (VCode "specialization") (inst_rules i)
      /\ assigns "kind" (VCode "resource") (inst_rules i)
  end.

(** A declared instance of StructureDefinition, of usage Definition, that
    answers the query and declares the kind. *)
Definition definesKind (k : StructureKind) (base : string) (v : option string)
           (i : Instance) : Prop :=
  instanceOf i = "StructureDefinition" /\ usage i = "Definition"
  /\ answers base v (DefInstance i) /\ declaresKind k i.

Definition typeOfKind (k : StructureKind) : FishableType :=
  match k with
  | Profile => Type_Profile
  | Extension => Type_Extension
  | Logical => Type_Logical
  | Resource => Type_Resource
  end.

Definition declared (k : StructureKind) : list FshStructure :=
  match k with
  | Profile => getAllProfiles tank
  | Extension => getAllExtensions tank
  | Logical => getAllLogicals tank
  | Resource => getAllResources tank
  end.

(** The instance predicate of each of the four structure cases of
    [fishType]. *)
Definition instancePredicate (k : StructureKind) (base : string) (v : option string)
           (i : Instance) : bool :=
  definitionalInstance tank "StructureDefinition" base v i
  && match k with
     | Profile =>
         some (assignsCode "derivation" "constraint") (inst_rules i)
         && negb (some (assignsString "type" "Extension") (inst_rules i))
     | Extension =>
         some (assignsCode "derivation" "constraint") (inst_rules i)
         && some (assignsString "type" "Extension") (inst_rules i)
     | Logical =>
         some (assignsCode "derivation" "specialization") (inst_rules i)
         && some (assignsCode "kind" "logical") (inst_rules i)
     | Resource =>
         some (assignsCode "derivation" "specialization") (inst_rules i)
         && some (assignsCode "kind" "resource") (inst_rules i)
     end.

Lemma instancePredicate_definesKind k base v i :
  instancePredicate k base v i = true <-> definesKind k base v i.
Proof.
  unfold instancePredicate, definitionalInstance, definesKind.
  rewrite !andb_true_iff, !String.eqb_eq.
  rewrite <- (matches_answers base v (DefInstance i)), andb_true_iff.
  destruct k; simpl;
    rewrite andb_true_iff, ?negb_true_iff, ?some_assignsCode, ?some_assignsString;
    try tauto.
  rewrite <- some_assignsString, <- not_true_iff_false. tauto.
Qed.

Lemma fishType_structure k base v :
  fishType tank base v (typeOfKind k)
  = orElse (findStructure tank k base v (declared k))
           (findInstance tank (instancePredicate k base v)).
Proof.
  destruct k; simpl; unfold findInstance, instancePredicate;
    f_equal; f_equal; apply find_extensional; intros i;
    now rewrite andb_assoc.
Qed.

Lemma fishTypes_first base v (types : list FishableType) r :
  fishTypes tank base v types = Some r <->
  exists before ty after,
    types = before ++ ty :: after
    /\ fishType tank base v ty = Some r
    /\ forall ty', In ty' before -> fishType tank base v ty' = None.
Proof.
  induction types as [|ty types IH]; simpl.
  - split; [discriminate|]. intros (before & ? & ? & H & _).
    destruct before; discriminate.
  - destruct (fishType tank base v ty) as [r'|] eqn:Hty.
    + split.
      * intros [= <-]. exists [], ty, types. repeat split; trivial. intros ? [].
      * intros (before & ty' & after & Heq & Hr & Hbefore).
        destruct before as [|b before]; simpl in Heq; injection Heq as <- Htl.
        -- congruence.
        -- rewrite (Hbefore ty) in Hty; [discriminate|now left].
    + rewrite IH. split.
      * intros (before & ty' & after & -> & Hr & Hbefore).
        exists (ty :: before), ty', after. repeat split; trivial.
        intros ? [<-|H]; auto.
      * intros (before & ty' & after & Heq & Hr & Hbefore).
        destruct before as [|b before]; simpl in Heq; injection Heq as <- Htl.
        -- congruence.
        -- subst. exists before, ty', after. repeat split; trivial.
           intros ? H. apply Hbefore. now right.
Qed.

End Resolution.

(** ** Aliases *)

Section Aliases.
Import FSHTank.

(** The document gives [name] no alias that counts: none, or an empty
    one. *)
Definition noAlias (name : string) (doc : FSHDocument.t) : Prop :=
  Map_get String.eqb (FSHDocument.aliases doc) name = None
  \/ Map_get String.eqb (FSHDocument.aliases doc) name = Some "".

Lemma resolveAliasIn_first (ds : list FSHDocument.t) (name a : string) :
  resolveAliasIn ds name = Some a <->
  exists before doc after,
    ds = before ++ doc :: after
    /\ Map_get String.eqb (FSHDocument.aliases doc) name = Some a
    /\ a <> ""
    /\ forall d, In d before -> noAlias name d.
Proof.
  induction ds as [|doc ds IH]; simpl.
  - split; [discriminate|]. intros (before & ? & ? & H & _). destruct before; discriminate.
  - destruct (Map_get String.eqb (FSHDocument.aliases doc) name) as [found|] eqn:Hdoc.
    + destruct (String.eqb_spec found "") as [->|Hfound].
      * rewrite IH. split.
        -- intros (before & doc' & after & -> & Hget & Ha & Hbefore).
           exists (doc :: before), doc', after. repeat split; trivial.
           intros d [<-|Hd]; [now right|auto].
        -- intros (before & doc' & after & Heq & Hget & Ha & Hbefore).
           destruct before as [|b before]; simpl in Heq; injection Heq as <- Heq.
           ++ congruence.
           ++ exists before, doc', after. repeat split; trivial.
              intros d Hd. apply Hbefore. now right.
      * split.
        -- intros [= <-]. exists [], doc, ds. repeat split; trivial. intros d [].
        -- intros (before & doc' & after & Heq & Hget & Ha & Hbefore).
           destruct before as [|b before]; simpl in Heq; injection Heq as <- Heq.
           ++ congruence.
           ++ destruct (Hbefore doc (or_introl eq_refl)); congruence.
    + rewrite IH. split.
      * intros (before & doc' & after & -> & Hget & Ha & Hbefore).
        exists (doc :: before), doc', after. repeat split; trivial.
        intros d [<-|Hd]; [now left|auto].
      * intros (before & doc' & after & Heq & Hget & Ha & Hbefore).
        destruct before as [|b before]; simpl in Heq; injection Heq as <- Heq.
        -- congruence.
        -- exists before, doc', after. repeat split; trivial.
           intros d Hd. apply Hbefore. now right.
Qed.

End Aliases.


Section AliasOrName.
Import FSHTank.




End AliasOrName.

(** ** The version suffix of a query *)

Section VersionSuffix.

(** No character of [s] is [c]. *)
Definition without (c : ascii) (s : string) : Prop :=
  ~ In c (list_ascii_of_string s).

Lemma split_nonempty (c : ascii) (s : string) : split c s <> [].
Proof.
  destruct s as [|a s]; simpl; [discriminate|].
  destruct (Ascii.eqb a c); [discriminate|].
  destruct (split c s); discriminate.
Qed.

Lemma concat_cons (c a : ascii) (h : string) (t : list string) :
  String.concat (String c "") (String a h :: t)
  = String a (String.concat (String c "") (h :: t)).
Proof. destruct t; reflexivity. Qed.

(** Joining what [split] gave, with the separator, gives the string back. *)
Lemma join_split (c : ascii) (s : string) :
  String.concat (String c "") (split c s) = s.
Proof.
  induction s as [|a s IH]; simpl; [reflexivity|].
  destruct (Ascii.eqb_spec a c) as [->|Hne].
  - pose proof (split_nonempty c s) as Hs.
    destruct (split c s) as [|h t]; [contradiction|].
    simpl in *. now rewrite IH.
  - destruct (split c s) as [|h t] eqn:Hsplit.
    + now destruct (split_nonempty c s).
    + rewrite concat_cons. now rewrite IH.
Qed.

Lemma split_head_without (c : ascii) (s h : string) (t : list string) :
  split c s = h :: t -> without c h.
Proof.
  revert h t. induction s as [|a s IH]; simpl; intros h t.
  - intros [= <- <-]. intros [].
  - destruct (Ascii.eqb_spec a c) as [->|Hne].
    + intros [= <- <-]. intros [].
    + destruct (split c s) as [|h' t'] eqn:Hsplit.
      * now destruct (split_nonempty c s).
      * intros [= <- <-]. intros [Heq|Hin]; [congruence|].
        now apply (IH h' t' eq_refl).
Qed.

Lemma split_without (c : ascii) (s : string) : without c s -> split c s = [s].
Proof.
  induction s as [|a s IH]; simpl; intros Hs; [reflexivity|].
  destruct (Ascii.eqb_spec a c) as [->|Hne].
  - exfalso. apply Hs. now left.
  - rewrite IH; [reflexivity|]. intros Hin. apply Hs. now right.
Qed.

Lemma split_without_then_sep (c : ascii) (s rest : string) :
  without c s -> split c (s +++ String c rest) = s :: split c rest.
Proof.
  induction s as [|a s IH]; simpl; intros Hs.
  - now rewrite Ascii.eqb_refl.
  - destruct (Ascii.eqb_spec a c) as [->|Hne].
    + exfalso. apply Hs. now left.
    + rewrite IH; [reflexivity|]. intros Hin. apply Hs. now right.
Qed.

End VersionSuffix.


Section QueryShape.

(** How a query writes its base and its version: the base holds no bar;
    a version, which is not empty, follows the first bar; a query that is
    its base, or its base and one bar, has no version. *)
Definition asksFor (asked base : string) (v : option string) : Prop :=
  without "|" base
  /\ match v with
     | Some version => version <> "" /\ asked = base +++ "|" +++ version
     | None => asked = base \/ asked = base +++ "|"
     end.


Lemma splitVersion_asksFor (asked base : string) (v : option string) :
  FSHTank.splitVersion asked = (base, v) -> asksFor asked base v.
Proof.
  unfold FSHTank.splitVersion, asksFor. intros Hsplit.
  pose proof (join_split "|" asked) as Hjoin.
  destruct (split "|" asked) as [|b versionParts] eqn:Hparts;
    [now destruct (split_nonempty "|" asked)|].
  pose proof (split_head_without _ _ _ _ Hparts) as Hbase.
  injection Hsplit as -> Hv. split; [exact Hbase|].
  unfold join in Hv.
  destruct versionParts as [|p ps].
  - simpl in Hv, Hjoin. subst v. now left.
  - change (String.concat "|" (base :: p :: ps))
      with (base +++ "|" +++ String.concat "|" (p :: ps)) in Hjoin.
    destruct (String.eqb_spec (String.concat "|" (p :: ps)) "") as [Hempty|Hversion];
      subst v.
    + right. now rewrite Hempty in Hjoin.
    + split; [exact Hversion|now symmetry].
Qed.

End QueryShape.



(** ** Metadata of a declared instance *)

(** A string assignment to [url]. *)
Definition assignsUrl (r : Rule) : Prop :=
  exists v exactly isInstance, r = AssignmentRule "url" (VString v) exactly isInstance.

Lemma instanceUrl_skip (rs : list Rule) (url : option string) :
  (forall r, In r rs -> ~ assignsUrl r) ->
  fold_left (fun (url : option string) r =>
               match r with
               | AssignmentRule path (VString v) _ _ =>
                   if path =? "url" then Some v else url
               | _ => url
               end) rs url = url.
Proof.
  revert url. induction rs as [|r rs IH]; intros url Hno; simpl; [reflexivity|].
  rewrite IH by (intros r' Hr'; apply Hno; now right).
  assert (Hr : ~ assignsUrl r) by (apply Hno; now left).
  destruct r; try reflexivity.
  destruct value; try reflexivity.
  destruct (String.eqb_spec path "url") as [->|Hne]; [|reflexivity].
  exfalso. apply Hr. unfold assignsUrl. eauto.
Qed.

Lemma instanceUrl_last (before after : list Rule) (v : string) (exactly isInstance : bool) :
  (forall r, In r after -> ~ assignsUrl r) ->
  FSHTank.instanceUrl (before ++ AssignmentRule "url" (VString v) exactly isInstance :: after)
  = Some v.
Proof.
  intros Hno. unfold FSHTank.instanceUrl. rewrite fold_left_app. simpl.
  now apply instanceUrl_skip.
Qed.

(** C10.  When the query resolves to a declared instance, the metadata
    carries the instance's usage, and its url is the value of the last
    string assignment to [url] among the instance's rules (none if there is
    no such rule).  Nothing is kept between queries: the projection is a
    function of the tank as it is when asked, so a later re-assignment of
    [url] shows in the next query. *)
Theorem fishForMetadata_instance (tank : FSHTank.t) (item : string)
        (types : list FishableType) (i : Instance) :
  FSHTank.fish tank item types = Some (DefInstance i) ->
  exists m,
    FSHTank.fishForMetadata tank item types = Some m
    /\ meta_instanceUsage m = Some (usage i)
    /\ (forall before v exactly isInstance after,
           inst_rules i
           = before ++ AssignmentRule "url" (VString v) exactly isInstance :: after ->
           (forall r, In r after -> ~ assignsUrl r) ->
           meta_url m = Some v)
    /\ ((forall r, In r (inst_rules i) -> ~ assignsUrl r) -> meta_url m = None)
    /\ (forall tank' i' v' exactly isInstance,
           FSHTank.fish tank' item types = Some (DefInstance i') ->
           inst_rules i'
           = inst_rules i ++ [AssignmentRule "url" (VString v') exactly isInstance] ->
           option_map meta_url (FSHTank.fishForMetadata tank' item types)
           = Some (Some v')).
Proof.
  intros Hfish. unfold FSHTank.fishForMetadata. rewrite Hfish.
  eexists. split; [reflexivity|]. simpl. repeat split.
  - intros before v ex isI after -> Hno. now apply instanceUrl_last.
  - intros Hno. unfold FSHTank.instanceUrl. now apply instanceUrl_skip.
  - intros tank' i' v' ex isI Hfish' Hrules. rewrite Hfish'. simpl.
    rewrite Hrules. f_equal. apply instanceUrl_last. intros r [].
Qed.

Lemma fishForMetadata_instance_witness :
  exists m,
    FSHTank.fishForMetadata Scenario.instanceTank "Foo" [] = Some m
    /\ meta_instanceUsage m = Some "Definition"
    /\ meta_url m = Some "http://example.org/second".
Proof.
  destruct (fishForMetadata_instance Scenario.instanceTank "Foo" [] Scenario.FooInstance
              eq_refl) as (m & Hm & Husage & Hlast & _).
  exists m. repeat split; trivial.
  apply (Hlast [AssignmentRule "url" (VString "http://example.org/first") false false;
                AssignmentRule "derivation" (VCode "constraint") false false]
               "http://example.org/second" false false []); [reflexivity|].
  intros r [].
Defined.

(** * Reasoning about the exporter's monad *)

Lemma bind_Returned {A B} (m : M A) (k : A -> M B) (st st' : Store) (b : B) :
  bind m k st = Returned b st' ->
  exists a st1, m st = Returned a st1 /\ k a st1 = Returned b st'.
Proof.
  unfold bind. destruct (m st) as [a st1|]; try discriminate. eauto.
Qed.

Lemma bind_of_Returned {A B} (m : M A) (k : A -> M B) (st st1 : Store) (a : A) :
  m st = Returned a st1 -> bind m k st = k a st1.
Proof. unfold bind. now intros ->. Qed.

Lemma bind_of_Thrown {A B} (m : M A) (k : A -> M B) (st st1 : Store) (e : Exception) :
  m st = Thrown e st1 -> bind m k st = Thrown e st1.
Proof. unfold bind. now intros ->. Qed.

Lemma bind_Thrown {A B} (m : M A) (k : A -> M B) (st st' : Store) (e : Exception) :
  bind m k st = Thrown e st' ->
  m st = Thrown e st'
  \/ exists a st1, m st = Returned a st1 /\ k a st1 = Thrown e st'.
Proof.
  unfold bind. destruct (m st) as [a st1|e1 st1]; [eauto|].
  intros [= <- <-]. now left.
Qed.

Lemma bind_assoc {A B C} (m : M A) (k1 : A -> M B) (k2 : B -> M C) (st : Store) :
  bind (bind m k1) k2 st = bind m (fun a => bind (k1 a) k2) st.
Proof. unfold bind. now destruct (m st). Qed.

(** * Properties of property bags *)

Lemma Map_get_set (m : list (string * JSON)) (k k' : string) (v : JSON) :
  Map_get String.eqb (Map_set String.eqb m k v) k'
  = if k' =? k then Some v else Map_get String.eqb m k'.
Proof.
  induction m as [|[k0 v0] m IH]; simpl.
  - reflexivity.
  - destruct (String.eqb_spec k k0) as [->|Hk]; simpl.
    + destruct (String.eqb_spec k' k0); reflexivity.
    + destruct (String.eqb_spec k' k0) as [->|Hk'].
      * destruct (String.eqb_spec k0 k); [congruence|reflexivity].
      * exact IH.
Qed.

Lemma Map_get_deleteKey (m : list (string * JSON)) (k k' : string) :
  Map_get String.eqb (deleteKey k m) k'
  = if k' =? k then None else Map_get String.eqb m k'.
Proof.
  induction m as [|[k0 v0] m IH]; simpl.
  - now destruct (k' =? k).
  - destruct (String.eqb_spec k0 k) as [->|Hk]; simpl.
    + rewrite IH. destruct (String.eqb_spec k' k); reflexivity.
    + destruct (String.eqb_spec k' k0) as [->|Hk'].
      * destruct (String.eqb_spec k0 k); [congruence|reflexivity].
      * exact IH.
Qed.

Lemma getString_set (sd : StructureDefinition.t) (k k' : string) (v : JSON) :
  StructureDefinition.getString (StructureDefinition.set k v sd) k'
  = if k' =? k then match v with JString s => Some s | _ => None end
    else StructureDefinition.getString sd k'.
Proof.
  unfold StructureDefinition.getString, StructureDefinition.get, StructureDefinition.set.
  simpl. rewrite Map_get_set. now destruct (k' =? k).
Qed.

Lemma getString_delete (sd : StructureDefinition.t) (k k' : string) :
  StructureDefinition.getString (StructureDefinition.delete k sd) k'
  = if k' =? k then None else StructureDefinition.getString sd k'.
Proof.
  unfold StructureDefinition.getString, StructureDefinition.get, StructureDefinition.delete.
  simpl. rewrite Map_get_deleteKey. now destruct (k' =? k).
Qed.

Lemma getString_setOpt (sd : StructureDefinition.t) (k k' : string) (v : option string) :
  StructureDefinition.getString (StructureDefinition.setOpt k v sd) k'
  = if k' =? k then v else StructureDefinition.getString sd k'.
Proof.
  destruct v as [s|]; simpl.
  - apply getString_set.
  - apply (getString_delete sd k k').
Qed.

Lemma getString_set_elements (sd : StructureDefinition.t) es (k : string) :
  StructureDefinition.getString (StructureDefinition.set_elements es sd) k
  = StructureDefinition.getString sd k.
Proof. reflexivity. Qed.

Lemma getString_set_inProgress (sd : StructureDefinition.t) b (k : string) :
  StructureDefinition.getString (StructureDefinition.set_inProgress b sd) k
  = StructureDefinition.getString sd k.
Proof. reflexivity. Qed.

Lemma getString_deleteAll (keys : list string) (sd : StructureDefinition.t) (k : string) :
  StructureDefinition.getString (StructureDefinitionExporter.deleteAll keys sd) k
  = if includes keys k then None else StructureDefinition.getString sd k.
Proof.
  unfold StructureDefinitionExporter.deleteAll, includes.
  revert sd. induction keys as [|key keys IH]; intros sd; simpl; [reflexivity|].
  rewrite IH, getString_delete.
  destruct (k =? key); simpl; [|reflexivity].
  now destruct (existsb (String.eqb k) keys).
Qed.

(** Reading any property after a write. *)

Lemma get_set (sd : StructureDefinition.t) (k k' : string) (v : JSON) :
  StructureDefinition.get (StructureDefinition.set k v sd) k'
  = if k' =? k then Some v else StructureDefinition.get sd k'.
Proof. apply Map_get_set. Qed.

Lemma get_delete (sd : StructureDefinition.t) (k k' : string) :
  StructureDefinition.get (StructureDefinition.delete k sd) k'
  = if k' =? k then None else StructureDefinition.get sd k'.
Proof. apply Map_get_deleteKey. Qed.

Lemma get_setOpt (sd : StructureDefinition.t) (k k' : string) (v : option string) :
  StructureDefinition.get (StructureDefinition.setOpt k v sd) k'
  = if k' =? k then option_map JString v else StructureDefinition.get sd k'.
Proof. destruct v; [apply get_set|apply get_delete]. Qed.

Lemma get_deleteAll (keys : list string) (sd : StructureDefinition.t) (k : string) :
  StructureDefinition.get (StructureDefinitionExporter.deleteAll keys sd) k
  = if includes keys k then None else StructureDefinition.get sd k.
Proof.
  unfold StructureDefinitionExporter.deleteAll, includes. revert sd.
  induction keys as [|key keys IH]; intros sd; simpl; [reflexivity|].
  rewrite IH, get_delete. destruct (k =? key); simpl; [|reflexivity].
  now destruct (existsb (String.eqb k) keys).
Qed.

(** What [filterExtensions] returns, when it returns. *)
Definition filtered (key : string) (sd : StructureDefinition.t) : StructureDefinition.t :=
  match StructureDefinition.get sd key with
  | Some (JArray es) =>
      match filter StructureDefinitionExporter.isInherited es with
      | [] => StructureDefinition.delete key sd
      | kept => StructureDefinition.set key (JArray kept) sd
      end
  | _ => StructureDefinition.delete key sd
  end.

(** The property [key] is a list, if it is there at all. *)
Definition listOrAbsent (sd : StructureDefinition.t) (key : string) : Prop :=
  match StructureDefinition.get sd key with
  | None | Some (JArray _) => True
  | Some _ => False
  end.

Lemma filterExtensions_Returned key sd st sd' st' :
  StructureDefinitionExporter.filterExtensions key sd st = Returned sd' st' ->
  st' = st /\ sd' = filtered key sd /\ listOrAbsent sd key.
Proof.
  unfold StructureDefinitionExporter.filterExtensions, filtered, listOrAbsent.
  destruct (StructureDefinition.get sd key) as [[| | |es|]|]; try discriminate;
    intros [= <- <-]; auto.
Qed.

Lemma filterExtensions_listOrAbsent key sd st :
  listOrAbsent sd key ->
  StructureDefinitionExporter.filterExtensions key sd st = Returned (filtered key sd) st.
Proof.
  unfold StructureDefinitionExporter.filterExtensions, filtered, listOrAbsent.
  destruct (StructureDefinition.get sd key) as [[| | |es|]|]; try contradiction;
    reflexivity.
Qed.


Lemma get_filtered_other (key : string) (sd : StructureDefinition.t) (k : string) :
  (k =? key) = false ->
  StructureDefinition.get (filtered key sd) k = StructureDefinition.get sd k.
Proof.
  intros Hk. unfold filtered.
  destruct (StructureDefinition.get sd key) as [[| | |es|]|];
    try (now rewrite get_delete, Hk).
  destruct (filter StructureDefinitionExporter.isInherited es);
    [now rewrite get_delete, Hk|].
  now rewrite get_set, Hk.
Qed.

Lemma listOrAbsent_same (sd sd' : StructureDefinition.t) (key : string) :
  StructureDefinition.get sd' key = StructureDefinition.get sd key ->
  listOrAbsent sd key -> listOrAbsent sd' key.
Proof. unfold listOrAbsent. now intros ->. Qed.

Lemma getString_filtered (key : string) (sd : StructureDefinition.t) (k : string) :
  (k =? key) = false ->
  StructureDefinition.getString (filtered key sd) k = StructureDefinition.getString sd k.
Proof.
  intros Hk. unfold filtered.
  destruct (StructureDefinition.get sd key) as [[| | |es|]|];
    rewrite ?getString_delete, ?Hk; trivial.
  destruct (filter StructureDefinitionExporter.isInherited es);
    now rewrite ?getString_delete, ?getString_set, Hk.
Qed.

Lemma getString_props_eq (sd sd' : StructureDefinition.t) (k : string) :
  StructureDefinition.props sd' = StructureDefinition.props sd ->
  StructureDefinition.getString sd' k = StructureDefinition.getString sd k.
Proof.
  unfold StructureDefinition.getString, StructureDefinition.get. now intros ->.
Qed.

Lemma inProgress_setOpt (sd : StructureDefinition.t) (k : string) (v : option string) :
  StructureDefinition.inProgress (StructureDefinition.setOpt k v sd)
  = StructureDefinition.inProgress sd.
Proof. now destruct v. Qed.

Lemma inProgress_deleteAll (keys : list string) (sd : StructureDefinition.t) :
  StructureDefinition.inProgress (StructureDefinitionExporter.deleteAll keys sd)
  = StructureDefinition.inProgress sd.
Proof.
  unfold StructureDefinitionExporter.deleteAll.
  revert sd. induction keys as [|key keys IH]; intros sd; simpl; [reflexivity|].
  now rewrite IH.
Qed.

Lemma inProgress_filtered (key : string) (sd : StructureDefinition.t) :
  StructureDefinition.inProgress (filtered key sd) = StructureDefinition.inProgress sd.
Proof.
  unfold filtered.
  destruct (StructureDefinition.get sd key) as [[| | |es|]|]; trivial.
  now destruct (filter StructureDefinitionExporter.isInherited es).
Qed.

(** The reads of a property after the writes of [setMetadata]. *)
Ltac read_props :=
  repeat (rewrite ?getString_set, ?getString_setOpt, ?getString_delete,
           ?getString_deleteAll, ?getString_set_elements, ?getString_set_inProgress,
           ?inProgress_setOpt, ?inProgress_deleteAll, ?inProgress_filtered;
          rewrite ?getString_filtered by reflexivity;
          simpl).

(** * Metadata of the compiled definition *)

Section Metadata.
Import StructureDefinitionExporter.
Variable this : StructureDefinitionExporter.t.

Lemma onRoot_Returned f sd st sd' st' :
  onRoot f sd st = Returned sd' st' ->
  st' = st /\ StructureDefinition.props sd' = StructureDefinition.props sd
  /\ StructureDefinition.inProgress sd' = StructureDefinition.inProgress sd.
Proof.
  unfold onRoot. destruct (StructureDefinition.elements sd); [discriminate|].
  intros [= <- <-]. now repeat split.
Qed.

(** A step of [setMetadata] that may touch the root element: the store
    and the metadata are those of the definition it is given. *)
Lemma rootStep_Returned (applyToRoot : bool) f (sd sd' : StructureDefinition.t) st st' :
  (if applyToRoot then onRoot f sd else ret sd) st = Returned sd' st' ->
  st' = st /\ StructureDefinition.props sd' = StructureDefinition.props sd
  /\ StructureDefinition.inProgress sd' = StructureDefinition.inProgress sd.
Proof.
  destruct applyToRoot.
  - apply onRoot_Returned.
  - intros [= <- <-]. now repeat split.
Qed.

Definition derivationOf (k : StructureKind) : string :=
  match k with
  | Logical => "specialization"
  | _ => "constraint"
  end.

Lemma setMetadata_Returned k fshDefinition structDef st sd' st' :
  setMetadata this k fshDefinition structDef st = Returned sd' st' ->
  st' = st
  /\ StructureDefinition.baseDefinition sd' = StructureDefinition.url structDef
  /\ StructureDefinition.derivation sd' = Some (derivationOf k)
  /\ (k = Logical -> StructureDefinition.type sd' = Some (id fshDefinition))
  /\ StructureDefinition.name sd' = Some (name fshDefinition)
  /\ StructureDefinition.id sd' = Some (id fshDefinition)
  /\ StructureDefinition.inProgress sd' = StructureDefinition.inProgress structDef.
Proof.
  unfold setMetadata. intros H.
  apply bind_Returned in H as (sdE & stE & Hextension & H).
  apply filterExtensions_Returned in Hextension as (-> & -> & _).
  apply bind_Returned in H as (sdM & stM & Hmodifier & H).
  apply filterExtensions_Returned in Hmodifier as (-> & -> & _).
  apply bind_Returned in H as (sd1 & st1 & Htitle & H).
  apply bind_Returned in H as (sd2 & st2 & Hdescription & H).
  assert (H1 : st1 = st
               /\ StructureDefinition.name sd1 = Some (name fshDefinition)
               /\ StructureDefinition.id sd1 = Some (id fshDefinition)
               /\ StructureDefinition.inProgress sd1
                  = StructureDefinition.inProgress structDef).
  { unfold StructureDefinition.name, StructureDefinition.id.
    destruct (nonEmpty (title fshDefinition)) as [t|].
    - apply rootStep_Returned in Htitle as (-> & Hp & Hi).
      rewrite !(getString_props_eq _ _ _ Hp), Hi. read_props. tauto.
    - injection Htitle as <- <-. read_props. tauto. }
  destruct H1 as (-> & Hname1 & Hid1 & Hprog1).
  assert (H2 : st2 = st
               /\ StructureDefinition.name sd2 = Some (name fshDefinition)
               /\ StructureDefinition.id sd2 = Some (id fshDefinition)
               /\ StructureDefinition.inProgress sd2
                  = StructureDefinition.inProgress structDef).
  { unfold StructureDefinition.name, StructureDefinition.id in *.
    destruct (nonEmpty (description fshDefinition)) as [d|].
    - apply rootStep_Returned in Hdescription as (-> & Hp & Hi).
      rewrite !(getString_props_eq _ _ _ Hp), Hi. read_props. tauto.
    - injection Hdescription as <- <-. read_props. tauto. }
  destruct H2 as (-> & Hname2 & Hid2 & Hprog2).
  unfold StructureDefinition.baseDefinition, StructureDefinition.derivation,
    StructureDefinition.type, StructureDefinition.name, StructureDefinition.id in *.
  destruct k; simpl in H.
  - injection H as <- <-. read_props. repeat split; trivial. discriminate.
  - match type of H with
    | match ?found with _ => _ end _ = _ => destruct found as [url|]; [|discriminate]
    end.
    injection H as <- <-.
    match goal with
    | |- context [match ?c with Some _ => _ | None => _ end] => destruct c
    end; unfold StructureDefinition.updateElement; read_props;
      repeat split; trivial; discriminate.
  - injection H as <- <-. read_props. repeat split; trivial.
  - injection H as <- <-. read_props. repeat split; trivial. discriminate.
Qed.

(** Outside extensions [setMetadata] can fail on nothing but an
    [extension] or [modifierExtension] property that is no list. *)
Lemma setMetadata_total k fshDefinition structDef st :
  k <> Extension ->
  listOrAbsent structDef "extension" -> listOrAbsent structDef "modifierExtension" ->
  exists sd', setMetadata this k fshDefinition structDef st = Returned sd' st.
Proof.
  intros Hk Hextension Hmodifier. unfold setMetadata. cbv zeta.
  erewrite bind_of_Returned.
  2:{ apply filterExtensions_listOrAbsent.
      apply (listOrAbsent_same structDef); [|exact Hextension].
      now rewrite get_deleteAll, get_set. }
  erewrite bind_of_Returned.
  2:{ apply filterExtensions_listOrAbsent.
      apply (listOrAbsent_same structDef); [|exact Hmodifier].
      rewrite get_filtered_other by reflexivity.
      now rewrite get_deleteAll, get_set. }
  destruct k; try congruence; simpl;
    destruct (nonEmpty (title fshDefinition)), (nonEmpty (description fshDefinition));
    simpl; eexists; reflexivity.
Qed.

End Metadata.


(** * Outcomes that satisfy a specification *)

(** [sat o Q E]: a returned value and store satisfy [Q], a thrown
    exception and store satisfy [E]. *)
Definition sat {A} (o : Outcome A) (Q : A -> Store -> Prop)
           (E : Exception -> Store -> Prop) : Prop :=
  match o with
  | Returned a st => Q a st
  | Thrown e st => E e st
  end.

Lemma sat_weaken {A} (o : Outcome A) (Q Q' : A -> Store -> Prop)
      (E E' : Exception -> Store -> Prop) :
  sat o Q E ->
  (forall a st, Q a st -> Q' a st) -> (forall e st, E e st -> E' e st) ->
  sat o Q' E'.
Proof. destruct o; simpl; auto. Qed.

Lemma sat_bind {A B} (m : M A) (k : A -> M B) (st : Store)
      (Q1 : A -> Store -> Prop) (Q : B -> Store -> Prop)
      (E : Exception -> Store -> Prop) :
  sat (m st) Q1 E ->
  (forall a st1, Q1 a st1 -> sat (k a st1) Q E) ->
  sat (bind m k st) Q E.
Proof. unfold bind. destruct (m st); simpl; auto. Qed.

Lemma sat_tryCatch {A} (m : M A) (h : Exception -> M A) (st : Store)
      (Q : A -> Store -> Prop) (E1 E : Exception -> Store -> Prop) :
  sat (m st) Q E1 ->
  (forall e st1, E1 e st1 -> sat (h e st1) Q E) ->
  sat (tryCatch m h st) Q E.
Proof. unfold tryCatch. destruct (m st); simpl; auto. Qed.

(** A computation that throws nothing returns. *)
Lemma sat_Returned {A} (o : Outcome A) (Q : A -> Store -> Prop) :
  sat o Q (fun _ _ => False) -> exists a st, o = Returned a st /\ Q a st.
Proof. destruct o; simpl; [eauto|contradiction]. Qed.

(** ** Computations that keep an invariant of the store *)

Section Invariant.
Variable I : Store -> Prop.

(** Whether it returns or throws, the computation keeps [I]. *)
Definition Preserving {A} (m : M A) : Prop :=
  forall st, I st -> sat (m st) (fun _ st' => I st') (fun _ st' => I st').

(** The computation keeps [I] and throws nothing. *)
Definition NoThrow {A} (m : M A) : Prop :=
  forall st, I st -> sat (m st) (fun _ st' => I st') (fun _ _ => False).

(** The computation only reads, and returns. *)
Definition Reads {A} (m : M A) : Prop :=
  forall st, I st -> exists a, m st = Returned a st.

Lemma NoThrow_Preserving {A} (m : M A) : NoThrow m -> Preserving m.
Proof.
  intros H st HI. apply (sat_weaken _ _ _ _ _ (H st HI)); auto. contradiction.
Qed.

Lemma Reads_NoThrow {A} (m : M A) : Reads m -> NoThrow m.
Proof. intros H st HI. destruct (H st HI) as [a ->]. exact HI. Qed.

Lemma NoThrow_ret {A} (a : A) : NoThrow (ret a).
Proof. intros st HI. exact HI. Qed.

Lemma Preserving_ret {A} (a : A) : Preserving (ret a).
Proof. intros st HI. exact HI. Qed.

Lemma Preserving_throw {A} (e : Exception) : Preserving (@throw A e).
Proof. intros st HI. exact HI. Qed.

Lemma NoThrow_gets {A} (f : Store -> A) : NoThrow (gets f).
Proof. intros st HI. exact HI. Qed.

Lemma Preserving_gets {A} (f : Store -> A) : Preserving (gets f).
Proof. intros st HI. exact HI. Qed.

Lemma NoThrow_modify (f : Store -> Store) :
  (forall st, I st -> I (f st)) -> NoThrow (modify f).
Proof. intros Hf st HI. now apply Hf. Qed.

Lemma Preserving_modify (f : Store -> Store) :
  (forall st, I st -> I (f st)) -> Preserving (modify f).
Proof. intros Hf. now apply NoThrow_Preserving, NoThrow_modify. Qed.

Lemma Preserving_bind {A B} (m : M A) (k : A -> M B) :
  Preserving m -> (forall a, Preserving (k a)) -> Preserving (bind m k).
Proof.
  intros Hm Hk st HI. eapply sat_bind; [exact (Hm st HI)|].
  intros a st1 HI1. exact (Hk a st1 HI1).
Qed.

Lemma NoThrow_bind {A B} (m : M A) (k : A -> M B) :
  NoThrow m -> (forall a, NoThrow (k a)) -> NoThrow (bind m k).
Proof.
  intros Hm Hk st HI. eapply sat_bind; [exact (Hm st HI)|].
  intros a st1 HI1. exact (Hk a st1 HI1).
Qed.

Lemma NoThrow_tryCatch {A} (m : M A) (h : Exception -> M A) :
  Preserving m -> (forall e, NoThrow (h e)) -> NoThrow (tryCatch m h).
Proof.
  intros Hm Hh st HI. eapply sat_tryCatch; [exact (Hm st HI)|].
  intros e st1 HI1. exact (Hh e st1 HI1).
Qed.

Lemma Preserving_tryCatch {A} (m : M A) (h : Exception -> M A) :
  Preserving m -> (forall e, Preserving (h e)) -> Preserving (tryCatch m h).
Proof.
  intros Hm Hh st HI. eapply sat_tryCatch; [exact (Hm st HI)|].
  intros e st1 HI1. exact (Hh e st1 HI1).
Qed.

Lemma Preserving_forEach {A} (f : A -> M unit) (xs : list A) :
  (forall x, In x xs -> Preserving (f x)) -> Preserving (forEach f xs).
Proof.
  induction xs as [|x xs IH]; intros Hf; simpl.
  - apply Preserving_ret.
  - apply Preserving_bind; [apply Hf; now left|].
    intros _. apply IH. intros y Hy. apply Hf. now right.
Qed.

Lemma NoThrow_forEach {A} (f : A -> M unit) (xs : list A) :
  (forall x, In x xs -> NoThrow (f x)) -> NoThrow (forEach f xs).
Proof.
  induction xs as [|x xs IH]; intros Hf; simpl.
  - apply NoThrow_ret.
  - apply NoThrow_bind; [apply Hf; now left|].
    intros _. apply IH. intros y Hy. apply Hf. now right.
Qed.

End Invariant.

(** ** How the store grows *)

Definition prefixOf {A} (a b : list A) : Prop := exists c, b = a ++ c.

Lemma prefixOf_refl {A} (a : list A) : prefixOf a a.
Proof. exists []. now rewrite app_nil_r. Qed.

Lemma prefixOf_trans {A} (a b c : list A) : prefixOf a b -> prefixOf b c -> prefixOf a c.
Proof. intros [x ->] [y ->]. exists (x ++ y). now rewrite app_assoc. Qed.

Lemma prefixOf_app {A} (a b : list A) : prefixOf a (a ++ b).
Proof. now exists b. Qed.

Lemma prefixOf_In {A} (a b : list A) (x : A) : prefixOf a b -> In x a -> In x b.
Proof. intros [c ->] H. apply in_or_app. now left. Qed.

(** [keeps L st st']: the objects behind the references below [L] are
    untouched, the heap did not shrink, and the partitions of the package
    and the log only had entries added at their end. *)
Record keeps (L : nat) (st st' : Store) : Prop := {
  keeps_heap : forall i, i < L -> deref st' i = deref st i;
  keeps_length : length (heap st) <= length (heap st');
  keeps_profiles : prefixOf (Package.profiles (pkg st)) (Package.profiles (pkg st'));
  keeps_extensions : prefixOf (Package.extensions (pkg st)) (Package.extensions (pkg st'));
  keeps_logicals : prefixOf (Package.logicals (pkg st)) (Package.logicals (pkg st'));
  keeps_logs : prefixOf (logs st) (logs st')
}.

Lemma keeps_refl (L : nat) (st : Store) : keeps L st st.
Proof. split; auto using prefixOf_refl. Qed.

Lemma keeps_trans (L : nat) (st1 st2 st3 : Store) :
  keeps L st1 st2 -> keeps L st2 st3 -> keeps L st1 st3.
Proof.
  intros [] []. split; eauto using prefixOf_trans.
  - intros i Hi. rewrite keeps_heap1 by trivial. auto.
  - lia.
Qed.

Lemma keeps_le (L L' : nat) (st st' : Store) : L' <= L -> keeps L st st' -> keeps L' st st'.
Proof. intros HL []. split; trivial. intros i Hi. apply keeps_heap0. lia. Qed.

(** The store was only extended: nothing that existed has changed. *)
Definition extends (st st' : Store) : Prop := keeps (length (heap st)) st st'.

Lemma extends_refl (st : Store) : extends st st.
Proof. apply keeps_refl. Qed.

Lemma extends_keeps (L : nat) (st st' : Store) :
  L <= length (heap st) -> extends st st' -> keeps L st st'.
Proof. intros HL H. now apply keeps_le with (L := length (heap st)). Qed.

(** [evolves l keys st st']: besides [keeps l], the object behind [l], if
    there, is still there, with its [inProgress] flag and the string
    properties [keys] unchanged. *)
Definition evolves (l : nat) (keys : list string) (st st' : Store) : Prop :=
  keeps l st st'
  /\ forall sd, deref st l = Some sd ->
                exists sd', deref st' l = Some sd'
                            /\ StructureDefinition.inProgress sd'
                               = StructureDefinition.inProgress sd
                            /\ forall key, In key keys ->
                                           StructureDefinition.getString sd' key
                                           = StructureDefinition.getString sd key.

Lemma evolves_refl l keys st : evolves l keys st st.
Proof. split; [apply keeps_refl|]. intros sd Hsd. exists sd. auto. Qed.

Lemma evolves_trans l keys st1 st2 st3 :
  evolves l keys st1 st2 -> evolves l keys st2 st3 -> evolves l keys st1 st3.
Proof.
  intros [K12 H12] [K23 H23]. split; [eapply keeps_trans; eauto|].
  intros sd Hsd. destruct (H12 sd Hsd) as (sd2 & Hsd2 & Hp2 & Hk2).
  destruct (H23 sd2 Hsd2) as (sd3 & Hsd3 & Hp3 & Hk3).
  exists sd3. repeat split; trivial; [congruence|].
  intros key Hkey. rewrite Hk3, Hk2; trivial.
Qed.

Lemma extends_evolves l keys st st' :
  l < length (heap st) -> extends st st' -> evolves l keys st st'.
Proof.
  intros Hl H. split; [apply extends_keeps; [lia|trivial]|].
  intros sd Hsd. exists sd. repeat split; trivial.
  rewrite <- Hsd. now apply (keeps_heap _ _ _ H).
Qed.

Lemma deref_replaceNth_same {A} (xs : list A) (n : nat) (x : A) :
  n < length xs -> nth_error (replaceNth n x xs) n = Some x.
Proof.
  revert n. induction xs as [|y xs IH]; intros [|n] Hn; simpl in *; try lia; auto.
  apply IH. lia.
Qed.

Lemma deref_replaceNth_other {A} (xs : list A) (n i : nat) (x : A) :
  i <> n -> nth_error (replaceNth n x xs) i = nth_error xs i.
Proof.
  revert n i. induction xs as [|y xs IH]; intros [|n] [|i] Hi; simpl; auto.
  congruence.
Qed.

Lemma length_replaceNth {A} (xs : list A) (n : nat) (x : A) :
  length (replaceNth n x xs) = length xs.
Proof.
  revert n. induction xs as [|y xs IH]; intros [|n]; simpl; auto.
Qed.

Lemma deref_mutate_same l f st sd :
  deref st l = Some sd -> deref (mutate l f st) l = Some (f sd).
Proof.
  intros Hsd. unfold mutate. rewrite Hsd. unfold deref in *. simpl.
  apply deref_replaceNth_same. apply nth_error_Some. congruence.
Qed.

Lemma deref_mutate_other l f st i :
  i <> l -> deref (mutate l f st) i = deref st i.
Proof.
  intros Hi. unfold mutate. destruct (deref st l); [|reflexivity].
  unfold deref. simpl. now apply deref_replaceNth_other.
Qed.

Lemma mutate_frame l f st :
  pkg (mutate l f st) = pkg st /\ logs (mutate l f st) = logs st
  /\ length (heap (mutate l f st)) = length (heap st)
  /\ deferredRules (mutate l f st) = deferredRules st.
Proof.
  unfold mutate. destruct (deref st l); simpl; auto using length_replaceNth.
Qed.

(** A mutation of the object behind [l] that leaves its flag and the
    properties [keys] alone. *)
Lemma evolves_mutate l keys f st :
  (forall sd, StructureDefinition.inProgress (f sd) = StructureDefinition.inProgress sd) ->
  (forall sd key, In key keys ->
                  StructureDefinition.getString (f sd) key
                  = StructureDefinition.getString sd key) ->
  evolves l keys st (mutate l f st).
Proof.
  intros Hp Hk. destruct (mutate_frame l f st) as (Hpkg & Hlogs & Hlen & _). split.
  - split; rewrite ?Hpkg, ?Hlogs; auto using prefixOf_refl; [|lia].
    intros i Hi. apply deref_mutate_other. lia.
  - intros sd Hsd. exists (f sd). split; [now apply deref_mutate_same|]. auto.
Qed.

Lemma evolves_set_logs l keys st entries :
  evolves l keys st (set_logs (logs st ++ entries) st).
Proof.
  split.
  - split; simpl; auto using prefixOf_refl, prefixOf_app.
  - intros sd Hsd. exists sd. auto.
Qed.

Lemma evolves_set_deferredRules l keys st d :
  evolves l keys st (set_deferredRules d st).
Proof.
  split.
  - split; simpl; auto using prefixOf_refl.
  - intros sd Hsd. exists sd. auto.
Qed.

(** * What rule application does to the store *)

(** The combinators for [ret] and [throw], applied only where they fit. *)
Ltac p_ret :=
  match goal with
  | |- Preserving _ (ret _) => apply Preserving_ret
  | |- NoThrow _ (ret _) => apply NoThrow_ret
  end.

Ltac p_throw :=
  match goal with
  | |- Preserving _ (throw _) => apply Preserving_throw
  end.

Ltac split_match :=
  match goal with
  | |- context [match ?x with _ => _ end] => destruct x eqn:?
  end.

Section RuleFrame.
Import StructureDefinitionExporter.

Variable reenter : StructureKind * FshStructure -> M (option nat).
Variable this : StructureDefinitionExporter.t.

(** A re-entrant export only extends the store it is started in. *)
Hypothesis reenter_extends :
  forall d st,
    sat (reenter d st) (fun _ st' => extends st st') (fun _ st' => extends st st').

Variable l : nat.
Variable keys : list string.
Variable st0 : Store.

(** The invariant of rule application for the definition behind [l]. *)
Definition ruleInvariant (st : Store) : Prop :=
  evolves l keys st0 st /\ l < length (heap st).

#[local] Abbreviation Pres := (Preserving ruleInvariant).
#[local] Abbreviation Safe := (NoThrow ruleInvariant).

Lemma ruleInvariant_step st st' :
  ruleInvariant st -> evolves l keys st st' -> ruleInvariant st'.
Proof.
  intros [H Hl] H'. split; [eapply evolves_trans; eauto|].
  destruct H' as [K _]. pose proof (keeps_length _ _ _ K). lia.
Qed.

Lemma Safe_log lv m : Safe (logger.log lv m).
Proof.
  apply NoThrow_modify. intros st HI.
  eapply ruleInvariant_step; [exact HI|apply evolves_set_logs].
Qed.

Lemma Safe_error m : Safe (logger.error m).
Proof. apply Safe_log. Qed.

Lemma Safe_warn m : Safe (logger.warn m).
Proof. apply Safe_log. Qed.

Lemma Reads_theStructDef : Reads ruleInvariant (theStructDef l).
Proof.
  intros st [_ Hl]. unfold theStructDef, bind, gets, deref.
  destruct (nth_error (heap st) l) as [sd|] eqn:Hsd.
  - now exists sd.
  - apply nth_error_None in Hsd. lia.
Qed.

Lemma Pres_theStructDef : Pres (theStructDef l).
Proof. apply NoThrow_Preserving, Reads_NoThrow, Reads_theStructDef. Qed.

Lemma Pres_theElement elementId : Pres (theElement l elementId).
Proof.
  unfold theElement. apply Preserving_bind; [apply Pres_theStructDef|].
  intros sd. split_match; [apply Preserving_ret|apply Preserving_throw].
Qed.

(** A mutation of the object behind [l] that touches its element tree
    only. *)
Lemma Safe_mutate_elements (f : StructureDefinition.t -> StructureDefinition.t) :
  (forall sd, StructureDefinition.props (f sd) = StructureDefinition.props sd) ->
  (forall sd, StructureDefinition.inProgress (f sd) = StructureDefinition.inProgress sd) ->
  Safe (modify (mutate l f)).
Proof.
  intros Hprops Hflag. apply NoThrow_modify. intros st HI.
  eapply ruleInvariant_step; [exact HI|].
  apply evolves_mutate; [exact Hflag|].
  intros sd key _. now apply getString_props_eq.
Qed.

Lemma Safe_onElement elementId f : Safe (onElement l elementId f).
Proof. unfold onElement. now apply Safe_mutate_elements. Qed.

Lemma Pres_onElement elementId f : Pres (onElement l elementId f).
Proof. apply NoThrow_Preserving, Safe_onElement. Qed.

Lemma Pres_addSlice elementId sliceName : Pres (addSlice l elementId sliceName).
Proof.
  unfold addSlice. apply Preserving_bind; [apply Pres_theElement|]. intros e.
  apply Preserving_bind; [apply Pres_theStructDef|]. intros sd.
  split_match; [apply Preserving_throw|].
  apply Preserving_bind; [|intros _; apply Preserving_ret].
  now apply NoThrow_Preserving, Safe_mutate_elements.
Qed.

Lemma Pres_newElement p : Pres (newElement l p).
Proof.
  unfold newElement. apply Preserving_bind; [apply Pres_theStructDef|]. intros sd.
  split_match; [apply Preserving_throw|].
  apply Preserving_bind; [|intros _; apply Preserving_ret].
  now apply NoThrow_Preserving, Safe_mutate_elements.
Qed.

Lemma Pres_applyAddElementRule elementId rule : Pres (applyAddElementRule l elementId rule).
Proof.
  unfold applyAddElementRule.
  destruct rule; try p_ret. apply Pres_onElement.
Qed.

Lemma Pres_fishForMetadata item types : Pres (fishForMetadata this item types).
Proof. apply Preserving_gets. Qed.

Lemma Pres_reenter d : Pres (reenter d).
Proof.
  intros st HI. apply (sat_weaken _ _ _ _ _ (reenter_extends d st));
    intros ? st' Hst'; (eapply ruleInvariant_step; [exact HI|]);
    apply extends_evolves; trivial; apply HI.
Qed.

Lemma Pres_fishForFHIR item types : Pres (fishForFHIR reenter this item types).
Proof.
  unfold fishForFHIR. apply Preserving_bind; [apply Preserving_gets|]. intros result.
  destruct result; [apply Preserving_ret|].
  destruct (wantsStructure types); [|apply Preserving_ret].
  split_match; [|apply Preserving_ret].
  apply Preserving_bind; [apply Pres_reenter|]. intros _. apply Preserving_gets.
Qed.

Lemma Pres_mapM {A B} (f : A -> M B) (xs : list A) :
  (forall x, Pres (f x)) -> Pres (mapM f xs).
Proof.
  intros Hf. induction xs as [|x xs IH]; simpl; [apply Preserving_ret|].
  apply Preserving_bind; [apply Hf|]. intros y.
  apply Preserving_bind; [apply IH|]. intros ys. apply Preserving_ret.
Qed.

Lemma Pres_constrainType elementId types :
  Pres (constrainType reenter this l elementId types).
Proof.
  unfold constrainType. apply Preserving_bind; [|intros; apply Pres_onElement].
  apply Pres_mapM. intros ty.
  apply Preserving_bind; [apply Pres_fishForFHIR|]. intros found.
  destruct found; [apply Preserving_ret|apply Preserving_throw].
Qed.

Lemma Pres_pushProfile slice url : Pres (pushProfile l slice url).
Proof.
  unfold pushProfile.
  destruct (ElementDefinition.type slice) as [[|ty0 others]|];
    try p_throw.
  cbv zeta. apply Pres_onElement.
Qed.

Lemma Pres_sliceRefersTo elementId sliceName url :
  Pres (sliceRefersTo l elementId sliceName url).
Proof.
  unfold sliceRefersTo. apply Preserving_bind; [apply Pres_theElement|]. intros e.
  apply Preserving_bind; [apply Pres_theStructDef|]. intros sd.
  split_match; [|apply Preserving_ret].
  destruct (ElementDefinition.type t0) as [[|ty0 others]|];
    [apply Preserving_ret| |apply Preserving_throw].
  destruct (ElementDefinition.profile ty0); apply Preserving_ret.
Qed.

Lemma Pres_containsExtensionItem k rulePath elementId item :
  Pres (containsExtensionItem this k rulePath l elementId item).
Proof.
  unfold containsExtensionItem.
  destruct (nonEmpty (item_type item)) as [itemType|].
  - apply Preserving_bind; [apply Pres_fishForMetadata|]. intros extension.
    destruct extension as [extension|]; [|apply NoThrow_Preserving, Safe_error].
    apply Preserving_tryCatch.
    + apply Preserving_bind; [apply Pres_addSlice|]. intros slice.
      apply Pres_pushProfile.
    + intros e. apply Preserving_bind.
      * destruct e; try p_ret. apply Pres_sliceRefersTo.
      * intros harmless. destruct harmless; apply NoThrow_Preserving, Safe_log.
  - apply Preserving_tryCatch; [|intros e; apply NoThrow_Preserving, Safe_error].
    apply Preserving_bind; [apply Pres_addSlice|]. intros slice.
    apply Preserving_bind; [apply Pres_theStructDef|]. intros sd.
    apply Preserving_bind.
    + split_match; [apply Pres_onElement|p_throw].
    + intros _. destruct k; try p_ret;
        apply NoThrow_Preserving, Safe_error.
Qed.

Lemma Pres_handleExtensionContainsRule k fshDefinition rule elementId :
  Pres (handleExtensionContainsRule this k fshDefinition rule l elementId).
Proof.
  unfold handleExtensionContainsRule. destruct rule; try p_ret.
  apply Preserving_bind; [apply Pres_theElement|]. intros element.
  apply Preserving_bind.
  { destruct (ElementDefinition.slicing element);
      [p_ret|apply Pres_onElement]. }
  intros _. apply Preserving_forEach. intros item _.
  apply Pres_containsExtensionItem.
Qed.

Lemma Safe_deferRule rule : Safe (deferRule l rule).
Proof.
  apply NoThrow_modify. intros st HI.
  eapply ruleInvariant_step; [exact HI|apply evolves_set_deferredRules].
Qed.

Lemma Safe_ElementDefinition_setInstancePropertyByPath elementId caretPath value :
  Safe (ElementDefinition_setInstancePropertyByPath l elementId caretPath value).
Proof. apply Safe_onElement. Qed.

(** A caret rule on the definition itself overwrites the property it
    names. *)
Lemma Safe_StructureDefinition_setInstancePropertyByPath caretPath value :
  includes keys caretPath = false ->
  Safe (StructureDefinition_setInstancePropertyByPath l caretPath value).
Proof.
  intros Hkeys. apply NoThrow_modify. intros st HI.
  eapply ruleInvariant_step; [exact HI|].
  apply evolves_mutate; [reflexivity|].
  intros sd key Hkey. rewrite getString_set.
  destruct (String.eqb_spec key caretPath) as [->|]; [|reflexivity].
  unfold includes in Hkeys.
  assert (Hin : existsb (String.eqb caretPath) keys = true).
  { apply existsb_exists. exists caretPath. split; [trivial|apply String.eqb_refl]. }
  congruence.
Qed.

(** Does the rule overwrite, on the definition itself, one of the
    properties [keys]? *)
Definition overwrites (rule : Rule) : bool :=
  match rule with
  | CaretValueRule rulePath caretPath _ isInstance =>
      (rulePath =? "") && negb isInstance && includes keys caretPath
  | _ => false
  end.

Lemma Safe_applyCaretValueRule fshDefinition element rule :
  overwrites rule = false ->
  Safe (applyCaretValueRule fshDefinition l element rule).
Proof.
  intros Hrule. unfold applyCaretValueRule.
  destruct rule; try p_ret.
  apply NoThrow_tryCatch; [|intros e; apply Safe_error].
  simpl in Hrule. apply NoThrow_Preserving.
  destruct (path =? ""); simpl in *.
  - destruct isInstance; simpl in *; [apply Safe_deferRule|].
    now apply Safe_StructureDefinition_setInstancePropertyByPath.
  - destruct element; [apply Safe_ElementDefinition_setInstancePropertyByPath|].
    apply Safe_error.
Qed.

Lemma Pres_applyToElement k fshDefinition element rule :
  Pres (applyToElement reenter this k fshDefinition l element rule).
Proof.
  unfold applyToElement. destruct rule; try p_ret.
  - apply Pres_onElement.
  - destruct isInstance.
    + split_match; [apply Pres_onElement|].
      destruct (ElementDefinition.type element) as [[|ty [|]]|];
        apply NoThrow_Preserving, Safe_error.
    + apply Pres_onElement.
  - apply Pres_onElement.
  - apply Pres_constrainType.
  - apply Preserving_bind; [apply Pres_fishForMetadata|]. intros found.
    apply Pres_onElement.
  - split_match; [apply Pres_handleExtensionContainsRule|].
    apply Preserving_forEach. intros item _.
    apply Preserving_bind.
    + destruct (nonEmpty (item_type item));
        [apply NoThrow_Preserving, Safe_error|apply Preserving_ret].
    + intros _. apply Preserving_tryCatch; [|intros e; apply NoThrow_Preserving, Safe_error].
      apply Preserving_bind; [apply Pres_addSlice|]. intros; apply Preserving_ret.
  - destruct (FSHTank.fish (tank this) invariant [Type_Invariant]) as [[]|];
      try (apply Preserving_bind; [apply Pres_theStructDef|];
           intros structDef; apply NoThrow_Preserving, Safe_error).
    apply Preserving_bind; [apply Pres_theStructDef|]. intros structDef.
    apply Preserving_bind; [apply Pres_onElement|]. intros _.
    destruct (negb (idRegex_test (inv_name i)));
      [apply Preserving_throw|apply Preserving_ret].
Qed.

Lemma NoThrow_bind_Reads {A B} (m : M A) (k : A -> M B) :
  Reads ruleInvariant m -> (forall a, Safe (k a)) -> Safe (bind m k).
Proof. intros Hm Hk. apply NoThrow_bind; [now apply Reads_NoThrow|exact Hk]. Qed.

Lemma Safe_applySdRule k fshDefinition rule :
  overwrites rule = false ->
  Safe (applySdRule reenter this k fshDefinition l rule).
Proof.
  intros Hrule. unfold applySdRule.
  apply NoThrow_bind_Reads; [apply Reads_theStructDef|]. intros structDef.
  apply NoThrow_bind; [now apply Safe_applyCaretValueRule|]. intros _.
  split_match; [|apply Safe_error].
  apply NoThrow_tryCatch; [apply Pres_applyToElement|intros e; apply Safe_error].
Qed.

Lemma Safe_setRules k fshDefinition :
  (forall rule, In rule (rules fshDefinition) -> overwrites rule = false) ->
  Safe (setRules reenter this k fshDefinition l).
Proof.
  intros Hrules. unfold setRules. apply NoThrow_bind.
  - apply NoThrow_forEach. intros rule _.
    apply NoThrow_tryCatch; [|intros e; apply Safe_error].
    apply Preserving_bind; [apply Pres_newElement|]. intros e.
    apply Pres_applyAddElementRule.
  - intros _. apply NoThrow_forEach. intros rule Hin.
    apply Safe_applySdRule. apply Hrules.
    now apply filter_In in Hin as [Hin _].
Qed.

Lemma overwrites_inferredCardRules m rule :
  In rule (inferredCardRules m) -> overwrites rule = false.
Proof.
  unfold inferredCardRules. rewrite in_flat_map.
  intros ([key [|]] & _ & Hin); simpl in Hin; [|contradiction].
  destruct Hin as [<-|[]]. reflexivity.
Qed.

Lemma Safe_applyRules k fshDefinition :
  (forall rule, In rule (rules fshDefinition) -> overwrites rule = false) ->
  Safe (applyRules reenter this k fshDefinition l).
Proof.
  intros Hrules. unfold applyRules.
  apply NoThrow_bind_Reads; [apply Reads_theStructDef|]. intros structDef.
  unfold preprocessStructureDefinition.
  apply NoThrow_bind.
  - apply NoThrow_modify. intros st HI.
    eapply ruleInvariant_step; [exact HI|apply evolves_set_logs].
  - intros _. apply Safe_setRules. simpl. intros rule Hin.
    apply in_app_or in Hin as [Hin|Hin]; [now apply Hrules|].
    now apply overwrites_inferredCardRules in Hin.
Qed.

End RuleFrame.

(** * What an export does to the store *)

Lemma extends_trans (st1 st2 st3 : Store) :
  extends st1 st2 -> extends st2 st3 -> extends st1 st3.
Proof.
  intros H12 H23. unfold extends in *.
  eapply keeps_trans; [exact H12|].
  apply keeps_le with (L := length (heap st2)); [apply (keeps_length _ _ _ H12)|exact H23].
Qed.

Lemma extends_set_logs (st : Store) (entries : list LogEntry) :
  extends st (set_logs (logs st ++ entries) st).
Proof. split; simpl; auto using prefixOf_refl, prefixOf_app. Qed.

Lemma extends_push_heap (st : Store) (sd : StructureDefinition.t) :
  extends st (set_heap (heap st ++ [sd]) st).
Proof.
  split; simpl; auto using prefixOf_refl.
  - intros i Hi. unfold deref. simpl. now apply nth_error_app1.
  - rewrite length_app. lia.
Qed.

Lemma keeps_mutate (L l : nat) (f : StructureDefinition.t -> StructureDefinition.t)
      (st : Store) :
  L <= l -> keeps L st (mutate l f st).
Proof.
  intros HL. destruct (mutate_frame l f st) as (Hpkg & Hlogs & Hlen & _).
  split; rewrite ?Hpkg, ?Hlogs; auto using prefixOf_refl; [|lia].
  intros i Hi. apply deref_mutate_other. lia.
Qed.

Section ExtendFrame.
Import StructureDefinitionExporter.

Variable reenter : StructureKind * FshStructure -> M (option nat).
Variable this : StructureDefinitionExporter.t.

Hypothesis reenter_extends :
  forall d st,
    sat (reenter d st) (fun _ st' => extends st st') (fun _ st' => extends st st').

(** An invariant that every extension of the store keeps. *)
Variable J : Store -> Prop.
Hypothesis J_extends : forall st st', J st -> extends st st' -> J st'.

#[local] Abbreviation JPres := (Preserving J).

Lemma JPres_log lv m : JPres (logger.log lv m).
Proof.
  apply Preserving_modify. intros st HJ.
  apply (J_extends _ _ HJ), extends_set_logs.
Qed.

Lemma JPres_reenter d : JPres (reenter d).
Proof.
  intros st HJ. apply (sat_weaken _ _ _ _ _ (reenter_extends d st)); eauto.
Qed.

Lemma JPres_fishForFHIR item types : JPres (fishForFHIR reenter this item types).
Proof.
  unfold fishForFHIR. apply Preserving_bind; [apply Preserving_gets|]. intros result.
  destruct result; [p_ret|].
  destruct (wantsStructure types); [|p_ret].
  split_match; [|p_ret].
  apply Preserving_bind; [apply JPres_reenter|]. intros _. apply Preserving_gets.
Qed.

Lemma JPres_getStructureDefinition k fshDefinition :
  JPres (getStructureDefinition reenter this k fshDefinition).
Proof.
  unfold getStructureDefinition. apply Preserving_bind.
  { destruct (isEmpty (parent fshDefinition)); [|p_ret].
    destruct k; try p_ret. p_throw. }
  intros d. apply Preserving_bind.
  { split_match; [|p_ret].
    apply Preserving_bind; [apply Preserving_gets|]. intros; p_throw. }
  intros _. apply Preserving_bind.
  { split_match; [|p_ret].
    apply Preserving_bind; [apply Preserving_gets|]. intros; p_throw. }
  intros _. apply Preserving_bind; [apply JPres_fishForFHIR|]. intros parentJson.
  destruct parentJson as [parentJson|]; [|p_throw].
  repeat (split_match; [p_throw|]). p_ret.
Qed.

Lemma JPres_onRoot f sd : JPres (onRoot f sd).
Proof. unfold onRoot. destruct (StructureDefinition.elements sd); [p_throw|p_ret]. Qed.

Lemma JPres_filterExtensions key sd : JPres (filterExtensions key sd).
Proof.
  unfold filterExtensions.
  destruct (StructureDefinition.get sd key) as [[| | |es|]|]; try p_throw; p_ret.
Qed.

Lemma JPres_setMetadata k fshDefinition structDef :
  JPres (setMetadata this k fshDefinition structDef).
Proof.
  unfold setMetadata.
  apply Preserving_bind; [apply JPres_filterExtensions|]. intros sdE.
  apply Preserving_bind; [apply JPres_filterExtensions|]. intros sdM.
  apply Preserving_bind.
  { destruct (nonEmpty (title fshDefinition)); [|p_ret].
    split_match; [apply JPres_onRoot|p_ret]. }
  intros sd1. apply Preserving_bind.
  { destruct (nonEmpty (description fshDefinition)); [|p_ret].
    split_match; [apply JPres_onRoot|p_ret]. }
  intros sd2. destruct k; try p_ret.
  split_match; [p_ret|p_throw].
Qed.

End ExtendFrame.

(** ** Publishing the skeleton *)

Section Skeleton.
Import StructureDefinitionExporter.
Variable this : StructureDefinitionExporter.t.

(** The partitions of a package, one after the other. *)
Definition everyPartition (p : Package.t) : list nat :=
  Package.profiles p ++ Package.extensions p ++ Package.logicals p.

Lemma publish_Returned (structDef : StructureDefinition.t) (st : Store) :
  exists stP,
    publish structDef st = Returned (length (heap st)) stP
    /\ heap stP = heap st ++ [structDef]
    /\ logs stP = logs st
    /\ deferredRules stP = deferredRules st
    /\ In (length (heap st)) (everyPartition (pkg stP))
    /\ extends st stP.
Proof.
  unfold publish, bind, gets, modify, ret, everyPartition. eexists.
  split; [reflexivity|]. simpl. repeat split; simpl.
  - destruct (sameOpt (StructureDefinition.type structDef) (Some "Extension"));
      [|destruct (sameOpt (StructureDefinition.kind structDef) (Some "logical"))];
      simpl; rewrite !in_app_iff; simpl; tauto.
  - intros i Hi. unfold deref. simpl. now apply nth_error_app1.
  - rewrite length_app. lia.
  - destruct (sameOpt (StructureDefinition.type structDef) (Some "Extension"));
      [|destruct (sameOpt (StructureDefinition.kind structDef) (Some "logical"))];
      simpl; auto using prefixOf_refl, prefixOf_app.
  - destruct (sameOpt (StructureDefinition.type structDef) (Some "Extension"));
      [|destruct (sameOpt (StructureDefinition.kind structDef) (Some "logical"))];
      simpl; auto using prefixOf_refl, prefixOf_app.
  - destruct (sameOpt (StructureDefinition.type structDef) (Some "Extension"));
      [|destruct (sameOpt (StructureDefinition.kind structDef) (Some "logical"))];
      simpl; auto using prefixOf_refl, prefixOf_app.
  - apply prefixOf_refl.
Qed.

(** What the in-progress check logs. *)
Definition inProgressWarning (fshDefinition : FshStructure)
           (structDef : StructureDefinition.t) : list LogEntry :=
  if StructureDefinition.inProgress structDef
  then [{| level := Warn; message := circularDependencyWarning fshDefinition |}]
  else [].

(** The definition handed to [setMetadata]. *)
Definition marked (k : StructureKind) (fshDefinition : FshStructure)
           (structDef : StructureDefinition.t) : StructureDefinition.t :=
  match k with
  | Logical =>
      StructureDefinition.resetRootIdAndPath (id fshDefinition)
        (StructureDefinition.set_inProgress true structDef)
  | _ => StructureDefinition.set_inProgress true structDef
  end.

Lemma publishSkeleton_unfold k fshDefinition structDef st :
  publishSkeleton this k fshDefinition structDef st
  = bind (setMetadata this k fshDefinition (marked k fshDefinition structDef)) publish
         (set_logs (logs st ++ inProgressWarning fshDefinition structDef) st).
Proof.
  unfold publishSkeleton, inProgressWarning, marked.
  destruct (StructureDefinition.inProgress structDef).
  - unfold bind at 1. simpl. destruct k; reflexivity.
  - unfold bind at 1. simpl. rewrite app_nil_r.
    destruct st; destruct k; reflexivity.
Qed.

Lemma publishSkeleton_Returned k fshDefinition structDef st l stP :
  publishSkeleton this k fshDefinition structDef st = Returned l stP ->
  l = length (heap st)
  /\ (exists sd,
         heap stP = heap st ++ [sd]
         /\ StructureDefinition.inProgress sd = true
         /\ StructureDefinition.name sd = Some (name fshDefinition)
         /\ StructureDefinition.id sd = Some (id fshDefinition)
         /\ StructureDefinition.baseDefinition sd = StructureDefinition.url structDef)
  /\ logs stP = logs st ++ inProgressWarning fshDefinition structDef
  /\ In l (everyPartition (pkg stP))
  /\ extends st stP.
Proof.
  rewrite publishSkeleton_unfold. intros H.
  apply bind_Returned in H as (sd & st1 & Hmeta & Hpublish).
  apply setMetadata_Returned in Hmeta as (-> & Hbase & _ & _ & Hname & Hid & Hflag).
  destruct (publish_Returned sd (set_logs (logs st ++ inProgressWarning fshDefinition structDef) st))
    as (stP' & Heq & Hheap & Hlogs & _ & Hin & Hext).
  rewrite Heq in Hpublish. injection Hpublish as <- <-. simpl in *.
  split; [reflexivity|]. split; [|split; [exact Hlogs|split; [exact Hin|]]].
  - exists sd. repeat split; trivial.
    + rewrite Hflag. unfold marked. now destruct k.
    + rewrite Hbase. unfold marked. now destruct k.
  - eapply extends_trans; [apply extends_set_logs|exact Hext].
Qed.

Lemma listOrAbsent_marked k fshDefinition structDef key :
  listOrAbsent structDef key -> listOrAbsent (marked k fshDefinition structDef) key.
Proof. apply listOrAbsent_same. now destruct k. Qed.

Lemma publishSkeleton_total k fshDefinition structDef st :
  k <> Extension ->
  listOrAbsent structDef "extension" -> listOrAbsent structDef "modifierExtension" ->
  exists l stP, publishSkeleton this k fshDefinition structDef st = Returned l stP.
Proof.
  intros Hk Hextension Hmodifier. rewrite publishSkeleton_unfold.
  destruct (setMetadata_total this k fshDefinition (marked k fshDefinition structDef)
              (set_logs (logs st ++ inProgressWarning fshDefinition structDef) st) Hk
              (listOrAbsent_marked _ _ _ _ Hextension)
              (listOrAbsent_marked _ _ _ _ Hmodifier))
    as [sd Hsd].
  rewrite (bind_of_Returned _ _ _ _ _ Hsd).
  destruct (publish_Returned sd
              (set_logs (logs st ++ inProgressWarning fshDefinition structDef) st))
    as (stP & Heq & _).
  eauto.
Qed.

End Skeleton.

(** ** The check for a duplicate id *)

Section UniqueId.
Import StructureDefinitionExporter.

Lemma sameOpt_true (a b : option string) : sameOpt a b = true <-> a = b.
Proof.
  destruct a as [x|], b as [y|]; simpl; try (split; congruence).
  rewrite String.eqb_eq. split; congruence.
Qed.

(** Another object, referenced from [partition], has the id of the object
    behind [l]. *)
Definition SharesId (st : Store) (l : nat) (partition : list nat) : Prop :=
  exists other sd sd',
    In other partition /\ other <> l
    /\ deref st l = Some sd /\ deref st other = Some sd'
    /\ StructureDefinition.id sd' = StructureDefinition.id sd.

Lemma sharesId_true st l partition :
  sharesId st l partition = true <-> SharesId st l partition.
Proof.
  unfold sharesId, some, SharesId. rewrite existsb_exists. split.
  - intros (other & Hin & H).
    destruct (deref st l) as [sd|]; [|discriminate].
    destruct (deref st other) as [sd'|] eqn:Hother; [|discriminate].
    apply andb_true_iff in H as [Hid Hne].
    apply sameOpt_true in Hid. apply negb_true_iff, Nat.eqb_neq in Hne.
    exists other, sd, sd'. repeat split; auto.
  - intros (other & sd & sd' & Hin & Hne & Hl & Hother & Hid).
    exists other. split; [exact Hin|]. rewrite Hl, Hother.
    apply andb_true_iff. split; [now apply sameOpt_true|].
    apply negb_true_iff, Nat.eqb_neq. auto.
Qed.

Lemma SharesId_app st l p1 p2 :
  SharesId st l (p1 ++ p2) <-> SharesId st l p1 \/ SharesId st l p2.
Proof.
  unfold SharesId. split.
  - intros (other & sd & sd' & Hin & H). apply in_app_or in Hin as [Hin|Hin];
      [left|right]; exists other, sd, sd'; tauto.
  - intros [(other & sd & sd' & Hin & H)|(other & sd & sd' & Hin & H)];
      exists other, sd, sd'; (split; [apply in_or_app; tauto|exact H]).
Qed.

Lemma hasDuplicateId_true st l :
  hasDuplicateId st l = true <-> SharesId st l (everyPartition (pkg st)).
Proof.
  unfold hasDuplicateId, everyPartition.
  rewrite !orb_true_iff, !sharesId_true, !SharesId_app. tauto.
Qed.

Definition duplicateIdError (sd : StructureDefinition.t) : LogEntry :=
  {| level := Error;
     message := Text ("Multiple structure definitions with id "
                      +++ show (StructureDefinition.id sd)
                      +++ ". Each structure definition must have a unique id.") |}.

Lemma checkUniqueId_Returned l st sd :
  deref st l = Some sd ->
  checkUniqueId l st
  = Returned tt (if hasDuplicateId st l
                 then set_logs (logs st ++ [duplicateIdError sd]) st
                 else st).
Proof.
  intros Hsd. unfold checkUniqueId, bind, gets.
  destruct (hasDuplicateId st l); [|reflexivity].
  unfold theStructDef, bind, gets. now rewrite Hsd.
Qed.

Lemma finish_Returned l st sd :
  deref st l = Some sd ->
  exists st',
    finish l st = Returned tt st'
    /\ deref st' l = Some (StructureDefinition.set_inProgress false sd)
    /\ keeps l st st'.
Proof.
  intros Hsd. unfold finish, bind at 1, modify.
  pose proof (deref_mutate_same l (StructureDefinition.set_inProgress false) st sd Hsd)
    as Hsd'.
  rewrite (checkUniqueId_Returned _ _ _ Hsd').
  eexists. split; [reflexivity|].
  pose proof (keeps_mutate l l (StructureDefinition.set_inProgress false) st (le_n l)) as K.
  destruct (hasDuplicateId _ l).
  - split; [exact Hsd'|]. eapply keeps_trans; [exact K|].
    apply extends_keeps; [|apply extends_set_logs].
    apply Nat.lt_le_incl, nth_error_Some. unfold deref in Hsd'. congruence.
  - split; [exact Hsd'|exact K].
Qed.

End UniqueId.

(** ** The stages of one export *)

Section Stages.
Import StructureDefinitionExporter.

Variable reenter : StructureKind * FshStructure -> M (option nat).
Variable this : StructureDefinitionExporter.t.

Hypothesis reenter_extends :
  forall d st,
    sat (reenter d st) (fun _ st' => extends st st') (fun _ st' => extends st st').

Lemma exportStructDefOnce_cached k fshDefinition st :
  alreadyExported fshDefinition st = true ->
  exportStructDefOnce reenter this (k, fshDefinition) st = Returned None st.
Proof. intros H. unfold exportStructDefOnce, bind, gets. now rewrite H. Qed.

Lemma exportStructDefOnce_resolve k fshDefinition st :
  alreadyExported fshDefinition st = false ->
  exportStructDefOnce reenter this (k, fshDefinition) st
  = bind (getStructureDefinition reenter this k fshDefinition)
         (fun resolved =>
            l <- publishSkeleton this k (snd resolved) (fst resolved) ;;
            applyRules reenter this k (snd resolved) l ;;
            finish l ;;
            ret (Some l)) st.
Proof.
  intros H. unfold exportStructDefOnce. unfold bind at 1. unfold gets. now rewrite H.
Qed.

Lemma exportStructDefOnce_stages k fshDefinition st structDef resolved st1 l stP :
  alreadyExported fshDefinition st = false ->
  getStructureDefinition reenter this k fshDefinition st
  = Returned (structDef, resolved) st1 ->
  publishSkeleton this k resolved structDef st1 = Returned l stP ->
  exportStructDefOnce reenter this (k, fshDefinition) st
  = (applyRules reenter this k resolved l ;; finish l ;; ret (Some l)) stP.
Proof.
  intros Hnew Hresolve Hpublish. rewrite exportStructDefOnce_resolve by trivial.
  rewrite (bind_of_Returned _ _ _ _ _ Hresolve). simpl.
  now rewrite (bind_of_Returned _ _ _ _ _ Hpublish).
Qed.

(** Rules and finalisation on a published skeleton: nothing is thrown; at
    the end the flag is cleared and the properties [keys] that no rule
    overwrites are as they were published. *)
Lemma compile_completes k resolved l stP sdP keys :
  deref stP l = Some sdP ->
  (forall rule, In rule (rules resolved) -> overwrites keys rule = false) ->
  sat ((applyRules reenter this k resolved l ;; finish l ;; ret (Some l)) stP)
      (fun r st' =>
         r = Some l /\ keeps l stP st'
         /\ exists sd',
             deref st' l = Some sd'
             /\ StructureDefinition.inProgress sd' = false
             /\ forall key, In key keys ->
                            StructureDefinition.getString sd' key
                            = StructureDefinition.getString sdP key)
      (fun _ _ => False).
Proof.
  intros HsdP Hrules.
  assert (Hl : l < length (heap stP)).
  { apply nth_error_Some. unfold deref in HsdP. congruence. }
  eapply sat_bind.
  - apply (Safe_applyRules reenter this reenter_extends l keys stP k resolved Hrules).
    split; [apply evolves_refl|exact Hl].
  - intros _ st2 [[K2 H2] Hl2]. simpl.
    destruct (H2 sdP HsdP) as (sd2 & Hsd2 & Hflag2 & Hkeys2).
    destruct (finish_Returned l st2 sd2 Hsd2) as (st3 & Hfinish & Hsd3 & K3).
    rewrite (bind_of_Returned _ _ _ _ _ Hfinish). simpl.
    split; [reflexivity|]. split; [eapply keeps_trans; eauto|].
    eexists. split; [exact Hsd3|]. split; [reflexivity|].
    intros key Hkey. rewrite getString_set_inProgress. auto.
Qed.

Lemma publishSkeleton_extends k fshDefinition structDef st :
  sat (publishSkeleton this k fshDefinition structDef st)
      (fun _ st' => extends st st') (fun _ st' => extends st st').
Proof.
  rewrite publishSkeleton_unfold. eapply sat_bind.
  - apply (JPres_setMetadata this (fun st' => extends st st')).
    apply extends_set_logs.
  - intros sd st1 H1. simpl in H1.
    destruct (publish_Returned sd st1) as (stP & -> & _ & _ & _ & _ & HP). simpl.
    eapply extends_trans; eauto.
Qed.

Lemma exportStructDefOnce_extends d st :
  sat (exportStructDefOnce reenter this d st)
      (fun _ st' => extends st st') (fun _ st' => extends st st').
Proof.
  destruct d as [k fshDefinition].
  destruct (alreadyExported fshDefinition st) eqn:Hnew.
  { rewrite exportStructDefOnce_cached by trivial. apply extends_refl. }
  rewrite exportStructDefOnce_resolve by trivial.
  eapply sat_bind.
  { apply (JPres_getStructureDefinition reenter this reenter_extends
             (fun st' => extends st st')).
    - intros st1 st2. apply extends_trans.
    - apply extends_refl. }
  intros [structDef resolved] st1 H1. simpl.
  pose proof (publishSkeleton_extends k resolved structDef st1) as HS.
  destruct (publishSkeleton this k resolved structDef st1) as [l stP|e stP] eqn:Hpublish;
    simpl in HS.
  - rewrite (bind_of_Returned _ _ _ _ _ Hpublish).
    apply publishSkeleton_Returned in Hpublish
      as (Hl & (sd & Hheap & _) & _ & _ & _).
    assert (HsdP : deref stP l = Some sd).
    { unfold deref. rewrite Hheap, Hl, nth_error_app2, Nat.sub_diag; trivial. }
    apply (sat_weaken _ _ _ _ _
             (compile_completes k resolved l stP sd [] HsdP
                ltac:(intros rule _; destruct rule; simpl; trivial;
                      now rewrite andb_false_r)));
      [|contradiction].
    intros r st' (_ & K & _).
    assert (H : extends st stP) by (eapply extends_trans; eauto).
    unfold extends in *. eapply keeps_trans; [exact H|].
    apply keeps_le with (L := l); [|exact K].
    rewrite Hl. apply (keeps_length _ _ _ H1).
  - rewrite (bind_of_Thrown _ _ _ _ _ Hpublish). simpl.
    eapply extends_trans; eauto.
Qed.

End Stages.

(** However much room the stack has, an export only extends the store: the
    objects that were there are untouched, references and log entries are
    only added. *)
Lemma exportStructDef_extends (depth : nat) (this : StructureDefinitionExporter.t)
      (d : StructureKind * FshStructure) (st : Store) :
  sat (StructureDefinitionExporter.exportStructDef depth this d st)
      (fun _ st' => extends st st') (fun _ st' => extends st st').
Proof.
  revert d st. induction depth as [|depth IH]; intros d st; simpl;
    [apply extends_refl|].
  now apply exportStructDefOnce_extends.
Qed.

(** * Self-referential parents *)

Section SelfParent.
Import StructureDefinitionExporter.
Variable reenter : StructureKind * FshStructure -> M (option nat).
Variable this : StructureDefinitionExporter.t.

(** The URL that the error message quotes for the parent. *)
Definition quotedUrl (k : StructureKind) (p : string) (st : Store) : option string :=
  match MasterFisher.fishForMetadata (tank this) (fhir this) st p
          [match k with
           | Extension => Type_Extension
           | Logical => Type_Logical
           | _ => Type_Resource
           end] with
  | Some m => meta_url m
  | None => None
  end.

(** The exception raised for an entity that names itself as parent. *)
Definition selfParentError (k : StructureKind) (d : FshStructure) (p : string) (st : Store)
  : Exception :=
  if name d =? p
  then ParentDeclaredAsNameError k (name d) (quotedUrl k p st)
  else ParentDeclaredAsIdError k (name d) (id d) (quotedUrl k p st).

Lemma getStructureDefinition_self_parent k d p st :
  parent d = Some p -> p <> "" -> name d = p \/ id d = p ->
  getStructureDefinition reenter this k d st = Thrown (selfParentError k d p st) st.
Proof.
  intros Hparent Hp Hself.
  unfold getStructureDefinition, selfParentError, quotedUrl.
  rewrite Hparent. simpl isEmpty.
  destruct (String.eqb_spec p "") as [->|_]; [congruence|].
  rewrite (bind_of_Returned _ _ st st d eq_refl).
  rewrite Hparent. simpl eqOpt.
  destruct (String.eqb_spec (name d) p) as [Hname|Hname].
  - reflexivity.
  - destruct Hself as [Hself|Hid]; [congruence|].
    rewrite (bind_of_Returned _ _ st st tt eq_refl).
    rewrite Hid, String.eqb_refl. reflexivity.
Qed.

End SelfParent.

(** C7 (as amended).  Let the declared parent of an entity be its own
    name or its own id.  When the package holds no definition under the
    entity's name, the export fails in parent resolution, with
    ParentDeclaredAsNameError or ParentDeclaredAsIdError: the exception
    leaves [exportStructDef] before any definition is built, and the store,
    with every partition of the package, is as it was.  When the package
    already holds a definition under that name, [exportStructDef] returns
    at its guard, without a value and without the error. *)
Theorem self_parent_is_fatal (depth : nat) (this : StructureDefinitionExporter.t)
        (k : StructureKind) (d : FshStructure) (p : string) (st : Store) :
  parent d = Some p -> p <> "" -> name d = p \/ id d = p ->
  exists url,
    StructureDefinitionExporter.exportStructDef (S depth) this (k, d) st
    = if StructureDefinitionExporter.alreadyExported d st
      then Returned None st
      else Thrown (if name d =? p
                   then ParentDeclaredAsNameError k (name d) url
                   else ParentDeclaredAsIdError k (name d) (id d) url)
                  st.
Proof.
  intros Hparent Hp Hself.
  exists (quotedUrl this k p st).
  simpl StructureDefinitionExporter.exportStructDef.
  unfold StructureDefinitionExporter.exportStructDefOnce.
  unfold bind at 1, gets at 1.
  destruct (StructureDefinitionExporter.alreadyExported d st); [reflexivity|].
  apply bind_of_Thrown.
  now apply getStructureDefinition_self_parent.
Qed.

Lemma self_parent_is_fatal_witness :
  (exists url,
      StructureDefinitionExporter.exportStructDef
        1 (Scenario.exporterOf Scenario.selfTank) (Profile, Scenario.SelfNamed) emptyStore
      = Thrown (ParentDeclaredAsNameError Profile "SelfNamed" url) emptyStore)
  /\ (exists url,
         StructureDefinitionExporter.exportStructDef
           1 (Scenario.exporterOf Scenario.selfTank) (Profile, Scenario.SelfId) emptyStore
         = Thrown (ParentDeclaredAsIdError Profile "SelfId" "self-id" url) emptyStore).
Proof.
  split.
  - apply (self_parent_is_fatal 0 (Scenario.exporterOf Scenario.selfTank) Profile
             Scenario.SelfNamed "SelfNamed" emptyStore);
      [reflexivity|discriminate|now left].
  - apply (self_parent_is_fatal 0 (Scenario.exporterOf Scenario.selfTank) Profile
             Scenario.SelfId "self-id" emptyStore);
      [reflexivity|discriminate|now right].
Defined.

(** C7, as stated, fails: the package holds the definition Referring, and
    an entity of that name that declares itself as parent is not compiled
    and raises no error; the store is as it was. *)
Lemma self_parent_of_a_published_name :
  parent Scenario.SelfAgain = Some (name Scenario.SelfAgain)
  /\ forall depth,
      StructureDefinitionExporter.exportStructDef
        (S depth) (Scenario.exporterOf Scenario.referringTank)
        (Profile, Scenario.SelfAgain) Scenario.whileReferring
      = Returned None Scenario.whileReferring.
Proof. split; reflexivity. Qed.

(** * Theorems about one export *)

Section ExportTheorems.
Import StructureDefinitionExporter.

Lemma alreadyExported_of fshDefinition st l sd :
  In l (everyPartition (pkg st)) -> deref st l = Some sd ->
  StructureDefinition.name sd = Some (name fshDefinition) ->
  alreadyExported fshDefinition st = true.
Proof.
  intros Hin Hsd Hname. unfold alreadyExported, everyPartition in *.
  assert (Hsome : forall partition,
             In l partition ->
             some (fun sd => sameOpt (StructureDefinition.name sd)
                                     (Some (name fshDefinition)))
                  (publishedIn st partition) = true).
  { intros partition Hl. unfold some, publishedIn. apply existsb_exists.
    exists sd. split; [|now apply sameOpt_true].
    apply in_flat_map. exists l. split; [exact Hl|]. rewrite Hsd. now left. }
  rewrite !in_app_iff in Hin. rewrite !orb_true_iff.
  destruct Hin as [H|[H|H]]; auto.
Qed.

(** Parent resolution hands back the entity it was given, but for a
    defaulted parent. *)
Lemma getStructureDefinition_resolved reenter this k fshDefinition st structDef resolved st1 :
  getStructureDefinition reenter this k fshDefinition st
  = Returned (structDef, resolved) st1 ->
  name resolved = name fshDefinition /\ id resolved = id fshDefinition
  /\ rules resolved = rules fshDefinition.
Proof.
  unfold getStructureDefinition. intros H.
  apply bind_Returned in H as (d & st' & Hd & H).
  assert (Hd' : name d = name fshDefinition /\ id d = id fshDefinition
                /\ rules d = rules fshDefinition).
  { destruct (isEmpty (parent fshDefinition)); [destruct k|];
      try discriminate; injection Hd as <- _; auto. }
  apply bind_Returned in H as (? & ? & _ & H).
  apply bind_Returned in H as (? & ? & _ & H).
  apply bind_Returned in H as (parentJson & ? & _ & H).
  destruct parentJson; [|discriminate].
  repeat match type of H with
         | (if ?c then _ else _) _ = _ => destruct c; [discriminate|]
         end.
  now injection H as _ <- _.
Qed.

Lemma exportStructDef_S depth this d :
  exportStructDef (S depth) this d = exportStructDefOnce (exportStructDef depth this) this d.
Proof. reflexivity. Qed.

(** The metadata of the skeleton that decides how the definition derives
    from its parent. *)
Lemma publishSkeleton_derivation this k fshDefinition structDef st l stP :
  publishSkeleton this k fshDefinition structDef st = Returned l stP ->
  exists sd,
    deref stP l = Some sd
    /\ StructureDefinition.baseDefinition sd = StructureDefinition.url structDef
    /\ StructureDefinition.derivation sd = Some (derivationOf k)
    /\ (k = Logical -> StructureDefinition.type sd = Some (id fshDefinition)).
Proof.
  rewrite publishSkeleton_unfold. intros H.
  apply bind_Returned in H as (sd & st1 & Hmeta & Hpublish).
  apply setMetadata_Returned in Hmeta as (-> & Hbase & Hderivation & Htype & _).
  destruct (publish_Returned sd (set_logs (logs st ++ inProgressWarning fshDefinition structDef) st))
    as (stP' & Heq & Hheap & _).
  rewrite Heq in Hpublish. injection Hpublish as <- <-.
  exists sd. split.
  - unfold deref. rewrite Hheap. simpl.
    now rewrite nth_error_app2, Nat.sub_diag.
  - split; [|split; trivial]. rewrite Hbase. unfold marked. now destruct k.
Qed.

End ExportTheorems.

(** C1 (as amended).  Once the package holds a definition under the
    entity's name, [exportStructDef] for that entity returns no value (not
    the cached definition) and leaves the store untouched.  That is the
    case after a first export that returned the definition [l], as long as
    no caret rule of the entity overwrites the definition's name: every
    further export is then such a no-op, and the definition of the first
    call is still published under the entity's name. *)
Theorem second_export_is_noop (depth : nat) (this : StructureDefinitionExporter.t)
        (k : StructureKind) (d : FshStructure) (st st' : Store) (l : nat) :
  StructureDefinitionExporter.exportStructDef depth this (k, d) st
  = Returned (Some l) st' ->
  (forall rule, In rule (rules d) -> overwrites ["name"] rule = false) ->
  (exists sd,
      deref st' l = Some sd
      /\ StructureDefinition.name sd = Some (name d)
      /\ In l (everyPartition (pkg st')))
  /\ forall depth',
      StructureDefinitionExporter.exportStructDef (S depth') this (k, d) st'
      = Returned None st'.
Proof.
  intros Hfirst Hrules.
  destruct depth as [|depth]; [discriminate|]. rewrite exportStructDef_S in Hfirst.
  destruct (StructureDefinitionExporter.alreadyExported d st) eqn:Hnew.
  { rewrite exportStructDefOnce_cached in Hfirst by trivial. discriminate. }
  pose proof Hfirst as Hstages.
  rewrite exportStructDefOnce_resolve in Hstages by trivial.
  apply bind_Returned in Hstages as ([structDef resolved] & st1 & Hresolve & Hrest).
  apply bind_Returned in Hrest as (l0 & stP & Hpublish & _). simpl in Hpublish.
  rewrite (exportStructDefOnce_stages _ _ _ _ _ _ _ _ _ _ Hnew Hresolve Hpublish)
    in Hfirst.
  destruct (getStructureDefinition_resolved _ _ _ _ _ _ _ _ Hresolve)
    as (Hname & _ & Hsame).
  apply publishSkeleton_Returned in Hpublish
    as (Hl0 & (sdP & Hheap & _ & HnameP & _) & _ & Hin & _).
  assert (HsdP : deref stP l0 = Some sdP).
  { unfold deref. rewrite Hheap, Hl0, nth_error_app2, Nat.sub_diag; trivial. }
  clear Hl0.
  pose proof (compile_completes _ this
                (exportStructDef_extends depth this) k resolved l0 stP sdP ["name"] HsdP
                ltac:(rewrite Hsame; exact Hrules)) as Hdone.
  rewrite Hfirst in Hdone. simpl in Hdone.
  destruct Hdone as (Heq & K & sd' & Hsd' & _ & Hkeys).
  assert (Hl : l0 = l) by congruence. clear Heq. rewrite Hl in *. clear Hl.
  assert (Hfinal : exists sd,
             deref st' l = Some sd
             /\ StructureDefinition.name sd = Some (name d)
             /\ In l (everyPartition (pkg st'))).
  { exists sd'. split; [exact Hsd'|]. split.
    - unfold StructureDefinition.name in *.
      rewrite (Hkeys "name") by now left. congruence.
    - unfold everyPartition in *. rewrite !in_app_iff in *.
      destruct Hin as [H|[H|H]];
        eauto using prefixOf_In, keeps_profiles, keeps_extensions, keeps_logicals. }
  split; [exact Hfinal|].
  intros depth'. rewrite exportStructDef_S. apply exportStructDefOnce_cached.
  destruct Hfinal as (sd & Hsd & Hn & Hp).
  eapply alreadyExported_of; eauto.
Qed.

Lemma second_export_is_noop_witness :
  exists st',
    StructureDefinitionExporter.exportStructDef
      1 (Scenario.exporterOf Scenario.fooTank) (Profile, Scenario.Foo) emptyStore
    = Returned (Some 0) st'
    /\ StructureDefinitionExporter.exportStructDef
         1 (Scenario.exporterOf Scenario.fooTank) (Profile, Scenario.Foo) st'
       = Returned None st'.
Proof.
  eexists. split; [vm_compute; reflexivity|].
  apply (second_export_is_noop 1 (Scenario.exporterOf Scenario.fooTank) Profile
           Scenario.Foo emptyStore _ 0).
  - vm_compute. reflexivity.
  - intros rule [<-|[<-|[]]]; reflexivity.
Defined.

(** The second call does not return the definition that the first call
    returned: it returns no value. *)
Lemma second_export_returns_nothing :
  exists st',
    StructureDefinitionExporter.exportStructDef
      1 (Scenario.exporterOf Scenario.fooTank) (Profile, Scenario.Foo) emptyStore
    = Returned (Some 0) st'
    /\ StructureDefinitionExporter.exportStructDef
         1 (Scenario.exporterOf Scenario.fooTank) (Profile, Scenario.Foo) st'
       = Returned None st'
    /\ StructureDefinitionExporter.exportStructDef
         1 (Scenario.exporterOf Scenario.fooTank) (Profile, Scenario.Foo) st'
       <> Returned (Some 0) st'.
Proof.
  eexists. split; [vm_compute; reflexivity|].
  split; [vm_compute; reflexivity|].
  vm_compute. discriminate.
Qed.

(** C3 (as amended).  Let parent resolution for an entity that is not yet
    in the package hand back a definition that carries the [inProgress]
    flag.  For profiles and logical models whose parent has well-formed
    extension lists the skeleton can always be published; and whenever it
    is (at reference [l], in store [stP]): the warning about the circular
    dependency has been logged, the skeleton is in the package with its
    flag set, and only then are the rules applied; the export throws
    nothing and returns [l], still in the package, with the flag cleared
    and the warning in the log.  (Two entities that name each other as
    parent are not covered: parent resolution hands nothing back for
    them, it ends in the exception of the exhausted call stack.) *)
Theorem in_progress_parent_compiles
        (depth : nat) (this : StructureDefinitionExporter.t) (k : StructureKind)
        (d resolved : FshStructure) (st st1 : Store) (structDef : StructureDefinition.t) :
  StructureDefinitionExporter.alreadyExported d st = false ->
  StructureDefinitionExporter.getStructureDefinition
    (StructureDefinitionExporter.exportStructDef depth this) this k d st
  = Returned (structDef, resolved) st1 ->
  StructureDefinition.inProgress structDef = true ->
  let warning :=
    {| level := Warn;
       message := StructureDefinitionExporter.circularDependencyWarning resolved |} in
  (k <> Extension ->
   listOrAbsent structDef "extension" -> listOrAbsent structDef "modifierExtension" ->
   exists l stP,
     StructureDefinitionExporter.publishSkeleton this k resolved structDef st1
     = Returned l stP)
  /\ forall l stP,
      StructureDefinitionExporter.publishSkeleton this k resolved structDef st1
      = Returned l stP ->
      In warning (logs stP)
      /\ (exists sd, deref stP l = Some sd /\ StructureDefinition.inProgress sd = true)
      /\ In l (everyPartition (pkg stP))
      /\ StructureDefinitionExporter.exportStructDef (S depth) this (k, d) st
         = (StructureDefinitionExporter.applyRules
              (StructureDefinitionExporter.exportStructDef depth this) this k resolved l ;;
            StructureDefinitionExporter.finish l ;;
            ret (Some l)) stP
      /\ exists st',
          StructureDefinitionExporter.exportStructDef (S depth) this (k, d) st
          = Returned (Some l) st'
          /\ In warning (logs st')
          /\ In l (everyPartition (pkg st'))
          /\ exists sd',
              deref st' l = Some sd'
              /\ StructureDefinition.inProgress sd' = false.
Proof.
  intros Hnew Hresolve Hflag warning. split.
  { intros Hk. now apply publishSkeleton_total. }
  intros l stP Hpublish.
  pose proof (exportStructDefOnce_stages _ _ _ _ _ _ _ _ _ _ Hnew Hresolve Hpublish)
    as Hstages.
  rewrite exportStructDef_S, Hstages.
  destruct (getStructureDefinition_resolved _ _ _ _ _ _ _ _ Hresolve)
    as (_ & _ & Hsame).
  apply publishSkeleton_Returned in Hpublish
    as (Hl & (sdP & Hheap & HflagP & _) & Hlogs & Hin & _).
  assert (HsdP : deref stP l = Some sdP).
  { unfold deref. rewrite Hheap, Hl, nth_error_app2, Nat.sub_diag; trivial. }
  assert (Hwarned : In warning (logs stP)).
  { rewrite Hlogs. apply in_or_app. right. unfold inProgressWarning.
    rewrite Hflag. now left. }
  assert (Hnone : forall rule, In rule (rules resolved) -> overwrites [] rule = false).
  { intros rule _. destruct rule; simpl; trivial. now rewrite andb_false_r. }
  split; [exact Hwarned|]. split; [eauto|]. split; [exact Hin|].
  split; [reflexivity|].
  destruct (sat_Returned _ _
              (compile_completes _ this (exportStructDef_extends depth this)
                 k resolved l stP sdP [] HsdP Hnone))
    as (r & st' & Hrun & Hr & K & sd' & Hsd' & Hflag' & _).
  exists st'. split; [now rewrite Hrun, Hr|].
  split; [eapply prefixOf_In; [apply (keeps_logs _ _ _ K)|trivial]|].
  split; [|eauto].
  unfold everyPartition in *. rewrite !in_app_iff in *.
  destruct Hin as [H|[H|H]];
    eauto using prefixOf_In, keeps_profiles, keeps_extensions, keeps_logicals.
Qed.

(** While the rules of Referring are applied, its skeleton is in the
    package and in progress; Referred, whose parent it is, compiles from
    it. *)
Lemma in_progress_parent_compiles_witness :
  exists st',
    StructureDefinitionExporter.exportStructDef
      1 (Scenario.exporterOf Scenario.referringTank) (Profile, Scenario.Referred)
      Scenario.whileReferring
    = Returned (Some 1) st'
    /\ In {| level := Warn;
             message := StructureDefinitionExporter.circularDependencyWarning
                          Scenario.Referred |}
          (logs st')
    /\ In 1 (everyPartition (pkg st'))
    /\ exists sd',
        deref st' 1 = Some sd' /\ StructureDefinition.inProgress sd' = false.
Proof.
  destruct (in_progress_parent_compiles
              0 (Scenario.exporterOf Scenario.referringTank) Profile
              Scenario.Referred Scenario.Referred
              Scenario.whileReferring Scenario.whileReferring
              Scenario.referringSkeleton eq_refl eq_refl eq_refl)
    as [Hskeleton Hcompiles].
  destruct Hskeleton as (l & stP & Hpublish); [discriminate|exact I|exact I|].
  assert (Hl : l = 1).
  { apply publishSkeleton_Returned in Hpublish as (Hl & _). exact Hl. }
  subst l.
  destruct (Hcompiles 1 stP Hpublish) as (_ & _ & _ & _ & st' & Hdone).
  exists st'. exact Hdone.
Defined.

(** The whole run on that tank: exporting Referring re-enters the exporter
    for Referred, which warns; both end up published and complete. *)
Example circular_reference_through_a_rule :
  exists st',
    StructureDefinitionExporter.export 2 (Scenario.exporterOf Scenario.referringTank)
                                       emptyStore
    = Returned tt st'
    /\ Package.profiles (pkg st') = [0; 1]
    /\ map StructureDefinition.name (heap st') = [Some "Referring"; Some "Referred"]
    /\ map StructureDefinition.inProgress (heap st') = [false; false]
    /\ map level (logs st') = [Warn; Info].
Proof. eexists. split; [vm_compute; reflexivity|]. repeat split. Qed.

(** ** Entities that name each other as parent *)

Section MutualParents.
Import StructureDefinitionExporter.
Variable reenter : StructureKind * FshStructure -> M (option nat).
Variable this : StructureDefinitionExporter.t.

Lemma fishForFHIR_Thrown item types k s st e st' :
  MasterFisher.fishForFHIR (fhir this) st item types = None ->
  wantsStructure types = true ->
  FSHTank.fish (tank this) item [Type_Profile; Type_Extension; Type_Logical]
  = Some (DefStructure k s) ->
  reenter (k, s) st = Thrown e st' ->
  fishForFHIR reenter this item types st = Thrown e st'.
Proof.
  intros Hfhir Hwants Hfish Hreenter. unfold fishForFHIR.
  unfold bind at 1. unfold gets at 1. rewrite Hfhir, Hwants, Hfish.
  now apply bind_of_Thrown.
Qed.

Lemma getStructureDefinition_Thrown k d p st e st' :
  parent d = Some p -> p <> "" -> name d <> p -> id d <> p ->
  fishForFHIR reenter this p [] st = Thrown e st' ->
  getStructureDefinition reenter this k d st = Thrown e st'.
Proof.
  intros Hparent Hp Hname Hid Hfish. unfold getStructureDefinition.
  rewrite Hparent. simpl isEmpty.
  destruct (String.eqb_spec p "") as [->|_]; [congruence|].
  rewrite (bind_of_Returned _ _ st st d eq_refl).
  rewrite Hparent. simpl eqOpt.
  destruct (String.eqb_spec (name d) p); [congruence|].
  rewrite (bind_of_Returned _ _ st st tt eq_refl).
  destruct (String.eqb_spec (id d) p); [congruence|].
  rewrite (bind_of_Returned _ _ st st tt eq_refl).
  now apply bind_of_Thrown.
Qed.

End MutualParents.

(** What the engine throws when the stack has no room for a call. *)
Definition stackExhausted : Exception := RangeError "Maximum call stack size exceeded".

(** While the package is empty, each of the two profiles sends for the
    other before anything is published: the calls nest until the stack
    has no room, and the exception of the innermost call leaves them
    all. *)
Lemma mutual_parents_exhaust_the_stack (depth : nat) (st : Store) :
  pkg st = pkg emptyStore ->
  StructureDefinitionExporter.exportStructDef
    depth (Scenario.exporterOf Scenario.circularTank) (Profile, Scenario.A) st
  = Thrown stackExhausted st
  /\ StructureDefinitionExporter.exportStructDef
       depth (Scenario.exporterOf Scenario.circularTank) (Profile, Scenario.B) st
     = Thrown stackExhausted st.
Proof.
  intros Hpkg.
  assert (Hnone : forall types, MasterFisher.published st types = []).
  { intros types. unfold MasterFisher.published, MasterFisher.partitions.
    rewrite Hpkg. simpl. destruct types as [|ty types]; [reflexivity|].
    induction (ty :: types) as [|ty' rest IH]; [reflexivity|].
    simpl. now destruct ty'. }
  assert (Hnew : forall d, StructureDefinitionExporter.alreadyExported d st = false).
  { intros d. unfold StructureDefinitionExporter.alreadyExported,
      StructureDefinitionExporter.publishedIn. now rewrite Hpkg. }
  induction depth as [|depth [IHA IHB]]; [split; reflexivity|].
  split; rewrite exportStructDef_S, exportStructDefOnce_resolve by apply Hnew;
    apply bind_of_Thrown.
  - apply getStructureDefinition_Thrown with (p := "B"); try reflexivity;
      try discriminate.
    apply fishForFHIR_Thrown with (k := Profile) (s := Scenario.B); trivial.
    unfold MasterFisher.fishForFHIR. now rewrite Hnone.
  - apply getStructureDefinition_Thrown with (p := "A"); try reflexivity;
      try discriminate.
    apply fishForFHIR_Thrown with (k := Profile) (s := Scenario.A); trivial.
    unfold MasterFisher.fishForFHIR. now rewrite Hnone.
Qed.

(** C3, as stated, fails for two profiles that name each other as parent.
    However much room the stack has, the export of either ends in the
    exception of the exhausted stack: no call hands a definition back.  The
    run over the tank catches the exception for each of them: it returns
    with the two errors in the log, and nothing is published. *)
Lemma mutual_parents_never_compile :
  ~ (exists depth r st',
        StructureDefinitionExporter.exportStructDef
          depth (Scenario.exporterOf Scenario.circularTank) (Profile, Scenario.A)
          emptyStore
        = Returned r st')
  /\ forall depth,
      StructureDefinitionExporter.export
        depth (Scenario.exporterOf Scenario.circularTank) emptyStore
      = Returned tt
          (set_logs [{| level := Error; message := MessageOf stackExhausted |};
                     {| level := Error; message := MessageOf stackExhausted |};
                     {| level := Info;
                        message := Text "Converted 2 FHIR StructureDefinitions." |}]
                    emptyStore).
Proof.
  split.
  - intros (depth & r & st' & H).
    rewrite (proj1 (mutual_parents_exhaust_the_stack depth emptyStore eq_refl)) in H.
    discriminate.
  - intros depth.
    set (this := Scenario.exporterOf Scenario.circularTank).
    set (logged := {| level := Error; message := MessageOf stackExhausted |}).
    set (handler := fun e => logger.error (MessageOf e)).
    assert (HA : tryCatch (StructureDefinitionExporter.exportStructDef
                             depth this (Profile, Scenario.A) ;; ret tt)
                          handler emptyStore
                 = Returned tt (set_logs [logged] emptyStore)).
    { unfold tryCatch.
      rewrite (bind_of_Thrown _ _ _ _ _
                 (proj1 (mutual_parents_exhaust_the_stack depth emptyStore eq_refl))).
      reflexivity. }
    assert (HB : tryCatch (StructureDefinitionExporter.exportStructDef
                             depth this (Profile, Scenario.B) ;; ret tt)
                          handler (set_logs [logged] emptyStore)
                 = Returned tt (set_logs [logged; logged] emptyStore)).
    { unfold tryCatch.
      rewrite (bind_of_Thrown _ _ _ _ _
                 (proj2 (mutual_parents_exhaust_the_stack
                           depth (set_logs [logged] emptyStore) eq_refl))).
      reflexivity. }
    unfold StructureDefinitionExporter.export.
    change (FSHTank.getAllStructureDefinitions
              (StructureDefinitionExporter.tank this))
      with [(Profile, Scenario.A); (Profile, Scenario.B)].
    cbv zeta. simpl forEach. fold handler.
    erewrite bind_of_Returned.
    2:{ rewrite (bind_of_Returned _ _ _ _ _ HA).
        rewrite (bind_of_Returned _ _ _ _ _ HB). reflexivity. }
    reflexivity.
Qed.

(** The run over that tank logs both errors and publishes nothing. *)
Example self_parents_publish_nothing :
  exists st',
    StructureDefinitionExporter.export 1 (Scenario.exporterOf Scenario.selfTank) emptyStore
    = Returned tt st'
    /\ heap st' = [] /\ everyPartition (pkg st') = []
    /\ map level (logs st') = [Error; Error; Info].
Proof. eexists. split; [vm_compute; reflexivity|]. repeat split. Qed.

(** C5 (as amended).  The check at the end of an export looks through all
    three partitions of the package, not only the definition's own: a
    duplicate-id error is logged exactly when some other definition, in
    whichever partition, has the same id.  The check throws nothing and
    changes nothing but the log, so the definition stays published. *)
Theorem duplicate_id_is_reported (l : nat) (st : Store) (sd : StructureDefinition.t) :
  deref st l = Some sd ->
  (SharesId st l (everyPartition (pkg st)) ->
   StructureDefinitionExporter.checkUniqueId l st
   = Returned tt (set_logs (logs st ++ [duplicateIdError sd]) st))
  /\ (~ SharesId st l (everyPartition (pkg st)) ->
      StructureDefinitionExporter.checkUniqueId l st = Returned tt st).
Proof.
  intros Hsd. rewrite (checkUniqueId_Returned l st sd Hsd).
  split.
  - intros H. apply hasDuplicateId_true in H. now rewrite H.
  - intros H. destruct (StructureDefinitionExporter.hasDuplicateId st l) eqn:Hdup;
      [|reflexivity].
    apply hasDuplicateId_true in Hdup. contradiction.
Qed.

(** The extension of the scenario is alone in its partition, and the
    profile with its id is found in another: the error is logged.  The one
    definition of the other scenario has no double: nothing is logged. *)
Lemma duplicate_id_is_reported_witness :
  StructureDefinitionExporter.checkUniqueId 1 Scenario.sameIdPublished
  = Returned tt
      (set_logs
         [{| level := Error;
             message := Text ("Multiple structure definitions with id same-id. "
                              +++ "Each structure definition must have a unique id.") |}]
         Scenario.sameIdPublished)
  /\ StructureDefinitionExporter.checkUniqueId 0 Scenario.whileReferring
     = Returned tt Scenario.whileReferring.
Proof.
  split.
  - apply (proj1 (duplicate_id_is_reported
                    1 Scenario.sameIdPublished
                    (Scenario.published "SameIdExtension" "same-id" "Extension")
                    eq_refl)).
    exists 0, (Scenario.published "SameIdExtension" "same-id" "Extension"),
      (Scenario.published "SameIdProfile" "same-id" "Patient").
    split; [now left|]. split; [discriminate|]. repeat split.
  - apply (proj2 (duplicate_id_is_reported 0 Scenario.whileReferring
                    Scenario.referringSkeleton eq_refl)).
    intros (other & sd & sd' & Hin & Hne & _). simpl in Hin.
    destruct Hin as [<-|[]]. now apply Hne.
Defined.

(** A profile and an extension with the same id: the extension is alone in
    its partition, and the error is reported all the same. *)
Lemma duplicate_id_across_partitions :
  exists st',
    StructureDefinitionExporter.export 1 (Scenario.exporterOf Scenario.sameIdTank)
                                       emptyStore
    = Returned tt st'
    /\ Package.profiles (pkg st') = [0]
    /\ Package.extensions (pkg st') = [1]
    /\ ~ SharesId st' 1 (Package.extensions (pkg st'))
    /\ In {| level := Error;
             message := Text ("Multiple structure definitions with id same-id. "
                              +++ "Each structure definition must have a unique id.") |}
          (logs st').
Proof.
  eexists. split; [vm_compute; reflexivity|].
  split; [reflexivity|]. split; [reflexivity|]. split.
  - intros (other & sd & sd' & Hin & Hne & _). simpl in Hin.
    destruct Hin as [<-|[]]. now apply Hne.
  - simpl. tauto.
Qed.

(** ** Invariants *)

Section Obeys.
Import StructureDefinitionExporter.
Variable reenter : StructureKind * FshStructure -> M (option nat).
Variable this : StructureDefinitionExporter.t.

Lemma theStructDef_Returned l st sd :
  deref st l = Some sd -> theStructDef l st = Returned sd st.
Proof. intros H. unfold theStructDef, bind, gets. now rewrite H. Qed.

Lemma find_updateFirst elementId f es e :
  find (fun x => ElementDefinition.id x =? elementId) es = Some e ->
  ElementDefinition.id (f e) = ElementDefinition.id e ->
  find (fun x => ElementDefinition.id x =? elementId)
       (StructureDefinition.updateFirst elementId f es)
  = Some (f e).
Proof.
  intros Hfind Hid. induction es as [|x es IH]; simpl in *; [discriminate|].
  destruct (ElementDefinition.id x =? elementId) eqn:Hx.
  - injection Hfind as ->. simpl. now rewrite Hid, Hx.
  - simpl. rewrite Hx. auto.
Qed.

Lemma findElement_updateElement sd elementId f e :
  StructureDefinition.findElement sd elementId = Some e ->
  ElementDefinition.id (f e) = ElementDefinition.id e ->
  StructureDefinition.findElement (StructureDefinition.updateElement elementId f sd)
                                  elementId
  = Some (f e).
Proof. apply find_updateFirst. Qed.

Lemma findElement_id sd elementId e :
  StructureDefinition.findElement sd elementId = Some e ->
  ElementDefinition.id e = elementId.
Proof.
  unfold StructureDefinition.findElement. intros H.
  apply find_some in H as [_ H]. now apply String.eqb_eq.
Qed.

Lemma findElementByPath_findElement sd p e :
  StructureDefinition.findElementByPath sd p = Some e ->
  StructureDefinition.findElement sd (ElementDefinition.id e) = Some e.
Proof.
  unfold StructureDefinition.findElementByPath. intros H.
  now rewrite (findElement_id _ _ _ H).
Qed.

End Obeys.

(** C4 (as amended).  When an ObeysRule resolves to an invariant and its
    path to an element, the constraint (key, severity, human description,
    expression) is attached to the element with the definition's own URL as
    source, whether or not the invariant's name is a well-formed id: the
    name is checked after the constraint has been attached.  A malformed
    name adds an InvalidFHIRIdError to the log and changes nothing else;
    the rule loop goes on in both cases. *)
Theorem obeys_rule_attaches_constraint
        (reenter : StructureKind * FshStructure -> M (option nat))
        (this : StructureDefinitionExporter.t) (k : StructureKind)
        (fshDefinition : FshStructure) (l : nat) (st : Store)
        (sd : StructureDefinition.t) (e : ElementDefinition.t)
        (rulePath invariantName : string) (invariant : Invariant) :
  deref st l = Some sd ->
  StructureDefinition.findElementByPath sd rulePath = Some e ->
  FSHTank.fish (StructureDefinitionExporter.tank this) invariantName [Type_Invariant]
  = Some (DefInvariant invariant) ->
  let attached :=
    mutate l (StructureDefinition.updateElement
                (ElementDefinition.id e)
                (ElementDefinition.applyConstraint invariant (StructureDefinition.url sd)))
           st in
  StructureDefinitionExporter.applySdRule reenter this k fshDefinition l
    (ObeysRule rulePath invariantName) st
  = Returned tt
      (if idRegex_test (inv_name invariant) then attached
       else set_logs (logs attached
                      ++ [{| level := Error;
                             message := MessageOf (InvalidFHIRIdError (inv_name invariant)) |}])
                     attached)
  /\ exists sd' e',
      deref attached l = Some sd'
      /\ StructureDefinition.findElement sd' (ElementDefinition.id e) = Some e'
      /\ ElementDefinition.constraint e'
         = ElementDefinition.constraint e
           ++ [{| ElementDefinition.key := Some (inv_name invariant);
                  ElementDefinition.severity := inv_severity invariant;
                  ElementDefinition.human := inv_description invariant;
                  ElementDefinition.expression := inv_expression invariant;
                  ElementDefinition.xpath := inv_xpath invariant;
                  ElementDefinition.source := StructureDefinition.url sd |}].
Proof.
  intros Hsd He Hfish attached. split.
  - unfold StructureDefinitionExporter.applySdRule.
    rewrite (bind_of_Returned _ _ _ _ _ (theStructDef_Returned l st sd Hsd)).
    cbv zeta. simpl rule_path. rewrite He.
    unfold StructureDefinitionExporter.applyCaretValueRule.
    rewrite (bind_of_Returned _ _ st st tt eq_refl).
    unfold tryCatch, StructureDefinitionExporter.applyToElement.
    rewrite Hfish.
    rewrite (bind_of_Returned _ _ _ _ _ (theStructDef_Returned l st sd Hsd)).
    unfold bind at 1, StructureDefinitionExporter.onElement, modify.
    fold attached.
    destruct (idRegex_test (inv_name invariant)); reflexivity.
  - eexists. eexists. split; [unfold attached; apply deref_mutate_same, Hsd|]. split.
    + apply findElement_updateElement; [|reflexivity].
      now apply findElementByPath_findElement with (p := rulePath).
    + reflexivity.
Qed.

Lemma obeys_rule_attaches_constraint_witness :
  exists st',
    StructureDefinitionExporter.applySdRule
      (fun _ => ret None) (Scenario.exporterOf Scenario.obeyingTank) Profile
      Scenario.Obeying 0 (ObeysRule "name" "inv-1") Scenario.whileReferring
    = Returned tt st'
    /\ logs st' = [].
Proof.
  eexists.
  destruct (obeys_rule_attaches_constraint
              (fun _ => ret None) (Scenario.exporterOf Scenario.obeyingTank) Profile
              Scenario.Obeying 0 Scenario.whileReferring Scenario.referringSkeleton
              (Scenario.element "Patient.name" (Scenario.ofType "HumanName"))
              "name" "inv-1" Scenario.wellFormed eq_refl eq_refl eq_refl)
    as [Hrule _].
  split; [exact Hrule|reflexivity].
Defined.

(** An invariant named [inv_1] is not a well-formed id: the error is logged,
    and the constraint is on the element of the published definition. *)
Lemma malformed_invariant_is_attached :
  exists st' sd e,
    StructureDefinitionExporter.exportStructDef
      1 (Scenario.exporterOf Scenario.obeyingTank) (Profile, Scenario.Obeying) emptyStore
    = Returned (Some 0) st'
    /\ idRegex_test "inv_1" = false
    /\ logs st' = [{| level := Error; message := MessageOf (InvalidFHIRIdError "inv_1") |}]
    /\ deref st' 0 = Some sd
    /\ StructureDefinition.findElementByPath sd "name" = Some e
    /\ ElementDefinition.constraint e = [Scenario.malformedConstraint].
Proof.
  eexists. eexists. eexists.
  split; [vm_compute; reflexivity|].
  split; [reflexivity|]. split; [reflexivity|].
  split; [reflexivity|]. split; reflexivity.
Qed.

(** C9 (as amended).  Let an export return the definition [l], and let no
    caret rule of the entity overwrite [baseDefinition], [derivation] or
    [type] on the definition itself.  Then the [baseDefinition] of the
    compiled definition is the URL of the definition that parent
    resolution handed back, as it was before any metadata was touched;
    its [derivation] is "specialization" for a logical model and
    "constraint" otherwise; and for a logical model its [type] is the
    entity's own id. *)
Theorem compiled_baseDefinition_derivation
        (depth : nat) (this : StructureDefinitionExporter.t) (k : StructureKind)
        (d : FshStructure) (st st' : Store) (l : nat) :
  StructureDefinitionExporter.exportStructDef (S depth) this (k, d) st
  = Returned (Some l) st' ->
  (forall rule,
      In rule (rules d) ->
      overwrites ["baseDefinition"; "derivation"; "type"] rule = false) ->
  exists parentJson resolved st1 sd,
    StructureDefinitionExporter.getStructureDefinition
      (StructureDefinitionExporter.exportStructDef depth this) this k d st
    = Returned (parentJson, resolved) st1
    /\ deref st' l = Some sd
    /\ StructureDefinition.baseDefinition sd = StructureDefinition.url parentJson
    /\ StructureDefinition.derivation sd
       = Some (if match k with Logical => true | _ => false end
               then "specialization" else "constraint")
    /\ (k = Logical -> StructureDefinition.type sd = Some (id d)).
Proof.
  intros Hexport Hrules. rewrite exportStructDef_S in Hexport.
  destruct (StructureDefinitionExporter.alreadyExported d st) eqn:Hnew.
  { rewrite exportStructDefOnce_cached in Hexport by trivial. discriminate. }
  pose proof Hexport as Hstages.
  rewrite exportStructDefOnce_resolve in Hstages by trivial.
  apply bind_Returned in Hstages as ([structDef resolved] & st1 & Hresolve & Hrest).
  apply bind_Returned in Hrest as (l0 & stP & Hpublish & _). simpl in Hpublish.
  rewrite (exportStructDefOnce_stages _ _ _ _ _ _ _ _ _ _ Hnew Hresolve Hpublish)
    in Hexport.
  destruct (getStructureDefinition_resolved _ _ _ _ _ _ _ _ Hresolve)
    as (_ & Hid & Hsame).
  destruct (publishSkeleton_derivation _ _ _ _ _ _ _ Hpublish)
    as (sdP & HsdP & Hbase & Hderivation & Htype).
  pose proof (compile_completes _ this
                (exportStructDef_extends depth this) k resolved l0 stP sdP
                ["baseDefinition"; "derivation"; "type"] HsdP
                ltac:(rewrite Hsame; exact Hrules)) as Hdone.
  rewrite Hexport in Hdone. simpl in Hdone.
  destruct Hdone as (Heq & _ & sd' & Hsd' & _ & Hkeys).
  assert (Hl : l0 = l) by congruence. rewrite Hl in *. clear Heq Hl.
  exists structDef, resolved, st1, sd'. split; [exact Hresolve|]. split; [exact Hsd'|].
  unfold StructureDefinition.baseDefinition, StructureDefinition.derivation,
    StructureDefinition.type in *.
  rewrite !Hkeys by (simpl; tauto).
  split; [exact Hbase|]. split.
  - rewrite Hderivation. now destruct k.
  - intros Hk. rewrite (Htype Hk). now rewrite Hid.
Qed.

Lemma compiled_baseDefinition_derivation_witness :
  exists st' sd,
    StructureDefinitionExporter.exportStructDef
      1 (Scenario.exporterOf Scenario.fooTank) (Profile, Scenario.Foo) emptyStore
    = Returned (Some 0) st'
    /\ deref st' 0 = Some sd
    /\ StructureDefinition.baseDefinition sd
       = Some "http://hl7.org/fhir/StructureDefinition/Patient"
    /\ StructureDefinition.derivation sd = Some "constraint".
Proof.
  assert (Hrun : exists st',
             StructureDefinitionExporter.exportStructDef
               1 (Scenario.exporterOf Scenario.fooTank) (Profile, Scenario.Foo) emptyStore
             = Returned (Some 0) st')
    by (eexists; vm_compute; reflexivity).
  destruct Hrun as [st' Hrun].
  destruct (compiled_baseDefinition_derivation
              0 (Scenario.exporterOf Scenario.fooTank) Profile Scenario.Foo
              emptyStore st' 0 Hrun)
    as (parentJson & resolved & st1 & sd & Hresolve & Hsd & Hbase & Hderivation & _).
  { intros rule [<-|[<-|[]]]; reflexivity. }
  exists st', sd. split; [exact Hrun|]. split; [exact Hsd|].
  split; [|exact Hderivation].
  rewrite Hbase.
  assert (Hparent : StructureDefinitionExporter.getStructureDefinition
                      (StructureDefinitionExporter.exportStructDef
                         0 (Scenario.exporterOf Scenario.fooTank))
                      (Scenario.exporterOf Scenario.fooTank) Profile Scenario.Foo
                      emptyStore
                    = Returned (Scenario.Patient, Scenario.Foo) emptyStore)
    by reflexivity.
  rewrite Hparent in Hresolve. now injection Hresolve as <- _ _.
Defined.

(** C9, as stated, fails: rules are applied after the metadata is set, and
    a caret rule on [derivation] has the last word.  The profile below is
    published with the derivation of a logical model. *)
Lemma caret_rule_overrides_derivation :
  exists st' sd,
    StructureDefinitionExporter.exportStructDef
      1 (Scenario.exporterOf (Scenario.tankOf [Scenario.Overridden] [] [] []))
      (Profile, Scenario.Overridden) emptyStore
    = Returned (Some 0) st'
    /\ deref st' 0 = Some sd
    /\ StructureDefinition.derivation sd = Some "specialization".
Proof.
  eexists. eexists. split; [vm_compute; reflexivity|].
  split; reflexivity.
Qed.

(** * Slices of an extension element *)

Section SliceLists.

Variable p : ElementDefinition.t -> bool.

Lemma insertAfterLast_split (base : string) (x : ElementDefinition.t)
      (es : list ElementDefinition.t) :
  exists before after,
    es = before ++ after
    /\ StructureDefinition.insertAfterLast base x es = before ++ x :: after.
Proof.
  induction es as [|e es IH]; simpl.
  - exists [], []. auto.
  - destruct (existsb (StructureDefinition.under base) es).
    + destruct IH as (before & after & -> & ->). exists (e :: before), after. auto.
    + exists [e], es. auto.
Qed.

Lemma find_app_skip (before after : list ElementDefinition.t) (x : ElementDefinition.t) :
  p x = false -> find p (before ++ x :: after) = find p (before ++ after).
Proof.
  intros Hx. induction before as [|b before IH]; simpl; [now rewrite Hx|].
  now rewrite IH.
Qed.

Lemma find_app_first (before after : list ElementDefinition.t) (x : ElementDefinition.t) :
  (forall y, In y before -> p y = false) -> p x = true ->
  find p (before ++ x :: after) = Some x.
Proof.
  intros Hbefore Hx. induction before as [|b before IH]; simpl; [now rewrite Hx|].
  rewrite (Hbefore b) by now left. apply IH. intros y Hy. apply Hbefore. now right.
Qed.

Lemma filter_none (es : list ElementDefinition.t) :
  (forall y, In y es -> p y = false) -> filter p es = [].
Proof.
  induction es as [|e es IH]; intros H; simpl; [reflexivity|].
  rewrite (H e) by now left. apply IH. intros y Hy. apply H. now right.
Qed.

Lemma existsb_none (es : list ElementDefinition.t) :
  existsb p es = false -> forall y, In y es -> p y = false.
Proof.
  intros H y Hy. destruct (p y) eqn:Hp; [|reflexivity].
  assert (existsb p es = true) by (apply existsb_exists; eauto). congruence.
Qed.

Lemma find_filter (q : ElementDefinition.t -> bool) (es : list ElementDefinition.t) :
  find p (filter q es) = find (fun x => q x && p x) es.
Proof.
  induction es as [|e es IH]; simpl; [reflexivity|].
  destruct (q e); simpl; [|exact IH]. now rewrite IH.
Qed.

End SliceLists.

Lemma updateFirst_split (elementId : string)
      (f : ElementDefinition.t -> ElementDefinition.t)
      (before after : list ElementDefinition.t) (x : ElementDefinition.t) :
  (forall y, In y before -> (ElementDefinition.id y =? elementId) = false) ->
  ElementDefinition.id x = elementId ->
  StructureDefinition.updateFirst elementId f (before ++ x :: after)
  = before ++ f x :: after.
Proof.
  intros Hbefore Hx. induction before as [|b before IH]; simpl.
  - now rewrite Hx, String.eqb_refl.
  - rewrite (Hbefore b) by now left. f_equal. apply IH.
    intros y Hy. apply Hbefore. now right.
Qed.

Lemma length_append (s t : string) :
  String.length (s +++ t) = String.length s + String.length t.
Proof. induction s as [|c s IH]; simpl; [reflexivity|]. now rewrite IH. Qed.

Lemma append_neq_self (s t : string) : t <> "" -> s +++ t <> s.
Proof.
  intros Ht H. apply (f_equal String.length) in H.
  rewrite length_append in H.
  destruct t; [congruence|]. simpl in H. lia.
Qed.

(** ** The metadata fished from the package does not depend on element trees *)

Section MetadataStability.

Variable f : StructureDefinition.t -> StructureDefinition.t.
Hypothesis f_props : forall sd, StructureDefinition.props (f sd) = StructureDefinition.props sd.

Lemma answersTo_props item sd :
  MasterFisher.answersTo item (f sd) = MasterFisher.answersTo item sd.
Proof.
  unfold MasterFisher.answersTo, StructureDefinition.name, StructureDefinition.id,
    StructureDefinition.url.
  now rewrite !(getString_props_eq _ _ _ (f_props sd)).
Qed.

Lemma metadataOf_props sd : MasterFisher.metadataOf (f sd) = MasterFisher.metadataOf sd.
Proof.
  unfold MasterFisher.metadataOf, StructureDefinition.name, StructureDefinition.id,
    StructureDefinition.url, StructureDefinition.baseDefinition, StructureDefinition.type.
  now rewrite !(getString_props_eq _ _ _ (f_props sd)).
Qed.

Lemma deref_mutate l st i :
  deref (mutate l f st) i
  = if (i =? l)%nat then option_map f (deref st l) else deref st i.
Proof.
  destruct (Nat.eqb_spec i l) as [->|Hne].
  - destruct (deref st l) as [sd|] eqn:Hsd; simpl.
    + now apply deref_mutate_same.
    + unfold mutate. now rewrite Hsd.
  - now apply deref_mutate_other.
Qed.

Lemma published_metadata l st item (refs : list nat) :
  option_map MasterFisher.metadataOf
    (find (MasterFisher.answersTo item)
          (flat_map (fun i => match deref (mutate l f st) i with
                              | Some sd => [sd]
                              | None => []
                              end) refs))
  = option_map MasterFisher.metadataOf
      (find (MasterFisher.answersTo item)
            (flat_map (fun i => match deref st i with
                                | Some sd => [sd]
                                | None => []
                                end) refs)).
Proof.
  induction refs as [|i refs IH]; simpl; [reflexivity|].
  rewrite deref_mutate. destruct (Nat.eqb_spec i l) as [->|Hne].
  - destruct (deref st l) as [sd|]; simpl; [|exact IH].
    rewrite answersTo_props. destruct (MasterFisher.answersTo item sd); simpl.
    + now rewrite metadataOf_props.
    + exact IH.
  - destruct (deref st i) as [sd|]; simpl; [|exact IH].
    destruct (MasterFisher.answersTo item sd); [reflexivity|exact IH].
Qed.

Lemma fishForMetadata_mutate tank fhir l st item types :
  MasterFisher.fishForMetadata tank fhir (mutate l f st) item types
  = MasterFisher.fishForMetadata tank fhir st item types.
Proof.
  unfold MasterFisher.fishForMetadata, MasterFisher.fishForFHIR, MasterFisher.published.
  destruct (FSHTank.fishForMetadata tank item types); [reflexivity|]. simpl.
  destruct (mutate_frame l f st) as (Hpkg & _). rewrite Hpkg.
  pose proof (published_metadata l st item (MasterFisher.partitions (pkg st) types)) as H.
  destruct (find _ (flat_map _ _)) as [sd1|];
    destruct (find (MasterFisher.answersTo item) (flat_map _ (MasterFisher.partitions _ _)))
    as [sd2|]; simpl in *; trivial; discriminate.
Qed.

End MetadataStability.

Lemma replaceNth_replaceNth {A} (n : nat) (x y : A) (xs : list A) :
  replaceNth n x (replaceNth n y xs) = replaceNth n x xs.
Proof.
  revert n. induction xs as [|z xs IH]; intros [|n]; simpl; trivial. now rewrite IH.
Qed.

Lemma mutate_mutate l g1 g2 st sd :
  deref st l = Some sd ->
  mutate l g2 (mutate l g1 st) = mutate l (fun _ => g2 (g1 sd)) st.
Proof.
  intros Hsd. pose proof (deref_mutate_same l g1 st sd Hsd) as H1.
  unfold mutate at 1. rewrite H1. unfold mutate. rewrite Hsd. simpl.
  now rewrite replaceNth_replaceNth.
Qed.

Lemma mutate_const l g st sd :
  deref st l = Some sd -> mutate l g st = mutate l (fun _ => g sd) st.
Proof. intros Hsd. unfold mutate. now rewrite Hsd. Qed.

Lemma existsb_updateFirst_id (q : string -> bool) (elementId : string)
      (f : ElementDefinition.t -> ElementDefinition.t) (es : list ElementDefinition.t) :
  (forall x, ElementDefinition.id (f x) = ElementDefinition.id x) ->
  existsb (fun x => q (ElementDefinition.id x))
          (StructureDefinition.updateFirst elementId f es)
  = existsb (fun x => q (ElementDefinition.id x)) es.
Proof.
  intros Hf. induction es as [|e es IH]; simpl; [reflexivity|].
  destruct (ElementDefinition.id e =? elementId); simpl; [now rewrite Hf|now rewrite IH].
Qed.

Section ExtensionSlices.
Import StructureDefinitionExporter.

Variable this : StructureDefinitionExporter.t.
Variable k : StructureKind.
Variable rulePath : string.
Variable l : nat.
Variable elementId sliceName : string.

(** The address of the slice. *)
Definition sliceId : string := elementId +++ "[" +++ sliceName +++ "]".

Definition typedItem (itemType : string) : ContainsRuleItem :=
  {| item_name := sliceName; item_type := Some itemType |}.

(** The type list of a slice that was constrained to the profile [url]. *)
Definition profiled (ty0 : ElementDefinition.ElementDefinitionType)
           (others : list ElementDefinition.ElementDefinitionType) (url : option string)
  : option (list ElementDefinition.ElementDefinitionType) :=
  Some ({| ElementDefinition.code := ElementDefinition.code ty0;
           ElementDefinition.profile :=
             Some (match ElementDefinition.profile ty0 with
                   | Some ps => ps
                   | None => []
                   end ++ [url]) |} :: others).

Definition duplicateSlice (lv : Level) : LogEntry :=
  {| level := lv; message := MessageOf (DuplicateSliceError elementId sliceName) |}.

Lemma theElement_Returned st sd e :
  deref st l = Some sd -> StructureDefinition.findElement sd elementId = Some e ->
  theElement l elementId st = Returned e st.
Proof.
  intros Hsd He. unfold theElement.
  rewrite (bind_of_Returned _ _ _ _ _ (theStructDef_Returned l st sd Hsd)).
  now rewrite He.
Qed.

Lemma nonEmpty_Some (s : string) : s <> "" -> nonEmpty (Some s) = Some s.
Proof. intros Hs. simpl. now destruct (String.eqb_spec s ""). Qed.

(** Declaring a slice that is not there yet. *)
Lemma declare_new_slice st sd e ty0 others itemType m :
  deref st l = Some sd ->
  StructureDefinition.findElement sd elementId = Some e ->
  ElementDefinition.type e = Some (ty0 :: others) ->
  existsb (fun x => ElementDefinition.id x =? sliceId) (StructureDefinition.elements sd)
  = false ->
  itemType <> "" ->
  MasterFisher.fishForMetadata (tank this) (fhir this) st itemType [Type_Extension]
  = Some m ->
  exists before after,
    StructureDefinition.elements sd = before ++ after
    /\ containsExtensionItem this k rulePath l elementId (typedItem itemType) st
       = Returned tt
           (mutate l
              (StructureDefinition.set_elements
                 (before
                  ++ ElementDefinition.set_type (profiled ty0 others (meta_url m))
                       (ElementDefinition.newSlice e sliceName)
                  :: after))
              st).
Proof.
  intros Hsd He Hty Hnew HitemType Hm.
  pose proof (findElement_id _ _ _ He) as Hid.
  destruct (insertAfterLast_split (ElementDefinition.path e)
              (ElementDefinition.newSlice e sliceName) (StructureDefinition.elements sd))
    as (before & after & Hes & Hinsert).
  exists before, after. split; [exact Hes|].
  unfold containsExtensionItem, typedItem. cbn [item_type item_name].
  rewrite (nonEmpty_Some _ HitemType).
  unfold fishForMetadata. unfold bind at 1. unfold gets at 1. rewrite Hm.
  unfold tryCatch, addSlice. rewrite bind_assoc.
  rewrite (bind_of_Returned _ _ _ _ _ (theElement_Returned st sd e Hsd He)).
  rewrite bind_assoc.
  rewrite (bind_of_Returned _ _ _ _ _ (theStructDef_Returned l st sd Hsd)).
  assert (HsliceId : ElementDefinition.id (ElementDefinition.newSlice e sliceName) = sliceId).
  { simpl. now rewrite Hid. }
  rewrite HsliceId, Hnew.
  unfold bind at 1 2. unfold modify at 1. unfold ret at 1.
  unfold pushProfile.
  change (ElementDefinition.type (ElementDefinition.newSlice e sliceName))
    with (ElementDefinition.type e).
  rewrite Hty.
  unfold onElement, modify. rewrite HsliceId.
  f_equal. rewrite (mutate_mutate _ _ _ _ _ Hsd).
  rewrite (mutate_const l (StructureDefinition.set_elements _) st sd Hsd).
  f_equal. unfold StructureDefinition.updateElement. simpl. rewrite Hinsert.
  rewrite updateFirst_split; trivial.
  intros y Hy. apply (existsb_none _ _ Hnew). rewrite Hes. apply in_or_app. now left.
Qed.

(** Declaring again a slice that is there. *)
Lemma redeclare_slice st sd e before slice after ty tys ps itemType m :
  deref st l = Some sd ->
  StructureDefinition.findElement sd elementId = Some e ->
  StructureDefinition.elements sd = before ++ slice :: after ->
  (forall y, In y before -> (ElementDefinition.id y =? sliceId) = false) ->
  ElementDefinition.id slice = sliceId ->
  ElementDefinition.sliceName slice = Some sliceName ->
  ElementDefinition.type slice = Some (ty :: tys) ->
  ElementDefinition.profile ty = Some ps ->
  itemType <> "" ->
  MasterFisher.fishForMetadata (tank this) (fhir this) st itemType [Type_Extension]
  = Some m ->
  containsExtensionItem this k rulePath l elementId (typedItem itemType) st
  = Returned tt
      (set_logs (logs st
                 ++ [duplicateSlice
                       (if some (fun p => sameOpt p (meta_url m)) ps then Warn else Error)])
                st).
Proof.
  intros Hsd He Hes Hbefore HsliceId HsliceName Hty Hps HitemType Hm.
  pose proof (findElement_id _ _ _ He) as Hid.
  unfold containsExtensionItem, typedItem. cbn [item_type item_name].
  rewrite (nonEmpty_Some _ HitemType).
  unfold fishForMetadata. unfold bind at 1. unfold gets at 1. rewrite Hm.
  unfold tryCatch, addSlice. rewrite bind_assoc.
  rewrite (bind_of_Returned _ _ _ _ _ (theElement_Returned st sd e Hsd He)).
  rewrite bind_assoc.
  rewrite (bind_of_Returned _ _ _ _ _ (theStructDef_Returned l st sd Hsd)).
  assert (Hnew : ElementDefinition.id (ElementDefinition.newSlice e sliceName) = sliceId).
  { simpl. now rewrite Hid. }
  rewrite Hnew.
  assert (Hthere : existsb (fun x => ElementDefinition.id x =? sliceId)
                           (StructureDefinition.elements sd) = true).
  { apply existsb_exists. exists slice. split.
    - rewrite Hes. apply in_or_app. right. now left.
    - rewrite HsliceId. apply String.eqb_refl. }
  rewrite Hthere. unfold bind at 1. unfold throw at 1.
  unfold sliceRefersTo. rewrite bind_assoc.
  rewrite (bind_of_Returned _ _ _ _ _ (theElement_Returned st sd e Hsd He)).
  rewrite bind_assoc.
  rewrite (bind_of_Returned _ _ _ _ _ (theStructDef_Returned l st sd Hsd)).
  unfold StructureDefinition.getSlices. rewrite find_filter, Hes.
  rewrite find_app_first.
  - rewrite Hty, Hps. unfold bind, ret.
    destruct (some (fun p => sameOpt p (meta_url m)) ps); reflexivity.
  - intros y Hy.
    destruct (ElementDefinition.sliceName y) as [n|] eqn:Hn; [|reflexivity].
    simpl sameOpt. destruct (String.eqb_spec n sliceName) as [->|_];
      [|apply andb_false_r].
    rewrite Hnew. rewrite (Hbefore y Hy). reflexivity.
  - rewrite HsliceName, Hnew, HsliceId, String.eqb_refl. simpl.
    now rewrite String.eqb_refl.
Qed.

End ExtensionSlices.

Lemma sameOpt_refl (a : option string) : StructureDefinitionExporter.sameOpt a a = true.
Proof. now apply sameOpt_true. Qed.

Lemma some_sameOpt_last (ps : list (option string)) (url : option string) :
  some (fun p => StructureDefinitionExporter.sameOpt p url) (ps ++ [url]) = true.
Proof.
  unfold some. rewrite existsb_app. simpl. rewrite sameOpt_refl.
  now rewrite orb_true_r.
Qed.

Lemma some_sameOpt_other (ps : list (option string)) (url other : option string) :
  other <> url -> ~ In other ps ->
  some (fun p => StructureDefinitionExporter.sameOpt p other) (ps ++ [url]) = false.
Proof.
  intros Hne Hnot. unfold some. rewrite existsb_app. simpl.
  apply orb_false_iff. split.
  - destruct (existsb _ ps) eqn:H; [|reflexivity].
    apply existsb_exists in H as (p & Hin & Hp). apply sameOpt_true in Hp. now subst.
  - rewrite orb_false_r.
    destruct (StructureDefinitionExporter.sameOpt url other) eqn:H; [|reflexivity].
    apply sameOpt_true in H. congruence.
Qed.

(** C6.  On an element whose slices get a type (its own first type), with
    no slice named [sliceName] yet: a contains rule that declares the slice
    with an extension type [X] creates it, constrained to the URL that [X]
    resolves to, and logs nothing.  Declaring the same slice name with [X]
    again leaves the tree as it is, with exactly that one slice, and logs
    the DuplicateSliceError as a warning.  Declaring it instead with a type
    [Y] that resolves to another URL logs the DuplicateSliceError as an
    error. *)
Theorem redeclared_extension_slice
        (this : StructureDefinitionExporter.t) (k : StructureKind)
        (fshDefinition : FshStructure) (rulePath : string) (l : nat)
        (elementId sliceName : string) (st : Store) (sd : StructureDefinition.t)
        (e : ElementDefinition.t) (ty0 : ElementDefinition.ElementDefinitionType)
        (others : list ElementDefinition.ElementDefinitionType)
        (X : string) (mX : Metadata) :
  deref st l = Some sd ->
  StructureDefinition.findElement sd elementId = Some e ->
  ElementDefinition.type e = Some (ty0 :: others) ->
  existsb (fun x => ElementDefinition.id x =? sliceId elementId sliceName)
          (StructureDefinition.elements sd) = false ->
  X <> "" ->
  MasterFisher.fishForMetadata (StructureDefinitionExporter.tank this)
                               (StructureDefinitionExporter.fhir this)
                               st X [Type_Extension] = Some mX ->
  let declare (itemType : string) :=
    StructureDefinitionExporter.handleExtensionContainsRule
      this k fshDefinition (ContainsRule rulePath [typedItem sliceName itemType])
      l elementId in
  exists st1 sd1 slice,
    declare X st = Returned tt st1
    /\ logs st1 = logs st
    /\ deref st1 l = Some sd1
    /\ filter (fun x => ElementDefinition.id x =? sliceId elementId sliceName)
              (StructureDefinition.elements sd1) = [slice]
    /\ ElementDefinition.sliceName slice = Some sliceName
    /\ ElementDefinition.type slice = profiled ty0 others (meta_url mX)
    /\ declare X st1
       = Returned tt (set_logs (logs st1 ++ [duplicateSlice elementId sliceName Warn]) st1)
    /\ forall Y mY,
        Y <> "" ->
        MasterFisher.fishForMetadata (StructureDefinitionExporter.tank this)
                                     (StructureDefinitionExporter.fhir this)
                                     st Y [Type_Extension] = Some mY ->
        meta_url mY <> meta_url mX ->
        ~ In (meta_url mY) (match ElementDefinition.profile ty0 with
                            | Some ps => ps
                            | None => []
                            end) ->
        declare Y st1
        = Returned tt
            (set_logs (logs st1 ++ [duplicateSlice elementId sliceName Error]) st1).
Proof.
  intros Hsd He Hty Hnew HX HmX declare.
  pose proof (findElement_id _ _ _ He) as Hid.
  (* the store and the element once the element is sliced *)
  assert (Hsliced :
            exists st_a sd_a e1,
              deref st_a l = Some sd_a
              /\ StructureDefinition.findElement sd_a elementId = Some e1
              /\ ElementDefinition.slicing e1 <> None
              /\ ElementDefinition.type e1 = Some (ty0 :: others)
              /\ existsb (fun x => ElementDefinition.id x =? sliceId elementId sliceName)
                         (StructureDefinition.elements sd_a) = false
              /\ logs st_a = logs st
              /\ (forall item,
                     MasterFisher.fishForMetadata
                       (StructureDefinitionExporter.tank this)
                       (StructureDefinitionExporter.fhir this) st_a item [Type_Extension]
                     = MasterFisher.fishForMetadata
                         (StructureDefinitionExporter.tank this)
                         (StructureDefinitionExporter.fhir this) st item [Type_Extension])
              /\ forall itemType,
                  declare itemType st
                  = forEach (StructureDefinitionExporter.containsExtensionItem
                               this k rulePath l elementId)
                            [typedItem sliceName itemType] st_a).
  { destruct (ElementDefinition.slicing e) as [slicing|] eqn:Hslicing.
    - exists st, sd, e. repeat split; trivial; [congruence|].
      intros itemType. unfold declare,
        StructureDefinitionExporter.handleExtensionContainsRule.
      rewrite (bind_of_Returned _ _ _ _ _ (theElement_Returned l elementId st sd e Hsd He)).
      now rewrite Hslicing.
    - exists (mutate l (StructureDefinition.updateElement
                          elementId (ElementDefinition.sliceIt "value" "url")) st),
        (StructureDefinition.updateElement
           elementId (ElementDefinition.sliceIt "value" "url") sd),
        (ElementDefinition.sliceIt "value" "url" e).
      split; [now apply deref_mutate_same|].
      split; [now apply findElement_updateElement|].
      split; [discriminate|]. split; [exact Hty|].
      split.
      { unfold StructureDefinition.updateElement. simpl.
        rewrite (existsb_updateFirst_id
                   (fun i => i =? sliceId elementId sliceName)); trivial. }
      split; [apply mutate_frame|].
      split; [intros item; now apply fishForMetadata_mutate|].
      intros itemType. unfold declare,
        StructureDefinitionExporter.handleExtensionContainsRule.
      rewrite (bind_of_Returned _ _ _ _ _ (theElement_Returned l elementId st sd e Hsd He)).
      now rewrite Hslicing. }
  destruct Hsliced as (st_a & sd_a & e1 & Hsd_a & He1 & Hsliced & Hty1 & Hnew_a
                       & Hlogs_a & Hfish_a & Hdeclare).
  pose proof (findElement_id _ _ _ He1) as Hid1.
  destruct (declare_new_slice this k rulePath l elementId sliceName st_a sd_a e1 ty0 others
              X mX Hsd_a He1 Hty1 Hnew_a HX ltac:(rewrite Hfish_a; exact HmX))
    as (before & after & Hes & Hfirst).
  set (slice := ElementDefinition.set_type (profiled ty0 others (meta_url mX))
                  (ElementDefinition.newSlice e1 sliceName)) in *.
  set (st1 := mutate l (StructureDefinition.set_elements (before ++ slice :: after)) st_a)
    in *.
  set (sd1 := StructureDefinition.set_elements (before ++ slice :: after) sd_a).
  assert (Hsd1 : deref st1 l = Some sd1) by now apply deref_mutate_same.
  assert (HsliceId : ElementDefinition.id slice = sliceId elementId sliceName).
  { unfold slice, sliceId. simpl. now rewrite Hid1. }
  assert (Hrest : forall y, In y (before ++ after) ->
                            (ElementDefinition.id y =? sliceId elementId sliceName) = false).
  { rewrite <- Hes. now apply existsb_none. }
  assert (He1' : StructureDefinition.findElement sd1 elementId = Some e1).
  { unfold StructureDefinition.findElement, sd1. simpl.
    rewrite find_app_skip.
    - rewrite <- Hes. exact He1.
    - rewrite HsliceId. apply String.eqb_neq. unfold sliceId.
      apply append_neq_self. discriminate. }
  assert (Hagain : forall itemType m,
             itemType <> "" ->
             MasterFisher.fishForMetadata (StructureDefinitionExporter.tank this)
                                          (StructureDefinitionExporter.fhir this)
                                          st itemType [Type_Extension] = Some m ->
             declare itemType st1
             = Returned tt
                 (set_logs
                    (logs st1
                     ++ [duplicateSlice elementId sliceName
                           (if some (fun p => StructureDefinitionExporter.sameOpt
                                                p (meta_url m))
                                    (match ElementDefinition.profile ty0 with
                                     | Some ps => ps
                                     | None => []
                                     end ++ [meta_url mX])
                            then Warn else Error)])
                    st1)).
  { intros itemType m HitemType Hm.
    unfold declare, StructureDefinitionExporter.handleExtensionContainsRule.
    rewrite (bind_of_Returned _ _ _ _ _
               (theElement_Returned l elementId st1 sd1 e1 Hsd1 He1')).
    destruct (ElementDefinition.slicing e1) as [slicing|]; [|congruence].
    rewrite (bind_of_Returned _ _ st1 st1 tt eq_refl). simpl forEach.
    erewrite bind_of_Returned; [reflexivity|].
    apply (redeclare_slice this k rulePath l elementId sliceName st1 sd1 e1
             before slice after
             {| ElementDefinition.code := ElementDefinition.code ty0;
                ElementDefinition.profile :=
                  Some (match ElementDefinition.profile ty0 with
                        | Some ps => ps
                        | None => []
                        end ++ [meta_url mX]) |}
             others
             (match ElementDefinition.profile ty0 with
              | Some ps => ps
              | None => []
              end ++ [meta_url mX])
             itemType m); trivial.
    - intros y Hy. apply Hrest. apply in_or_app. now left.
    - unfold st1. rewrite fishForMetadata_mutate by reflexivity.
      now rewrite Hfish_a. }
  exists st1, sd1, slice.
  split.
  { rewrite Hdeclare. simpl forEach. now rewrite (bind_of_Returned _ _ _ _ _ Hfirst). }
  split.
  { unfold st1. rewrite <- Hlogs_a. apply mutate_frame. }
  split; [exact Hsd1|]. split.
  { unfold sd1.
    change (StructureDefinition.elements
              (StructureDefinition.set_elements (before ++ slice :: after) sd_a))
      with (before ++ slice :: after).
    rewrite filter_app. cbn [filter].
    rewrite HsliceId, String.eqb_refl.
    rewrite !filter_none; trivial; intros y Hy; apply Hrest, in_or_app; auto. }
  split; [reflexivity|]. split; [reflexivity|]. split.
  - rewrite (Hagain X mX HX HmX). now rewrite some_sameOpt_last.
  - intros Y mY HY HmY Hother Hnot.
    rewrite (Hagain Y mY HY HmY). now rewrite some_sameOpt_other.
Qed.

Lemma redeclared_extension_slice_witness :
  exists st1,
    StructureDefinitionExporter.handleExtensionContainsRule
      (Scenario.exporterOf Scenario.sliceTank) Profile Scenario.Referring
      (Scenario.containsFoo "ExtA") 0 "Patient.extension" Scenario.whileReferring
    = Returned tt st1
    /\ logs st1 = []
    /\ StructureDefinitionExporter.handleExtensionContainsRule
         (Scenario.exporterOf Scenario.sliceTank) Profile Scenario.Referring
         (Scenario.containsFoo "ExtA") 0 "Patient.extension" st1
       = Returned tt
           (set_logs (logs st1 ++ [duplicateSlice "Patient.extension" "foo" Warn]) st1)
    /\ StructureDefinitionExporter.handleExtensionContainsRule
         (Scenario.exporterOf Scenario.sliceTank) Profile Scenario.Referring
         (Scenario.containsFoo "ExtB") 0 "Patient.extension" st1
       = Returned tt
           (set_logs (logs st1 ++ [duplicateSlice "Patient.extension" "foo" Error]) st1).
Proof.
  destruct (redeclared_extension_slice
              (Scenario.exporterOf Scenario.sliceTank) Profile Scenario.Referring
              "extension" 0 "Patient.extension" "foo" Scenario.whileReferring
              Scenario.referringSkeleton
              (Scenario.element "Patient.extension" (Scenario.ofType "Extension"))
              {| ElementDefinition.code := "Extension"; ElementDefinition.profile := None |}
              [] "ExtA"
              {| meta_id := Some "ext-a"; meta_name := "ExtA";
                 meta_url := Some "http://example.org/StructureDefinition/ext-a";
                 meta_parent := None; meta_resourceType := Some "StructureDefinition";
                 meta_sdType := None; meta_canBeTarget := None; meta_canBind := None;
                 meta_instanceUsage := None |}
              eq_refl eq_refl eq_refl eq_refl ltac:(discriminate) eq_refl)
    as (st1 & sd1 & slice & Hfirst & Hlogs & _ & _ & _ & _ & Hsame & Hother).
  exists st1. split; [exact Hfirst|]. split; [exact Hlogs|]. split; [exact Hsame|].
  apply (Hother "ExtB"
           {| meta_id := Some "ext-b"; meta_name := "ExtB";
              meta_url := Some "http://example.org/StructureDefinition/ext-b";
              meta_parent := None; meta_resourceType := Some "StructureDefinition";
              meta_sdType := None; meta_canBeTarget := None; meta_canBind := None;
              meta_instanceUsage := None |});
    [discriminate|reflexivity|discriminate|intros []].
Defined.

(** The three declarations as rules of one profile: one slice, a warning
    for the second rule, an error for the third. *)
Example redeclared_slice_in_a_profile :
  exists st' sd,
    StructureDefinitionExporter.exportStructDef
      1 (Scenario.exporterOf Scenario.slicedTank) (Profile, Scenario.Sliced) emptyStore
    = Returned (Some 0) st'
    /\ logs st'
       = [duplicateSlice "Patient.extension" "foo" Warn;
          duplicateSlice "Patient.extension" "foo" Error]
    /\ deref st' 0 = Some sd
    /\ map ElementDefinition.id (StructureDefinition.elements sd)
       = ["Patient"; "Patient.name"; "Patient.gender"; "Patient.extension";
          "Patient.extension[foo]"].
Proof.
  eexists. eexists. split; [vm_compute; reflexivity|].
  split; [reflexivity|]. split; reflexivity.
Qed.

(** * Preprocessing: inference of the sibling cardinality *)

Lemma Map_get_set_bool (m : list (string * bool)) (k k' : string) (v : bool) :
  Map_get String.eqb (Map_set String.eqb m k v) k'
  = if k' =? k then Some v else Map_get String.eqb m k'.
Proof.
  induction m as [|[k0 v0] m IH]; simpl.
  - reflexivity.
  - destruct (String.eqb_spec k k0) as [->|Hk]; simpl.
    + destruct (String.eqb_spec k' k0); reflexivity.
    + destruct (String.eqb_spec k' k0) as [->|Hk'].
      * destruct (String.eqb_spec k0 k); [congruence|reflexivity].
      * exact IH.
Qed.

Lemma Map_get_In (m : list (string * bool)) (k : string) (v : bool) :
  Map_get String.eqb m k = Some v -> In (k, v) m.
Proof.
  induction m as [|[k0 v0] m IH]; simpl; [discriminate|].
  destruct (String.eqb_spec k k0) as [->|_].
  - intros [= ->]. now left.
  - intros H. right. auto.
Qed.

Lemma Map_set_keys (m : list (string * bool)) (k k' : string) (v : bool) :
  In k' (map fst (Map_set String.eqb m k v)) -> k' = k \/ In k' (map fst m).
Proof.
  induction m as [|[k0 v0] m IH]; simpl.
  - intros [<-|[]]. now left.
  - destruct (String.eqb_spec k k0) as [->|_]; simpl.
    + intros [<-|H]; auto.
    + intros [<-|H]; auto. destruct (IH H); auto.
Qed.

Lemma Map_set_NoDup (m : list (string * bool)) (k : string) (v : bool) :
  NoDup (map fst m) -> NoDup (map fst (Map_set String.eqb m k v)).
Proof.
  induction m as [|[k0 v0] m IH]; simpl; intros Hm.
  - constructor; [intros []|constructor].
  - inversion Hm as [|? ? Hnotin Hrest]; subst.
    destruct (String.eqb_spec k k0) as [->|Hk]; simpl.
    + constructor; assumption.
    + constructor; [|auto].
      intros Hin. apply Map_set_keys in Hin as [->|Hin]; [congruence|auto].
Qed.

Lemma In_Map_get (m : list (string * bool)) (k : string) (v : bool) :
  NoDup (map fst m) -> In (k, v) m -> Map_get String.eqb m k = Some v.
Proof.
  induction m as [|[k0 v0] m IH]; simpl; intros Hm; [intros []|].
  inversion Hm as [|? ? Hnotin Hrest]; subst.
  intros [[= -> ->]|Hin].
  - now rewrite String.eqb_refl.
  - destruct (String.eqb_spec k k0) as [->|_]; [|auto].
    exfalso. apply Hnotin. change k0 with (fst (k0, v)). now apply in_map.
Qed.

(** ** Keys of the inference map *)

Inductive Slot := ExtensionSlot | ValueSlot.

Definition slotKey (s : Slot) : string :=
  match s with
  | ExtensionSlot => "extension"
  | ValueSlot => "value[x]"
  end.

Definition sibling (s : Slot) : Slot :=
  match s with
  | ExtensionSlot => ValueSlot
  | ValueSlot => ExtensionSlot
  end.

Fixpoint lastChar (s : string) : option ascii :=
  match s with
  | EmptyString => None
  | String c EmptyString => Some c
  | String _ rest => lastChar rest
  end.

Lemma lastChar_append (a k : string) : k <> "" -> lastChar (a +++ k) = lastChar k.
Proof.
  intros Hk. induction a as [|c a IH]; simpl; [reflexivity|].
  rewrite <- IH. destruct (a +++ k) eqn:H; [|reflexivity].
  destruct a; simpl in H; [congruence|discriminate].
Qed.

Lemma append_same_length (a b k k' : string) :
  String.length a = String.length b -> a +++ k = b +++ k' -> a = b.
Proof.
  revert b. induction a as [|c a IH]; intros [|c' b] Hlen H; simpl in *;
    try discriminate; [reflexivity|].
  injection H as -> H. f_equal. apply IH; [lia|exact H].
Qed.

Lemma key_injective (b b' : string) (s s' : Slot) :
  b' +++ slotKey s' = b +++ slotKey s -> b' = b /\ s' = s.
Proof.
  intros H. destruct s, s'; simpl in H.
  - split; [|reflexivity]. apply (append_same_length _ _ _ _) in H; trivial.
    apply (f_equal String.length) in H. rewrite !length_append in H. simpl in H. lia.
  - apply (f_equal lastChar) in H. rewrite !lastChar_append in H by discriminate.
    discriminate.
  - apply (f_equal lastChar) in H. rewrite !lastChar_append in H by discriminate.
    discriminate.
  - split; [|reflexivity]. apply (append_same_length _ _ _ _) in H; trivial.
    apply (f_equal String.length) in H. rewrite !length_append in H. simpl in H. lia.
Qed.

Lemma key_eqb (b b' : string) (s s' : Slot) :
  (b' <> b \/ s' <> s) -> (b +++ slotKey s =? b' +++ slotKey s') = false.
Proof.
  intros Hne. apply String.eqb_neq. intros H. symmetry in H.
  apply key_injective in H as [-> ->]. destruct Hne; congruence.
Qed.

Lemma sibling_neq (s : Slot) : sibling s <> s.
Proof. destruct s; discriminate. Qed.

(** ** The scan as a sequence of touches *)

Section Touches.
Import StructureDefinitionExporter.
Variable defName : string.
Variable isExtension : bool.

(** What the path part at index [i] touches: the base path of an
    extension, and the slot of it that the part names. *)
Definition touchAt (rulePathParts : list string) (i : nat) : option (string * Slot) :=
  match nth_error rulePathParts i with
  | None => None
  | Some pathPart =>
      let isOnExtension :=
        (isExtension && (length rulePathParts =? 1)%nat)
        || match match i with 0 => None | S j => nth_error rulePathParts j end with
           | Some prev => startsWith prev "extension"
           | None => false
           end in
      if isOnExtension then
        let initialPath := join "." (firstn i rulePathParts) in
        let basePath := initialPath +++ (if initialPath =? "" then "" else ".") in
        if startsWith pathPart "extension" then Some (basePath, ExtensionSlot)
        else if startsWith pathPart "value" then Some (basePath, ValueSlot)
        else None
      else None
  end.

(** Everything a rule touches, in the order of its path parts. *)
Definition touches (rule : Rule) : list (string * Slot) :=
  let rulePathParts := splitOnPathPeriods (rule_path rule) in
  flat_map (fun i => match touchAt rulePathParts i with
                     | Some t => [t]
                     | None => []
                     end)
           (seq 0 (length rulePathParts)).

(** One step of the scan, for one touch. *)
Definition inferTouch (rule : Rule) (inf : Inference) (t : string * Slot) : Inference :=
  inferSlot defName rule (fst t) (slotKey (snd t)) (slotKey (sibling (snd t))) inf.

Lemma inferFromPathPart_touch rule rulePathParts inf i :
  inferFromPathPart defName isExtension rule rulePathParts inf i
  = match touchAt rulePathParts i with
    | Some t => inferTouch rule inf t
    | None => inf
    end.
Proof.
  unfold inferFromPathPart, touchAt.
  destruct (nth_error rulePathParts i) as [pathPart|]; [|reflexivity].
  cbv zeta.
  destruct (_ || _); simpl; [|reflexivity].
  destruct (startsWith pathPart "extension"); [reflexivity|].
  destruct (startsWith pathPart "value"); reflexivity.
Qed.

Lemma fold_left_touches {A} (g : A -> option (string * Slot)) rule (xs : list A) inf :
  fold_left (fun inf x => match g x with
                          | Some t => inferTouch rule inf t
                          | None => inf
                          end) xs inf
  = fold_left (inferTouch rule)
              (flat_map (fun x => match g x with Some t => [t] | None => [] end) xs)
              inf.
Proof.
  revert inf. induction xs as [|x xs IH]; intros inf; simpl; [reflexivity|].
  rewrite fold_left_app, IH. now destruct (g x).
Qed.

Lemma inferFromRule_touches inf rule :
  inferFromRule defName isExtension inf rule
  = fold_left (inferTouch rule) (touches rule) inf.
Proof.
  unfold inferFromRule, touches. rewrite <- fold_left_touches.
  revert inf. generalize (seq 0 (length (splitOnPathPeriods (rule_path rule)))).
  intros xs. induction xs as [|x xs IH]; intros inf; simpl; [reflexivity|].
  now rewrite inferFromPathPart_touch, IH.
Qed.

(** ** Invariants of the scan, by induction over rules and touches *)

(** [P] holds initially, and every touch of every rule keeps it. *)
Lemma scan_invariant (P : Inference -> Prop) (rs : list Rule) (inf : Inference) :
  P inf ->
  (forall rule t inf, In rule rs -> In t (touches rule) -> P inf ->
                      P (inferTouch rule inf t)) ->
  P (fold_left (inferFromRule defName isExtension) rs inf).
Proof.
  revert inf. induction rs as [|rule rs IH]; intros inf HP Hstep; simpl; [exact HP|].
  apply IH.
  - rewrite inferFromRule_touches.
    assert (Hts : forall ts inf,
               (forall t, In t ts -> In t (touches rule)) -> P inf ->
               P (fold_left (inferTouch rule) ts inf)).
    { induction ts as [|t ts IHts]; intros inf' Hin HP'; simpl; [exact HP'|].
      apply IHts; [intros; apply Hin; now right|].
      apply Hstep; [now left|apply Hin; now left|exact HP']. }
    apply Hts; auto.
  - intros rule' t inf' Hin. apply Hstep. now right.
Qed.

End Touches.

Section Scan.
Import StructureDefinitionExporter.
Variable defName : string.
Variable isExtension : bool.

(** A rule together with one of the things it touches. *)
Definition Touch : Type := Rule * (string * Slot).

Definition allTouches (rs : list Rule) : list Touch :=
  flat_map (fun rule => map (pair rule) (touches isExtension rule)) rs.

Definition step (inf : Inference) (ev : Touch) : Inference :=
  inferTouch defName (fst ev) inf (snd ev).

Lemma scan_as_touches (rs : list Rule) (inf : Inference) :
  fold_left (inferFromRule defName isExtension) rs inf
  = fold_left step (allTouches rs) inf.
Proof.
  revert inf. induction rs as [|rule rs IH]; intros inf; simpl; [reflexivity|].
  unfold allTouches in *. simpl. rewrite fold_left_app, <- IH. f_equal.
  rewrite inferFromRule_touches.
  generalize (touches isExtension rule). intros ts. revert inf.
  induction ts as [|t ts IHts]; intros inf; simpl; [reflexivity|]. apply IHts.
Qed.

Lemma In_allTouches (rs : list Rule) (rule : Rule) (t : string * Slot) :
  In (rule, t) (allTouches rs) <-> In rule rs /\ In t (touches isExtension rule).
Proof.
  unfold allTouches. rewrite in_flat_map. split.
  - intros (r & Hr & Hin). apply in_map_iff in Hin as (t' & [= <- <-] & Ht). auto.
  - intros [Hr Ht]. exists rule. split; [exact Hr|]. now apply in_map.
Qed.

Definition entry (inf : Inference) (key : string) : option bool :=
  Map_get String.eqb (inferredCardRulesMap inf) key.

(** The entries of the map after one step. *)
Lemma entry_step (inf : Inference) (rule : Rule) (base : string) (s : Slot) (key : string) :
  entry (step inf (rule, (base, s))) key
  = if truthy (entry inf (base +++ slotKey s)) then
      if key =? base +++ slotKey s then Some false else entry inf key
    else if isZeroCardRule rule then entry inf key
    else if key =? base +++ slotKey (sibling s) then Some true else entry inf key.
Proof.
  unfold step, inferTouch, inferSlot, entry. simpl fst. simpl snd.
  destruct (isZeroCardRule rule); simpl negb; cbv iota;
    destruct (truthy (Map_get String.eqb (inferredCardRulesMap inf) (base +++ slotKey s)));
    simpl; rewrite ?Map_get_set_bool; reflexivity.
Qed.

Lemma reported_step (inf : Inference) (rule : Rule) (base : string) (s : Slot) :
  reported (step inf (rule, (base, s)))
  = if truthy (entry inf (base +++ slotKey s)) && negb (isZeroCardRule rule)
    then reported inf ++ [bothValueAndSubExtensions defName]
    else reported inf.
Proof.
  unfold step, inferTouch, inferSlot, entry. simpl fst. simpl snd.
  destruct (isZeroCardRule rule); simpl negb; cbv iota;
    destruct (truthy (Map_get String.eqb (inferredCardRulesMap inf) (base +++ slotKey s)));
    reflexivity.
Qed.

Lemma reported_monotone (evs : list Touch) (inf : Inference) (e : LogEntry) :
  In e (reported inf) -> In e (reported (fold_left step evs inf)).
Proof.
  revert inf. induction evs as [|[rule [base s]] evs IH]; intros inf Hin; simpl;
    [exact Hin|].
  apply IH. rewrite reported_step.
  destruct (_ && _); [apply in_or_app; now left|exact Hin].
Qed.

(** *** One slot only *)

Section OneSlot.
Variable b : string.
Variable s : Slot.

Lemma only_one_slot (evs : list Touch) (inf : Inference) :
  (forall rule, ~ In (rule, (b, sibling s)) evs) ->
  entry inf (b +++ slotKey s) = None ->
  entry (fold_left step evs inf) (b +++ slotKey s) = None
  /\ (entry inf (b +++ slotKey (sibling s)) = Some true
      \/ (exists rule, In (rule, (b, s)) evs /\ isZeroCardRule rule = false) ->
      entry (fold_left step evs inf) (b +++ slotKey (sibling s)) = Some true).
Proof.
  revert inf. induction evs as [|[rule [base s']] evs IH]; intros inf Hnone Hown; simpl.
  { split; [exact Hown|]. intros [H|(rule & [] & _)]. exact H. }
  assert (Hnone' : forall rule, ~ In (rule, (b, sibling s)) evs).
  { intros r Hr. apply (Hnone r). now right. }
  assert (Hstep : entry (step inf (rule, (base, s'))) (b +++ slotKey s) = None
                  /\ (entry inf (b +++ slotKey (sibling s)) = Some true
                      \/ ((rule, (base, s')) = (rule, (b, s))
                          /\ isZeroCardRule rule = false) ->
                      entry (step inf (rule, (base, s'))) (b +++ slotKey (sibling s))
                      = Some true)).
  { destruct (String.eqb_spec base b) as [->|Hbase].
    - assert (Hs : s' = s).
      { destruct s', s; trivial; exfalso; apply (Hnone rule); now left. }
      rewrite Hs, !entry_step, Hown. simpl truthy. cbv iota.
      rewrite String.eqb_refl.
      rewrite (key_eqb b b s (sibling s)) by (right; apply sibling_neq).
      split; [now destruct (isZeroCardRule rule)|].
      intros [H|[_ H]]; [now destruct (isZeroCardRule rule)|now rewrite H].
    - rewrite !entry_step.
      rewrite !(key_eqb b base) by (left; exact Hbase).
      split.
      + now destruct (truthy _), (isZeroCardRule rule).
      + intros [H|[[= H _] _]]; [|congruence].
        now destruct (truthy _), (isZeroCardRule rule). }
  destruct Hstep as [Hown' Hother'].
  destruct (IH (step inf (rule, (base, s'))) Hnone' Hown') as [IHown IHother].
  split; [exact IHown|].
  intros [H|(r & [Heq|Hin] & Hr)].
  - apply IHother. left. apply Hother'. now left.
  - apply IHother. left. apply Hother'. right. injection Heq as -> -> ->. auto.
  - apply IHother. right. eauto.
Qed.

End OneSlot.

(** *** Both slots *)

Section BothSlots.
Variable b : string.

#[local] Abbreviation reportedError inf :=
  (In (bothValueAndSubExtensions defName) (reported inf)).

Definition exercised (s : Slot) (evs : list Touch) : Prop :=
  exists rule, In (rule, (b, s)) evs.

Lemma both_slots (evs : list Touch) (inf : Inference) :
  (forall rule s, In (rule, (b, s)) evs -> isZeroCardRule rule = false) ->
  (truthy (entry inf (b +++ "extension")) = false
   /\ truthy (entry inf (b +++ "value[x]")) = false
   /\ exercised ExtensionSlot evs /\ exercised ValueSlot evs)
  \/ (truthy (entry inf (b +++ "extension")) = false
      /\ truthy (entry inf (b +++ "value[x]")) = true
      /\ exercised ValueSlot evs)
  \/ (truthy (entry inf (b +++ "extension")) = true
      /\ truthy (entry inf (b +++ "value[x]")) = false
      /\ exercised ExtensionSlot evs)
  \/ reportedError inf ->
  reportedError (fold_left step evs inf).
Proof.
  revert inf. induction evs as [|[rule [base s']] evs IH]; intros inf Hnz Hcases.
  { simpl. destruct Hcases as [(_ & _ & [? []] & _)|[(_ & _ & [? []])|[(_ & _ & [? []])|H]]].
    exact H. }
  simpl. apply IH; [intros r s Hin; apply (Hnz r s); now right|].
  assert (Hrest : forall s, exercised s ((rule, (base, s')) :: evs) ->
                            (base = b /\ s' = s) \/ exercised s evs).
  { intros s (r & [[= _ -> ->]|Hin]); [now left|right; now exists r]. }
  destruct (String.eqb_spec base b) as [->|Hbase].
  - assert (Hrule : isZeroCardRule rule = false) by (apply (Hnz rule s'); now left).
    assert (HEV : (b +++ "extension" =? b +++ "value[x]") = false)
      by (apply (key_eqb b b ExtensionSlot ValueSlot); right; discriminate).
    assert (HVE : (b +++ "value[x]" =? b +++ "extension") = false)
      by (apply (key_eqb b b ValueSlot ExtensionSlot); right; discriminate).
    rewrite !entry_step, reported_step, Hrule. simpl negb. rewrite andb_true_r.
    destruct s'; simpl slotKey; simpl sibling;
      rewrite ?String.eqb_refl, ?HEV, ?HVE.
    + (* a touch of the extension slot *)
      destruct Hcases as [(Hx & Hv & HE & HV)|[(Hx & Hv & HV)|[(Hx & Hv & HE)|H]]].
      * rewrite Hx. right. left. repeat split; trivial.
        destruct (Hrest _ HV) as [[_ [=]]|H]. exact H.
      * rewrite Hx. right. left. repeat split; trivial.
        destruct (Hrest _ HV) as [[_ [=]]|H]. exact H.
      * rewrite Hx. right. right. right. apply in_or_app. right. now left.
      * right. right. right. destruct (truthy _); [apply in_or_app|]; auto.
    + (* a touch of the value slot *)
      destruct Hcases as [(Hx & Hv & HE & HV)|[(Hx & Hv & HV)|[(Hx & Hv & HE)|H]]].
      * rewrite Hv. right. right. left. repeat split; trivial.
        destruct (Hrest _ HE) as [[_ [=]]|H]. exact H.
      * rewrite Hv. right. right. right. apply in_or_app. right. now left.
      * rewrite Hv. right. right. left. repeat split; trivial.
        destruct (Hrest _ HE) as [[_ [=]]|H]. exact H.
      * right. right. right. destruct (truthy _); [apply in_or_app|]; auto.
  - (* a touch at another base path *)
    assert (Hkeep : forall s, entry (step inf (rule, (base, s'))) (b +++ slotKey s)
                              = entry inf (b +++ slotKey s)).
    { intros s. rewrite entry_step.
      rewrite (key_eqb b base s s'), (key_eqb b base s (sibling s'))
        by (left; exact Hbase).
      destruct (truthy (entry inf (base +++ slotKey s'))); [reflexivity|].
      destruct (isZeroCardRule rule); reflexivity. }
    pose proof (Hkeep ExtensionSlot) as HkE. pose proof (Hkeep ValueSlot) as HkV.
    simpl slotKey in HkE, HkV. rewrite HkE, HkV.
    assert (Hrest' : forall s, exercised s ((rule, (base, s')) :: evs) -> exercised s evs).
    { intros s H. destruct (Hrest s H) as [[Hb _]|H']; [congruence|exact H']. }
    destruct Hcases as [(Hx & Hv & HE & HV)|[(Hx & Hv & HV)|[(Hx & Hv & HE)|H]]].
    + left. auto.
    + right. left. auto.
    + right. right. left. auto.
    + right. right. right. rewrite reported_step.
      destruct (_ && _); [apply in_or_app|]; auto.
Qed.

End BothSlots.

(** *** One slot, then the other *)

Section Alternation.
Variable b : string.

(** The slots touched at the base path [b], in order. *)
Definition slotsAt (evs : list Touch) : list Slot :=
  map (fun ev : Touch => snd (snd ev))
      (filter (fun ev : Touch => fst (snd ev) =? b) evs).

Lemma entry_step_other (inf : Inference) (rule : Rule) (base : string) (s' s : Slot) :
  base <> b ->
  entry (step inf (rule, (base, s'))) (b +++ slotKey s) = entry inf (b +++ slotKey s).
Proof.
  intros Hbase. rewrite entry_step.
  rewrite (key_eqb b base s s'), (key_eqb b base s (sibling s')) by (left; exact Hbase).
  destruct (truthy (entry inf (base +++ slotKey s'))); [reflexivity|].
  destruct (isZeroCardRule rule); reflexivity.
Qed.

Lemma untouched (evs : list Touch) (inf : Inference) (s : Slot) :
  slotsAt evs = [] ->
  entry (fold_left step evs inf) (b +++ slotKey s) = entry inf (b +++ slotKey s).
Proof.
  revert inf. induction evs as [|[rule [base s']] evs IH]; intros inf Hnone; simpl;
    [reflexivity|].
  unfold slotsAt in Hnone. simpl in Hnone.
  destruct (String.eqb_spec base b) as [->|Hbase]; [discriminate|].
  rewrite (IH _ Hnone). now apply entry_step_other.
Qed.

Lemma sibling_involutive (s : Slot) : sibling (sibling s) = s.
Proof. now destruct s. Qed.

Lemma alternation (s : Slot) (evs : list Touch) (n : nat) (inf : Inference) :
  (forall rule s', In (rule, (b, s')) evs -> isZeroCardRule rule = false) ->
  slotsAt evs = repeat s n ++ [sibling s] ->
  truthy (entry inf (b +++ slotKey s)) = false ->
  (n = 0 -> entry inf (b +++ slotKey (sibling s)) = Some true) ->
  entry (fold_left step evs inf) (b +++ slotKey s) = entry inf (b +++ slotKey s)
  /\ entry (fold_left step evs inf) (b +++ slotKey (sibling s)) = Some false.
Proof.
  revert n inf. induction evs as [|[rule [base s']] evs IH];
    intros n inf Hnz Hslots Hown Hsib.
  { destruct n; discriminate. }
  assert (Hnz' : forall rule s', In (rule, (b, s')) evs -> isZeroCardRule rule = false).
  { intros r s0 Hin. apply (Hnz r s0). now right. }
  assert (Hne : (b +++ slotKey s =? b +++ slotKey (sibling s)) = false)
    by (apply key_eqb; right; apply sibling_neq).
  simpl fold_left. unfold slotsAt in Hslots. simpl in Hslots.
  destruct (String.eqb_spec base b) as [->|Hbase].
  - assert (Hrule : isZeroCardRule rule = false) by (apply (Hnz rule s'); now left).
    destruct n as [|n]; simpl in Hslots; injection Hslots as Hs' Hrest.
    + (* the one touch of the sibling slot *)
      rewrite !untouched by exact Hrest. subst s'.
      rewrite !entry_step, sibling_involutive, (Hsib eq_refl). simpl truthy. cbv iota.
      now rewrite Hne, String.eqb_refl.
    + (* one more touch of the slot itself *)
      subst s'.
      assert (Hown' : entry (step inf (rule, (b, s))) (b +++ slotKey s)
                      = entry inf (b +++ slotKey s)).
      { rewrite entry_step, Hown, Hrule. now rewrite Hne. }
      assert (Hsib' : entry (step inf (rule, (b, s))) (b +++ slotKey (sibling s))
                      = Some true).
      { rewrite entry_step, Hown, Hrule. now rewrite String.eqb_refl. }
      destruct (IH n (step inf (rule, (b, s))) Hnz' Hrest) as [IHown IHsib].
      * now rewrite Hown'.
      * intros _. exact Hsib'.
      * split; [now rewrite IHown|exact IHsib].
  - destruct (IH n (step inf (rule, (base, s'))) Hnz' Hslots) as [IHown IHsib].
    + now rewrite entry_step_other.
    + intros Hn. rewrite entry_step_other by exact Hbase. auto.
    + split; [|exact IHsib]. rewrite IHown. now apply entry_step_other.
Qed.

End Alternation.

(** *** Cardinality rules [0..0] on the sibling slot *)

Section ZeroRules.
Variable b : string.
Variable s : Slot.

(** While every rule that names the sibling slot is a [0..0] rule, the
    entry of the slot itself is never written. *)
Lemma zero_rules_leave_no_trace (evs : list Touch) (inf : Inference) :
  (forall rule, In (rule, (b, sibling s)) evs -> isZeroCardRule rule = true) ->
  truthy (entry inf (b +++ slotKey s)) = false ->
  entry (fold_left step evs inf) (b +++ slotKey s) = entry inf (b +++ slotKey s).
Proof.
  revert inf. induction evs as [|[rule [base s']] evs IH]; intros inf Hzero Hown; simpl;
    [reflexivity|].
  assert (Hne : (b +++ slotKey s =? b +++ slotKey (sibling s)) = false)
    by (apply key_eqb; right; apply sibling_neq).
  assert (Hstep : entry (step inf (rule, (base, s'))) (b +++ slotKey s)
                  = entry inf (b +++ slotKey s)).
  { destruct (String.eqb_spec base b) as [->|Hbase];
      [|now apply entry_step_other].
    assert (Hs : s' = s \/ s' = sibling s) by (destruct s, s'; auto).
    destruct Hs as [->| ->]; rewrite entry_step.
    - rewrite Hown, Hne. now destruct (isZeroCardRule rule).
    - rewrite Hne, (Hzero rule) by now left.
      now destruct (truthy (entry inf (b +++ slotKey (sibling s)))). }
  rewrite IH, Hstep; trivial.
  - intros r Hr. apply Hzero. now right.
  - now rewrite Hstep.
Qed.

(** A [0..0] rule on the sibling slot, after rules that named only the
    slot itself and before rules that name neither, leaves no entry of
    the two set. *)
Lemma zero_rule_withdraws (before after : list Touch) (z : Rule) (inf : Inference) :
  isZeroCardRule z = true ->
  (forall rule, ~ In (rule, (b, sibling s)) before) ->
  slotsAt b after = [] ->
  entry inf (b +++ slotKey s) = None ->
  entry (fold_left step (before ++ (z, (b, sibling s)) :: after) inf) (b +++ slotKey s)
  = None
  /\ entry (fold_left step (before ++ (z, (b, sibling s)) :: after) inf)
           (b +++ slotKey (sibling s))
     <> Some true.
Proof.
  intros Hz Hbefore Hafter Hown.
  assert (Hne : (b +++ slotKey s =? b +++ slotKey (sibling s)) = false)
    by (apply key_eqb; right; apply sibling_neq).
  rewrite fold_left_app. simpl fold_left.
  pose proof (untouched b after) as Hkeep.
  rewrite !Hkeep by exact Hafter.
  destruct (only_one_slot b s before inf Hbefore Hown) as [Hmid _].
  rewrite !entry_step, sibling_involutive, Hz, Hne, String.eqb_refl.
  split.
  - now destruct (truthy _).
  - destruct (entry (fold_left step before inf) (b +++ slotKey (sibling s)))
      as [[|]|]; simpl; discriminate.
Qed.

End ZeroRules.

Lemma step_NoDup (inf : Inference) (ev : Touch) :
  NoDup (map fst (inferredCardRulesMap inf)) ->
  NoDup (map fst (inferredCardRulesMap (step inf ev))).
Proof.
  intros Hinf. unfold step, inferTouch, inferSlot.
  destruct (negb _), (truthy _); simpl; try apply Map_set_NoDup; exact Hinf.
Qed.

Lemma scan_NoDup (evs : list Touch) (inf : Inference) :
  NoDup (map fst (inferredCardRulesMap inf)) ->
  NoDup (map fst (inferredCardRulesMap (fold_left step evs inf))).
Proof.
  revert inf. induction evs as [|ev evs IH]; intros inf Hinf; simpl; [exact Hinf|].
  apply IH. now apply step_NoDup.
Qed.

End Scan.

(** ** What preprocessing infers *)

Section Preprocess.
Import StructureDefinitionExporter.

(** [rule] is a rule of the definition, and one of its path parts names
    the slot [s] of the extension at the base path [b]. *)
Definition touchedBy (isExtension : bool) (fshDefinition : FshStructure)
           (b : string) (s : Slot) (rule : Rule) : Prop :=
  In rule (rules fshDefinition) /\ In (b, s) (touches isExtension rule).

(** The slots that the rules of the definition name at [b], in order. *)
Definition slotsTouched (isExtension : bool) (fshDefinition : FshStructure)
           (b : string) : list Slot :=
  slotsAt b (allTouches isExtension (rules fshDefinition)).

Lemma inferredCardRules_shape (m : list (string * bool)) (r : Rule) :
  In r (inferredCardRules m) -> exists key, r = CardRule key 0 "0" /\ In (key, true) m.
Proof.
  unfold inferredCardRules. rewrite in_flat_map.
  intros ([key [|]] & Hin & Hr); [|destruct Hr].
  destruct Hr as [<-|[]]. eauto.
Qed.

Lemma inferredCardRules_In (m : list (string * bool)) (key : string) :
  In (key, true) m -> In (CardRule key 0 "0") (inferredCardRules m).
Proof.
  intros Hin. unfold inferredCardRules. rewrite in_flat_map.
  exists (key, true). split; [exact Hin|now left].
Qed.

Lemma scanRules_as_touches (defName : string) (isExtension : bool) (rs : list Rule) :
  scanRules defName isExtension rs
  = fold_left (step defName) (allTouches isExtension rs)
              {| inferredCardRulesMap := []; reported := [] |}.
Proof. apply scan_as_touches. Qed.

End Preprocess.

(** C2 (as amended).  Preprocessing keeps the rules of the definition, in
    order, and pushes after them only cardinality rules of the form
    [key 0..0].  For the extension at any base path [b]:
    - when a rule that is not a [0..0] cardinality rule names one slot
      ([extension] or [value[x]]) and no rule at all names the sibling
      slot, a [0..0] rule for the sibling slot is among the pushed rules;
    - when both slots are named, and no rule naming a slot at [b] is a
      [0..0] cardinality rule, the error "cannot have both a value and
      sub-extensions" is logged;
    - when, moreover, the rules name one slot one or more times and then
      the sibling slot once, no [0..0] rule for either slot at [b] is
      pushed.
    The last two parts read the rules as the scan does, as the sequence
    [allTouches] of rules paired with the slots that their path parts
    name, in order:
    - when a rule that is not a [0..0] rule names one slot, every earlier
      rule naming the sibling slot is a [0..0] rule and no later rule
      names the sibling slot, a [0..0] rule for the sibling slot is among
      the pushed rules: a [0..0] rule that comes first does not prevent
      it;
    - when a [0..0] rule names one slot, no earlier rule names that slot,
      and no later rule names a slot at [b], no [0..0] rule for either
      slot at [b] is pushed: a [0..0] rule that comes last withdraws
      it. *)
Theorem preprocess_infers_sibling_cardinality
        (fshDefinition : FshStructure) (isExtension : bool) (b : string) :
  exists inferred,
    StructureDefinitionExporter.preprocessStructureDefinition fshDefinition isExtension
    = (set_rules (rules fshDefinition ++ inferred) fshDefinition,
       snd (StructureDefinitionExporter.preprocessStructureDefinition
              fshDefinition isExtension))
    /\ (forall r, In r inferred -> exists key, r = CardRule key 0 "0")
    /\ (forall s,
          (exists rule, touchedBy isExtension fshDefinition b s rule
                        /\ StructureDefinitionExporter.isZeroCardRule rule = false) ->
          (forall rule, ~ touchedBy isExtension fshDefinition b (sibling s) rule) ->
          In (CardRule (b +++ slotKey (sibling s)) 0 "0") inferred)
    /\ ((forall s rule, touchedBy isExtension fshDefinition b s rule ->
                        StructureDefinitionExporter.isZeroCardRule rule = false) ->
        (exists rule, touchedBy isExtension fshDefinition b ExtensionSlot rule) ->
        (exists rule, touchedBy isExtension fshDefinition b ValueSlot rule) ->
        In (StructureDefinitionExporter.bothValueAndSubExtensions (name fshDefinition))
           (snd (StructureDefinitionExporter.preprocessStructureDefinition
                   fshDefinition isExtension)))
    /\ (forall s n,
          (forall s' rule, touchedBy isExtension fshDefinition b s' rule ->
                           StructureDefinitionExporter.isZeroCardRule rule = false) ->
          slotsTouched isExtension fshDefinition b = repeat s (S n) ++ [sibling s] ->
          forall s', ~ In (CardRule (b +++ slotKey s') 0 "0") inferred)
    /\ (forall s before rule after,
          allTouches isExtension (rules fshDefinition)
          = before ++ (rule, (b, s)) :: after ->
          StructureDefinitionExporter.isZeroCardRule rule = false ->
          (forall rule', In (rule', (b, sibling s)) before ->
                         StructureDefinitionExporter.isZeroCardRule rule' = true) ->
          (forall rule', ~ In (rule', (b, sibling s)) after) ->
          In (CardRule (b +++ slotKey (sibling s)) 0 "0") inferred)
    /\ (forall s before rule after,
          allTouches isExtension (rules fshDefinition)
          = before ++ (rule, (b, sibling s)) :: after ->
          StructureDefinitionExporter.isZeroCardRule rule = true ->
          (forall rule', ~ In (rule', (b, sibling s)) before) ->
          slotsAt b after = [] ->
          forall s', ~ In (CardRule (b +++ slotKey s') 0 "0") inferred).
Proof.
  unfold StructureDefinitionExporter.preprocessStructureDefinition.
  rewrite scanRules_as_touches. simpl snd.
  set (init := {| StructureDefinitionExporter.inferredCardRulesMap := [];
                  StructureDefinitionExporter.reported := [] |}).
  set (evs := allTouches isExtension (rules fshDefinition)).
  set (final := fold_left (step (name fshDefinition)) evs init).
  exists (StructureDefinitionExporter.inferredCardRules
            (StructureDefinitionExporter.inferredCardRulesMap final)).
  assert (Hunique : NoDup (map fst (StructureDefinitionExporter.inferredCardRulesMap final))).
  { apply scan_NoDup. constructor. }
  split; [reflexivity|]. split; [|split; [|split; [|split; [|split]]]].
  - intros r Hr. apply inferredCardRules_shape in Hr as (key & -> & _). eauto.
  - intros s (rule & Htouched & Hrule) Hnone.
    apply inferredCardRules_In, Map_get_In.
    apply (only_one_slot (name fshDefinition) b s evs init).
    + intros r Hin. apply In_allTouches in Hin. exact (Hnone r Hin).
    + reflexivity.
    + right. exists rule. split; [|exact Hrule]. now apply In_allTouches.
  - intros Hnz (ruleE & HE) (ruleV & HV).
    apply (both_slots (name fshDefinition) b evs init).
    + intros rule s Hin. apply (Hnz s rule). now apply In_allTouches.
    + left. repeat split; trivial.
      * exists ruleE. now apply In_allTouches.
      * exists ruleV. now apply In_allTouches.
  - intros s n Hnz Hslots s' Hin.
    apply inferredCardRules_shape in Hin as (key & [= <-] & Hin).
    apply (In_Map_get _ _ _ Hunique) in Hin.
    destruct (alternation (name fshDefinition) b s evs (S n) init) as [Hown Hsibling].
    + intros rule s0 Hev. apply (Hnz s0 rule). now apply In_allTouches.
    + exact Hslots.
    + reflexivity.
    + discriminate.
    + change (entry final (b +++ slotKey s') = Some true) in Hin.
      fold final in Hown, Hsibling.
      assert (Hinit : forall key, entry init key = None) by reflexivity.
      rewrite Hinit in Hown.
      destruct s, s'; simpl sibling in *; congruence.
  - intros s before rule after Hevs Hrule Hbefore Hafter.
    apply inferredCardRules_In, Map_get_In.
    change (entry final (b +++ slotKey (sibling s)) = Some true).
    unfold final. rewrite Hevs, fold_left_app.
    apply (only_one_slot (name fshDefinition) b s ((rule, (b, s)) :: after)).
    + intros r [[= _ Hs]|Hin]; [now destruct s|exact (Hafter r Hin)].
    + now rewrite zero_rules_leave_no_trace.
    + right. exists rule. split; [now left|exact Hrule].
  - intros s before rule after Hevs Hrule Hbefore Hafter s' Hin.
    apply inferredCardRules_shape in Hin as (key & [= <-] & Hin).
    apply (In_Map_get _ _ _ Hunique) in Hin.
    change (entry final (b +++ slotKey s') = Some true) in Hin.
    unfold final in Hin. rewrite Hevs in Hin.
    destruct (zero_rule_withdraws (name fshDefinition) b s before after rule init
                Hrule Hbefore Hafter eq_refl) as [Hown Hsibling].
    destruct s, s';
      first [exact (Hsibling Hin)
            |pose proof (eq_trans (eq_sym Hin) Hown); discriminate].
Qed.

Lemma preprocess_infers_sibling_cardinality_witness :
  (exists inferred,
     rules (fst (StructureDefinitionExporter.preprocessStructureDefinition
                   Scenario.OnlySubExtensions true))
     = rules Scenario.OnlySubExtensions ++ inferred
     /\ In (CardRule "value[x]" 0 "0") inferred)
  /\ (exists inferred,
        rules (fst (StructureDefinitionExporter.preprocessStructureDefinition
                      Scenario.Contradictory true))
        = rules Scenario.Contradictory ++ inferred
        /\ In (StructureDefinitionExporter.bothValueAndSubExtensions "Contradictory")
              (snd (StructureDefinitionExporter.preprocessStructureDefinition
                      Scenario.Contradictory true))
        /\ ~ In (CardRule "value[x]" 0 "0") inferred
        /\ ~ In (CardRule "extension" 0 "0") inferred)
  /\ (exists inferred,
        rules (fst (StructureDefinitionExporter.preprocessStructureDefinition
                      Scenario.ValueForbiddenFirst true))
        = rules Scenario.ValueForbiddenFirst ++ inferred
        /\ In (CardRule "value[x]" 0 "0") inferred)
  /\ (exists inferred,
        rules (fst (StructureDefinitionExporter.preprocessStructureDefinition
                      Scenario.ValueForbidden true))
        = rules Scenario.ValueForbidden ++ inferred
        /\ ~ In (CardRule "value[x]" 0 "0") inferred
        /\ ~ In (CardRule "extension" 0 "0") inferred).
Proof.
  split; [|split; [|split]].
  - destruct (preprocess_infers_sibling_cardinality Scenario.OnlySubExtensions true "")
      as (inferred & Hout & _ & Hone & _).
    exists inferred. split; [now rewrite Hout|].
    apply (Hone ExtensionSlot).
    + exists Scenario.containsSub. split; [|reflexivity].
      split; [now left|now left].
    + intros rule [[<-|[]] [[=]|[]]].
  - destruct (preprocess_infers_sibling_cardinality Scenario.Contradictory true "")
      as (inferred & Hout & _ & _ & Hboth & Hneither & _).
    assert (Hnz : forall s rule, touchedBy true Scenario.Contradictory "" s rule ->
                                 StructureDefinitionExporter.isZeroCardRule rule = false).
    { intros s rule [[<-|[<-|[]]] _]; reflexivity. }
    exists inferred. split; [now rewrite Hout|]. split; [|split].
    + apply Hboth.
      * exact Hnz.
      * exists Scenario.containsSub. split; [now left|now left].
      * exists Scenario.onlyString. split; [right; now left|now left].
    + apply (Hneither ExtensionSlot 0 Hnz eq_refl ValueSlot).
    + apply (Hneither ExtensionSlot 0 Hnz eq_refl ExtensionSlot).
  - destruct (preprocess_infers_sibling_cardinality Scenario.ValueForbiddenFirst true "")
      as (inferred & Hout & _ & _ & _ & _ & Hfirst & _).
    exists inferred. split; [now rewrite Hout|].
    apply (Hfirst ExtensionSlot [(CardRule "value[x]" 0 "0", ("", ValueSlot))]
                  Scenario.containsSub []).
    + reflexivity.
    + reflexivity.
    + intros rule' [[= <-]|[]]. reflexivity.
    + intros rule' [].
  - destruct (preprocess_infers_sibling_cardinality Scenario.ValueForbidden true "")
      as (inferred & Hout & _ & _ & _ & _ & _ & Hlast).
    assert (Hnone : forall s', ~ In (CardRule ("" +++ slotKey s') 0 "0") inferred).
    { apply (Hlast ExtensionSlot [(Scenario.containsSub, ("", ExtensionSlot))]
                   (CardRule "value[x]" 0 "0") []).
      - reflexivity.
      - reflexivity.
      - intros rule' [[=]|[]].
      - reflexivity. }
    exists inferred. split; [now rewrite Hout|]. split.
    + apply (Hnone ValueSlot).
    + apply (Hnone ExtensionSlot).
Defined.

(** C2, as stated, fails: the rules below exercise only the [extension]
    slot, and the one rule on [value[x]] has cardinality [0..0], yet
    preprocessing pushes no rule. *)
Lemma explicit_zero_suppresses_inference :
  (exists rule, touchedBy true Scenario.ValueForbidden "" ExtensionSlot rule
                /\ StructureDefinitionExporter.isZeroCardRule rule = false)
  /\ (forall rule, touchedBy true Scenario.ValueForbidden "" ValueSlot rule ->
                   StructureDefinitionExporter.isZeroCardRule rule = true)
  /\ StructureDefinitionExporter.preprocessStructureDefinition Scenario.ValueForbidden true
     = (Scenario.ValueForbidden, []).
Proof.
  split; [|split].
  - exists Scenario.containsSub. split; [|reflexivity]. split; [now left|now left].
  - intros rule [[<-|[<-|[]]] Hin].
    + destruct Hin as [[=]|[]].
    + reflexivity.
  - reflexivity.
Qed.

(** After the error, one more rule on [extension] has the [0..0] rule for
    [value[x]] pushed again. *)
Example sub_extensions_after_the_error :
  StructureDefinitionExporter.preprocessStructureDefinition Scenario.ContradictoryTwice true
  = (set_rules (rules Scenario.ContradictoryTwice ++ [CardRule "value[x]" 0 "0"])
               Scenario.ContradictoryTwice,
     [StructureDefinitionExporter.bothValueAndSubExtensions "ContradictoryTwice"]).
Proof. reflexivity. Qed.

(** A [0..0] rule on [value[x]] between the two makes the scan forget
    that [extension] was exercised: nothing is logged. *)
Example explicit_zero_between_the_two :
  let def := Scenario.structure "Forgetful" "forgetful" None
               [Scenario.containsSub; CardRule "value[x]" 0 "0"; Scenario.onlyString] in
  StructureDefinitionExporter.preprocessStructureDefinition def true
  = (set_rules (rules def ++ [CardRule "extension" 0 "0"]) def, []).
Proof. reflexivity. Qed.

(** * Further properties of the tank *)

(** Definitions for the worked examples of this part. *)
Module Fixtures.

Definition aliased (aliases : list (string * string)) (ps : list FshStructure)
  : FSHDocument.t :=
  {| FSHDocument.profiles := ps; FSHDocument.extensions := [];
     FSHDocument.logicals := []; FSHDocument.resources := [];
     FSHDocument.instances := []; FSHDocument.valueSets := [];
     FSHDocument.codeSystems := []; FSHDocument.invariants := [];
     FSHDocument.ruleSets := []; FSHDocument.mappings := [];
     FSHDocument.aliases := aliases |}.

(** Two documents: the first gives [PAT] an empty alias, the second the
    alias [Foo]; [Foo] is in turn an alias, which is not followed. *)
Definition aliasTank : FSHTank.t :=
  {| FSHTank.docs := [aliased [("PAT", "")] [Scenario.Foo];
                      aliased [("PAT", "Foo"); ("F", "PAT")] []];
     FSHTank.config := Scenario.config |}.

(** A logical model that says by caret rules that it can be bound. *)
Definition Bindable : FshStructure :=
  Scenario.structure "Bindable" "bindable" None
    [CaretValueRule "" "extension[0].url" (VString TYPE_CHARACTERISTICS_EXTENSION) false;
     CaretValueRule "" "extension[0].valueCode" (VCode "can-bind") false].

End Fixtures.

(** ** Aliases *)

(** X1.  [resolveAlias] answers with the alias of the first document that
    gives the name a non-empty alias: documents that give it no alias, or
    the empty string, are passed over, and the answer is never the empty
    string. *)
Theorem resolveAlias_first_nonempty (tank : FSHTank.t) (name a : string) :
  FSHTank.resolveAlias tank name = Some a <->
  exists before doc after,
    FSHTank.docs tank = before ++ doc :: after
    /\ Map_get String.eqb (FSHDocument.aliases doc) name = Some a
    /\ a <> ""
    /\ forall d, In d before -> noAlias name d.
Proof. apply resolveAliasIn_first. Qed.

Lemma resolveAlias_first_nonempty_witness :
  FSHTank.resolveAlias Fixtures.aliasTank "PAT" = Some "Foo".
Proof.
  apply (proj2 (resolveAlias_first_nonempty Fixtures.aliasTank "PAT" "Foo")).
  exists [Fixtures.aliased [("PAT", "")] [Scenario.Foo]],
    (Fixtures.aliased [("PAT", "Foo"); ("F", "PAT")] []), [].
  split; [reflexivity|]. split; [reflexivity|]. split; [discriminate|].
  intros d [<-|[]]. now right.
Defined.

(** X2.  [fish] resolves an alias once and does not follow it further:
    asking for an aliased name is asking for what [resolveAlias] gives for
    it, taken as it stands, whatever that is itself an alias of. *)
Theorem fish_resolves_alias_once (tank : FSHTank.t) (item a : string)
        (types : list FishableType) :
  FSHTank.resolveAlias tank item = Some a ->
  FSHTank.fish tank item types
  = FSHTank.fishTypes tank (fst (FSHTank.splitVersion a)) (snd (FSHTank.splitVersion a))
      match types with [] => FSHTank.allSupportedTypes | _ => types end
  /\ (FSHTank.resolveAlias tank a = None ->
      FSHTank.fish tank item types = FSHTank.fish tank a types).
Proof.
  intros Halias. unfold FSHTank.fish. rewrite Halias.
  split.
  - now destruct (FSHTank.splitVersion a).
  - intros ->. reflexivity.
Qed.

Lemma fish_resolves_alias_once_witness :
  FSHTank.fish Fixtures.aliasTank "PAT" [] = Some (DefStructure Profile Scenario.Foo)
  /\ FSHTank.fish Fixtures.aliasTank "F" [] = None.
Proof.
  split.
  - rewrite (proj2 (fish_resolves_alias_once Fixtures.aliasTank "PAT" "Foo" [] eq_refl)
               eq_refl).
    reflexivity.
  - rewrite (proj1 (fish_resolves_alias_once Fixtures.aliasTank "F" "PAT" [] eq_refl)).
    reflexivity.
Defined.

(** ** The version suffix of a query *)

(** X3.  The query [item] is cut at its first bar: the base has no bar,
    and base, bar and version put together give [item] back, so a version
    may itself contain bars.  An empty version is no version: a query that
    ends in its only bar fishes what the query without the bar fishes, as
    far as no alias interferes. *)
Theorem version_suffix_round_trip (item base : string) (v : option string) :
  FSHTank.splitVersion item = (base, v) ->
  without "|" base
  /\ match v with
     | Some version => version <> "" /\ item = base +++ "|" +++ version
     | None => item = base \/ item = base +++ "|"
     end
  /\ forall tank types,
      FSHTank.resolveAlias tank item = None ->
      FSHTank.resolveAlias tank base = None ->
      v = None ->
      FSHTank.fish tank item types = FSHTank.fish tank base types.
Proof.
  unfold FSHTank.splitVersion. intros Hsplit.
  pose proof (join_split "|" item) as Hjoin.
  destruct (split "|" item) as [|b versionParts] eqn:Hparts;
    [now destruct (split_nonempty "|" item)|].
  pose proof (split_head_without _ _ _ _ Hparts) as Hbase.
  injection Hsplit as -> Hv.
  assert (Hitem : match v with
                  | Some version => version <> "" /\ item = base +++ "|" +++ version
                  | None => item = base \/ item = base +++ "|"
                  end).
  { unfold join in Hv.
    destruct versionParts as [|p ps].
    - simpl in Hv, Hjoin. subst v. now left.
    - change (String.concat "|" (base :: p :: ps))
        with (base +++ "|" +++ String.concat "|" (p :: ps)) in Hjoin.
      destruct (String.eqb_spec (String.concat "|" (p :: ps)) "") as [Hempty|Hversion];
        subst v.
      + right. now rewrite Hempty in Hjoin.
      + split; [exact Hversion|now symmetry]. }
  split; [exact Hbase|]. split; [exact Hitem|].
  intros tank types Hno Hno' ->. unfold FSHTank.fish, FSHTank.splitVersion.
  rewrite Hno, Hno', Hparts, (split_without "|" base Hbase). simpl.
  destruct versionParts as [|p ps]; [reflexivity|].
  destruct Hitem as [Hitem|Hitem].
  - rewrite Hitem, (split_without "|" base Hbase) in Hparts. discriminate.
  - rewrite Hitem, (split_without_then_sep "|" base "" Hbase) in Hparts.
    injection Hparts as <- <-. reflexivity.
Qed.

Lemma version_suffix_round_trip_witness :
  FSHTank.splitVersion "Foo|1.0|draft" = ("Foo", Some "1.0|draft")
  /\ FSHTank.fish Scenario.fooTank "Foo|" [] = FSHTank.fish Scenario.fooTank "Foo" [].
Proof.
  split; [reflexivity|].
  apply (proj2 (proj2 (version_suffix_round_trip "Foo|" "Foo" None eq_refl)));
    reflexivity.
Defined.

(** ** What [fish] can return *)

Section FishSound.
Import FSHTank.
Variable tank : FSHTank.t.

(** The definition is one of the tank's, in the collection of its class. *)
Definition declaredIn (d : FshDefinition) : Prop :=
  match d with
  | DefStructure k s => In s (declared tank k)
  | DefValueSet vs => In vs (getAllValueSets tank)
  | DefCodeSystem cs => In cs (getAllCodeSystems tank)
  | DefInstance i => In i (getAllInstances tank)
  | DefInvariant i => In i (getAllInvariants tank)
  | DefRuleSet r => In r (getAllRuleSets tank)
  | DefMapping m => In m (getAllMappings tank)
  end.

(** What a definition must be to be returned for the kind [ty]: of the
    class of that kind, or, where the tank allows it, an instance of usage
    Definition that stands for one. *)
Definition ofKind (ty : FishableType) (base : string) (v : option string)
           (d : FshDefinition) : Prop :=
  match ty, d with
  | Type_Profile, DefStructure Profile _
  | Type_Extension, DefStructure Extension _
  | Type_Logical, DefStructure Logical _
  | Type_Resource, DefStructure Resource _ => answers tank base v d
  | Type_Profile, DefInstance i => definesKind tank Profile base v i
  | Type_Extension, DefInstance i => definesKind tank Extension base v i
  | Type_Logical, DefInstance i => definesKind tank Logical base v i
  | Type_Resource, DefInstance i => definesKind tank Resource base v i
  | Type_ValueSet, DefValueSet _ | Type_CodeSystem, DefCodeSystem _ =>
      answers tank base v d
  | Type_ValueSet, DefInstance i =>
      instanceOf i = "ValueSet" /\ usage i = "Definition" /\ answers tank base v d
  | Type_CodeSystem, DefInstance i =>
      instanceOf i = "CodeSystem" /\ usage i = "Definition" /\ answers tank base v d
  | Type_Instance, DefInstance i =>
      (inst_name i = base \/ inst_id i = base)
      /\ forall v', v = Some v' ->
                    getVersionFromFshDefinition d (version (config tank)) = Some v'
  | Type_Invariant, DefInvariant _ | Type_RuleSet, DefRuleSet _
  | Type_Mapping, DefMapping _ => def_name d = base
  | _, _ => False
  end.

Lemma find_sound {A} (p : A -> bool) (l : list A) (x : A) :
  find p l = Some x -> In x l /\ p x = true.
Proof. apply find_some. Qed.

Lemma definitionalInstance_sound resourceType base v i :
  definitionalInstance tank resourceType base v i = true ->
  instanceOf i = resourceType /\ usage i = "Definition"
  /\ answers tank base v (DefInstance i).
Proof.
  unfold definitionalInstance. rewrite <- !andb_assoc, !andb_true_iff, !String.eqb_eq.
  intros (H1 & H2 & H3). split; [exact H1|]. split; [exact H2|].
  apply matches_answers. now apply andb_true_iff.
Qed.

Lemma fishType_structure_sound k base v d :
  fishType tank base v (typeOfKind k) = Some d ->
  (exists s, d = DefStructure k s /\ In s (declared tank k)
             /\ answers tank base v (DefStructure k s))
  \/ (exists i, d = DefInstance i /\ In i (getAllInstances tank)
                /\ definesKind tank k base v i).
Proof.
  rewrite fishType_structure. unfold findStructure, findInstance.
  destruct (find _ (declared tank k)) as [s|] eqn:Hs; simpl.
  - intros [= <-]. left. exists s. apply find_sound in Hs as [Hin Hs].
    split; [reflexivity|split; [exact Hin|now apply matches_answers]].
  - destruct (find _ (getAllInstances tank)) as [i|] eqn:Hi; simpl; [|discriminate].
    intros [= <-]. right. exists i. apply find_sound in Hi as [Hin Hi].
    split; [reflexivity|split; [exact Hin|now apply instancePredicate_definesKind]].
Qed.

Lemma fishType_sound ty base v d :
  fishType tank base v ty = Some d -> declaredIn d /\ ofKind ty base v d.
Proof.
  destruct ty.
  - intros H. apply (fishType_structure_sound Profile) in H
      as [(s & -> & Hin & Ha)|(i & -> & Hin & Hd)]; now split.
  - intros H. apply (fishType_structure_sound Extension) in H
      as [(s & -> & Hin & Ha)|(i & -> & Hin & Hd)]; now split.
  - simpl. destruct (find _ (getAllValueSets tank)) as [vs|] eqn:Hvs; simpl.
    + intros [= <-]. apply find_sound in Hvs as [Hin Hvs].
      split; [exact Hin|now apply matches_answers].
    + unfold findInstance.
      destruct (find _ (getAllInstances tank)) as [i|] eqn:Hi; simpl; [|discriminate].
      intros [= <-]. apply find_sound in Hi as [Hin Hi].
      split; [exact Hin|now apply definitionalInstance_sound].
  - simpl. destruct (find _ (getAllCodeSystems tank)) as [cs|] eqn:Hcs; simpl.
    + intros [= <-]. apply find_sound in Hcs as [Hin Hcs].
      split; [exact Hin|now apply matches_answers].
    + unfold findInstance.
      destruct (find _ (getAllInstances tank)) as [i|] eqn:Hi; simpl; [|discriminate].
      intros [= <-]. apply find_sound in Hi as [Hin Hi].
      split; [exact Hin|now apply definitionalInstance_sound].
  - simpl. unfold findInstance.
    destruct (find _ (getAllInstances tank)) as [i|] eqn:Hi; simpl; [|discriminate].
    intros [= <-]. apply find_sound in Hi as [Hin Hi].
    apply andb_true_iff in Hi as [Hbase Hv].
    apply orb_true_iff in Hbase. rewrite !String.eqb_eq in Hbase.
    split; [exact Hin|split; [exact Hbase|]].
    intros v' ->. simpl in Hv. now apply eqOpt_true.
  - simpl. destruct (find _ (getAllInvariants tank)) as [i|] eqn:Hi; simpl; [|discriminate].
    intros [= <-]. apply find_sound in Hi as [Hin Hi].
    split; [exact Hin|now apply String.eqb_eq].
  - simpl. destruct (find _ (getAllRuleSets tank)) as [r|] eqn:Hr; simpl; [|discriminate].
    intros [= <-]. apply find_sound in Hr as [Hin Hr].
    split; [exact Hin|now apply String.eqb_eq].
  - simpl. destruct (find _ (getAllMappings tank)) as [m|] eqn:Hm; simpl; [|discriminate].
    intros [= <-]. apply find_sound in Hm as [Hin Hm].
    split; [exact Hin|now apply String.eqb_eq].
  - intros H. apply (fishType_structure_sound Resource) in H
      as [(s & -> & Hin & Ha)|(i & -> & Hin & Hd)]; now split.
  - discriminate.
  - intros H. apply (fishType_structure_sound Logical) in H
      as [(s & -> & Hin & Ha)|(i & -> & Hin & Hd)]; now split.
Qed.

End FishSound.

(** X4.  Whatever [fish] returns is a definition of the tank, of one of
    the kinds asked for (of all ten when none is named), and it answers
    the query: a structure, value set or code system by name, id or
    derived URL, and by version when one is asked; an instance asked for
    as an instance by name or id; an invariant, rule set or mapping by
    name.  An instance stands for another kind only with usage Definition
    and the resource type of that kind.  The kind [Type], which the tank
    does not keep, is never answered. *)
Theorem fish_returns_what_was_asked (tank : FSHTank.t) (item : string)
        (types : list FishableType) (d : FshDefinition) :
  FSHTank.fish tank item types = Some d ->
  let query :=
    FSHTank.splitVersion
      match FSHTank.resolveAlias tank item with Some a => a | None => item end in
  declaredIn tank d
  /\ exists ty,
      In ty match types with [] => FSHTank.allSupportedTypes | _ => types end
      /\ ty <> Type_Type
      /\ ofKind tank ty (fst query) (snd query) d.
Proof.
  intros Hfish query. unfold FSHTank.fish in Hfish. fold query in Hfish.
  rewrite (surjective_pairing query) in Hfish.
  apply fishTypes_first in Hfish as (before & ty & after & Htypes & Hty & _).
  pose proof (fishType_sound tank ty _ _ d Hty) as [Hin Hkind].
  split; [exact Hin|]. exists ty. split; [|split; [|exact Hkind]].
  - rewrite Htypes. apply in_or_app. right. now left.
  - intros ->. discriminate.
Qed.

Lemma fish_returns_what_was_asked_witness :
  In Scenario.FooInstance (FSHTank.getAllInstances Scenario.instanceTank)
  /\ usage Scenario.FooInstance = "Definition".
Proof.
  destruct (fish_returns_what_was_asked Scenario.instanceTank "Foo" [Type_Profile]
              (DefInstance Scenario.FooInstance) eq_refl)
    as (Hin & ty & [<-|[]] & _ & Hkind).
  split; [exact Hin|]. exact (proj1 (proj2 Hkind)).
Defined.

(** ** Metadata of a declared structure *)

Section StripPrefix.

Lemma stripPrefix_Some (p s rest : string) :
  stripPrefix p s = Some rest <-> s = p +++ rest.
Proof.
  revert s. induction p as [|a p IH]; intros s; simpl.
  - split; [now intros [= ->]|now intros ->].
  - destruct s as [|b s].
    + split; discriminate.
    + destruct (Ascii.eqb_spec a b) as [->|Hne].
      * rewrite IH. split; [now intros ->|now intros [= ->]].
      * split; [discriminate|]. intros [= Hab _]. congruence.
Qed.

Lemma stripPrefix_None (p s : string) :
  stripPrefix p s = None <-> startsWith s p = false.
Proof.
  unfold startsWith. revert s. induction p as [|a p IH]; intros s; simpl.
  - destruct s; split; discriminate.
  - destruct s as [|b s]; [split; reflexivity|].
    cbn [String.prefix].
    destruct (Ascii.eqb_spec a b) as [->|Hne].
    + rewrite IH. destruct (ascii_dec b b); [reflexivity|contradiction].
    + destruct (ascii_dec a b); [contradiction|split; reflexivity].
Qed.

End StripPrefix.

(** X5.  For a declared structure the metadata carries its derived URL,
    its declared parent and the resource type StructureDefinition.  Only a
    logical model gets a structure type and the two characteristics, and
    its structure type is its URL made relative to the HL7 base: put
    behind that base it gives the URL back; a URL that is not under the
    base is kept whole. *)
Theorem fishForMetadata_structure (tank : FSHTank.t) (item : string)
        (types : list FishableType) (k : StructureKind) (s : FshStructure) :
  FSHTank.fish tank item types = Some (DefStructure k s) ->
  let url := getUrlFromFshDefinition (DefStructure k s) (canonical (FSHTank.config tank)) in
  exists m,
    FSHTank.fishForMetadata tank item types = Some m
    /\ meta_name m = name s /\ meta_id m = Some (id s)
    /\ meta_url m = Some url /\ meta_parent m = parent s
    /\ meta_resourceType m = Some "StructureDefinition"
    /\ (k <> Logical ->
        meta_sdType m = None /\ meta_canBeTarget m = None /\ meta_canBind m = None)
    /\ (k = Logical ->
        exists sdType,
          meta_sdType m = Some sdType
          /\ (if startsWith url FSHTank.HL7_URL
              then url = FSHTank.HL7_URL +++ sdType
              else sdType = url)
          /\ meta_canBeTarget m
             = Some (FSHTank.hasLogicalCharacteristic s "can-be-target")
          /\ meta_canBind m = Some (FSHTank.hasLogicalCharacteristic s "can-bind")).
Proof.
  intros Hfish url. unfold FSHTank.fishForMetadata. rewrite Hfish.
  eexists. split; [reflexivity|]. cbn [meta_name meta_id meta_url meta_parent
    meta_resourceType meta_sdType meta_canBeTarget meta_canBind def_name def_id].
  repeat (split; [reflexivity|]). split.
  - intros Hk. destruct k; try contradiction; repeat split.
  - intros ->. fold url.
    destruct (stripPrefix FSHTank.HL7_URL url) as [rest|] eqn:Hstrip.
    + exists rest. split; [reflexivity|]. split; [|split; reflexivity].
      destruct (startsWith url FSHTank.HL7_URL) eqn:Hstarts.
      * now apply stripPrefix_Some.
      * apply stripPrefix_None in Hstarts. congruence.
    + exists url. split; [reflexivity|]. split; [|split; reflexivity].
      apply stripPrefix_None in Hstrip. now rewrite Hstrip.
Qed.

Lemma fishForMetadata_structure_witness :
  exists m,
    FSHTank.fishForMetadata Scenario.fooTank "foo" [Type_Profile] = Some m
    /\ meta_url m = Some "http://example.org/StructureDefinition/foo"
    /\ meta_parent m = Some "Patient"
    /\ meta_sdType m = None.
Proof.
  destruct (fishForMetadata_structure Scenario.fooTank "foo" [Type_Profile] Profile
              Scenario.Foo eq_refl)
    as (m & Hm & _ & _ & Hurl & Hparent & _ & Hother & _).
  exists m. split; [exact Hm|]. split; [exact Hurl|]. split; [exact Hparent|].
  now apply Hother.
Defined.

(** ** Characteristics of a logical model *)

Section MapFacts.
Context {K V : Type} (eqb : K -> K -> bool).
Hypothesis eqb_spec : forall x y, reflect (x = y) (eqb x y).

Lemma Map_get_Map_set (m : list (K * V)) (k k' : K) (v : V) :
  Map_get eqb (Map_set eqb m k v) k'
  = if eqb k' k then Some v else Map_get eqb m k'.
Proof.
  induction m as [|[k0 v0] m IH]; simpl; [reflexivity|].
  destruct (eqb_spec k k0) as [->|Hk]; simpl.
  - destruct (eqb_spec k' k0); reflexivity.
  - destruct (eqb_spec k' k0) as [->|Hk'].
    + destruct (eqb_spec k0 k); [congruence|reflexivity].
    + exact IH.
Qed.

Lemma Map_get_member (m : list (K * V)) (k : K) (v : V) :
  Map_get eqb m k = Some v -> In (k, v) m.
Proof.
  induction m as [|[k0 v0] m IH]; simpl; [discriminate|].
  destruct (eqb_spec k k0) as [->|_].
  - intros [= ->]. now left.
  - intros H. right. auto.
Qed.

Lemma Map_set_key (m : list (K * V)) (k k' : K) (v : V) :
  In k' (map fst (Map_set eqb m k v)) -> k' = k \/ In k' (map fst m).
Proof.
  induction m as [|[k0 v0] m IH]; simpl.
  - intros [<-|[]]. now left.
  - destruct (eqb_spec k k0) as [->|_]; simpl.
    + intros [<-|H]; auto.
    + intros [<-|H]; auto. destruct (IH H); auto.
Qed.

Lemma Map_set_unique (m : list (K * V)) (k : K) (v : V) :
  NoDup (map fst m) -> NoDup (map fst (Map_set eqb m k v)).
Proof.
  induction m as [|[k0 v0] m IH]; simpl; intros Hm.
  - constructor; [intros []|constructor].
  - inversion Hm as [|? ? Hnotin Hrest]; subst.
    destruct (eqb_spec k k0) as [->|Hk]; simpl.
    + constructor; assumption.
    + constructor; [|auto].
      intros Hin. apply Map_set_key in Hin as [->|Hin]; [congruence|auto].
Qed.

Lemma member_Map_get (m : list (K * V)) (k : K) (v : V) :
  NoDup (map fst m) -> In (k, v) m -> Map_get eqb m k = Some v.
Proof.
  induction m as [|[k0 v0] m IH]; simpl; intros Hm; [intros []|].
  inversion Hm as [|? ? Hnotin Hrest]; subst.
  intros [[= -> ->]|Hin].
  - now destruct (eqb_spec k k).
  - destruct (eqb_spec k k0) as [->|_]; [|auto].
    exfalso. apply Hnotin. change k0 with (fst (k0, v)). now apply in_map.
Qed.

End MapFacts.

Lemma Number_eqb_spec (a b : Number) : reflect (a = b) (Number_eqb a b).
Proof.
  destruct a as [x|], b as [y|]; simpl; try (constructor; congruence).
  destruct (N.eqb_spec x y); constructor; congruence.
Qed.

(** *** The last rule of a kind *)

Section LastRule.
Variable p : Rule -> bool.

Lemma pop_filter_snoc (rs : list Rule) (x : Rule) :
  pop (filter p (rs ++ [x])) = if p x then Some x else pop (filter p rs).
Proof.
  rewrite filter_app. simpl. destruct (p x).
  - unfold pop. now rewrite rev_app_distr.
  - now rewrite app_nil_r.
Qed.

Lemma pop_filter_last (rs : list Rule) (r : Rule) :
  pop (filter p rs) = Some r <->
  exists before after,
    rs = before ++ r :: after /\ p r = true /\ forall r', In r' after -> p r' = false.
Proof.
  induction rs as [|x rs IH] using rev_ind.
  - split; [discriminate|]. intros (before & after & H & _). now destruct before.
  - rewrite pop_filter_snoc. destruct (p x) eqn:Hx.
    + split.
      * intros [= <-]. exists rs, []. split; [reflexivity|]. split; [exact Hx|].
        intros r' [].
      * intros (before & after & Hrs & Hr & Hafter).
        induction after as [|x' after' _] using rev_ind.
        -- change (before ++ [r]) with (before ++ [r]) in Hrs.
           apply app_inj_tail in Hrs as [_ ->]. reflexivity.
        -- change (before ++ r :: after' ++ [x'])
             with (before ++ (r :: after') ++ [x']) in Hrs.
           rewrite app_assoc in Hrs. apply app_inj_tail in Hrs as [_ ->].
           rewrite Hafter in Hx; [discriminate|]. apply in_or_app. right. now left.
    + rewrite IH. split.
      * intros (before & after & -> & Hr & Hafter).
        exists before, (after ++ [x]). split; [now rewrite <- app_assoc|].
        split; [exact Hr|]. intros r' Hin.
        apply in_app_or in Hin as [Hin|[<-|[]]]; auto.
      * intros (before & after & Hrs & Hr & Hafter).
        induction after as [|x' after' _] using rev_ind.
        -- apply app_inj_tail in Hrs as [_ ->]. congruence.
        -- change (before ++ r :: after' ++ [x'])
             with (before ++ (r :: after') ++ [x']) in Hrs.
           rewrite app_assoc in Hrs. apply app_inj_tail in Hrs as [-> ->].
           exists before, after'. split; [reflexivity|]. split; [exact Hr|].
           intros r' Hin. apply Hafter. apply in_or_app. now left.
Qed.

End LastRule.

(** *** Caret paths of an extension of the definition *)

Fixpoint allDigits (s : string) : bool :=
  match s with
  | EmptyString => true
  | String c rest => isDigit c && allDigits rest
  end.

(** [caretPath] names the [url] of the extension at the index [idx]:
    [extension.url] for the index 0, or [extension[digits].url] with
    digits that [parseInt] reads as [idx]. *)
Definition urlPath (idx : Number) (caretPath : string) : Prop :=
  (idx = Finite 0 /\ caretPath = "extension.url")
  \/ exists digits,
      digits <> "" /\ allDigits digits = true /\ parseInt digits = idx
      /\ caretPath = "extension[" +++ digits +++ "].url".

(** [caretPath] names the property [property] of the extension at the
    index [idx]: the index written as JavaScript writes the number, or
    left out for the index 0. *)
Definition valuePath (property : string) (idx : Number) (caretPath : string) : Prop :=
  caretPath = "extension[" +++ Number_toString idx +++ "]." +++ property
  \/ (idx = Finite 0 /\ caretPath = "extension." +++ property).

(** Of the caret rules on the definition itself whose caret path
    satisfies [P], the last one gives [value]. *)
Definition lastOwnCaretRule (P : string -> Prop) (rs : list Rule) (value : FshValue)
  : Prop :=
  exists before caretPath isInstance after,
    rs = before ++ CaretValueRule "" caretPath value isInstance :: after
    /\ P caretPath
    /\ forall cp v i, In (CaretValueRule "" cp v i) after -> ~ P cp.

Section Characteristics.
Import FSHTank.

Lemma includes_In (xs : list string) (x : string) : includes xs x = true <-> In x xs.
Proof.
  unfold includes. rewrite existsb_exists. split.
  - intros (y & Hin & Hy). apply String.eqb_eq in Hy. now subst.
  - intros Hin. exists x. split; [exact Hin|apply String.eqb_refl].
Qed.

Lemma pop_In {A} (xs : list A) (x : A) : pop xs = Some x -> In x xs.
Proof.
  unfold pop. destruct (rev xs) as [|y ys] eqn:Hrev; [discriminate|].
  intros [= ->]. apply in_rev. rewrite Hrev. now left.
Qed.

(** **** The regular expression of the url paths *)

Lemma spanDigits_spec (s ds tl : string) :
  spanDigits s = (ds, tl) -> s = ds +++ tl /\ allDigits ds = true.
Proof.
  revert ds tl. induction s as [|c s IH]; intros ds tl; simpl.
  - intros [= <- <-]. now split.
  - destruct (isDigit c) eqn:Hc.
    + destruct (spanDigits s) as [ds' tl'].
      intros [= <- <-]. destruct (IH ds' tl' eq_refl) as [-> Hds].
      simpl. now rewrite Hc.
    + intros [= <- <-]. now split.
Qed.

Lemma spanDigits_closing (ds rest : string) :
  allDigits ds = true -> spanDigits (ds +++ String "]" rest) = (ds, String "]" rest).
Proof.
  induction ds as [|c ds IH]; simpl; [reflexivity|].
  intros H. apply andb_true_iff in H as [Hc Hds]. now rewrite Hc, IH.
Qed.

Lemma matchExtensionUrl_plain (cp : string) :
  matchExtensionUrl cp = Some None <-> cp = "extension.url".
Proof.
  split; [|now intros ->].
  unfold matchExtensionUrl.
  destruct (stripPrefix "extension" cp) as [rest|] eqn:Hrest; [|discriminate].
  apply stripPrefix_Some in Hrest.
  destruct (String.eqb_spec rest ".url") as [->|_]; [now intros _|].
  destruct (stripPrefix "[" rest); [|discriminate].
  destruct (spanDigits _) as [ds tl].
  destruct (ds =? ""); [discriminate|]. destruct (tl =? "].url"); discriminate.
Qed.

Lemma matchExtensionUrl_indexed (cp ds : string) :
  matchExtensionUrl cp = Some (Some ds) <->
  ds <> "" /\ allDigits ds = true /\ cp = "extension[" +++ ds +++ "].url".
Proof.
  unfold matchExtensionUrl. split.
  - destruct (stripPrefix "extension" cp) as [rest|] eqn:Hrest; [|discriminate].
    apply stripPrefix_Some in Hrest.
    destruct (String.eqb_spec rest ".url"); [discriminate|].
    destruct (stripPrefix "[" rest) as [indexed|] eqn:Hindexed; [|discriminate].
    apply stripPrefix_Some in Hindexed.
    destruct (spanDigits indexed) as [ds' tl] eqn:Hspan.
    apply spanDigits_spec in Hspan as [Hsplit Hds].
    destruct (String.eqb_spec ds' ""); [discriminate|].
    destruct (String.eqb_spec tl "].url") as [->|_]; [|discriminate].
    intros [= <-]. subst. now repeat split.
  - intros (Hne & Hds & ->).
    change (stripPrefix "extension" ("extension[" +++ ds +++ "].url"))
      with (Some ("[" +++ ds +++ "].url")).
    change (("[" +++ ds +++ "].url") =? ".url") with false. cbv iota.
    change (stripPrefix "[" ("[" +++ ds +++ "].url")) with (Some (ds +++ "].url")).
    cbv iota. rewrite (spanDigits_closing ds ".url" Hds).
    destruct (String.eqb_spec ds ""); [contradiction|]. reflexivity.
Qed.

(** **** The rules that the code filters *)

(** [rule.path === '' && /^extension(\[\d+\])?\.url$/.test(rule.caretPath)],
    for the rules whose index is [idx]. *)
Definition urlRule (idx : Number) (r : Rule) : bool :=
  match r with
  | CaretValueRule "" cp _ _ =>
      match matchExtensionUrl cp with
      | Some (Some ds) => Number_eqb idx (parseInt ds)
      | Some None => Number_eqb idx (Finite 0)
      | None => false
      end
  | _ => false
  end.

(** [rule.path === '' && caretPaths.includes(rule.caretPath)] *)
Definition valueRule (caretPaths : list string) (r : Rule) : bool :=
  match r with
  | CaretValueRule "" cp _ _ => includes caretPaths cp
  | _ => false
  end.

(** [p] picks out the caret rules on the definition itself whose caret
    path satisfies [P]. *)
Definition picks (P : string -> Prop) (p : Rule -> bool) : Prop :=
  forall r, p r = true <-> exists cp v i, r = CaretValueRule "" cp v i /\ P cp.

Lemma urlRule_picks (idx : Number) : picks (urlPath idx) (urlRule idx).
Proof.
  intros r. split.
  - destruct r as [| | | | | | |path cp v i|]; try discriminate.
    destruct path; [|discriminate]. simpl.
    destruct (matchExtensionUrl cp) as [[ds|]|] eqn:Hcp; [| |discriminate].
    + intros Hidx. destruct (Number_eqb_spec idx (parseInt ds)); [|discriminate].
      apply matchExtensionUrl_indexed in Hcp as (Hne & Hds & ->).
      exists ("extension[" +++ ds +++ "].url"), v, i. split; [reflexivity|].
      right. exists ds. auto.
    + intros Hidx. destruct (Number_eqb_spec idx (Finite 0)); [|discriminate].
      apply matchExtensionUrl_plain in Hcp as ->.
      exists "extension.url", v, i. split; [reflexivity|]. now left.
  - intros (cp & v & i & -> & [[-> ->]|(ds & Hne & Hds & <- & ->)]); [reflexivity|].
    unfold urlRule.
    rewrite (proj2 (matchExtensionUrl_indexed _ ds)) by auto.
    now destruct (Number_eqb_spec (parseInt ds) (parseInt ds)).
Qed.

(** The caret paths that the loop over the map looks for. *)
Definition valuePaths (property : string) (idx : Number) : list string :=
  ("extension[" +++ Number_toString idx +++ "]." +++ property)
  :: (if Number_eqb idx (Finite 0) then ["extension." +++ property] else []).

Lemma valueRule_picks (property : string) (idx : Number) :
  picks (valuePath property idx) (valueRule (valuePaths property idx)).
Proof.
  unfold valuePaths.
  intros r. split.
  - destruct r as [| | | | | | |path cp v i|]; try discriminate.
    destruct path; [|discriminate]. unfold valueRule. rewrite includes_In.
    intros Hin. exists cp, v, i. split; [reflexivity|].
    destruct Hin as [<-|Hin]; [now left|].
    destruct (Number_eqb_spec idx (Finite 0)) as [->|_]; [|destruct Hin].
    destruct Hin as [<-|[]]. now right.
  - intros (cp & v & i & -> & Hcp). unfold valueRule. rewrite includes_In.
    destruct Hcp as [->|[-> ->]]; [now left|]. right. now left.
Qed.

Lemma lastOwnCaretRule_pop (P : string -> Prop) (p : Rule -> bool) (rs : list Rule)
      (value : FshValue) :
  picks P p ->
  lastOwnCaretRule P rs value
  <-> exists r, pop (filter p rs) = Some r
                /\ exists cp i, r = CaretValueRule "" cp value i.
Proof.
  intros Hp. split.
  - intros (before & cp & i & after & Hrs & Hcp & Hafter).
    exists (CaretValueRule "" cp value i). split; [|eauto].
    apply pop_filter_last. exists before, after. split; [exact Hrs|]. split.
    + apply Hp. eauto.
    + intros r' Hin. destruct (p r') eqn:Hr'; [|reflexivity].
      apply Hp in Hr' as (cp' & v' & i' & -> & Hcp').
      now destruct (Hafter cp' v' i' Hin).
  - intros (r & Hpop & cp & i & ->).
    apply pop_filter_last in Hpop as (before & after & Hrs & Hr & Hafter).
    exists before, cp, i, after. split; [exact Hrs|]. split.
    + apply Hp in Hr as (cp' & v' & i' & [= <- <- <-] & Hcp'). exact Hcp'.
    + intros cp' v' i' Hin Hcp'.
      assert (Htrue : p (CaretValueRule "" cp' v' i') = true) by (apply Hp; eauto).
      rewrite (Hafter _ Hin) in Htrue. discriminate.
Qed.

(** **** The map from index to url *)

(** The body of [extensionUrlRules.forEach], on the rules as they come. *)
Definition recordUrl (m : list (Number * string)) (r : Rule) : list (Number * string) :=
  match r with
  | CaretValueRule "" cp value _ =>
      match matchExtensionUrl cp with
      | Some (Some ds) => Map_set Number_eqb m (parseInt ds) (FshValue_toString value)
      | Some None => Map_set Number_eqb m (Finite 0) (FshValue_toString value)
      | None => m
      end
  | _ => m
  end.

Definition writtenBy (r : Rule) : option string :=
  match r with
  | CaretValueRule _ _ value _ => Some (FshValue_toString value)
  | _ => None
  end.

Lemma recordUrl_get (m : list (Number * string)) (r : Rule) (idx : Number) :
  Map_get Number_eqb (recordUrl m r) idx
  = if urlRule idx r then writtenBy r else Map_get Number_eqb m idx.
Proof.
  destruct r as [| | | | | | |path cp v i|]; try reflexivity.
  destruct path; [|reflexivity]. simpl.
  destruct (matchExtensionUrl cp) as [[ds|]|]; [| |reflexivity];
    now rewrite (Map_get_Map_set _ Number_eqb_spec).
Qed.

Lemma recordUrl_unique (m : list (Number * string)) (r : Rule) :
  NoDup (map fst m) -> NoDup (map fst (recordUrl m r)).
Proof.
  intros Hm. destruct r as [| | | | | | |path cp v i|]; trivial.
  destruct path; trivial. simpl.
  destruct (matchExtensionUrl cp) as [[ds|]|]; trivial;
    now apply (Map_set_unique _ Number_eqb_spec).
Qed.

Lemma extensionUrls_unique (rs : list Rule) (m : list (Number * string)) :
  NoDup (map fst m) -> NoDup (map fst (fold_left recordUrl rs m)).
Proof.
  revert m. induction rs as [|r rs IH]; intros m Hm; simpl; [exact Hm|].
  apply IH. now apply recordUrl_unique.
Qed.

Lemma extensionUrls_get (rs : list Rule) (m : list (Number * string)) (idx : Number) :
  Map_get Number_eqb (fold_left recordUrl rs m) idx
  = match pop (filter (urlRule idx) rs) with
    | Some r => writtenBy r
    | None => Map_get Number_eqb m idx
    end.
Proof.
  induction rs as [|x rs IH] using rev_ind; [reflexivity|].
  rewrite fold_left_app, pop_filter_snoc. simpl.
  rewrite recordUrl_get. destruct (urlRule idx x); [reflexivity|exact IH].
Qed.

(** An entry of the map: the last rule that names the url of that index
    wrote it. *)
Lemma extensionUrls_entry (rs : list Rule) (idx : Number) (url : string) :
  In (idx, url) (fold_left recordUrl rs [])
  <-> exists value,
      lastOwnCaretRule (urlPath idx) rs value /\ FshValue_toString value = url.
Proof.
  split.
  - intros Hin.
    apply (member_Map_get _ Number_eqb_spec) in Hin;
      [|apply extensionUrls_unique; constructor].
    rewrite extensionUrls_get in Hin.
    destruct (pop (filter (urlRule idx) rs)) as [r|] eqn:Hpop; [|discriminate].
    pose proof (pop_In _ _ Hpop) as Hr. apply filter_In in Hr as [_ Hr].
    apply (urlRule_picks idx) in Hr as (cp & v & i & -> & _).
    exists v. split; [|now injection Hin].
    apply (lastOwnCaretRule_pop _ _ rs v (urlRule_picks idx)). eauto.
  - intros (value & Hlast & <-).
    apply (lastOwnCaretRule_pop _ _ rs value (urlRule_picks idx)) in Hlast
      as (r & Hpop & cp & i & ->).
    apply (Map_get_member _ Number_eqb_spec).
    now rewrite extensionUrls_get, Hpop.
Qed.

(** The body of the loop over the map. *)
Definition evidence (rs : list Rule) (code : string) (entry : Number * string) : bool :=
  let (idx, url) := entry in
  if url =? TYPE_CHARACTERISTICS_EXTENSION then
    match pop (filter (valueRule (valuePaths "valueCode" idx)) rs) with
    | Some (CaretValueRule _ _ (VCode c) _) => c =? code
    | _ => false
    end
  else if (url =? LOGICAL_TARGET_EXTENSION) && (code =? "can-be-target") then
    match pop (filter (valueRule (valuePaths "valueBoolean" idx)) rs) with
    | Some (CaretValueRule _ _ (VBoolean true) _) => true
    | _ => false
    end
  else false.

Lemma hasLogicalCharacteristic_unfold (logical : FshStructure) (code : string) :
  hasLogicalCharacteristic logical code
  = if includes (characteristics logical) code then true
    else existsb (evidence (rules logical) code)
                 (fold_left recordUrl (rules logical) []).
Proof. reflexivity. Qed.

End Characteristics.

(** X6.  A logical model has a characteristic exactly on this evidence:
    the code is among its declared characteristics; or, for some index,
    the last caret rule on the definition itself that names the url of the
    extension at that index gives the type-characteristics URL, and the
    last one that names the [valueCode] of the extension at the same index
    gives that code; or, for can-be-target alone, the last url at the
    index is the logical-target URL and the last [valueBoolean] at the
    same index is true.  The index of a url path is read as a number and
    written back as one in the value paths; [extension.url] and
    [extension.valueCode] stand for the index 0. *)
Theorem hasLogicalCharacteristic_evidence (logical : FshStructure) (code : string) :
  FSHTank.hasLogicalCharacteristic logical code = true <->
  In code (characteristics logical)
  \/ exists idx url,
      lastOwnCaretRule (urlPath idx) (rules logical) url
      /\ ((FshValue_toString url = TYPE_CHARACTERISTICS_EXTENSION
           /\ lastOwnCaretRule (valuePath "valueCode" idx) (rules logical) (VCode code))
          \/ (FshValue_toString url = LOGICAL_TARGET_EXTENSION
              /\ code = "can-be-target"
              /\ lastOwnCaretRule (valuePath "valueBoolean" idx) (rules logical)
                                  (VBoolean true))).
Proof.
  rewrite hasLogicalCharacteristic_unfold.
  destruct (includes (characteristics logical) code) eqn:Hlisted.
  { split; [intros _; left; now apply includes_In|reflexivity]. }
  assert (Hnot : ~ In code (characteristics logical)).
  { intros Hin. apply includes_In in Hin. congruence. }
  rewrite existsb_exists. split.
  - intros ([idx url] & Hin & Hbody). right.
    apply extensionUrls_entry in Hin as (value & Hlast & <-).
    exists idx, value. split; [exact Hlast|]. unfold evidence in Hbody.
    destruct (String.eqb_spec (FshValue_toString value) TYPE_CHARACTERISTICS_EXTENSION)
      as [Htype|_].
    + left. split; [exact Htype|].
      apply (lastOwnCaretRule_pop _ _ _ _ (valueRule_picks "valueCode" idx)).
      destruct (pop _) as [r|] eqn:Hpop; [|discriminate]. exists r. split; [reflexivity|].
      pose proof (pop_In _ _ Hpop) as Hr. apply filter_In in Hr as [_ Hr].
      apply (valueRule_picks "valueCode" idx) in Hr as (cp & v & i & -> & _).
      destruct v; try discriminate. apply String.eqb_eq in Hbody. subst. eauto.
    + right.
      destruct (String.eqb_spec (FshValue_toString value) LOGICAL_TARGET_EXTENSION)
        as [Htarget|_]; [|discriminate].
      destruct (String.eqb_spec code "can-be-target") as [Hcode|_]; [|discriminate].
      simpl andb in Hbody. cbv iota in Hbody.
      split; [exact Htarget|]. split; [exact Hcode|].
      apply (lastOwnCaretRule_pop _ _ _ _ (valueRule_picks "valueBoolean" idx)).
      destruct (pop _) as [r|] eqn:Hpop; [|discriminate]. exists r. split; [reflexivity|].
      pose proof (pop_In _ _ Hpop) as Hr. apply filter_In in Hr as [_ Hr].
      apply (valueRule_picks "valueBoolean" idx) in Hr as (cp & v & i & -> & _).
      destruct v as [| |[|]| |]; try discriminate. eauto.
  - intros [Hin|(idx & url & Hlast & Hvalue)]; [contradiction|].
    exists (idx, FshValue_toString url). split.
    { apply extensionUrls_entry. eauto. }
    unfold evidence.
    destruct Hvalue as [[Htype Hcode]|(Htarget & Hcode & Htrue)].
    + rewrite Htype, String.eqb_refl.
      apply (lastOwnCaretRule_pop _ _ _ _ (valueRule_picks "valueCode" idx)) in Hcode
        as (r & Hpop & cp & i & ->).
      rewrite Hpop. apply String.eqb_refl.
    + rewrite Htarget, Hcode.
      apply (lastOwnCaretRule_pop _ _ _ _ (valueRule_picks "valueBoolean" idx)) in Htrue
        as (r & Hpop & cp & i & ->).
      simpl. now rewrite Hpop.
Qed.

Lemma hasLogicalCharacteristic_evidence_witness :
  FSHTank.hasLogicalCharacteristic Fixtures.Bindable "can-bind" = true
  /\ FSHTank.hasLogicalCharacteristic Fixtures.Bindable "can-be-target" = false.
Proof.
  split; [|reflexivity].
  apply (proj2 (hasLogicalCharacteristic_evidence Fixtures.Bindable "can-bind")).
  right. exists (Finite 0), (VString TYPE_CHARACTERISTICS_EXTENSION). split.
  - exists [], "extension[0].url", false,
      [CaretValueRule "" "extension[0].valueCode" (VCode "can-bind") false].
    split; [reflexivity|]. split.
    + right. exists "0". repeat split. discriminate.
    + intros cp v i [[= <- _ _]|[]] [[_ [=]]|(ds & Hne & Hds & _ & Hcp)].
      pose proof (proj2 (matchExtensionUrl_indexed _ ds) (conj Hne (conj Hds Hcp)))
        as Hmatch.
      discriminate Hmatch.
  - left. split; [reflexivity|].
    exists [CaretValueRule "" "extension[0].url"
              (VString TYPE_CHARACTERISTICS_EXTENSION) false],
      "extension[0].valueCode", false, [].
    split; [reflexivity|]. split; [now left|]. intros cp v i [].
Defined.

(** The index is a double: the url path below names an index that no
    double holds, and the value path with the nearest double answers it. *)
Example index_is_a_double :
  FSHTank.hasLogicalCharacteristic
    (Scenario.structure "Rounded" "rounded" None
       [CaretValueRule "" "extension[9007199254740993].url"
          (VString TYPE_CHARACTERISTICS_EXTENSION) false;
        CaretValueRule "" "extension[9007199254740992].valueCode"
          (VCode "can-bind") false])
    "can-bind"
  = true.
Proof. vm_compute. reflexivity. Qed.

(** * Further properties of the exporter *)

(** ** The run over the tank *)

Section Run.
Import StructureDefinitionExporter.
Variable depth : nat.
Variable this : StructureDefinitionExporter.t.
Variable st0 : Store.

#[local] Abbreviation grown := (fun st : Store => extends st0 st).

Lemma grown_log lv m : NoThrow grown (logger.log lv m).
Proof.
  apply NoThrow_modify. intros st Hst.
  eapply extends_trans; [exact Hst|]. apply extends_set_logs.
Qed.

Lemma grown_exportStructDef d : Preserving grown (exportStructDef depth this d).
Proof.
  intros st Hst. pose proof (exportStructDef_extends depth this d st) as H.
  apply (sat_weaken _ _ _ _ _ H);
    intros ? st' Hst'; eapply extends_trans; eauto.
Qed.

(** One turn of the loop of [export]. *)
Definition exportOne (sd : StructureKind * FshStructure) : M unit :=
  tryCatch (exportStructDef depth this sd ;; ret tt)
           (fun e => logger.error (MessageOf e)).

Lemma grown_exportOne sd : NoThrow grown (exportOne sd).
Proof.
  apply NoThrow_tryCatch.
  - apply Preserving_bind; [apply grown_exportStructDef|].
    intros _. apply Preserving_ret.
  - intros e. apply grown_log.
Qed.

(** The store after one turn: as the export of [sd] left it, with the
    message of the exception logged as an error when it threw one. *)
Definition afterOne (st : Store) (sd : StructureKind * FshStructure) : Store :=
  match exportStructDef depth this sd st with
  | Returned _ st' => st'
  | Thrown e st' =>
      set_logs (logs st' ++ [{| level := Error; message := MessageOf e |}]) st'
  end.

Lemma exportOne_returns sd st : exportOne sd st = Returned tt (afterOne st sd).
Proof.
  unfold exportOne, tryCatch, afterOne, bind.
  destruct (exportStructDef depth this sd st); reflexivity.
Qed.

Lemma forEach_exportOne sds st :
  forEach exportOne sds st = Returned tt (fold_left afterOne sds st).
Proof.
  revert st. induction sds as [|sd sds IH]; intros st; simpl; [reflexivity|].
  now rewrite (bind_of_Returned _ _ _ _ _ (exportOne_returns sd st)).
Qed.

Lemma grown_export : NoThrow grown (export depth this).
Proof.
  unfold export. apply NoThrow_bind.
  - apply NoThrow_forEach. intros sd _. apply grown_exportOne.
  - intros _. destruct (FSHTank.getAllStructureDefinitions (tank this)).
    + apply NoThrow_ret.
    + apply grown_log.
Qed.

End Run.

(** X7.  [export] always returns.  The definitions of the tank are tried
    in order, each from the store that the one before left.  Whatever a
    definition makes [exportStructDef] throw (the exception of an
    exhausted stack included) is caught: its message is logged as an
    error, on the store as the exception left it, and the run goes on to
    the next definition.  When the tank has definitions, the count of
    them is logged at the end. *)
Theorem export_catches_and_goes_on (depth : nat) (this : StructureDefinitionExporter.t)
        (st : Store) :
  let sds := FSHTank.getAllStructureDefinitions (StructureDefinitionExporter.tank this) in
  let st1 := fold_left (afterOne depth this) sds st in
  StructureDefinitionExporter.export depth this st
  = Returned tt
      match sds with
      | [] => st1
      | _ =>
          set_logs (logs st1
                    ++ [{| level := Info;
                           message := Text ("Converted " +++ showNat (length sds)
                                            +++ " FHIR StructureDefinitions.") |}])
                   st1
      end.
Proof.
  intros sds st1. unfold StructureDefinitionExporter.export. fold sds.
  pose proof (forEach_exportOne depth this sds st) as Hloop.
  unfold exportOne in Hloop. cbv zeta.
  rewrite (bind_of_Returned _ _ _ _ _ Hloop). fold st1.
  now destruct sds.
Qed.

(** Two profiles that name themselves as parent: both errors are logged,
    then the count, and nothing is published. *)
Lemma export_catches_and_goes_on_witness :
  exists url url',
    StructureDefinitionExporter.export 1 (Scenario.exporterOf Scenario.selfTank) emptyStore
    = Returned tt
        (set_logs
           [{| level := Error;
               message := MessageOf (ParentDeclaredAsNameError Profile "SelfNamed" url) |};
            {| level := Error;
               message := MessageOf
                            (ParentDeclaredAsIdError Profile "SelfId" "self-id" url') |};
            {| level := Info;
               message := Text "Converted 2 FHIR StructureDefinitions." |}]
           emptyStore).
Proof.
  eexists. eexists.
  rewrite (export_catches_and_goes_on 1 (Scenario.exporterOf Scenario.selfTank) emptyStore).
  vm_compute. reflexivity.
Defined.

(** X8.  A run returns, and has only added to the store: what was
    published or logged before is untouched.  Over a tank without
    structure definitions it changes nothing and logs nothing; otherwise
    its last log entry is the information that all structure definitions
    of the tank were converted, counting profiles, extensions, logical
    models and resources alike, also those that failed. *)
Theorem export_summary (depth : nat) (this : StructureDefinitionExporter.t)
        (st : Store) :
  let tank := StructureDefinitionExporter.tank this in
  let n := length (FSHTank.getAllProfiles tank) + length (FSHTank.getAllExtensions tank)
           + length (FSHTank.getAllLogicals tank) + length (FSHTank.getAllResources tank) in
  exists st',
    StructureDefinitionExporter.export depth this st = Returned tt st'
    /\ extends st st'
    /\ (n = 0 -> st' = st)
    /\ (n <> 0 ->
        exists earlier,
          prefixOf (logs st) earlier
          /\ logs st'
             = earlier ++ [{| level := Info;
                              message := Text ("Converted " +++ showNat n
                                               +++ " FHIR StructureDefinitions.") |}]).
Proof.
  intros tank n.
  destruct (sat_Returned _ _ (grown_export depth this st st (extends_refl st)))
    as ([] & st' & Hrun & Hextends).
  exists st'. split; [exact Hrun|]. split; [exact Hextends|].
  unfold StructureDefinitionExporter.export in Hrun. fold tank in Hrun.
  assert (Hn : length (FSHTank.getAllStructureDefinitions tank) = n).
  { unfold FSHTank.getAllStructureDefinitions, n.
    rewrite !length_app, !length_map. lia. }
  apply bind_Returned in Hrun as ([] & st1 & Hloop & Hlast).
  assert (Hgrown : extends st st1).
  { assert (H : NoThrow (fun s => extends st s)
                  (forEach (exportOne depth this)
                           (FSHTank.getAllStructureDefinitions tank))).
    { apply NoThrow_forEach. intros sd _. apply grown_exportOne. }
    specialize (H st (extends_refl st)).
    unfold exportOne in H. now rewrite Hloop in H. }
  destruct (FSHTank.getAllStructureDefinitions tank) as [|sd sds] eqn:Hall.
  - simpl in Hn, Hloop. injection Hloop as <-. injection Hlast as <-.
    split; [reflexivity|]. intros Hne. now destruct Hne.
  - split; [simpl in Hn; lia|]. intros _.
    exists (logs st1). split; [apply (keeps_logs _ _ _ Hgrown)|].
    rewrite Hn in Hlast. injection Hlast as <-. reflexivity.
Qed.

Lemma export_summary_witness :
  exists st',
    StructureDefinitionExporter.export 1 (Scenario.exporterOf Scenario.selfTank) emptyStore
    = Returned tt st'
    /\ exists earlier,
        logs st' = earlier ++ [{| level := Info;
                                  message := Text "Converted 2 FHIR StructureDefinitions." |}].
Proof.
  destruct (export_summary 1 (Scenario.exporterOf Scenario.selfTank) emptyStore)
    as (st' & Hrun & _ & _ & Hlast).
  exists st'. split; [exact Hrun|].
  destruct Hlast as (earlier & _ & Hlogs); [discriminate|].
  exists earlier. exact Hlogs.
Defined.

(** ** Parent resolution *)

Section Parents.
Import StructureDefinitionExporter.
Variable reenter : StructureKind * FshStructure -> M (option nat).
Variable this : StructureDefinitionExporter.t.

(** The parent a definition is resolved with: its own, or the default of
    its kind when it declares none. *)
Definition withDefaultParent (k : StructureKind) (d : FshStructure) : FshStructure :=
  if isEmpty (parent d) then
    match k with
    | Extension => set_parent (Some "Extension") d
    | Logical => set_parent (Some "Element") d
    | _ => d
    end
  else d.

Lemma getStructureDefinition_default k d st :
  k <> Profile ->
  getStructureDefinition reenter this k d st
  = getStructureDefinition reenter this k (withDefaultParent k d) st.
Proof.
  intros Hk. unfold withDefaultParent.
  destruct (isEmpty (parent d)) eqn:Hempty; [|reflexivity].
  destruct k; try contradiction; try reflexivity;
    unfold getStructureDefinition; rewrite Hempty; reflexivity.
Qed.

(** What parent resolution has checked when it returns. *)
Definition validParent (k : StructureKind) (parentJson : StructureDefinition.t) : Prop :=
  match k with
  | Profile => StructureDefinition.kind parentJson <> Some "logical"
  | Extension => StructureDefinition.type parentJson = Some "Extension"
  | Logical =>
      StructureDefinition.kind parentJson = Some "logical"
      \/ StructureDefinition.type parentJson = Some "Element"
  | Resource => True
  end.

Lemma eqOpt_false (s : string) (o : option string) : eqOpt s o = false <-> o <> Some s.
Proof.
  rewrite <- eqOpt_true. destruct (eqOpt s o); split; congruence.
Qed.

Lemma getStructureDefinition_checked k d st structDef resolved st1 :
  getStructureDefinition reenter this k d st = Returned (structDef, resolved) st1 ->
  resolved = (if match k with Profile => true | _ => false end
              then d else withDefaultParent k d)
  /\ parent resolved <> Some (name resolved)
  /\ parent resolved <> Some (id resolved)
  /\ (k = Profile -> isEmpty (parent d) = false)
  /\ fishForFHIR reenter this
       match parent resolved with Some p => p | None => "" end [] st
     = Returned (Some structDef) st1
  /\ validParent k structDef.
Proof.
  unfold getStructureDefinition. intros H.
  apply bind_Returned in H as (d' & st' & Hdefault & H).
  assert (Hd' : st' = st
                /\ d' = (if match k with Profile => true | _ => false end
                         then d else withDefaultParent k d)
                /\ (k = Profile -> isEmpty (parent d) = false)).
  { unfold withDefaultParent. destruct (isEmpty (parent d)).
    - destruct k; try discriminate; injection Hdefault as <- <-;
        (split; [reflexivity|split; [reflexivity|discriminate]]).
    - injection Hdefault as <- <-. now destruct k. }
  destruct Hd' as (-> & Hresolved & Hprofile).
  apply bind_Returned in H as ([] & st2 & Hname & H).
  destruct (eqOpt (name d') (parent d')) eqn:Hn.
  { apply bind_Returned in Hname as (? & ? & _ & Hname). discriminate. }
  injection Hname as <-.
  apply bind_Returned in H as ([] & st3 & Hid & H).
  destruct (eqOpt (id d') (parent d')) eqn:Hi.
  { apply bind_Returned in Hid as (? & ? & _ & Hid). discriminate. }
  injection Hid as <-.
  apply bind_Returned in H as (parentJson & st4 & Hfish & H).
  destruct parentJson as [parentJson|]; [|discriminate].
  assert (Hvalid : validParent k parentJson /\ Returned (parentJson, d') st4
                                                = Returned (structDef, resolved) st1).
  { destruct k; simpl in H |- *.
    - destruct (eqOpt "logical" (StructureDefinition.kind parentJson)) eqn:Hk;
        [discriminate|]. split; [now apply eqOpt_false|exact H].
    - destruct (eqOpt "Extension" (StructureDefinition.type parentJson)) eqn:Ht;
        [|discriminate]. split; [now apply eqOpt_true|exact H].
    - destruct (eqOpt "logical" (StructureDefinition.kind parentJson)) eqn:Hk;
        [split; [left; now apply eqOpt_true|exact H]|].
      destruct (eqOpt "Element" (StructureDefinition.type parentJson)) eqn:Ht;
        [|discriminate]. split; [right; now apply eqOpt_true|exact H].
    - split; [exact I|exact H]. }
  destruct Hvalid as [Hvalid Heq]. injection Heq as <- <- <-.
  apply eqOpt_false in Hn, Hi.
  repeat split; trivial.
Qed.

End Parents.

(** X9.  A profile that declares no parent (none, or the empty string) is
    not exported.  Unless the package already holds a definition of its
    name, in which case [exportStructDef] returns at its guard without a
    value, [exportStructDef] throws ParentNotProvidedError with the
    profile's name before anything is built, and the store is as it
    was. *)
Theorem profile_needs_parent (depth : nat) (this : StructureDefinitionExporter.t)
        (d : FshStructure) (st : Store) :
  isEmpty (parent d) = true ->
  StructureDefinitionExporter.exportStructDef (S depth) this (Profile, d) st
  = if StructureDefinitionExporter.alreadyExported d st
    then Returned None st
    else Thrown (ParentNotProvidedError (name d)) st.
Proof.
  intros Hempty. rewrite exportStructDef_S.
  destruct (StructureDefinitionExporter.alreadyExported d st) eqn:Hnew.
  - now apply exportStructDefOnce_cached.
  - rewrite exportStructDefOnce_resolve by exact Hnew.
    apply bind_of_Thrown.
    unfold StructureDefinitionExporter.getStructureDefinition. now rewrite Hempty.
Qed.

Lemma profile_needs_parent_witness :
  StructureDefinitionExporter.exportStructDef
    1 (Scenario.exporterOf Scenario.fooTank)
    (Profile, Scenario.structure "Orphan" "orphan" (Some "") []) emptyStore
  = Thrown (ParentNotProvidedError "Orphan") emptyStore
  /\ StructureDefinitionExporter.exportStructDef
       1 (Scenario.exporterOf Scenario.referringTank)
       (Profile, Scenario.structure "Referring" "orphan" None [])
       Scenario.whileReferring
     = Returned None Scenario.whileReferring.
Proof.
  split.
  - apply (profile_needs_parent 0 (Scenario.exporterOf Scenario.fooTank)
             (Scenario.structure "Orphan" "orphan" (Some "") []) emptyStore).
    reflexivity.
  - apply (profile_needs_parent 0 (Scenario.exporterOf Scenario.referringTank)
             (Scenario.structure "Referring" "orphan" None [])
             Scenario.whileReferring).
    reflexivity.
Defined.

(** X10.  An extension without a parent is exported as a child of
    Extension, and a logical model without a parent as a child of Element:
    with or without the default written out, [exportStructDef] does the
    same. *)
Theorem default_parent (depth : nat) (this : StructureDefinitionExporter.t)
        (d : FshStructure) (st : Store) :
  isEmpty (parent d) = true ->
  StructureDefinitionExporter.exportStructDef depth this (Extension, d) st
  = StructureDefinitionExporter.exportStructDef
      depth this (Extension, set_parent (Some "Extension") d) st
  /\ StructureDefinitionExporter.exportStructDef depth this (Logical, d) st
     = StructureDefinitionExporter.exportStructDef
         depth this (Logical, set_parent (Some "Element") d) st.
Proof.
  intros Hempty. destruct depth as [|depth]; [split; reflexivity|].
  rewrite !exportStructDef_S.
  assert (Hsame : forall p,
             StructureDefinitionExporter.alreadyExported (set_parent p d) st
             = StructureDefinitionExporter.alreadyExported d st) by reflexivity.
  destruct (StructureDefinitionExporter.alreadyExported d st) eqn:Hexported.
  - rewrite !exportStructDefOnce_cached; trivial. now split.
  - rewrite !exportStructDefOnce_resolve; trivial.
    unfold bind.
    rewrite (getStructureDefinition_default _ this Extension d st) by discriminate.
    rewrite (getStructureDefinition_default _ this Logical d st) by discriminate.
    unfold withDefaultParent. rewrite Hempty. split; reflexivity.
Qed.

Lemma default_parent_witness :
  StructureDefinitionExporter.exportStructDef
    1 (Scenario.exporterOf Scenario.sliceTank) (Extension, Scenario.ExtA) emptyStore
  = StructureDefinitionExporter.exportStructDef
      1 (Scenario.exporterOf Scenario.sliceTank)
      (Extension, set_parent (Some "Extension") Scenario.ExtA) emptyStore.
Proof.
  apply (proj1 (default_parent 1 (Scenario.exporterOf Scenario.sliceTank)
                  Scenario.ExtA emptyStore eq_refl)).
Defined.

(** * The property bag after [setMetadata] *)

Section PropertyBag.
Import StructureDefinitionExporter.
Variable this : StructureDefinitionExporter.t.

(** What [setMetadata] does to the properties of the definition, the
    element tree left aside: the same writes and deletions, in the same
    order, cut where [setMetadata] may touch the root element. *)

(** From [setId] to [setName]. *)
Definition upToName (k : StructureKind) (fshDefinition : FshStructure)
           (structDef : StructureDefinition.t) : StructureDefinition.t :=
  let config := FSHTank.config (tank this) in
  let structDef := StructureDefinition.set "id" (JString (id fshDefinition)) structDef in
  let structDef :=
    deleteAll ["meta"; "implicitRules"; "language"; "text"; "contained"] structDef in
  let structDef := filtered "extension" structDef in
  let structDef := filtered "modifierExtension" structDef in
  let structDef :=
    StructureDefinition.set "url"
      (JString (getUrlFromFshDefinition (DefStructure k fshDefinition) (canonical config)))
      structDef in
  let structDef := StructureDefinition.delete "identifier" structDef in
  let structDef := StructureDefinition.setOpt "version" (version config) structDef in
  StructureDefinition.set "name" (JString (name fshDefinition)) structDef.

Definition titled (fshDefinition : FshStructure) (structDef : StructureDefinition.t)
  : StructureDefinition.t :=
  match nonEmpty (title fshDefinition) with
  | Some t => StructureDefinition.set "title" (JString t) structDef
  | None => StructureDefinition.delete "title" structDef
  end.

(** From [status] to [contact]. *)
Definition upToContact (structDef : StructureDefinition.t) : StructureDefinition.t :=
  let structDef := StructureDefinition.set "status" (JString "active") structDef in
  deleteAll ["experimental"; "date"; "publisher"; "contact"] structDef.

Definition described (fshDefinition : FshStructure) (structDef : StructureDefinition.t)
  : StructureDefinition.t :=
  match nonEmpty (description fshDefinition) with
  | Some d => StructureDefinition.set "description" (JString d) structDef
  | None => StructureDefinition.delete "description" structDef
  end.

(** From [useContext] to [derivation]. *)
Definition upToDerivation (k : StructureKind) (fshDefinition : FshStructure)
           (baseURL : option string) (structDef : StructureDefinition.t)
  : StructureDefinition.t :=
  let isExtension := match k with Extension => true | _ => false end in
  let isLogical := match k with Logical => true | _ => false end in
  let structDef :=
    deleteAll ["useContext"; "jurisdiction"; "purpose"; "copyright"; "keyword"] structDef in
  let structDef :=
    if isLogical then StructureDefinition.set "kind" (JString "logical") structDef
    else structDef in
  let structDef := StructureDefinition.set "abstract" (JBoolean false) structDef in
  let structDef :=
    if negb isExtension then deleteAll ["context"; "contextInvariant"] structDef
    else structDef in
  let structDef :=
    if isLogical then StructureDefinition.set "type" (JString (id fshDefinition)) structDef
    else structDef in
  let structDef := StructureDefinition.setOpt "baseDefinition" baseURL structDef in
  StructureDefinition.set "derivation"
    (JString (if isLogical then "specialization" else "constraint")) structDef.

(** The default context of an extension. *)
Definition withContext (structDef : StructureDefinition.t) : StructureDefinition.t :=
  match StructureDefinition.get structDef "context" with
  | None =>
      StructureDefinition.set "context"
        (JArray [JObject [("type", JString "element");
                          ("expression", JString "Element")]])
        structDef
  | Some _ => structDef
  end.

Definition metadataOnly (k : StructureKind) (fshDefinition : FshStructure)
           (structDef : StructureDefinition.t) : StructureDefinition.t :=
  let result :=
    upToDerivation k fshDefinition (StructureDefinition.url structDef)
      (described fshDefinition
         (upToContact (titled fshDefinition (upToName k fshDefinition structDef)))) in
  match k with
  | Extension => withContext result
  | _ => result
  end.

(** ** Reading a property after writes *)



End PropertyBag.

Ltac read_get :=
  repeat (rewrite ?get_set, ?get_setOpt, ?get_delete, ?get_deleteAll;
          rewrite ?get_filtered_other by reflexivity;
          simpl).

Section PropertyBagOfSetMetadata.
Import StructureDefinitionExporter.
Variable this : StructureDefinitionExporter.t.

(** Two definitions with the same properties. *)
#[local] Abbreviation same a b := (StructureDefinition.props a = StructureDefinition.props b).

Lemma same_set a b k v :
  same a b -> same (StructureDefinition.set k v a) (StructureDefinition.set k v b).
Proof. intros H. unfold StructureDefinition.set. simpl. now rewrite H. Qed.

Lemma same_delete a b k :
  same a b -> same (StructureDefinition.delete k a) (StructureDefinition.delete k b).
Proof. intros H. unfold StructureDefinition.delete. simpl. now rewrite H. Qed.

Lemma same_setOpt a b k v :
  same a b -> same (StructureDefinition.setOpt k v a) (StructureDefinition.setOpt k v b).
Proof. intros H. destruct v; [now apply same_set|now apply same_delete]. Qed.

Lemma same_deleteAll keys a b : same a b -> same (deleteAll keys a) (deleteAll keys b).
Proof.
  unfold deleteAll. revert a b. induction keys as [|key keys IH]; intros a b H; simpl;
    [exact H|]. now apply IH, same_delete.
Qed.

Lemma same_get a b key :
  same a b -> StructureDefinition.get a key = StructureDefinition.get b key.
Proof. intros H. unfold StructureDefinition.get. now rewrite H. Qed.

Lemma same_withContext a b : same a b -> same (withContext a) (withContext b).
Proof.
  intros H. unfold withContext. rewrite (same_get a b _ H).
  destruct (StructureDefinition.get b "context"); [exact H|now apply same_set].
Qed.

Lemma same_upToContact a b : same a b -> same (upToContact a) (upToContact b).
Proof. intros H. unfold upToContact. now apply same_deleteAll, same_set. Qed.

Lemma same_described d a b : same a b -> same (described d a) (described d b).
Proof.
  intros H. unfold described.
  destruct (nonEmpty (description d)); [now apply same_set|now apply same_delete].
Qed.

Lemma same_upToDerivation k d baseURL a b :
  same a b -> same (upToDerivation k d baseURL a) (upToDerivation k d baseURL b).
Proof.
  intros H. unfold upToDerivation.
  destruct k; cbn [negb]; cbv zeta;
    repeat first [apply same_set | apply same_setOpt | apply same_deleteAll];
    exact H.
Qed.

Lemma titleStep_Returned (applyToRoot : bool) d sd sd1 st st1 :
  match nonEmpty (title d) with
  | Some t =>
      let structDef := StructureDefinition.set "title" (JString t) sd in
      if applyToRoot then onRoot (ElementDefinition.set_short (Some t)) structDef
      else ret structDef
  | None => ret (StructureDefinition.delete "title" sd)
  end st = Returned sd1 st1 ->
  st1 = st /\ same sd1 (titled d sd).
Proof.
  unfold titled. destruct (nonEmpty (title d)).
  - cbv zeta. intros H. apply rootStep_Returned in H as (-> & Hp & _). now split.
  - intros [= <- <-]. now split.
Qed.

Lemma descriptionStep_Returned (applyToRoot : bool) d sd sd2 st st2 :
  match nonEmpty (description d) with
  | Some t =>
      let structDef := StructureDefinition.set "description" (JString t) sd in
      if applyToRoot then onRoot (ElementDefinition.set_definition (Some t)) structDef
      else ret structDef
  | None => ret (StructureDefinition.delete "description" sd)
  end st = Returned sd2 st2 ->
  st2 = st /\ same sd2 (described d sd).
Proof.
  unfold described. destruct (nonEmpty (description d)).
  - cbv zeta. intros H. apply rootStep_Returned in H as (-> & Hp & _). now split.
  - intros [= <- <-]. now split.
Qed.

(** [setMetadata], when it returns, leaves the store alone and the
    properties as [metadataOnly] gives them. *)
Lemma setMetadata_props k fshDefinition structDef st sd' st' :
  setMetadata this k fshDefinition structDef st = Returned sd' st' ->
  st' = st /\ same sd' (metadataOnly this k fshDefinition structDef).
Proof.
  unfold setMetadata. cbv zeta. intros H.
  apply bind_Returned in H as (sdE & stE & Hextension & H).
  apply filterExtensions_Returned in Hextension as (-> & -> & _).
  apply bind_Returned in H as (sdM & stM & Hmodifier & H).
  apply filterExtensions_Returned in Hmodifier as (-> & -> & _).
  apply bind_Returned in H as (sd1 & st1 & Htitle & H).
  apply bind_Returned in H as (sd2 & st2 & Hdescription & H).
  apply titleStep_Returned in Htitle as [-> H1].
  apply descriptionStep_Returned in Hdescription as [-> H2].
  fold (upToName this k fshDefinition structDef) in H1.
  assert (Hresult :
            same (upToDerivation k fshDefinition (StructureDefinition.url structDef) sd2)
                 (upToDerivation k fshDefinition (StructureDefinition.url structDef)
                    (described fshDefinition
                       (upToContact (titled fshDefinition
                                       (upToName this k fshDefinition structDef)))))).
  { apply same_upToDerivation. rewrite H2. apply same_described.
    fold (upToContact sd1). now apply same_upToContact. }
  unfold metadataOnly. cbv zeta.
  destruct k.
  - injection H as <- <-. split; [reflexivity|exact Hresult].
  - match type of H with
    | match ?found with _ => _ end _ = _ => destruct found as [url|]; [|discriminate]
    end.
    injection H as <- <-. split; [reflexivity|].
    apply (same_withContext
             (StructureDefinition.updateElement _ _
                (upToDerivation Extension fshDefinition (StructureDefinition.url structDef)
                   sd2))).
    exact Hresult.
  - injection H as <- <-. split; [reflexivity|exact Hresult].
  - injection H as <- <-. split; [reflexivity|exact Hresult].
Qed.

Lemma setMetadata_get k fshDefinition structDef st sd' st' (key : string) :
  setMetadata this k fshDefinition structDef st = Returned sd' st' ->
  StructureDefinition.get sd' key
  = StructureDefinition.get (metadataOnly this k fshDefinition structDef) key.
Proof. intros H. apply setMetadata_props in H as [_ H]. now apply same_get. Qed.

End PropertyBagOfSetMetadata.

Section ReadMetadata.
Import StructureDefinitionExporter.
Variable this : StructureDefinitionExporter.t.

Lemma get_withContext_other (sd : StructureDefinition.t) (key : string) :
  (key =? "context") = false ->
  StructureDefinition.get (withContext sd) key = StructureDefinition.get sd key.
Proof.
  intros Hkey. unfold withContext.
  destruct (StructureDefinition.get sd "context"); [reflexivity|].
  now rewrite get_set, Hkey.
Qed.

(** The properties that [setMetadata] clears whatever the kind. *)
Definition clearedMetadata : list string :=
  ["meta"; "implicitRules"; "language"; "text"; "contained"; "identifier";
   "experimental"; "date"; "publisher"; "contact"; "useContext"; "jurisdiction";
   "purpose"; "copyright"; "keyword"].

(** Every property that [setMetadata] writes or deletes. *)
Definition touchedMetadata : list string :=
  ["id"; "extension"; "modifierExtension"; "url"; "version"; "name"; "title";
   "status"; "description"; "kind"; "abstract"; "context"; "contextInvariant";
   "type"; "baseDefinition"; "derivation"] ++ clearedMetadata.

Lemma get_titled (d : FshStructure) (sd : StructureDefinition.t) (key : string) :
  StructureDefinition.get (titled d sd) key
  = if key =? "title" then option_map JString (nonEmpty (title d))
    else StructureDefinition.get sd key.
Proof.
  unfold titled. destruct (nonEmpty (title d)); [apply get_set|apply get_delete].
Qed.

Lemma get_described (d : FshStructure) (sd : StructureDefinition.t) (key : string) :
  StructureDefinition.get (described d sd) key
  = if key =? "description" then option_map JString (nonEmpty (description d))
    else StructureDefinition.get sd key.
Proof.
  unfold described. destruct (nonEmpty (description d)); [apply get_set|apply get_delete].
Qed.

End ReadMetadata.

Ltac read_metadata :=
  unfold metadataOnly, upToDerivation, upToContact, upToName; cbv zeta;
  repeat (rewrite ?get_set, ?get_setOpt, ?get_delete, ?get_deleteAll, ?get_titled,
           ?get_described;
          rewrite ?get_filtered_other by reflexivity;
          rewrite ?get_withContext_other by reflexivity;
          simpl).

Section MetadataFacts.
Import StructureDefinitionExporter.
Variable this : StructureDefinitionExporter.t.

Lemma metadataOnly_cleared k d sd key :
  In key clearedMetadata ->
  StructureDefinition.get (metadataOnly this k d sd) key = None.
Proof.
  intros Hin.
  repeat destruct Hin as [<-|Hin]; try contradiction;
    destruct k; read_metadata; reflexivity.
Qed.


Lemma metadataOnly_untouched k d sd key :
  includes touchedMetadata key = false ->
  StructureDefinition.get (metadataOnly this k d sd) key = StructureDefinition.get sd key.
Proof.
  intros Hkey. unfold includes, touchedMetadata, clearedMetadata in Hkey.
  cbn [existsb app] in Hkey.
  repeat (apply orb_false_elim in Hkey as [? Hkey]). clear Hkey.
  unfold metadataOnly, upToDerivation, upToContact, upToName; cbv zeta.
  destruct k; cbn [negb];
    repeat (first [rewrite get_set | rewrite get_setOpt | rewrite get_delete
                  | rewrite get_deleteAll | rewrite get_titled | rewrite get_described
                  | rewrite get_filtered_other by assumption
                  | rewrite get_withContext_other by assumption];
            unfold includes; cbn [existsb];
            repeat match goal with
                   | H : (key =? _) = false |- _ => rewrite H
                   end;
            cbn [orb]);
    reflexivity.
Qed.

End MetadataFacts.

(** X11.  [setMetadata] never lets the child inherit the parent's [meta],
    [implicitRules], [language], [text], [contained], [identifier],
    [experimental], [date], [publisher], [contact], [useContext],
    [jurisdiction], [purpose], [copyright] or [keyword], nor, outside
    extensions, its [context] and [contextInvariant]; a title or
    description is there only if the entity has a non-empty one; the
    status is active, [abstract] is false, and the version is the
    configured one. *)
Theorem setMetadata_clears_inherited_metadata
        (this : StructureDefinitionExporter.t) (k : StructureKind)
        (fshDefinition : FshStructure) (structDef sd' : StructureDefinition.t)
        (st st' : Store) :
  StructureDefinitionExporter.setMetadata this k fshDefinition structDef st
  = Returned sd' st' ->
  (forall key, In key clearedMetadata -> StructureDefinition.get sd' key = None)
  /\ (k <> Extension ->
      StructureDefinition.get sd' "context" = None
      /\ StructureDefinition.get sd' "contextInvariant" = None)
  /\ StructureDefinition.get sd' "title"
     = option_map JString (StructureDefinitionExporter.nonEmpty (title fshDefinition))
  /\ StructureDefinition.get sd' "description"
     = option_map JString (StructureDefinitionExporter.nonEmpty (description fshDefinition))
  /\ StructureDefinition.get sd' "status" = Some (JString "active")
  /\ StructureDefinition.get sd' "abstract" = Some (JBoolean false)
  /\ StructureDefinition.get sd' "version"
     = option_map JString
         (version (FSHTank.config (StructureDefinitionExporter.tank this))).
Proof.
  intros H. rewrite !(setMetadata_get this _ _ _ _ _ _ _ H).
  split; [|split; [|repeat split]].
  - intros key Hin. rewrite (setMetadata_get this _ _ _ _ _ _ _ H).
    now apply metadataOnly_cleared.
  - intros Hk. destruct k; try contradiction; split; read_metadata; reflexivity.
  - destruct k; read_metadata; reflexivity.
  - destruct k; read_metadata; reflexivity.
  - destruct k; read_metadata; reflexivity.
  - destruct k; read_metadata; reflexivity.
  - destruct k; read_metadata; reflexivity.
Qed.

Lemma setMetadata_clears_inherited_metadata_witness :
  exists sd',
    StructureDefinitionExporter.setMetadata
      (Scenario.exporterOf Scenario.fooTank) Profile Scenario.Foo
      (StructureDefinition.set "publisher" (JString "HL7") Scenario.Patient) emptyStore
    = Returned sd' emptyStore
    /\ StructureDefinition.get sd' "publisher" = None
    /\ StructureDefinition.get sd' "status" = Some (JString "active").
Proof.
  eexists. split; [reflexivity|].
  match goal with
  | |- context [StructureDefinition.get ?sd "publisher"] =>
      destruct (setMetadata_clears_inherited_metadata
                  (Scenario.exporterOf Scenario.fooTank) Profile Scenario.Foo
                  (StructureDefinition.set "publisher" (JString "HL7") Scenario.Patient)
                  sd emptyStore emptyStore eq_refl)
        as (Hcleared & _ & _ & _ & Hstatus & _)
  end.
  split; [apply Hcleared; simpl; tauto|exact Hstatus].
Defined.

(** X12.  [setMetadata] changes no property but the ones it names: every
    other property of the parent definition, such as [fhirVersion],
    [mapping] or [resourceType], reads in the child as it read in the
    parent; and so do [kind] and [type] unless the entity is a logical
    model, and the [context] of an extension whose parent has one. *)
Theorem setMetadata_keeps_other_properties
        (this : StructureDefinitionExporter.t) (k : StructureKind)
        (fshDefinition : FshStructure) (structDef sd' : StructureDefinition.t)
        (st st' : Store) :
  StructureDefinitionExporter.setMetadata this k fshDefinition structDef st
  = Returned sd' st' ->
  (forall key, includes touchedMetadata key = false ->
               StructureDefinition.get sd' key = StructureDefinition.get structDef key)
  /\ (k <> Logical ->
      StructureDefinition.get sd' "kind" = StructureDefinition.get structDef "kind"
      /\ StructureDefinition.get sd' "type" = StructureDefinition.get structDef "type")
  /\ (k = Extension ->
      forall context,
        StructureDefinition.get structDef "context" = Some context ->
        StructureDefinition.get sd' "context" = Some context).
Proof.
  intros H. split; [|split].
  - intros key Hkey. rewrite (setMetadata_get this _ _ _ _ _ _ _ H).
    now apply metadataOnly_untouched.
  - intros Hk. rewrite !(setMetadata_get this _ _ _ _ _ _ _ H).
    destruct k; try contradiction; split; read_metadata; reflexivity.
  - intros -> context Hcontext. rewrite (setMetadata_get this _ _ _ _ _ _ _ H).
    unfold metadataOnly, withContext.
    match goal with
    | |- context [upToDerivation ?k ?d ?b ?x] =>
        assert (Hkept : StructureDefinition.get (upToDerivation k d b x) "context"
                        = Some context)
    end.
    { unfold upToDerivation, upToContact, upToName; cbv zeta; cbn [negb].
      repeat (rewrite ?get_set, ?get_setOpt, ?get_delete, ?get_deleteAll, ?get_titled,
               ?get_described;
              rewrite ?get_filtered_other by reflexivity;
              simpl).
      exact Hcontext. }
    now rewrite Hkept.
Qed.

Lemma setMetadata_keeps_other_properties_witness :
  exists sd',
    StructureDefinitionExporter.setMetadata
      (Scenario.exporterOf Scenario.fooTank) Profile Scenario.Foo
      (StructureDefinition.set "fhirVersion" (JString "4.0.1") Scenario.Patient) emptyStore
    = Returned sd' emptyStore
    /\ StructureDefinition.get sd' "fhirVersion" = Some (JString "4.0.1")
    /\ StructureDefinition.get sd' "kind" = Some (JString "resource").
Proof.
  eexists. split; [reflexivity|].
  match goal with
  | |- context [StructureDefinition.get ?sd "fhirVersion"] =>
      destruct (setMetadata_keeps_other_properties
                  (Scenario.exporterOf Scenario.fooTank) Profile Scenario.Foo
                  (StructureDefinition.set "fhirVersion" (JString "4.0.1") Scenario.Patient)
                  sd emptyStore emptyStore eq_refl)
        as (Hother & Hkind & _)
  end.
  split.
  - rewrite Hother; reflexivity.
  - rewrite (proj1 (Hkind ltac:(discriminate))). reflexivity.
Defined.

Section InheritedExtensions.
Import StructureDefinitionExporter.
Variable this : StructureDefinitionExporter.t.




End InheritedExtensions.



Section ExtensionUrl.
Import StructureDefinitionExporter.
Variable this : StructureDefinitionExporter.t.

Lemma findElement_onRoot f sd st sd' st' elementId :
  (forall e, ElementDefinition.id (f e) = ElementDefinition.id e) ->
  onRoot f sd st = Returned sd' st' ->
  StructureDefinition.findElement sd elementId = None ->
  StructureDefinition.findElement sd' elementId = None.
Proof.
  intros Hid. unfold onRoot, StructureDefinition.findElement.
  destruct (StructureDefinition.elements sd) as [|root rest]; [discriminate|].
  intros [= <- <-]. simpl. rewrite Hid.
  now destruct (ElementDefinition.id root =? elementId).
Qed.

Lemma findElement_same_elements sd sd' elementId :
  StructureDefinition.elements sd' = StructureDefinition.elements sd ->
  StructureDefinition.findElement sd' elementId
  = StructureDefinition.findElement sd elementId.
Proof. unfold StructureDefinition.findElement. now intros ->. Qed.

Lemma elements_deleteAll keys sd :
  StructureDefinition.elements (deleteAll keys sd) = StructureDefinition.elements sd.
Proof.
  unfold deleteAll. revert sd. induction keys as [|key keys IH]; intros sd; simpl;
    [reflexivity|]. now rewrite IH.
Qed.

Lemma elements_setOpt key v sd :
  StructureDefinition.elements (StructureDefinition.setOpt key v sd)
  = StructureDefinition.elements sd.
Proof. now destruct v. Qed.

Lemma elements_filtered key sd :
  StructureDefinition.elements (filtered key sd) = StructureDefinition.elements sd.
Proof.
  unfold filtered.
  destruct (StructureDefinition.get sd key) as [[| | |es|]|]; trivial.
  now destruct (filter isInherited es).
Qed.

Lemma elements_upToName k d sd :
  StructureDefinition.elements (upToName this k d sd) = StructureDefinition.elements sd.
Proof.
  unfold upToName. cbv zeta. cbn [StructureDefinition.set StructureDefinition.elements].
  rewrite elements_setOpt. cbn [StructureDefinition.delete StructureDefinition.set
                                  StructureDefinition.elements].
  now rewrite !elements_filtered, elements_deleteAll.
Qed.

Lemma elements_upToContact sd :
  StructureDefinition.elements (upToContact sd) = StructureDefinition.elements sd.
Proof. unfold upToContact. cbv zeta. now rewrite elements_deleteAll. Qed.

Lemma elements_upToDerivation k d baseURL sd :
  StructureDefinition.elements (upToDerivation k d baseURL sd)
  = StructureDefinition.elements sd.
Proof.
  unfold upToDerivation. cbv zeta.
  destruct k; cbn [negb StructureDefinition.set StructureDefinition.elements];
    rewrite elements_setOpt; cbn [StructureDefinition.set StructureDefinition.elements];
    now rewrite ?elements_deleteAll.
Qed.

(** The steps that may touch the root element keep an absent element
    absent. *)
Lemma titleStep_absent (applyToRoot : bool) d sd sd1 st st1 elementId :
  match nonEmpty (title d) with
  | Some t =>
      let structDef := StructureDefinition.set "title" (JString t) sd in
      if applyToRoot then onRoot (ElementDefinition.set_short (Some t)) structDef
      else ret structDef
  | None => ret (StructureDefinition.delete "title" sd)
  end st = Returned sd1 st1 ->
  StructureDefinition.findElement sd elementId = None ->
  StructureDefinition.findElement sd1 elementId = None.
Proof.
  destruct (nonEmpty (title d)) as [t|]; cbv zeta.
  - destruct applyToRoot.
    + intros H Hnone.
      now apply (findElement_onRoot (ElementDefinition.set_short (Some t))
                   _ _ _ _ _ (fun _ => eq_refl) H).
    + now intros [= <- <-].
  - now intros [= <- <-].
Qed.

Lemma descriptionStep_absent (applyToRoot : bool) d sd sd2 st st2 elementId :
  match nonEmpty (description d) with
  | Some t =>
      let structDef := StructureDefinition.set "description" (JString t) sd in
      if applyToRoot then onRoot (ElementDefinition.set_definition (Some t)) structDef
      else ret structDef
  | None => ret (StructureDefinition.delete "description" sd)
  end st = Returned sd2 st2 ->
  StructureDefinition.findElement sd elementId = None ->
  StructureDefinition.findElement sd2 elementId = None.
Proof.
  destruct (nonEmpty (description d)) as [t|]; cbv zeta.
  - destruct applyToRoot.
    + intros H Hnone.
      now apply (findElement_onRoot (ElementDefinition.set_definition (Some t))
                   _ _ _ _ _ (fun _ => eq_refl) H).
    + now intros [= <- <-].
  - now intros [= <- <-].
Qed.

End ExtensionUrl.

(** X14.  For an extension, [setMetadata] fixes the element
    [Extension.url] to the extension's own new URL.  It gives the
    extension the context "element Element" unless the parent has a
    context, which is then kept.  When the tree of the parent has no
    element [Extension.url], it does not return: the assignment through
    the missing element is a TypeError. *)
Theorem setMetadata_extension_url
        (this : StructureDefinitionExporter.t) (fshDefinition : FshStructure)
        (structDef : StructureDefinition.t) (st : Store) :
  let url :=
    getUrlFromFshDefinition (DefStructure Extension fshDefinition)
      (canonical (FSHTank.config (StructureDefinitionExporter.tank this))) in
  (forall sd' st',
      StructureDefinitionExporter.setMetadata this Extension fshDefinition structDef st
      = Returned sd' st' ->
      (exists e,
          StructureDefinition.findElement sd' "Extension.url" = Some e
          /\ ElementDefinition.fixedUri e = Some url)
      /\ StructureDefinition.get sd' "context"
         = match StructureDefinition.get structDef "context" with
           | Some context => Some context
           | None => Some (JArray [JObject [("type", JString "element");
                                            ("expression", JString "Element")]])
           end)
  /\ (StructureDefinition.findElement structDef "Extension.url" = None ->
      forall sd' st',
        StructureDefinitionExporter.setMetadata this Extension fshDefinition structDef st
        <> Returned sd' st').
Proof.
  intros url. split.
  - intros sd' st' H. split.
    + unfold StructureDefinitionExporter.setMetadata in H. cbv zeta in H.
      apply bind_Returned in H as (sdE & stE & Hextension & H).
      apply filterExtensions_Returned in Hextension as (-> & -> & _).
      apply bind_Returned in H as (sdM & stM & Hmodifier & H).
      apply filterExtensions_Returned in Hmodifier as (-> & -> & _).
      apply bind_Returned in H as (sd1 & st1 & Htitle & H).
      apply bind_Returned in H as (sd2 & st2 & Hdescription & H).
      apply titleStep_Returned in Htitle as [-> H1].
      apply descriptionStep_Returned in Hdescription as [-> H2].
      fold (upToName this Extension fshDefinition structDef) in H1.
      fold (upToContact sd1) in H2.
      match type of H with
      | context [StructureDefinition.setOpt "baseDefinition" ?b _] =>
          fold (upToDerivation Extension fshDefinition b sd2) in H;
          set (result := upToDerivation Extension fshDefinition b sd2) in *;
          assert (Hurl : StructureDefinition.url result = Some url)
      end.
      { unfold StructureDefinition.url, StructureDefinition.getString, result.
        rewrite (same_get _ _ "url"
                   (same_upToDerivation _ _ _ _ _
                      (eq_trans H2 (same_described _ _ _ (same_upToContact _ _ H1))))).
        read_metadata. reflexivity. }
      destruct (StructureDefinition.findElement result "Extension.url") as [e|] eqn:He;
        [|discriminate].
      pose proof (findElement_id _ _ _ He) as Hid.
      injection H as <- <-. rewrite Hid, Hurl.
      exists (ElementDefinition.set_fixedUri (Some url) e). split; [|reflexivity].
      rewrite <- (findElement_updateElement result "Extension.url"
                    (ElementDefinition.set_fixedUri (Some url)) e He eq_refl).
      apply findElement_same_elements.
      now destruct (StructureDefinition.get _ "context").
    + rewrite (setMetadata_get this _ _ _ _ _ _ _ H).
      unfold metadataOnly, withContext.
      match goal with
      | |- context [upToDerivation ?k ?d ?b ?x] =>
          assert (Hkept : StructureDefinition.get (upToDerivation k d b x) "context"
                          = StructureDefinition.get structDef "context")
      end.
      { unfold upToDerivation, upToContact, upToName; cbv zeta; cbn [negb].
        repeat (rewrite ?get_set, ?get_setOpt, ?get_delete, ?get_deleteAll, ?get_titled,
                 ?get_described;
                rewrite ?get_filtered_other by reflexivity;
                simpl).
        reflexivity. }
      rewrite Hkept.
      destruct (StructureDefinition.get structDef "context"); [exact Hkept|].
      now rewrite get_set.
  - intros Hnone sd' st' H.
    unfold StructureDefinitionExporter.setMetadata in H. cbv zeta in H.
    apply bind_Returned in H as (sdE & stE & Hextension & H).
    apply filterExtensions_Returned in Hextension as (-> & -> & _).
    apply bind_Returned in H as (sdM & stM & Hmodifier & H).
    apply filterExtensions_Returned in Hmodifier as (-> & -> & _).
    apply bind_Returned in H as (sd1 & st1 & Htitle & H).
    apply bind_Returned in H as (sd2 & st2 & Hdescription & H).
    fold (upToName this Extension fshDefinition structDef) in Htitle.
    apply titleStep_absent with (elementId := "Extension.url") in Htitle;
      [|now rewrite (findElement_same_elements structDef)
          by apply elements_upToName].
    fold (upToContact sd1) in Hdescription.
    apply descriptionStep_absent with (elementId := "Extension.url") in Hdescription;
      [|now rewrite (findElement_same_elements sd1) by apply elements_upToContact].
    match type of H with
    | context [StructureDefinition.setOpt "baseDefinition" ?b _] =>
        fold (upToDerivation Extension fshDefinition b sd2) in H;
        rewrite (findElement_same_elements sd2 (upToDerivation Extension fshDefinition b sd2))
          in H by apply elements_upToDerivation
    end.
    rewrite Hdescription in H. discriminate.
Qed.

Lemma setMetadata_extension_url_witness :
  exists sd' e,
    StructureDefinitionExporter.setMetadata
      (Scenario.exporterOf Scenario.sliceTank) Extension Scenario.ExtA
      Scenario.ExtensionDefinition emptyStore
    = Returned sd' emptyStore
    /\ StructureDefinition.findElement sd' "Extension.url" = Some e
    /\ ElementDefinition.fixedUri e = Some "http://example.org/StructureDefinition/ext-a".
Proof.
  assert (Hrun : exists sd',
             StructureDefinitionExporter.setMetadata
               (Scenario.exporterOf Scenario.sliceTank) Extension Scenario.ExtA
               Scenario.ExtensionDefinition emptyStore
             = Returned sd' emptyStore)
    by (eexists; vm_compute; reflexivity).
  destruct Hrun as [sd' Hrun].
  destruct (proj1 (setMetadata_extension_url
                     (Scenario.exporterOf Scenario.sliceTank) Scenario.ExtA
                     Scenario.ExtensionDefinition emptyStore) sd' emptyStore Hrun)
    as ((e & He & Hfixed) & _).
  exists sd', e. split; [exact Hrun|]. split; [exact He|exact Hfixed].
Defined.

(** * Where an export publishes *)

(** The three partitions of the package. *)
Inductive Partition := Profiles | Extensions | Logicals.

Definition members (which : Partition) (p : Package.t) : list nat :=
  match which with
  | Profiles => Package.profiles p
  | Extensions => Package.extensions p
  | Logicals => Package.logicals p
  end.

Definition Partition_eqb (a b : Partition) : bool :=
  match a, b with
  | Profiles, Profiles | Extensions, Extensions | Logicals, Logicals => true
  | _, _ => false
  end.

(** The partition for an entity of class [k] whose parent resolved to
    [parentJson]: an extension goes to the extensions; a logical model to
    the logical models, unless its id is Extension; a profile to the
    extensions when its parent is of type Extension and to the profiles
    otherwise; a resource where type and kind of its parent put it. *)
Definition partitionFor (k : StructureKind) (d : FshStructure)
           (parentJson : StructureDefinition.t) : Partition :=
  let parentIsExtension :=
    StructureDefinitionExporter.sameOpt (StructureDefinition.type parentJson)
                                        (Some "Extension") in
  let parentIsLogical :=
    StructureDefinitionExporter.sameOpt (StructureDefinition.kind parentJson)
                                        (Some "logical") in
  match k with
  | Extension => Extensions
  | Logical => if id d =? "Extension" then Extensions else Logicals
  | Profile => if parentIsExtension then Extensions else Profiles
  | Resource =>
      if parentIsExtension then Extensions
      else if parentIsLogical then Logicals else Profiles
  end.

Section Partition.
Import StructureDefinitionExporter.
Variable this : StructureDefinitionExporter.t.

(** The partition that [publish] pushes into. *)
Definition partitionOf (structDef : StructureDefinition.t) : Partition :=
  if sameOpt (StructureDefinition.type structDef) (Some "Extension") then Extensions
  else if sameOpt (StructureDefinition.kind structDef) (Some "logical") then Logicals
  else Profiles.

Lemma publish_partition structDef st l stP :
  publish structDef st = Returned l stP ->
  forall which,
    members which (pkg stP)
    = members which (pkg st)
      ++ (if Partition_eqb which (partitionOf structDef) then [l] else []).
Proof.
  unfold publish, bind, gets, modify, ret, partitionOf. intros [= <- <-] which.
  simpl.
  destruct (sameOpt (StructureDefinition.type structDef) (Some "Extension"));
    [|destruct (sameOpt (StructureDefinition.kind structDef) (Some "logical"))];
    destruct which; simpl; now rewrite ?app_nil_r.
Qed.

Lemma same_marked k d structDef :
  StructureDefinition.props (marked k d structDef) = StructureDefinition.props structDef.
Proof. now destruct k. Qed.

(** Type and kind of the skeleton, as [setMetadata] leaves them. *)
Lemma setMetadata_type_kind k d structDef st sd' st' :
  setMetadata this k d (marked k d structDef) st = Returned sd' st' ->
  StructureDefinition.type sd'
  = match k with Logical => Some (id d) | _ => StructureDefinition.type structDef end
  /\ StructureDefinition.kind sd'
     = match k with Logical => Some "logical" | _ => StructureDefinition.kind structDef end.
Proof.
  intros H.
  unfold StructureDefinition.type, StructureDefinition.kind, StructureDefinition.getString.
  rewrite !(setMetadata_get this _ _ _ _ _ _ _ H).
  assert (Hmarked : forall key,
             StructureDefinition.get (marked k d structDef) key
             = StructureDefinition.get structDef key).
  { intros key. unfold StructureDefinition.get. now rewrite same_marked. }
  destruct k; read_metadata; rewrite ?Hmarked; split; reflexivity.
Qed.

Lemma publishSkeleton_partition k d structDef st l stP :
  publishSkeleton this k d structDef st = Returned l stP ->
  exists sd',
    (forall which,
        members which (pkg stP)
        = members which (pkg st)
          ++ (if Partition_eqb which (partitionOf sd') then [l] else []))
    /\ StructureDefinition.type sd'
       = match k with Logical => Some (id d) | _ => StructureDefinition.type structDef end
    /\ StructureDefinition.kind sd'
       = match k with
         | Logical => Some "logical"
         | _ => StructureDefinition.kind structDef
         end.
Proof.
  rewrite publishSkeleton_unfold. intros H.
  apply bind_Returned in H as (sd' & stM & Hmeta & Hpublish).
  exists sd'. split; [|now apply setMetadata_type_kind in Hmeta].
  apply setMetadata_Returned in Hmeta as (-> & _).
  intros which. now rewrite (publish_partition _ _ _ _ Hpublish which).
Qed.

(** For a parent that parent resolution accepted, the partition chosen by
    type and kind of the skeleton is the one of [partitionFor]. *)
Lemma partitionOf_skeleton k d parentJson sd' :
  validParent k parentJson ->
  StructureDefinition.type sd'
  = match k with Logical => Some (id d) | _ => StructureDefinition.type parentJson end ->
  StructureDefinition.kind sd'
  = match k with Logical => Some "logical" | _ => StructureDefinition.kind parentJson end ->
  partitionOf sd' = partitionFor k d parentJson.
Proof.
  intros Hvalid Htype Hkind. unfold partitionOf, partitionFor. rewrite Htype, Hkind.
  destruct k; simpl in Hvalid |- *.
  - destruct (sameOpt (StructureDefinition.type parentJson) (Some "Extension"));
      [reflexivity|].
    destruct (sameOpt (StructureDefinition.kind parentJson) (Some "logical")) eqn:Hlogical;
      [|reflexivity].
    apply sameOpt_true in Hlogical. contradiction.
  - now rewrite Hvalid.
  - now destruct (id d =? "Extension").
  - reflexivity.
Qed.

End Partition.

(** X15.  The partition of the package that an exported definition lands
    in is chosen by the type and kind of the definition as [setMetadata]
    leaves it, not by the class of the entity.  When an export returns the
    definition [l], the skeleton was pushed into exactly one partition:
    for an extension the extensions; for a profile the extensions when the
    parent that was resolved is of type Extension, and the profiles
    otherwise; for a logical model the extensions when its id is
    Extension, and the logical models otherwise.  The other two
    partitions were left as they were, and what the rules published
    afterwards came behind. *)
Theorem exported_partition (depth : nat) (this : StructureDefinitionExporter.t)
        (k : StructureKind) (d : FshStructure) (st st' : Store) (l : nat) :
  StructureDefinitionExporter.exportStructDef (S depth) this (k, d) st
  = Returned (Some l) st' ->
  exists parentJson resolved st1 stP,
    StructureDefinitionExporter.getStructureDefinition
      (StructureDefinitionExporter.exportStructDef depth this) this k d st
    = Returned (parentJson, resolved) st1
    /\ StructureDefinitionExporter.publishSkeleton this k resolved parentJson st1
       = Returned l stP
    /\ (forall which,
          members which (pkg stP)
          = members which (pkg st1)
            ++ (if Partition_eqb which (partitionFor k d parentJson) then [l] else []))
    /\ (forall which, prefixOf (members which (pkg stP)) (members which (pkg st')))
    /\ In l (members (partitionFor k d parentJson) (pkg st')).
Proof.
  intros Hexport. rewrite exportStructDef_S in Hexport.
  destruct (StructureDefinitionExporter.alreadyExported d st) eqn:Hnew.
  { rewrite exportStructDefOnce_cached in Hexport by trivial. discriminate. }
  pose proof Hexport as Hstages.
  rewrite exportStructDefOnce_resolve in Hstages by trivial.
  apply bind_Returned in Hstages as ([structDef resolved] & st1 & Hresolve & Hrest).
  apply bind_Returned in Hrest as (l0 & stP & Hpublish & _). simpl in Hpublish.
  rewrite (exportStructDefOnce_stages _ _ _ _ _ _ _ _ _ _ Hnew Hresolve Hpublish)
    in Hexport.
  destruct (getStructureDefinition_resolved _ _ _ _ _ _ _ _ Hresolve) as (_ & Hid & _).
  destruct (getStructureDefinition_checked _ _ _ _ _ _ _ _ Hresolve)
    as (_ & _ & _ & _ & _ & Hvalid).
  destruct (publishSkeleton_partition _ _ _ _ _ _ _ Hpublish)
    as (sdM & Hpushed & Htype & Hkind).
  rewrite Hid in Htype.
  rewrite (partitionOf_skeleton k d structDef sdM Hvalid Htype Hkind) in Hpushed.
  pose proof Hpublish as Hskeleton.
  apply publishSkeleton_Returned in Hskeleton
    as (Hl0 & (sdP & Hheap & _) & _ & _ & _).
  assert (HsdP : deref stP l0 = Some sdP).
  { unfold deref. rewrite Hheap, Hl0, nth_error_app2, Nat.sub_diag; trivial. }
  assert (Hnone : forall rule, In rule (rules resolved) -> overwrites [] rule = false).
  { intros rule _. destruct rule; simpl; trivial. now rewrite andb_false_r. }
  pose proof (compile_completes _ this
                (exportStructDef_extends depth this) k resolved l0 stP sdP [] HsdP Hnone)
    as Hdone.
  rewrite Hexport in Hdone. simpl in Hdone. destruct Hdone as (Heq & K & _).
  assert (Hl : l0 = l) by congruence. rewrite Hl in *. clear Heq Hl.
  assert (Hkept : forall which, prefixOf (members which (pkg stP)) (members which (pkg st'))).
  { intros [| |];
      [apply (keeps_profiles _ _ _ K)|apply (keeps_extensions _ _ _ K)
      |apply (keeps_logicals _ _ _ K)]. }
  exists structDef, resolved, st1, stP.
  split; [exact Hresolve|]. split; [exact Hpublish|]. split; [exact Hpushed|].
  split; [exact Hkept|].
  apply (prefixOf_In _ _ _ (Hkept _)). rewrite Hpushed. apply in_or_app. right.
  now destruct (partitionFor k d structDef); left.
Qed.

(** An exporter whose external definitions hold Element, the default
    parent of a logical model. *)
Definition logicalExporter : StructureDefinitionExporter.t :=
  {| StructureDefinitionExporter.tank := Scenario.tankOf [] [] [] [];
     StructureDefinitionExporter.fhir :=
       [Scenario.external "Element" "complex-type" [Scenario.element "Element" None]] |}.

(** A profile of Patient lands among the profiles, and a profile of
    Extension, like an extension, among the extensions; a logical model
    among the logical models, but one whose id is Extension among the
    extensions. *)
Lemma exported_partition_witness :
  (exists st',
      StructureDefinitionExporter.exportStructDef
        1 (Scenario.exporterOf Scenario.fooTank) (Profile, Scenario.Foo) emptyStore
      = Returned (Some 0) st'
      /\ In 0 (Package.profiles (pkg st')))
  /\ (exists st',
         StructureDefinitionExporter.exportStructDef
           1 (Scenario.exporterOf Scenario.fooTank)
           (Profile, Scenario.structure "Narrowed" "narrowed" (Some "Extension") [])
           emptyStore
         = Returned (Some 0) st'
         /\ In 0 (Package.extensions (pkg st')))
  /\ (exists st',
         StructureDefinitionExporter.exportStructDef
           1 (Scenario.exporterOf Scenario.sliceTank) (Extension, Scenario.ExtA) emptyStore
         = Returned (Some 0) st'
         /\ In 0 (Package.extensions (pkg st')))
  /\ (exists st',
         StructureDefinitionExporter.exportStructDef
           1 logicalExporter
           (Logical, Scenario.structure "Model" "model" None []) emptyStore
         = Returned (Some 0) st'
         /\ In 0 (Package.logicals (pkg st')))
  /\ (exists st',
         StructureDefinitionExporter.exportStructDef
           1 logicalExporter
           (Logical, Scenario.structure "Odd" "Extension" None []) emptyStore
         = Returned (Some 0) st'
         /\ In 0 (Package.extensions (pkg st'))).
Proof.
  split; [|split; [|split; [|split]]].
  - assert (Hrun : exists st',
               StructureDefinitionExporter.exportStructDef
                 1 (Scenario.exporterOf Scenario.fooTank) (Profile, Scenario.Foo)
                 emptyStore
               = Returned (Some 0) st')
      by (eexists; vm_compute; reflexivity).
    destruct Hrun as [st' Hrun]. exists st'. split; [exact Hrun|].
    destruct (exported_partition 0 (Scenario.exporterOf Scenario.fooTank) Profile
                Scenario.Foo emptyStore st' 0 Hrun)
      as (parentJson & resolved & st1 & stP & Hresolve & _ & _ & _ & Hin).
    assert (Hparent : StructureDefinitionExporter.getStructureDefinition
                        (StructureDefinitionExporter.exportStructDef
                           0 (Scenario.exporterOf Scenario.fooTank))
                        (Scenario.exporterOf Scenario.fooTank) Profile Scenario.Foo
                        emptyStore
                      = Returned (Scenario.Patient, Scenario.Foo) emptyStore)
      by reflexivity.
    rewrite Hparent in Hresolve. injection Hresolve as <- _ _. exact Hin.
  - set (narrowed := Scenario.structure "Narrowed" "narrowed" (Some "Extension") []).
    assert (Hrun : exists st',
               StructureDefinitionExporter.exportStructDef
                 1 (Scenario.exporterOf Scenario.fooTank) (Profile, narrowed) emptyStore
               = Returned (Some 0) st')
      by (eexists; vm_compute; reflexivity).
    destruct Hrun as [st' Hrun]. exists st'. split; [exact Hrun|].
    destruct (exported_partition 0 (Scenario.exporterOf Scenario.fooTank) Profile
                narrowed emptyStore st' 0 Hrun)
      as (parentJson & resolved & st1 & stP & Hresolve & _ & _ & _ & Hin).
    assert (Hparent : StructureDefinitionExporter.getStructureDefinition
                        (StructureDefinitionExporter.exportStructDef
                           0 (Scenario.exporterOf Scenario.fooTank))
                        (Scenario.exporterOf Scenario.fooTank) Profile narrowed
                        emptyStore
                      = Returned (Scenario.ExtensionDefinition, narrowed) emptyStore)
      by reflexivity.
    rewrite Hparent in Hresolve. injection Hresolve as <- _ _. exact Hin.
  - assert (Hrun : exists st',
               StructureDefinitionExporter.exportStructDef
                 1 (Scenario.exporterOf Scenario.sliceTank) (Extension, Scenario.ExtA)
                 emptyStore
               = Returned (Some 0) st')
      by (eexists; vm_compute; reflexivity).
    destruct Hrun as [st' Hrun]. exists st'. split; [exact Hrun|].
    destruct (exported_partition 0 (Scenario.exporterOf Scenario.sliceTank) Extension
                Scenario.ExtA emptyStore st' 0 Hrun)
      as (parentJson & resolved & st1 & stP & _ & _ & _ & _ & Hin).
    exact Hin.
  - set (model := Scenario.structure "Model" "model" None []).
    assert (Hrun : exists st',
               StructureDefinitionExporter.exportStructDef
                 1 logicalExporter (Logical, model) emptyStore
               = Returned (Some 0) st')
      by (eexists; vm_compute; reflexivity).
    destruct Hrun as [st' Hrun]. exists st'. split; [exact Hrun|].
    destruct (exported_partition 0 logicalExporter Logical model emptyStore st' 0 Hrun)
      as (parentJson & resolved & st1 & stP & _ & _ & _ & _ & Hin).
    exact Hin.
  - set (odd := Scenario.structure "Odd" "Extension" None []).
    assert (Hrun : exists st',
               StructureDefinitionExporter.exportStructDef
                 1 logicalExporter (Logical, odd) emptyStore
               = Returned (Some 0) st')
      by (eexists; vm_compute; reflexivity).
    destruct Hrun as [st' Hrun]. exists st'. split; [exact Hrun|].
    destruct (exported_partition 0 logicalExporter Logical odd emptyStore st' 0 Hrun)
      as (parentJson & resolved & st1 & stP & _ & _ & _ & _ & Hin).
    exact Hin.
Defined.

(** * Failures of parent resolution *)

Section ParentErrors.
Import StructureDefinitionExporter.
Variable reenter : StructureKind * FshStructure -> M (option nat).
Variable this : StructureDefinitionExporter.t.

(** The error, if any, that makes [parentJson] unfit as the parent of an
    entity of kind [k]. *)
Definition parentError (k : StructureKind) (entityName parentName : string)
           (parentJson : StructureDefinition.t) : option Exception :=
  match k with
  | Profile =>
      if eqOpt "logical" (StructureDefinition.kind parentJson)
      then Some (InvalidProfileParentError entityName parentName) else None
  | Extension =>
      if eqOpt "Extension" (StructureDefinition.type parentJson)
      then None else Some (InvalidExtensionParentError entityName parentName)
  | Logical =>
      if eqOpt "logical" (StructureDefinition.kind parentJson)
         || eqOpt "Element" (StructureDefinition.type parentJson)
      then None else Some (InvalidLogicalParentError entityName parentName)
  | Resource => None
  end.

Lemma getStructureDefinition_declared k d p st :
  parent d = Some p -> p <> "" -> name d <> p -> id d <> p ->
  getStructureDefinition reenter this k d st
  = bind (fishForFHIR reenter this p [])
         (fun parentJson =>
            match parentJson with
            | None => throw (ParentNotDefinedError (name d) (Some p))
            | Some parentJson =>
                match parentError k (name d) p parentJson with
                | Some e => throw e
                | None => ret (parentJson, d)
                end
            end) st.
Proof.
  intros Hparent Hp Hname Hid. unfold getStructureDefinition.
  assert (Hdefault : (if isEmpty (parent d)
                      then match k with
                           | Profile => throw (ParentNotProvidedError (name d))
                           | Extension => ret (set_parent (Some "Extension") d)
                           | Logical => ret (set_parent (Some "Element") d)
                           | Resource => ret d
                           end
                      else ret d) st = Returned d st).
  { rewrite Hparent. simpl. now destruct (String.eqb_spec p ""). }
  rewrite (bind_of_Returned _ _ _ _ _ Hdefault). cbv beta. rewrite Hparent.
  assert (Hn : eqOpt (name d) (Some p) = false) by now apply String.eqb_neq.
  assert (Hi : eqOpt (id d) (Some p) = false) by now apply String.eqb_neq.
  rewrite Hn, Hi.
  rewrite (bind_of_Returned (ret tt) _ st st tt eq_refl).
  rewrite (bind_of_Returned (ret tt) _ st st tt eq_refl).
  unfold bind. destruct (fishForFHIR reenter this p [] st) as [[parentJson|] st1|];
    try reflexivity.
  unfold parentError.
  destruct k; simpl;
    repeat match goal with
           | |- context [eqOpt ?a ?b] => destruct (eqOpt a b); simpl
           end; reflexivity.
Qed.

End ParentErrors.

(** X16.  A declared parent, other than the entity itself, is looked up
    once, in the package, the external definitions and, by export on
    demand, the tank.  When nothing is found the entity fails with
    ParentNotDefinedError; a profile whose parent is a logical model fails
    with InvalidProfileParentError, an extension whose parent is not of
    type Extension with InvalidExtensionParentError, and a logical model
    whose parent is neither a logical model nor Element with
    InvalidLogicalParentError.  Otherwise the parent found is the basis of
    the new definition.  In every case the store is as the lookup left
    it. *)
Theorem parent_resolution_outcome
        (reenter : StructureKind * FshStructure -> M (option nat))
        (this : StructureDefinitionExporter.t) (k : StructureKind) (d : FshStructure)
        (p : string) (st st1 : Store) (found : option StructureDefinition.t) :
  parent d = Some p -> p <> "" -> name d <> p -> id d <> p ->
  StructureDefinitionExporter.fishForFHIR reenter this p [] st = Returned found st1 ->
  StructureDefinitionExporter.getStructureDefinition reenter this k d st
  = match found with
    | None => Thrown (ParentNotDefinedError (name d) (Some p)) st1
    | Some parentJson =>
        match parentError k (name d) p parentJson with
        | Some e => Thrown e st1
        | None => Returned (parentJson, d) st1
        end
    end.
Proof.
  intros Hparent Hp Hname Hid Hfish.
  rewrite (getStructureDefinition_declared reenter this k d p st) by trivial.
  rewrite (bind_of_Returned _ _ _ _ _ Hfish).
  destruct found as [parentJson|]; [|reflexivity].
  now destruct (parentError k (name d) p parentJson).
Qed.

Lemma parent_resolution_outcome_witness :
  StructureDefinitionExporter.getStructureDefinition
    (fun _ => ret None) (Scenario.exporterOf Scenario.fooTank) Profile
    (Scenario.structure "Lost" "lost" (Some "Nowhere") []) emptyStore
  = Thrown (ParentNotDefinedError "Lost" (Some "Nowhere")) emptyStore
  /\ StructureDefinitionExporter.getStructureDefinition
       (fun _ => ret None) (Scenario.exporterOf Scenario.fooTank) Extension
       (Scenario.structure "Wrong" "wrong" (Some "Patient") []) emptyStore
     = Thrown (InvalidExtensionParentError "Wrong" "Patient") emptyStore.
Proof.
  split.
  - apply (parent_resolution_outcome (fun _ => ret None)
             (Scenario.exporterOf Scenario.fooTank) Profile
             (Scenario.structure "Lost" "lost" (Some "Nowhere") []) "Nowhere"
             emptyStore emptyStore None); try reflexivity; discriminate.
  - apply (parent_resolution_outcome (fun _ => ret None)
             (Scenario.exporterOf Scenario.fooTank) Extension
             (Scenario.structure "Wrong" "wrong" (Some "Patient") []) "Patient"
             emptyStore emptyStore (Some Scenario.Patient)); try reflexivity; discriminate.
Defined.

(** * Lookup with export on demand *)

(** X17.  [fishForFHIR] exports nothing when the fisher already has an
    answer, when only kinds other than Profile, Extension and Logical are
    asked for, or when the tank declares no such structure under the name:
    it then returns what the fisher gives and leaves the store as it is.
    Only otherwise does it export the declared structure, once, and ask
    the fisher again. *)
Theorem fishForFHIR_exports_on_demand
        (reenter : StructureKind * FshStructure -> M (option nat))
        (this : StructureDefinitionExporter.t) (item : string)
        (types : list FishableType) (st : Store) :
  let fisher st :=
    MasterFisher.fishForFHIR (StructureDefinitionExporter.fhir this) st item types in
  let declared :=
    FSHTank.fish (StructureDefinitionExporter.tank this) item
                 [Type_Profile; Type_Extension; Type_Logical] in
  (fisher st <> None
   \/ (types <> []
       /\ forall ty, In ty types ->
                     ty <> Type_Profile /\ ty <> Type_Extension /\ ty <> Type_Logical)
   \/ declared = None ->
   StructureDefinitionExporter.fishForFHIR reenter this item types st
   = Returned (fisher st) st)
  /\ (forall k s,
         fisher st = None ->
         (types = [] \/ In Type_Profile types \/ In Type_Extension types
          \/ In Type_Logical types) ->
         declared = Some (DefStructure k s) ->
         StructureDefinitionExporter.fishForFHIR reenter this item types st
         = (reenter (k, s) ;; gets fisher) st).
Proof.
  intros fisher declared.
  assert (Hunfold :
            StructureDefinitionExporter.fishForFHIR reenter this item types st
            = match fisher st with
              | Some _ => Returned (fisher st) st
              | None =>
                  if StructureDefinitionExporter.wantsStructure types then
                    match declared with
                    | Some fshDefinition =>
                        (reenter
                           match fshDefinition with
                           | DefStructure k s => (k, s)
                           | DefInstance i => Instance_asStructure i
                           | _ => (Resource,
                                   {| name := def_name fshDefinition; id := "";
                                      parent := None; title := None; description := None;
                                      rules := []; characteristics := [] |})
                           end ;;
                         gets fisher) st
                    | None => Returned None st
                    end
                  else Returned None st
              end).
  { unfold StructureDefinitionExporter.fishForFHIR. unfold bind at 1, gets at 1.
    fold declared.
    change (MasterFisher.fishForFHIR (StructureDefinitionExporter.fhir this) st item types)
      with (fisher st).
    destruct (fisher st); [reflexivity|].
    destruct (StructureDefinitionExporter.wantsStructure types); [|reflexivity].
    now destruct declared. }
  rewrite Hunfold. clear Hunfold. split.
  - intros [Hfound|[[Htypes Hother]|Hnone]].
    + now destruct (fisher st).
    + destruct (fisher st) eqn:Hfisher; [reflexivity|].
      assert (Hwants : StructureDefinitionExporter.wantsStructure types = false).
      { destruct types as [|ty0 types]; [contradiction|].
        unfold StructureDefinitionExporter.wantsStructure, some.
        apply not_true_is_false. intros Hsome.
        apply existsb_exists in Hsome as (ty & Hin & Hty).
        destruct (Hother ty Hin) as (H1 & H2 & H3). now destruct ty. }
      now rewrite Hwants.
    + destruct (fisher st) eqn:Hfisher; [reflexivity|]. rewrite Hnone.
      now destruct (StructureDefinitionExporter.wantsStructure types).
  - intros k s Hnone Htypes Hdeclared. rewrite Hnone, Hdeclared.
    assert (Hwants : StructureDefinitionExporter.wantsStructure types = true).
    { unfold StructureDefinitionExporter.wantsStructure, some.
      destruct Htypes as [->|Hin]; [reflexivity|].
      destruct types as [|ty0 types]; [reflexivity|].
      apply existsb_exists.
      destruct Hin as [Hin|[Hin|Hin]]; eexists; (split; [exact Hin|reflexivity]). }
    now rewrite Hwants.
Qed.

Lemma fishForFHIR_exports_on_demand_witness :
  StructureDefinitionExporter.fishForFHIR
    (StructureDefinitionExporter.exportStructDef 1 (Scenario.exporterOf Scenario.fooTank))
    (Scenario.exporterOf Scenario.fooTank) "Patient" [] emptyStore
  = Returned (Some Scenario.Patient) emptyStore
  /\ StructureDefinitionExporter.fishForFHIR
       (StructureDefinitionExporter.exportStructDef 1 (Scenario.exporterOf Scenario.fooTank))
       (Scenario.exporterOf Scenario.fooTank) "Foo" [Type_ValueSet] emptyStore
     = Returned None emptyStore.
Proof.
  split.
  - apply (proj1 (fishForFHIR_exports_on_demand _ (Scenario.exporterOf Scenario.fooTank)
                    "Patient" [] emptyStore)).
    left. discriminate.
  - apply (proj1 (fishForFHIR_exports_on_demand _ (Scenario.exporterOf Scenario.fooTank)
                    "Foo" [Type_ValueSet] emptyStore)).
    right. left. split; [discriminate|].
    intros ty [<-|[]]. repeat split; discriminate.
Defined.

(** * Further properties of rule application *)

Section RuleOrder.
Import StructureDefinitionExporter.
Variable reenter : StructureKind * FshStructure -> M (option nat).
Variable this : StructureDefinitionExporter.t.





End RuleOrder.


Section MissingElement.
Import StructureDefinitionExporter.
Variable reenter : StructureKind * FshStructure -> M (option nat).
Variable this : StructureDefinitionExporter.t.

Definition withError (text : string) (st : Store) : Store :=
  set_logs (logs st ++ [{| level := Error; message := Text text |}]) st.

Definition noElement (rulePath definitionName : string) : string :=
  "No element found at path " +++ rulePath +++ " for " +++ definitionName
  +++ ", skipping rule".

Definition noElementForCaret (rulePath definitionName : string) : string :=
  "No element found at path '" +++ rulePath +++ "' for '" +++ definitionName
  +++ "', skipping element-based CaretValueRule".

Lemma applySdRule_unfold k d l rule st sd :
  deref st l = Some sd ->
  applySdRule reenter this k d l rule st
  = (applyCaretValueRule d l (StructureDefinition.findElementByPath sd (rule_path rule))
                         rule ;;
     match StructureDefinition.findElementByPath sd (rule_path rule) with
     | Some e =>
         tryCatch (applyToElement reenter this k d l e rule)
                  (fun ex => logger.error (MessageOf ex))
     | None => logger.error (Text (noElement (rule_path rule) (name d)))
     end) st.
Proof.
  intros Hsd. unfold applySdRule.
  now rewrite (bind_of_Returned _ _ _ _ _ (theStructDef_Returned l st sd Hsd)).
Qed.

End MissingElement.

(** X19.  A rule whose path leads to no element of the definition is
    skipped with an error in the log and changes nothing else.  A caret
    rule on such a path is reported twice, once by the part of the loop
    that handles caret rules and once by the part that handles every
    rule. *)
Theorem rule_on_missing_element
        (reenter : StructureKind * FshStructure -> M (option nat))
        (this : StructureDefinitionExporter.t) (k : StructureKind)
        (fshDefinition : FshStructure) (l : nat) (rule : Rule) (st : Store)
        (sd : StructureDefinition.t) :
  deref st l = Some sd ->
  StructureDefinition.findElementByPath sd (rule_path rule) = None ->
  rule_path rule <> "" ->
  StructureDefinitionExporter.applySdRule reenter this k fshDefinition l rule st
  = Returned tt
      (withError (noElement (rule_path rule) (name fshDefinition))
         match rule with
         | CaretValueRule _ _ _ _ =>
             withError (noElementForCaret (rule_path rule) (name fshDefinition)) st
         | _ => st
         end).
Proof.
  intros Hsd Hnone Hpath.
  rewrite (applySdRule_unfold reenter this k fshDefinition l rule st sd Hsd), Hnone.
  destruct rule; try reflexivity.
  simpl in Hpath. unfold StructureDefinitionExporter.applyCaretValueRule.
  apply String.eqb_neq in Hpath. simpl rule_path. rewrite Hpath. reflexivity.
Qed.

Lemma rule_on_missing_element_witness :
  StructureDefinitionExporter.applySdRule
    (fun _ => ret None) (Scenario.exporterOf Scenario.fooTank) Profile Scenario.Foo 0
    (CaretValueRule "birthday" "short" (VString "Birthday") false) Scenario.whileReferring
  = Returned tt
      (withError "No element found at path birthday for Foo, skipping rule"
         (withError ("No element found at path 'birthday' for 'Foo', "
                     +++ "skipping element-based CaretValueRule")
            Scenario.whileReferring)).
Proof.
  apply (rule_on_missing_element (fun _ => ret None) (Scenario.exporterOf Scenario.fooTank)
           Profile Scenario.Foo 0
           (CaretValueRule "birthday" "short" (VString "Birthday") false)
           Scenario.whileReferring Scenario.referringSkeleton);
    [reflexivity|reflexivity|discriminate].
Defined.

(** X20.  An ObeysRule that names an invariant the tank does not declare
    changes nothing: the element is left as it is, and an error saying
    that the constraint was never defined, with the id of the definition,
    is logged. *)
Theorem obeys_rule_without_invariant
        (reenter : StructureKind * FshStructure -> M (option nat))
        (this : StructureDefinitionExporter.t) (k : StructureKind)
        (fshDefinition : FshStructure) (l : nat) (st : Store)
        (sd : StructureDefinition.t) (e : ElementDefinition.t)
        (rulePath invariantName : string) :
  deref st l = Some sd ->
  StructureDefinition.findElementByPath sd rulePath = Some e ->
  FSHTank.fish (StructureDefinitionExporter.tank this) invariantName [Type_Invariant]
  = None ->
  StructureDefinitionExporter.applySdRule reenter this k fshDefinition l
    (ObeysRule rulePath invariantName) st
  = Returned tt
      (withError ("Cannot apply " +++ invariantName +++ " constraint on "
                  +++ show (StructureDefinition.id sd)
                  +++ " because it was never defined.") st).
Proof.
  intros Hsd He Hfish.
  rewrite (applySdRule_unfold reenter this k fshDefinition l _ st sd Hsd).
  simpl rule_path. rewrite He.
  unfold StructureDefinitionExporter.applyCaretValueRule.
  rewrite (bind_of_Returned (ret tt) _ st st tt eq_refl).
  unfold tryCatch, StructureDefinitionExporter.applyToElement. rewrite Hfish.
  now rewrite (bind_of_Returned _ _ _ _ _ (theStructDef_Returned l st sd Hsd)).
Qed.

Lemma obeys_rule_without_invariant_witness :
  StructureDefinitionExporter.applySdRule
    (fun _ => ret None) (Scenario.exporterOf Scenario.fooTank) Profile Scenario.Foo 0
    (ObeysRule "name" "inv-9") Scenario.whileReferring
  = Returned tt
      (withError ("Cannot apply inv-9 constraint on referring "
                  +++ "because it was never defined.") Scenario.whileReferring).
Proof.
  apply (obeys_rule_without_invariant (fun _ => ret None)
           (Scenario.exporterOf Scenario.fooTank) Profile Scenario.Foo 0
           Scenario.whileReferring Scenario.referringSkeleton
           (Scenario.element "Patient.name" (Scenario.ofType "HumanName"))
           "name" "inv-9"); reflexivity.
Defined.

Lemma Map_get_set_nat {V} (m : list (nat * V)) (k k' : nat) (v : V) :
  Map_get Nat.eqb (Map_set Nat.eqb m k v) k'
  = if Nat.eqb k' k then Some v else Map_get Nat.eqb m k'.
Proof.
  induction m as [|[k0 v0] m IH]; simpl.
  - reflexivity.
  - destruct (Nat.eqb_spec k k0) as [->|Hk]; simpl.
    + destruct (Nat.eqb_spec k' k0); reflexivity.
    + destruct (Nat.eqb_spec k' k0) as [->|Hk'].
      * destruct (Nat.eqb_spec k0 k); [congruence|reflexivity].
      * exact IH.
Qed.

(** X21.  A caret rule on the definition itself whose value is an
    instance is not applied when it is met: it is put at the end of the
    queue of deferred rules that the exporter keeps for that definition,
    and the definition and the log are left as they are. *)
Theorem instance_caret_rule_is_deferred
        (reenter : StructureKind * FshStructure -> M (option nat))
        (this : StructureDefinitionExporter.t) (k : StructureKind)
        (fshDefinition : FshStructure) (l : nat) (st : Store)
        (sd : StructureDefinition.t) (root : ElementDefinition.t)
        (caretPath : string) (value : FshValue) :
  deref st l = Some sd ->
  StructureDefinition.findElementByPath sd "" = Some root ->
  let rule := CaretValueRule "" caretPath value true in
  exists st',
    StructureDefinitionExporter.applySdRule reenter this k fshDefinition l rule st
    = Returned tt st'
    /\ heap st' = heap st /\ pkg st' = pkg st /\ logs st' = logs st
    /\ Map_get Nat.eqb (deferredRules st') l
       = Some (match Map_get Nat.eqb (deferredRules st) l with
               | Some queued => queued
               | None => []
               end ++ [rule])
    /\ forall l', l' <> l ->
                  Map_get Nat.eqb (deferredRules st') l'
                  = Map_get Nat.eqb (deferredRules st) l'.
Proof.
  intros Hsd Hroot rule.
  rewrite (applySdRule_unfold reenter this k fshDefinition l rule st sd Hsd).
  simpl rule_path. rewrite Hroot.
  eexists. split; [reflexivity|]. simpl.
  repeat split.
  - destruct (Map_get Nat.eqb (deferredRules st) l);
      now rewrite Map_get_set_nat, Nat.eqb_refl.
  - intros l' Hl'. apply Nat.eqb_neq in Hl'.
    destruct (Map_get Nat.eqb (deferredRules st) l);
      now rewrite Map_get_set_nat, Hl'.
Qed.

Lemma instance_caret_rule_is_deferred_witness :
  exists st',
    StructureDefinitionExporter.applySdRule
      (fun _ => ret None) (Scenario.exporterOf Scenario.fooTank) Profile Scenario.Foo 0
      (CaretValueRule "" "contained" (VString "AnInstance") true) Scenario.whileReferring
    = Returned tt st'
    /\ heap st' = heap Scenario.whileReferring
    /\ Map_get Nat.eqb (deferredRules st') 0
       = Some [CaretValueRule "" "contained" (VString "AnInstance") true].
Proof.
  destruct (instance_caret_rule_is_deferred (fun _ => ret None)
              (Scenario.exporterOf Scenario.fooTank) Profile Scenario.Foo 0
              Scenario.whileReferring Scenario.referringSkeleton
              (Scenario.element "Patient" None) "contained" (VString "AnInstance")
              eq_refl eq_refl)
    as (st' & Hrun & Hheap & _ & _ & Hqueue & _).
  exists st'. split; [exact Hrun|]. split; [exact Hheap|exact Hqueue].
Defined.

(** * Further properties of preprocessing *)

Section Causes.
Import StructureDefinitionExporter.
Variable defName : string.
Variable evs : list Touch.

(** A rule other than a [0..0] cardinality rule names the slot [s] of the
    extension at [b]. *)
Definition exercisedBy (b : string) (s : Slot) : Prop :=
  exists rule, In (rule, (b, s)) evs /\ isZeroCardRule rule = false.

(** Every entry that asks for a rule, and every error that was logged,
    has its cause among the touches. *)
Definition caused (inf : Inference) : Prop :=
  (forall key, entry inf key = Some true ->
               exists b s, key = b +++ slotKey s /\ exercisedBy b (sibling s))
  /\ (forall e, In e (reported inf) ->
                e = bothValueAndSubExtensions defName
                /\ exists b, exercisedBy b ExtensionSlot /\ exercisedBy b ValueSlot).

Lemma caused_step (inf : Inference) (ev : Touch) :
  In ev evs -> caused inf -> caused (step defName inf ev).
Proof.
  destruct ev as [rule [base s]]. intros Hin [Hentries Herrors]. split.
  - intros key. rewrite entry_step.
    destruct (truthy (entry inf (base +++ slotKey s))).
    + destruct (key =? base +++ slotKey s); [discriminate|apply Hentries].
    + destruct (isZeroCardRule rule) eqn:Hrule; [apply Hentries|].
      destruct (String.eqb_spec key (base +++ slotKey (sibling s))) as [->|_];
        [|apply Hentries].
      intros _. exists base, (sibling s). split; [reflexivity|].
      rewrite sibling_involutive. now exists rule.
  - intros e. rewrite reported_step.
    destruct (truthy (entry inf (base +++ slotKey s))) eqn:Hown; simpl;
      [|apply Herrors].
    destruct (isZeroCardRule rule) eqn:Hrule; simpl; [apply Herrors|].
    intros He. apply in_app_or in He as [He|[<-|[]]]; [now apply Herrors|].
    split; [reflexivity|].
    assert (Htrue : entry inf (base +++ slotKey s) = Some true).
    { destruct (entry inf (base +++ slotKey s)) as [[|]|]; try discriminate; reflexivity. }
    destruct (Hentries _ Htrue) as (b & s' & Hkey & Hsibling).
    symmetry in Hkey. apply key_injective in Hkey as [-> ->].
    exists base.
    assert (Hself : exercisedBy base s) by now exists rule.
    destruct s; simpl in Hsibling; now split.
Qed.

Lemma caused_scan (prefix : list Touch) (inf : Inference) :
  (forall ev, In ev prefix -> In ev evs) -> caused inf ->
  caused (fold_left (step defName) prefix inf).
Proof.
  revert inf. induction prefix as [|ev prefix IH]; intros inf Hin Hinf; simpl;
    [exact Hinf|].
  apply IH; [intros; apply Hin; now right|].
  apply caused_step; [apply Hin; now left|exact Hinf].
Qed.

End Causes.

(** X22.  Preprocessing infers nothing without a cause.  Every rule it
    appends is a [0..0] cardinality rule for one slot ([extension] or
    [value[x]]) of an extension whose other slot is named by a rule that
    is not a [0..0] cardinality rule; no path gets two of them.  It logs
    nothing but the error "cannot have both a value and sub-extensions",
    and that only when, for some extension, both slots are named by such
    rules. *)
Theorem preprocess_infers_with_cause (fshDefinition : FshStructure) (isExtension : bool) :
  let out :=
    StructureDefinitionExporter.preprocessStructureDefinition fshDefinition isExtension in
  let exercised b s :=
    exists rule, touchedBy isExtension fshDefinition b s rule
                 /\ StructureDefinitionExporter.isZeroCardRule rule = false in
  exists inferred,
    rules (fst out) = rules fshDefinition ++ inferred
    /\ NoDup inferred
    /\ (forall r, In r inferred ->
                  exists b s, r = CardRule (b +++ slotKey s) 0 "0"
                              /\ exercised b (sibling s))
    /\ (forall e, In e (snd out) ->
                  e = StructureDefinitionExporter.bothValueAndSubExtensions
                        (name fshDefinition)
                  /\ exists b, exercised b ExtensionSlot /\ exercised b ValueSlot).
Proof.
  intros out exercised.
  unfold out, StructureDefinitionExporter.preprocessStructureDefinition.
  rewrite scanRules_as_touches. cbn [fst snd rules set_rules].
  set (init := {| StructureDefinitionExporter.inferredCardRulesMap := [];
                  StructureDefinitionExporter.reported := [] |}).
  set (evs := allTouches isExtension (rules fshDefinition)).
  set (final := fold_left (step (name fshDefinition)) evs init).
  assert (Hunique : NoDup (map fst (StructureDefinitionExporter.inferredCardRulesMap final))).
  { apply scan_NoDup. constructor. }
  assert (Hcaused : caused (name fshDefinition) evs final).
  { apply caused_scan; [trivial|]. split; [discriminate|intros e []]. }
  assert (Hexercised : forall b s, exercisedBy evs b s -> exercised b s).
  { intros b s (rule & Hin & Hrule). exists rule. split; [|exact Hrule].
    now apply In_allTouches. }
  destruct Hcaused as [Hentries Herrors].
  exists (StructureDefinitionExporter.inferredCardRules
            (StructureDefinitionExporter.inferredCardRulesMap final)).
  split; [reflexivity|]. split; [|split].
  - revert Hunique. generalize (StructureDefinitionExporter.inferredCardRulesMap final).
    intros m. induction m as [|[key [|]] m IH]; simpl; intros Hm;
      inversion Hm as [|? ? Hnotin Hrest]; subst; [constructor| |now apply IH].
    constructor; [|now apply IH].
    intros Hin. apply inferredCardRules_shape in Hin as (key' & [= <-] & Hin).
    apply Hnotin. change key with (fst (key, true)). now apply in_map.
  - intros r Hr. apply inferredCardRules_shape in Hr as (key & -> & Hin).
    apply (In_Map_get _ _ _ Hunique) in Hin.
    destruct (Hentries key Hin) as (b & s & -> & Hsibling).
    exists b, s. split; [reflexivity|now apply Hexercised].
  - intros e He. destruct (Herrors e He) as (-> & b & HE & HV).
    split; [reflexivity|]. exists b. split; now apply Hexercised.
Qed.

Lemma preprocess_infers_with_cause_witness :
  exists b ruleE ruleV,
    touchedBy true Scenario.Contradictory b ExtensionSlot ruleE
    /\ touchedBy true Scenario.Contradictory b ValueSlot ruleV.
Proof.
  destruct (preprocess_infers_with_cause Scenario.Contradictory true)
    as (inferred & _ & _ & _ & Herrors).
  destruct (Herrors (StructureDefinitionExporter.bothValueAndSubExtensions "Contradictory"))
    as (_ & b & (ruleE & HE & _) & (ruleV & HV & _)); [now left|].
  exists b, ruleE, ruleV. split; [exact HE|exact HV].
Defined.

Section NoExtensionPath.
Import StructureDefinitionExporter.
Variable isExtension : bool.

Lemma nth_error_In_part {A} (xs : list A) (i : nat) (x : A) :
  nth_error xs i = Some x -> In x xs.
Proof. apply nth_error_In. Qed.

Lemma touchAt_none (parts : list string) (i : nat) :
  (forall part, In part parts -> startsWith part "extension" = false) ->
  (isExtension = true ->
   forall part, parts = [part] -> startsWith part "value" = false) ->
  touchAt isExtension parts i = None.
Proof.
  intros Hparts Hvalue. unfold touchAt.
  destruct (nth_error parts i) as [pathPart|] eqn:Hpart; [|reflexivity].
  cbv zeta.
  assert (Hprev : match match i with 0 => None | S j => nth_error parts j end with
                  | Some prev => startsWith prev "extension"
                  | None => false
                  end = false).
  { destruct i as [|j]; [reflexivity|].
    destruct (nth_error parts j) as [prev|] eqn:Hprev; [|reflexivity].
    exact (Hparts prev (nth_error_In_part _ _ _ Hprev)). }
  rewrite Hprev, orb_false_r.
  destruct isExtension; [|reflexivity]. simpl andb.
  destruct parts as [|part [|part' rest]]; try reflexivity.
  simpl. destruct i as [|[|i]]; try discriminate. injection Hpart as <-.
  rewrite (Hparts part) by now left.
  now rewrite (Hvalue eq_refl part eq_refl).
Qed.

Lemma touches_none (rule : Rule) :
  (forall part, In part (splitOnPathPeriods (rule_path rule)) ->
                startsWith part "extension" = false) ->
  (isExtension = true ->
   forall part, splitOnPathPeriods (rule_path rule) = [part] ->
                startsWith part "value" = false) ->
  touches isExtension rule = [].
Proof.
  intros Hparts Hvalue. unfold touches. cbv zeta.
  induction (seq 0 (length (splitOnPathPeriods (rule_path rule)))) as [|i rest IH];
    simpl; [reflexivity|].
  now rewrite (touchAt_none _ i Hparts Hvalue).
Qed.

End NoExtensionPath.

(** X23.  Let no rule path of a definition go through an element whose
    name starts with [extension]; and, when the definition that is being
    built is of type Extension (an extension, or a profile of one), let no
    rule path of one part start with [value].  Then the definition comes
    out of preprocessing as it went in: no rule is appended and nothing is
    logged. *)
Theorem preprocess_without_extension_paths (fshDefinition : FshStructure)
        (isExtension : bool) :
  (forall rule part,
      In rule (rules fshDefinition) ->
      In part (splitOnPathPeriods (rule_path rule)) ->
      startsWith part "extension" = false) ->
  (isExtension = true ->
   forall rule part,
     In rule (rules fshDefinition) ->
     splitOnPathPeriods (rule_path rule) = [part] ->
     startsWith part "value" = false) ->
  StructureDefinitionExporter.preprocessStructureDefinition fshDefinition isExtension
  = (fshDefinition, []).
Proof.
  intros Hpaths Hvalue.
  unfold StructureDefinitionExporter.preprocessStructureDefinition.
  rewrite scanRules_as_touches.
  assert (Hnone : allTouches isExtension (rules fshDefinition) = []).
  { unfold allTouches.
    induction (rules fshDefinition) as [|rule rs IH]; simpl; [reflexivity|].
    rewrite touches_none;
      [|intros part; apply Hpaths; now left
       |intros His part; apply (Hvalue His); now left].
    simpl. apply IH.
    - intros rule' part Hin. apply Hpaths. now right.
    - intros His rule' part Hin. apply (Hvalue His). now right. }
  rewrite Hnone. simpl. rewrite app_nil_r. now destruct fshDefinition.
Qed.

Lemma preprocess_without_extension_paths_witness :
  StructureDefinitionExporter.preprocessStructureDefinition Scenario.Foo false
  = (Scenario.Foo, [])
  /\ StructureDefinitionExporter.preprocessStructureDefinition Scenario.Foo true
     = (Scenario.Foo, []).
Proof.
  split.
  - apply (preprocess_without_extension_paths Scenario.Foo false).
    + intros rule part [<-|[<-|[]]] [<-|[]]; reflexivity.
    + discriminate.
  - apply (preprocess_without_extension_paths Scenario.Foo true).
    + intros rule part [<-|[<-|[]]] [<-|[]]; reflexivity.
    + intros _ rule part [<-|[<-|[]]] [= <-]; reflexivity.
Defined.

(** In a profile of an extension, a rule on [value[x]] has the [0..0]
    rule for [extension] appended, as in an extension. *)
Example value_rule_in_a_profile_of_an_extension :
  let def := Scenario.structure "Narrowed" "narrowed" (Some "Extension")
               [Scenario.onlyString] in
  StructureDefinitionExporter.preprocessStructureDefinition def true
  = (set_rules (rules def ++ [CardRule "extension" 0 "0"]) def, []).
Proof. reflexivity. Qed.

(** * Slices for extensions that cannot be found, and deferred rules *)

Section UnknownExtension.
Import StructureDefinitionExporter.
Variable this : StructureDefinitionExporter.t.

Definition cannotCreate (sliceName itemType : string) : string :=
  "Cannot create " +++ sliceName
  +++ " extension; unable to locate extension definition for: " +++ itemType +++ ".".

Lemma theElement_found l st sd elementId e :
  deref st l = Some sd ->
  StructureDefinition.findElement sd elementId = Some e ->
  theElement l elementId st = Returned e st.
Proof.
  intros Hsd He. unfold theElement.
  rewrite (bind_of_Returned _ _ _ _ _ (theStructDef_Returned l st sd Hsd)).
  now rewrite He.
Qed.

End UnknownExtension.

(** X24.  A contains rule on an extension element whose item names an
    extension type that neither the tank nor the fisher knows adds no
    slice: the error that the extension definition cannot be located is
    logged, and the element tree is as it was, except that the element
    has been made sliceable (by value of url) if it was not yet. *)
Theorem contains_rule_with_unknown_extension
        (this : StructureDefinitionExporter.t) (k : StructureKind)
        (fshDefinition : FshStructure) (rulePath : string) (l : nat)
        (elementId sliceName itemType : string) (st : Store)
        (sd : StructureDefinition.t) (e : ElementDefinition.t) :
  deref st l = Some sd ->
  StructureDefinition.findElement sd elementId = Some e ->
  itemType <> "" ->
  MasterFisher.fishForMetadata (StructureDefinitionExporter.tank this)
                               (StructureDefinitionExporter.fhir this)
                               st itemType [Type_Extension] = None ->
  StructureDefinitionExporter.handleExtensionContainsRule
    this k fshDefinition
    (ContainsRule rulePath [{| item_name := sliceName; item_type := Some itemType |}])
    l elementId st
  = Returned tt
      (withError (cannotCreate sliceName itemType)
         match ElementDefinition.slicing e with
         | None =>
             mutate l (StructureDefinition.updateElement elementId
                         (ElementDefinition.sliceIt "value" "url")) st
         | Some _ => st
         end).
Proof.
  intros Hsd He Htype Hunknown.
  unfold StructureDefinitionExporter.handleExtensionContainsRule.
  rewrite (bind_of_Returned _ _ _ _ _ (theElement_found l st sd elementId e Hsd He)).
  assert (Hitem : forall st',
             MasterFisher.fishForMetadata (StructureDefinitionExporter.tank this)
                                          (StructureDefinitionExporter.fhir this)
                                          st' itemType [Type_Extension] = None ->
             StructureDefinitionExporter.containsExtensionItem
               this k rulePath l elementId
               {| item_name := sliceName; item_type := Some itemType |} st'
             = Returned tt (withError (cannotCreate sliceName itemType) st')).
  { intros st' Hst'. unfold StructureDefinitionExporter.containsExtensionItem.
    cbn [item_type item_name StructureDefinitionExporter.nonEmpty].
    apply String.eqb_neq in Htype. rewrite Htype.
    unfold StructureDefinitionExporter.fishForMetadata, bind, gets.
    now rewrite Hst'. }
  destruct (ElementDefinition.slicing e).
  - rewrite (bind_of_Returned (ret tt) _ st st tt eq_refl). simpl forEach.
    unfold bind. now rewrite Hitem.
  - unfold StructureDefinitionExporter.onElement.
    rewrite (bind_of_Returned (modify _) _ st _ tt eq_refl). simpl forEach.
    unfold bind. rewrite Hitem; [reflexivity|].
    now rewrite fishForMetadata_mutate.
Qed.

Lemma contains_rule_with_unknown_extension_witness :
  StructureDefinitionExporter.handleExtensionContainsRule
    (Scenario.exporterOf Scenario.fooTank) Profile Scenario.Foo
    (ContainsRule "extension" [{| item_name := "pet"; item_type := Some "PetExtension" |}])
    0 "Patient.extension" Scenario.whileReferring
  = Returned tt
      (withError ("Cannot create pet extension; unable to locate extension "
                  +++ "definition for: PetExtension.")
         (mutate 0 (StructureDefinition.updateElement "Patient.extension"
                      (ElementDefinition.sliceIt "value" "url"))
                 Scenario.whileReferring)).
Proof.
  apply (contains_rule_with_unknown_extension
           (Scenario.exporterOf Scenario.fooTank) Profile Scenario.Foo "extension" 0
           "Patient.extension" "pet" "PetExtension" Scenario.whileReferring
           Scenario.referringSkeleton
           (Scenario.element "Patient.extension" (Scenario.ofType "Extension")));
    try reflexivity; discriminate.
Defined.

(** ** Deferred rules *)

Section Deferred.
Import StructureDefinitionExporter.
Variable reenter : StructureKind * FshStructure -> M (option nat).
Variable this : StructureDefinitionExporter.t.

(** [fishedValue.resourceType], as a condition. *)
Definition hasResourceType (fishedValue : StructureDefinition.t) : bool :=
  match StructureDefinition.get fishedValue "resourceType" with
  | Some (JString s) => negb (s =? "")
  | Some (JBoolean b) => b
  | Some (JNumber n) => negb (Nat.eqb n 0)
  | Some (JArray _) | Some (JObject _) => true
  | None => false
  end.

Definition couldNotFind (value : string) : string :=
  "Could not find a resource named " +++ value.

(** Modelled from the spec: [setInstancePropertyByPath] and
    [InstanceDefinition.fromJSON] are not part of the sources at hand.
    What is fished is an object of properties in both of the cases that
    the code tells apart, and the override is an untyped key/value set on
    the artifact, as in [StructureDefinition_setInstancePropertyByPath]. *)
Definition setFishedInstance (l : nat) (caretPath : string)
           (fished : StructureDefinition.t) : M unit :=
  modify (mutate l (StructureDefinition.set caretPath
                      (JObject (StructureDefinition.props fished)))).

(** The body of the inner loop of [applyDeferredRules], for one rule of
    the queue of the definition behind [l]; the two loops, over the map
    and over each queue, are not part of this definition. *)
Definition applyDeferredRule (l : nat) (rule : Rule) : M unit :=
  match rule with
  | CaretValueRule _ caretPath (VString value) _ =>
      fishedValue <- fishForFHIR reenter this value [] ;;
      match fishedValue with
      | Some fished =>
          if hasResourceType fished then
            tryCatch
              (setFishedInstance l caretPath fished)
              (fun e => logger.error (MessageOf e))
          else logger.error (Text (couldNotFind value))
      | None => logger.error (Text (couldNotFind value))
      end
  | _ => ret tt
  end.

End Deferred.

(** X25.  A deferred caret rule is applied only when its value is a name
    under which a resource can be fished.  A rule whose value is not a
    string is passed over in silence.  A name that fishes nothing, or
    something without a resource type, leaves every definition as the
    lookup left it and logs the error that no resource of that name could
    be found. *)
Theorem deferred_rule_needs_a_resource
        (reenter : StructureKind * FshStructure -> M (option nat))
        (this : StructureDefinitionExporter.t) (l : nat)
        (rulePath caretPath : string) (value : FshValue) (isInstance : bool)
        (st : Store) :
  match value with
  | VString name =>
      forall found st1,
        StructureDefinitionExporter.fishForFHIR reenter this name [] st
        = Returned found st1 ->
        match found with
        | Some fished => hasResourceType fished = false
        | None => True
        end ->
        applyDeferredRule reenter this l
          (CaretValueRule rulePath caretPath value isInstance) st
        = Returned tt (withError (couldNotFind name) st1)
  | _ =>
      applyDeferredRule reenter this l
        (CaretValueRule rulePath caretPath value isInstance) st
      = Returned tt st
  end.
Proof.
  destruct value; try reflexivity.
  intros found st1 Hfish Hfound. unfold applyDeferredRule.
  rewrite (bind_of_Returned _ _ _ _ _ Hfish).
  destruct found as [fished|]; [|reflexivity]. now rewrite Hfound.
Qed.

Lemma deferred_rule_needs_a_resource_witness :
  applyDeferredRule (fun _ => ret None) (Scenario.exporterOf Scenario.fooTank) 0
    (CaretValueRule "" "contained" (VString "AnInstance") true) Scenario.whileReferring
  = Returned tt
      (withError "Could not find a resource named AnInstance" Scenario.whileReferring).
Proof.
  apply (deferred_rule_needs_a_resource (fun _ => ret None)
           (Scenario.exporterOf Scenario.fooTank) 0 "" "contained" (VString "AnInstance")
           true Scenario.whileReferring None Scenario.whileReferring);
    [reflexivity|exact I].
Defined.

(** * Two entities of one name *)

(** X26.  Of the entities that share a name only the first is exported:
    once a definition of that name is in the package, [exportStructDef]
    for any entity of that name, of whatever kind and with whatever id or
    parent, returns no value, leaves the store as it is, and logs
    nothing. *)
Theorem same_name_is_exported_once
        (depth : nat) (this : StructureDefinitionExporter.t)
        (k : StructureKind) (d : FshStructure) (st st' : Store) (l : nat) :
  StructureDefinitionExporter.exportStructDef depth this (k, d) st
  = Returned (Some l) st' ->
  (forall rule, In rule (rules d) -> overwrites ["name"] rule = false) ->
  forall depth' k' d',
    name d' = name d ->
    StructureDefinitionExporter.exportStructDef (S depth') this (k', d') st'
    = Returned None st'.
Proof.
  intros Hfirst Hrules depth' k' d' Hname.
  destruct depth as [|depth]; [discriminate|]. rewrite exportStructDef_S in Hfirst.
  destruct (StructureDefinitionExporter.alreadyExported d st) eqn:Hnew.
  { rewrite exportStructDefOnce_cached in Hfirst by trivial. discriminate. }
  pose proof Hfirst as Hstages.
  rewrite exportStructDefOnce_resolve in Hstages by trivial.
  apply bind_Returned in Hstages as ([structDef resolved] & st1 & Hresolve & Hrest).
  apply bind_Returned in Hrest as (l0 & stP & Hpublish & _). simpl in Hpublish.
  rewrite (exportStructDefOnce_stages _ _ _ _ _ _ _ _ _ _ Hnew Hresolve Hpublish)
    in Hfirst.
  destruct (getStructureDefinition_resolved _ _ _ _ _ _ _ _ Hresolve)
    as (Hresolved & _ & Hsame).
  apply publishSkeleton_Returned in Hpublish
    as (Hl0 & (sdP & Hheap & _ & HnameP & _) & _ & Hin & _).
  assert (HsdP : deref stP l0 = Some sdP).
  { unfold deref. rewrite Hheap, Hl0, nth_error_app2, Nat.sub_diag; trivial. }
  pose proof (compile_completes _ this
                (exportStructDef_extends depth this) k resolved l0 stP sdP ["name"] HsdP
                ltac:(rewrite Hsame; exact Hrules)) as Hdone.
  rewrite Hfirst in Hdone. simpl in Hdone.
  destruct Hdone as (_ & K & sd' & Hsd' & _ & Hkeys).
  rewrite exportStructDef_S. apply exportStructDefOnce_cached.
  apply (alreadyExported_of d' st' l0 sd').
  - unfold everyPartition in *. rewrite !in_app_iff in *.
    destruct Hin as [H|[H|H]];
      eauto using prefixOf_In, keeps_profiles, keeps_extensions, keeps_logicals.
  - exact Hsd'.
  - unfold StructureDefinition.name in *.
    rewrite (Hkeys "name") by now left. congruence.
Qed.

Lemma same_name_is_exported_once_witness :
  exists st',
    StructureDefinitionExporter.exportStructDef
      1 (Scenario.exporterOf Scenario.fooTank) (Profile, Scenario.Foo) emptyStore
    = Returned (Some 0) st'
    /\ StructureDefinitionExporter.exportStructDef
         1 (Scenario.exporterOf Scenario.fooTank)
         (Extension, Scenario.structure "Foo" "another-foo" None []) st'
       = Returned None st'.
Proof.
  assert (Hrun : exists st',
             StructureDefinitionExporter.exportStructDef
               1 (Scenario.exporterOf Scenario.fooTank) (Profile, Scenario.Foo) emptyStore
             = Returned (Some 0) st')
    by (eexists; vm_compute; reflexivity).
  destruct Hrun as [st' Hrun]. exists st'. split; [exact Hrun|].
  apply (same_name_is_exported_once 1 (Scenario.exporterOf Scenario.fooTank) Profile
           Scenario.Foo emptyStore st' 0 Hrun).
  - intros rule [<-|[<-|[]]]; reflexivity.
  - reflexivity.
Defined.
